(** * Syropod high-level controller: walk cycle, step cycle and body posing

    A shallow embedding of [src/walkController.cpp] (module [Walker]) and of
    [src/pose_controller.cpp] (module [Poser]), followed by the properties of
    the walk-state machine, the Bezier control nodes, the velocity limiter,
    the transition sequencer, the impedance pose and the auto poser.

    Conventions of the embedding.
    - A C++ [double] is a real number: rounding, infinities and NaN are not
      modelled.  A C++ [int] is an integer of [Z]; signed overflow is
      undefined behaviour in the source and is not modelled.  [a / b] on
      [int] is [Z.quot], [a % b] is [Z.rem].
    - A conversion from [double] to [int] truncates toward zero
      ([truncToInt]).
    - Objects mutated in place become explicit state passing; the fixed
      [3 x 2] arrays of legs are lists in the order of the nested loops
      (index [2*l + s]).
    - Debug printing has no effect on the state and is left out. *)

From Stdlib Require Import Reals ZArith List Bool Lra Lia.
Import ListNotations.

Local Open Scope R_scope.

(** ** Numbers *)

Definition Rltb (x y : R) : bool := if Rlt_dec x y then true else false.
Definition Reqb (x y : R) : bool := if Req_dec_T x y then true else false.

(** [int(x)] for a [double x]. *)
Definition truncToInt (x : R) : Z :=
  if Rle_dec 0 x then Int_part x else (- Int_part (- x))%Z.

Definition sqr (x : R) : R := x * x.

(** Modelled from the spec: [mod(a, b)] of standard_includes.h, which is not
    among the sources; the remainder that is never negative for a positive
    [b], as its uses on phase differences require. *)
Definition mod_int (a b : Z) : Z := Z.modulo a b.

(** Modelled from the spec: [clamped(x, lo, hi)] of standard_includes.h,
    which is not among the sources; [x] limited to the interval
    [[lo, hi]]. *)
Definition clamped (x lo hi : R) : R := Rmax lo (Rmin x hi).

(** Helpers of standard_includes.h that are not among the sources and whose
    rounding rule the spec leaves open. *)
Class StandardIncludes := {
  roundToInt : R -> Z
}.

(** ** Vectors *)

Record Vector2d := mkV2 { v2x : R; v2y : R }.
Record Vector3d := mkV3 { vx : R; vy : R; vz : R }.

Definition v2add (a b : Vector2d) := mkV2 (v2x a + v2x b) (v2y a + v2y b).
Definition v2sub (a b : Vector2d) := mkV2 (v2x a - v2x b) (v2y a - v2y b).
Definition v2scale (a : Vector2d) (k : R) := mkV2 (v2x a * k) (v2y a * k).
Definition v2div (a : Vector2d) (k : R) := mkV2 (v2x a / k) (v2y a / k).
Definition v2norm (a : Vector2d) : R := sqrt (v2x a * v2x a + v2y a * v2y a).

Definition v3zero : Vector3d := mkV3 0 0 0.
Definition v3add (a b : Vector3d) := mkV3 (vx a + vx b) (vy a + vy b) (vz a + vz b).
Definition v3sub (a b : Vector3d) := mkV3 (vx a - vx b) (vy a - vy b) (vz a - vz b).
Definition v3scale (k : R) (a : Vector3d) := mkV3 (k * vx a) (k * vy a) (k * vz a).
Definition v3div (a : Vector3d) (k : R) := mkV3 (vx a / k) (vy a / k) (vz a / k).
Definition set_vx (r : R) (a : Vector3d) := mkV3 r (vy a) (vz a).
Definition set_vy (r : R) (a : Vector3d) := mkV3 (vx a) r (vz a).
Definition set_vz (r : R) (a : Vector3d) := mkV3 (vx a) (vy a) r.

(** The horizontal part of a vector: its first two components. *)
Definition horizontal (a : Vector3d) : Vector2d := mkV2 (vx a) (vy a).

Declare Scope vec_scope.
Delimit Scope vec_scope with vec.
Infix "+v" := v3add (at level 50, left associativity) : vec_scope.
Infix "-v" := v3sub (at level 50, left associativity) : vec_scope.
Infix "*v" := v3scale (at level 40, left associativity) : vec_scope.
Local Open Scope vec_scope.

(** An array [Vector3d nodes[5]] of Bezier control nodes. *)
Record ControlNodes := mkNodes {
  node0 : Vector3d; node1 : Vector3d; node2 : Vector3d;
  node3 : Vector3d; node4 : Vector3d
}.

Definition zeroNodes : ControlNodes := mkNodes v3zero v3zero v3zero v3zero v3zero.

Definition node (i : nat) (c : ControlNodes) : Vector3d :=
  match i with
  | 0%nat => node0 c | 1%nat => node1 c | 2%nat => node2 c
  | 3%nat => node3 c | _ => node4 c
  end.

(** [nodes[i] = v]; an index outside the array is undefined in the source and
    leaves the array as it is here. *)
Definition set_node (i : nat) (v : Vector3d) (c : ControlNodes) : ControlNodes :=
  match i with
  | 0%nat => mkNodes v (node1 c) (node2 c) (node3 c) (node4 c)
  | 1%nat => mkNodes (node0 c) v (node2 c) (node3 c) (node4 c)
  | 2%nat => mkNodes (node0 c) (node1 c) v (node3 c) (node4 c)
  | 3%nat => mkNodes (node0 c) (node1 c) (node2 c) v (node4 c)
  | 4%nat => mkNodes (node0 c) (node1 c) (node2 c) (node3 c) v
  | _ => c
  end.

(** [nodes[i][2] = z]. *)
Definition set_node_z (i : nat) (z : R) (c : ControlNodes) : ControlNodes :=
  set_node i (set_vz z (node i c)) c.

(** Modelled from the spec: [quarticBezierDot] of standard_includes.h, which
    is not among the sources; the derivative of the degree-4 Bezier curve
    with the given control nodes at parameter [t]. *)
Definition quarticBezierDot (c : ControlNodes) (t : R) : Vector3d :=
  let s := 1 - t in
  (4 * s * s * s) *v (node1 c -v node0 c)
  +v (12 * s * s * t) *v (node2 c -v node1 c)
  +v (12 * s * t * t) *v (node3 c -v node2 c)
  +v (4 * t * t * t) *v (node4 c -v node3 c).

(** Modelled from the spec: [quarticBezier] of standard_includes.h, which is
    not among the sources; the degree-4 Bezier curve at parameter [t]. *)
Definition quarticBezier (c : ControlNodes) (t : R) : Vector3d :=
  let s := 1 - t in
  (s * s * s * s) *v node0 c
  +v (4 * s * s * s * t) *v node1 c
  +v (6 * s * s * t * t) *v node2 c
  +v (4 * s * t * t * t) *v node3 c
  +v (t * t * t * t) *v node4 c.

(** ** Quaternions and poses (quat.h and pose.h are not among the sources) *)

Record Quat := mkQuat { qw : R; qx : R; qy : R; qz : R }.

Record Pose := mkPose { position_ : Vector3d; rotation_ : Quat }.

Definition Quat_Identity : Quat := mkQuat 1 0 0 0.
Definition Pose_identity : Pose := mkPose v3zero Quat_Identity.

(** The quaternion operations the controllers call. *)
Class QuatLib := {
  (** [Quat(Vector3d)]: the rotation given by a vector of angles *)
  Quat_of_vector : Vector3d -> Quat;
  (** [q.rotateVector(v)] *)
  rotateVector : Quat -> Vector3d -> Vector3d;
  (** [q * r] *)
  Quat_mul : Quat -> Quat -> Quat;
  (** [q.slerpTo(r, t)] *)
  slerpTo : Quat -> Quat -> R -> Quat;
  (** [pose.inverseTransformVector(v)] *)
  inverseTransformVector : Pose -> Vector3d -> Vector3d
}.

(** ** The walk controller, [src/walkController.cpp] *)

Module Walker.

Inductive WalkState := STARTING | MOVING | STOPPING | STOPPED.
Inductive StepState := SWING | STANCE | FORCE_STANCE | FORCE_STOP.
Inductive LegState := WALKING | MANUAL | WALKING_TO_MANUAL | MANUAL_TO_WALKING.

Definition WalkState_eqb (a b : WalkState) : bool :=
  match a, b with
  | STARTING, STARTING | MOVING, MOVING
  | STOPPING, STOPPING | STOPPED, STOPPED => true
  | _, _ => false
  end.

Definition StepState_eqb (a b : StepState) : bool :=
  match a, b with
  | SWING, SWING | STANCE, STANCE
  | FORCE_STANCE, FORCE_STANCE | FORCE_STOP, FORCE_STOP => true
  | _, _ => false
  end.

Definition LegState_eqb (a b : LegState) : bool :=
  match a, b with
  | WALKING, WALKING | MANUAL, MANUAL
  | WALKING_TO_MANUAL, WALKING_TO_MANUAL
  | MANUAL_TO_WALKING, MANUAL_TO_WALKING => true
  | _, _ => false
  end.

(** The hexapod of the source: the loops run over [3 x 2] legs. *)
Definition NUM_LEGS : Z := 6.

(** [WalkController::LegStepper] *)
Record LegStepper := mkLegStepper {
  phase : Z;
  phaseOffset : Z;
  state : StepState;
  inCorrectPhase : bool;
  completedFirstStep : bool;
  strideVector : Vector2d;
  defaultTipPosition : Vector3d;
  currentTipPosition : Vector3d;
  tipVelocity : Vector3d;
  swingOriginTipPosition : Vector3d;
  stanceOriginTipPosition : Vector3d;
  swing1ControlNodes : ControlNodes;
  swing2ControlNodes : ControlNodes;
  stanceControlNodes : ControlNodes;
  swingDeltaT : R;
  stanceDeltaT : R
}.

Definition set_phase (v : Z) (s : LegStepper) : LegStepper :=
  mkLegStepper v (phaseOffset s) (state s) (inCorrectPhase s)
    (completedFirstStep s) (strideVector s) (defaultTipPosition s)
    (currentTipPosition s) (tipVelocity s) (swingOriginTipPosition s)
    (stanceOriginTipPosition s) (swing1ControlNodes s) (swing2ControlNodes s)
    (stanceControlNodes s) (swingDeltaT s) (stanceDeltaT s).

Definition set_state (v : StepState) (s : LegStepper) : LegStepper :=
  mkLegStepper (phase s) (phaseOffset s) v (inCorrectPhase s)
    (completedFirstStep s) (strideVector s) (defaultTipPosition s)
    (currentTipPosition s) (tipVelocity s) (swingOriginTipPosition s)
    (stanceOriginTipPosition s) (swing1ControlNodes s) (swing2ControlNodes s)
    (stanceControlNodes s) (swingDeltaT s) (stanceDeltaT s).

Definition set_inCorrectPhase (v : bool) (s : LegStepper) : LegStepper :=
  mkLegStepper (phase s) (phaseOffset s) (state s) v
    (completedFirstStep s) (strideVector s) (defaultTipPosition s)
    (currentTipPosition s) (tipVelocity s) (swingOriginTipPosition s)
    (stanceOriginTipPosition s) (swing1ControlNodes s) (swing2ControlNodes s)
    (stanceControlNodes s) (swingDeltaT s) (stanceDeltaT s).

Definition set_completedFirstStep (v : bool) (s : LegStepper) : LegStepper :=
  mkLegStepper (phase s) (phaseOffset s) (state s) (inCorrectPhase s)
    v (strideVector s) (defaultTipPosition s)
    (currentTipPosition s) (tipVelocity s) (swingOriginTipPosition s)
    (stanceOriginTipPosition s) (swing1ControlNodes s) (swing2ControlNodes s)
    (stanceControlNodes s) (swingDeltaT s) (stanceDeltaT s).

Definition set_strideVector (v : Vector2d) (s : LegStepper) : LegStepper :=
  mkLegStepper (phase s) (phaseOffset s) (state s) (inCorrectPhase s)
    (completedFirstStep s) v (defaultTipPosition s)
    (currentTipPosition s) (tipVelocity s) (swingOriginTipPosition s)
    (stanceOriginTipPosition s) (swing1ControlNodes s) (swing2ControlNodes s)
    (stanceControlNodes s) (swingDeltaT s) (stanceDeltaT s).

Definition set_defaultTipPosition (v : Vector3d) (s : LegStepper) : LegStepper :=
  mkLegStepper (phase s) (phaseOffset s) (state s) (inCorrectPhase s)
    (completedFirstStep s) (strideVector s) v
    (currentTipPosition s) (tipVelocity s) (swingOriginTipPosition s)
    (stanceOriginTipPosition s) (swing1ControlNodes s) (swing2ControlNodes s)
    (stanceControlNodes s) (swingDeltaT s) (stanceDeltaT s).

Definition set_currentTipPosition (v : Vector3d) (s : LegStepper) : LegStepper :=
  mkLegStepper (phase s) (phaseOffset s) (state s) (inCorrectPhase s)
    (completedFirstStep s) (strideVector s) (defaultTipPosition s)
    v (tipVelocity s) (swingOriginTipPosition s)
    (stanceOriginTipPosition s) (swing1ControlNodes s) (swing2ControlNodes s)
    (stanceControlNodes s) (swingDeltaT s) (stanceDeltaT s).

Definition set_tipVelocity (v : Vector3d) (s : LegStepper) : LegStepper :=
  mkLegStepper (phase s) (phaseOffset s) (state s) (inCorrectPhase s)
    (completedFirstStep s) (strideVector s) (defaultTipPosition s)
    (currentTipPosition s) v (swingOriginTipPosition s)
    (stanceOriginTipPosition s) (swing1ControlNodes s) (swing2ControlNodes s)
    (stanceControlNodes s) (swingDeltaT s) (stanceDeltaT s).

Definition set_swingOriginTipPosition (v : Vector3d) (s : LegStepper) : LegStepper :=
  mkLegStepper (phase s) (phaseOffset s) (state s) (inCorrectPhase s)
    (completedFirstStep s) (strideVector s) (defaultTipPosition s)
    (currentTipPosition s) (tipVelocity s) v
    (stanceOriginTipPosition s) (swing1ControlNodes s) (swing2ControlNodes s)
    (stanceControlNodes s) (swingDeltaT s) (stanceDeltaT s).

Definition set_stanceOriginTipPosition (v : Vector3d) (s : LegStepper) : LegStepper :=
  mkLegStepper (phase s) (phaseOffset s) (state s) (inCorrectPhase s)
    (completedFirstStep s) (strideVector s) (defaultTipPosition s)
    (currentTipPosition s) (tipVelocity s) (swingOriginTipPosition s)
    v (swing1ControlNodes s) (swing2ControlNodes s)
    (stanceControlNodes s) (swingDeltaT s) (stanceDeltaT s).

Definition set_swing1ControlNodes (v : ControlNodes) (s : LegStepper) : LegStepper :=
  mkLegStepper (phase s) (phaseOffset s) (state s) (inCorrectPhase s)
    (completedFirstStep s) (strideVector s) (defaultTipPosition s)
    (currentTipPosition s) (tipVelocity s) (swingOriginTipPosition s)
    (stanceOriginTipPosition s) v (swing2ControlNodes s)
    (stanceControlNodes s) (swingDeltaT s) (stanceDeltaT s).

Definition set_swing2ControlNodes (v : ControlNodes) (s : LegStepper) : LegStepper :=
  mkLegStepper (phase s) (phaseOffset s) (state s) (inCorrectPhase s)
    (completedFirstStep s) (strideVector s) (defaultTipPosition s)
    (currentTipPosition s) (tipVelocity s) (swingOriginTipPosition s)
    (stanceOriginTipPosition s) (swing1ControlNodes s) v
    (stanceControlNodes s) (swingDeltaT s) (stanceDeltaT s).

Definition set_stanceControlNodes (v : ControlNodes) (s : LegStepper) : LegStepper :=
  mkLegStepper (phase s) (phaseOffset s) (state s) (inCorrectPhase s)
    (completedFirstStep s) (strideVector s) (defaultTipPosition s)
    (currentTipPosition s) (tipVelocity s) (swingOriginTipPosition s)
    (stanceOriginTipPosition s) (swing1ControlNodes s) (swing2ControlNodes s)
    v (swingDeltaT s) (stanceDeltaT s).

Definition set_swingDeltaT (v : R) (s : LegStepper) : LegStepper :=
  mkLegStepper (phase s) (phaseOffset s) (state s) (inCorrectPhase s)
    (completedFirstStep s) (strideVector s) (defaultTipPosition s)
    (currentTipPosition s) (tipVelocity s) (swingOriginTipPosition s)
    (stanceOriginTipPosition s) (swing1ControlNodes s) (swing2ControlNodes s)
    (stanceControlNodes s) v (stanceDeltaT s).

Definition set_stanceDeltaT (v : R) (s : LegStepper) : LegStepper :=
  mkLegStepper (phase s) (phaseOffset s) (state s) (inCorrectPhase s)
    (completedFirstStep s) (strideVector s) (defaultTipPosition s)
    (currentTipPosition s) (tipVelocity s) (swingOriginTipPosition s)
    (stanceOriginTipPosition s) (swing1ControlNodes s) (swing2ControlNodes s)
    (stanceControlNodes s) (swingDeltaT s) v.

(** The gait and limit parameters the walk controller reads.  The
    declaration of [Parameters] is not among the sources: the phases are
    taken as [double] (the source multiplies and divides them as such), the
    offset multipliers as [int]. *)
Record Parameters := mkParameters {
  p_stancePhase : R;
  p_swingPhase : R;
  p_stepFrequency : R;
  p_phaseOffset : R;
  offsetMultiplier : list Z;
  maxAcceleration : R;
  maxCurvatureSpeed : R
}.

Definition set_maxAcceleration (v : R) (p : Parameters) : Parameters :=
  mkParameters (p_stancePhase p) (p_swingPhase p) (p_stepFrequency p)
    (p_phaseOffset p) (offsetMultiplier p) v (maxCurvatureSpeed p).

(** [WalkController].  Its member [state] is [walkState] here, as the leg
    stepper has a member of the same name. *)
Record WalkController := mkWalkController {
  params : Parameters;
  walkState : WalkState;
  stepClearance : R;
  stepDepth : R;
  bodyClearance : R;
  timeDelta : R;
  stepFrequency : R;
  phaseLength : Z;
  stanceEnd : Z;
  swingStart : Z;
  swingEnd : Z;
  stanceStart : Z;
  maximumBodyHeight : R;
  minFootprintRadius : R;
  stanceRadius : R;
  localCentreVelocity : Vector2d;
  angularVelocity : R;
  legsInCorrectPhase : Z;
  legsCompletedFirstStep : Z;
  legSteppers : list LegStepper;
  pose : Pose
}.

Definition set_params (v : Parameters) (w : WalkController) : WalkController :=
  mkWalkController v (walkState w) (stepClearance w) (stepDepth w)
    (bodyClearance w) (timeDelta w) (stepFrequency w) (phaseLength w)
    (stanceEnd w) (swingStart w) (swingEnd w) (stanceStart w)
    (maximumBodyHeight w) (minFootprintRadius w) (stanceRadius w)
    (localCentreVelocity w) (angularVelocity w) (legsInCorrectPhase w)
    (legsCompletedFirstStep w) (legSteppers w) (pose w).

Definition set_walkState (v : WalkState) (w : WalkController) : WalkController :=
  mkWalkController (params w) v (stepClearance w) (stepDepth w)
    (bodyClearance w) (timeDelta w) (stepFrequency w) (phaseLength w)
    (stanceEnd w) (swingStart w) (swingEnd w) (stanceStart w)
    (maximumBodyHeight w) (minFootprintRadius w) (stanceRadius w)
    (localCentreVelocity w) (angularVelocity w) (legsInCorrectPhase w)
    (legsCompletedFirstStep w) (legSteppers w) (pose w).

Definition set_localCentreVelocity (v : Vector2d) (w : WalkController) : WalkController :=
  mkWalkController (params w) (walkState w) (stepClearance w) (stepDepth w)
    (bodyClearance w) (timeDelta w) (stepFrequency w) (phaseLength w)
    (stanceEnd w) (swingStart w) (swingEnd w) (stanceStart w)
    (maximumBodyHeight w) (minFootprintRadius w) (stanceRadius w)
    v (angularVelocity w) (legsInCorrectPhase w)
    (legsCompletedFirstStep w) (legSteppers w) (pose w).

Definition set_angularVelocity (v : R) (w : WalkController) : WalkController :=
  mkWalkController (params w) (walkState w) (stepClearance w) (stepDepth w)
    (bodyClearance w) (timeDelta w) (stepFrequency w) (phaseLength w)
    (stanceEnd w) (swingStart w) (swingEnd w) (stanceStart w)
    (maximumBodyHeight w) (minFootprintRadius w) (stanceRadius w)
    (localCentreVelocity w) v (legsInCorrectPhase w)
    (legsCompletedFirstStep w) (legSteppers w) (pose w).

Definition set_legsInCorrectPhase (v : Z) (w : WalkController) : WalkController :=
  mkWalkController (params w) (walkState w) (stepClearance w) (stepDepth w)
    (bodyClearance w) (timeDelta w) (stepFrequency w) (phaseLength w)
    (stanceEnd w) (swingStart w) (swingEnd w) (stanceStart w)
    (maximumBodyHeight w) (minFootprintRadius w) (stanceRadius w)
    (localCentreVelocity w) (angularVelocity w) v
    (legsCompletedFirstStep w) (legSteppers w) (pose w).

Definition set_legsCompletedFirstStep (v : Z) (w : WalkController) : WalkController :=
  mkWalkController (params w) (walkState w) (stepClearance w) (stepDepth w)
    (bodyClearance w) (timeDelta w) (stepFrequency w) (phaseLength w)
    (stanceEnd w) (swingStart w) (swingEnd w) (stanceStart w)
    (maximumBodyHeight w) (minFootprintRadius w) (stanceRadius w)
    (localCentreVelocity w) (angularVelocity w) (legsInCorrectPhase w)
    v (legSteppers w) (pose w).

Definition set_legSteppers (v : list LegStepper) (w : WalkController) : WalkController :=
  mkWalkController (params w) (walkState w) (stepClearance w) (stepDepth w)
    (bodyClearance w) (timeDelta w) (stepFrequency w) (phaseLength w)
    (stanceEnd w) (swingStart w) (swingEnd w) (stanceStart w)
    (maximumBodyHeight w) (minFootprintRadius w) (stanceRadius w)
    (localCentreVelocity w) (angularVelocity w) (legsInCorrectPhase w)
    (legsCompletedFirstStep w) v (pose w).

Definition set_pose (v : Pose) (w : WalkController) : WalkController :=
  mkWalkController (params w) (walkState w) (stepClearance w) (stepDepth w)
    (bodyClearance w) (timeDelta w) (stepFrequency w) (phaseLength w)
    (stanceEnd w) (swingStart w) (swingEnd w) (stanceStart w)
    (maximumBodyHeight w) (minFootprintRadius w) (stanceRadius w)
    (localCentreVelocity w) (angularVelocity w) (legsInCorrectPhase w)
    (legsCompletedFirstStep w) (legSteppers w) v.

(** A leg of the robot model (model.h is not among the sources): what the
    walk controller reads, and the joint angles the inverse kinematics
    writes. *)
Record Leg := mkLeg {
  localTipPosition : Vector3d;
  stanceTipPosition : Vector3d;
  legState : LegState;
  yaw : R;
  liftAngle : R;
  kneeAngle : R
}.

(** The robot model's operations the walk controller calls. *)
Class Kinematics := {
  (** [leg.applyLocalIK(tipTarget)] *)
  applyLocalIK : Leg -> Vector3d -> Leg;
  (** [model->clampToLimits()] *)
  clampToLimits : list Leg -> list Leg
}.

(** [LegStepper::generateSwingControlNodes]; the stride vector argument is
    not read by the body. *)
Definition generateSwingControlNodes (w : WalkController) (strideVec : Vector3d)
    (s : LegStepper) : LegStepper :=
  let swingHeight := stepClearance w * maximumBodyHeight w in
  let bezierScaler := stanceDeltaT s / swingDeltaT s in
  let st := stanceControlNodes s in
  (* horizontal plane *)
  let s1 := swing1ControlNodes s in
  let s1 := set_node 0 (swingOriginTipPosition s) s1 in
  let s1 := set_node 1 (node 0 s1 +v bezierScaler *v (node 4 st -v node 3 st)) s1 in
  let s1 := set_node 2 (node 1 s1 +v (node 1 s1 -v node 0 s1)) s1 in
  let s1 := set_node 4 (defaultTipPosition s) s1 in
  let s1 := set_node 3 (v3div (node 2 s1 +v node 4 s1) 2) s1 in
  let s2 := swing2ControlNodes s in
  let s2 := set_node 0 (node 4 s1) s2 in
  let s2 := set_node 1 (node 0 s2 +v (node 0 s2 -v node 3 s1)) s2 in
  let s2 := set_node 3 (node 0 st +v bezierScaler *v (node 0 st -v node 1 st)) s2 in
  let s2 := set_node 2 (node 3 s2 +v node 3 s2 -v node 0 st) s2 in
  let s2 := set_node 4 (node 0 st) s2 in
  (* vertical plane *)
  let s1 := set_node_z 0 (vz (swingOriginTipPosition s)) s1 in
  let s1 := set_node_z 1
              (vz (node 0 s1) + bezierScaler * (vz (node 4 st) - vz (node 3 st))) s1 in
  let s1 := set_node_z 4 (vz (node 0 s1) + swingHeight) s1 in
  let s1 := set_node_z 2
              (vz (node 0 s1) + 2 * bezierScaler * (vz (node 4 st) - vz (node 3 st))) s1 in
  let s1 := set_node_z 3 (vz (node 4 s1)) s1 in
  let s2 := set_node_z 0 (vz (node 4 s1)) s2 in
  let s2 := set_node_z 1 (vz (node 0 s2)) s2 in
  let s2 := set_node_z 2
              (vz (node 0 st) + 2 * bezierScaler * (vz (node 0 st) - vz (node 1 st))) s2 in
  let s2 := set_node_z 3
              (vz (node 0 st) + bezierScaler * (vz (node 0 st) - vz (node 1 st))) s2 in
  let s2 := set_node_z 4 (vz (node 0 st)) s2 in
  set_swing2ControlNodes s2 (set_swing1ControlNodes s1 s).

(** [LegStepper::generateStanceControlNodes] *)
Definition generateStanceControlNodes (w : WalkController) (strideVec : Vector3d)
    (s : LegStepper) : LegStepper :=
  let stanceDepth := stepDepth w * maximumBodyHeight w in
  (* horizontal plane *)
  let st := stanceControlNodes s in
  let st := set_node 0 (stanceOriginTipPosition s) st in
  let st := set_node 4 (stanceOriginTipPosition s -v strideVec) st in
  let st := set_node 1 (node 4 st +v 0.75 *v (node 0 st -v node 4 st)) st in
  let st := set_node 2 (node 4 st +v 0.5 *v (node 0 st -v node 4 st)) st in
  let st := set_node 3 (node 4 st +v 0.25 *v (node 0 st -v node 4 st)) st in
  (* vertical plane *)
  let st := set_node_z 0 (vz (stanceOriginTipPosition s)) st in
  let st := set_node_z 4 (vz (defaultTipPosition s)) st in
  let st := set_node_z 2 (vz (node 0 st) - stanceDepth) st in
  let st := set_node_z 1 ((vz (node 0 st) + vz (node 2 st)) / 2) st in
  let st := set_node_z 3 ((vz (node 4 st) + vz (node 2 st)) / 2) st in
  set_stanceControlNodes st s.

(** [LegStepper::calculateDeltaT] *)
Definition calculateDeltaT `{StandardIncludes} (w : WalkController)
    (st : StepState) (length : Z) : R :=
  let numIterations :=
    truncToInt
      (IZR (roundToInt
              ((IZR length / IZR (phaseLength w))
               / (stepFrequency w * timeDelta w) / 2)) * 2) in
  if StepState_eqb st SWING
  then 2 / IZR numIterations
  else 1 / IZR numIterations.

(** [LegStepper::updatePosition] *)
Definition updatePosition `{StandardIncludes} (w : WalkController)
    (s : LegStepper) : LegStepper :=
  match state s with
  | SWING =>
      let iteration := (phase s - swingStart w + 1)%Z in
      let swingLength := (swingEnd w - swingStart w)%Z in
      let s := set_swingDeltaT (calculateDeltaT w (state s) swingLength) s in
      let numIterations := truncToInt (2 / swingDeltaT s) in
      (* save the tip position at the beginning of swing *)
      let s := if (iteration =? 1)%Z
               then set_swingOriginTipPosition (currentTipPosition s) s
               else s in
      let strideVec := mkV3 (v2x (strideVector s)) (v2y (strideVector s)) 0 in
      let '(s, deltaPos) :=
        if (iteration <=? Z.quot numIterations 2)%Z
        then
          let s := generateSwingControlNodes w strideVec s in
          let t1 := IZR iteration * swingDeltaT s in
          (s, swingDeltaT s *v quarticBezierDot (swing1ControlNodes s) t1)
        else
          (* values of the NEXT stance curve, for the secondary swing nodes *)
          let stanceStart := swingEnd w in
          let stanceEnd := swingStart w in
          let stanceLength := mod_int (stanceEnd - stanceStart) (phaseLength w) in
          let s := set_stanceDeltaT (calculateDeltaT w STANCE stanceLength) s in
          let s := set_stanceOriginTipPosition
                     (defaultTipPosition s +v 0.5 *v strideVec) s in
          let s := generateStanceControlNodes w strideVec s in
          let s := generateSwingControlNodes w strideVec s in
          let t2 := IZR (iteration - Z.quot numIterations 2) * swingDeltaT s in
          (s, swingDeltaT s *v quarticBezierDot (swing2ControlNodes s) t2) in
      let s := set_currentTipPosition (currentTipPosition s +v deltaPos) s in
      set_tipVelocity (v3div deltaPos (timeDelta w)) s
  | STANCE =>
      let stanceStart := if completedFirstStep s then swingEnd w else phaseOffset s in
      let stanceEnd := swingStart w in
      let stanceLength := mod_int (stanceEnd - stanceStart) (phaseLength w) in
      let s := set_stanceDeltaT (calculateDeltaT w STANCE stanceLength) s in
      let iteration :=
        (mod_int (phase s + (phaseLength w - stanceStart)) (phaseLength w) + 1)%Z in
      (* save the tip position at the beginning of stance *)
      let s := if (iteration =? 1)%Z
               then set_stanceOriginTipPosition (currentTipPosition s) s
               else s in
      (* the stride is scaled by the stance length, for the STARTING state *)
      let strideVec := mkV3 (v2x (strideVector s)) (v2y (strideVector s)) 0 in
      let strideVec :=
        (IZR stanceLength
         / IZR (mod_int (swingStart w - swingEnd w) (phaseLength w))) *v strideVec in
      let s := generateStanceControlNodes w strideVec s in
      let t := IZR iteration * stanceDeltaT s in
      let deltaPos := stanceDeltaT s *v quarticBezierDot (stanceControlNodes s) t in
      let s := set_currentTipPosition (currentTipPosition s +v deltaPos) s in
      set_tipVelocity (v3div deltaPos (timeDelta w)) s
  | _ => s
  end.

(** The phase offset [setGaitParams] gives the leg of index [2*l + s]. *)
Definition gaitPhaseOffset (p : Parameters) (normaliser phaseLength : Z)
    (index : nat) : Z :=
  let multiplier := nth index (offsetMultiplier p) 0%Z in
  Z.rem (truncToInt (p_phaseOffset p * IZR normaliser) * multiplier) phaseLength.

Fixpoint setPhaseOffsets (p : Parameters) (normaliser phaseLength : Z)
    (index : nat) (lss : list LegStepper) : list LegStepper :=
  match lss with
  | [] => []
  | ls :: rest =>
      mkLegStepper (phase ls) (gaitPhaseOffset p normaliser phaseLength index)
        (state ls) (inCorrectPhase ls) (completedFirstStep ls)
        (strideVector ls) (defaultTipPosition ls) (currentTipPosition ls)
        (tipVelocity ls) (swingOriginTipPosition ls)
        (stanceOriginTipPosition ls) (swing1ControlNodes ls)
        (swing2ControlNodes ls) (stanceControlNodes ls) (swingDeltaT ls)
        (stanceDeltaT ls)
      :: setPhaseOffsets p normaliser phaseLength (S index) rest
  end.

(** [WalkController::setGaitParams]; [None] when the [ASSERT] on the phase
    length fails. *)
Definition setGaitParams `{StandardIncludes} (p : Parameters)
    (w : WalkController) : option WalkController :=
  let stanceEnd := truncToInt (p_stancePhase p * 0.5) in
  let swingStart := stanceEnd in
  let swingEnd := truncToInt (IZR swingStart + p_swingPhase p) in
  let stanceStart := swingEnd in
  (* the phase length is normalised to the iterations of a full step *)
  let basePhaseLength := truncToInt (p_stancePhase p + p_swingPhase p) in
  let swingRatio := p_swingPhase p / IZR basePhaseLength in
  let phaseLength :=
    truncToInt
      ((IZR (roundToInt
               ((1 / (2 * p_stepFrequency p * timeDelta w))
                / (IZR basePhaseLength * swingRatio)))
        * (IZR basePhaseLength * swingRatio)) / swingRatio) in
  let stepFrequency := 1 / (IZR phaseLength * timeDelta w) in
  if (Z.rem phaseLength basePhaseLength =? 0)%Z then
    let normaliser := Z.quot phaseLength basePhaseLength in
    Some (mkWalkController p (walkState w) (stepClearance w) (stepDepth w)
            (bodyClearance w) (timeDelta w) stepFrequency phaseLength
            (stanceEnd * normaliser)%Z (swingStart * normaliser)%Z
            (swingEnd * normaliser)%Z (stanceStart * normaliser)%Z
            (maximumBodyHeight w) (minFootprintRadius w) (stanceRadius w)
            (localCentreVelocity w) (angularVelocity w)
            (legsInCorrectPhase w) (legsCompletedFirstStep w)
            (setPhaseOffsets p normaliser phaseLength 0 (legSteppers w))
            (pose w))
  else None.

(** *** [WalkController::updateWalk], in the order of its body *)

Definition onGroundRatio (w : WalkController) : R :=
  IZR (phaseLength w - (swingEnd w - swingStart w)) / IZR (phaseLength w).

(** The local [localVelocity]: the commanded velocity in metres per second. *)
Definition localVelocity (w : WalkController)
    (localNormalisedVelocity : Vector2d) : Vector2d :=
  if WalkState_eqb (walkState w) STOPPING
  then mkV2 0 0
  else v2div
         (v2scale (v2scale (v2scale localNormalisedVelocity 2)
                     (minFootprintRadius w)) (stepFrequency w))
         (onGroundRatio w).

Definition normalSpeed (w : WalkController)
    (localNormalisedVelocity : Vector2d) : R :=
  v2norm (localVelocity w localNormalisedVelocity).

(** The acceleration limit in force for the tick: the parameter, or the
    value derived from the footprint radius when the parameter is [-1]. *)
Definition deriveMaxAcceleration (w : WalkController) : Parameters :=
  if Reqb (maxAcceleration (params w)) (-1)
  then set_maxAcceleration
         (2 * minFootprintRadius w
          / sqr ((IZR (phaseLength w)
                  - IZR (swingEnd w - swingStart w) * 0.5) * timeDelta w))
         (params w)
  else params w.

(** Lines 366 to 391: the angular and the linear body velocity move toward
    the commanded ones, by a limited amount. *)
Definition updateVelocities (localNormalisedVelocity : Vector2d)
    (newCurvature : R) (w : WalkController) : WalkController :=
  let localVelocity := localVelocity w localNormalisedVelocity in
  let normalSpeed := v2norm localVelocity in
  let newAngularVelocity := newCurvature * normalSpeed / stanceRadius w in
  let dif := newAngularVelocity - angularVelocity w in
  let w :=
    if Rltb 0 (Rabs dif)
    then set_angularVelocity
           (angularVelocity w
            + dif * Rmin 1 (maxCurvatureSpeed (params w) * timeDelta w / Rabs dif)) w
    else w in
  let centralVelocity := v2scale localVelocity (1 - Rabs newCurvature) in
  let centralAcceleration := v2sub centralVelocity (localCentreVelocity w) in
  let w := set_params (deriveMaxAcceleration w) w in
  if Rltb 0 (v2norm centralAcceleration)
  then set_localCentreVelocity
         (v2add (localCentreVelocity w)
            (v2scale centralAcceleration
               (Rmin 1 (maxAcceleration (params w) * timeDelta w
                        / v2norm centralAcceleration)))) w
  else w.

(** Lines 393 to 423: the state transitions of the robot state machine.
    [normalSpeed] is used as a condition, true when it is not zero. *)
Definition updateWalkState (normalSpeed : R) (w : WalkController) : WalkController :=
  if WalkState_eqb (walkState w) STOPPED && negb (Reqb normalSpeed 0) then
    let w := set_walkState STARTING w in
    set_legSteppers
      (map (fun ls => set_phase (phaseOffset ls - 1)%Z ls) (legSteppers w)) w
  else if WalkState_eqb (walkState w) STARTING
          && (legsInCorrectPhase w =? NUM_LEGS)%Z
          && (legsCompletedFirstStep w =? NUM_LEGS)%Z then
    let w := set_legsInCorrectPhase 0 w in
    let w := set_legsCompletedFirstStep 0 w in
    set_walkState MOVING w
  else if WalkState_eqb (walkState w) MOVING && Reqb normalSpeed 0 then
    set_walkState STOPPING w
  else if WalkState_eqb (walkState w) STOPPING
          && (legsInCorrectPhase w =? NUM_LEGS)%Z then
    let w := set_legsInCorrectPhase 0 w in
    set_walkState STOPPED w
  else w.

(** Lines 430 to 514: the body of the robot state machine loop for the leg
    of index [index = 2*l + s]; the walk controller carries the two
    counters. *)
Definition robotStateMachineLeg (w : WalkController) (index : nat)
    (leg : Leg) (legStepper : LegStepper) : WalkController * LegStepper :=
  let legStepper :=
    set_strideVector
      (v2div
         (v2scale
            (v2add (localCentreVelocity w)
               (v2scale (mkV2 (vy (localTipPosition leg))
                              (- vx (localTipPosition leg)))
                  (angularVelocity w)))
            (onGroundRatio w))
         (stepFrequency w)) legStepper in
  match walkState w with
  | STARTING =>
      (* iterate phase *)
      let legStepper :=
        set_phase (Z.rem (phase legStepper + 1) (phaseLength w)) legStepper in
      (* check if all legs have completed one step *)
      let '(w, legStepper) :=
        if (legsInCorrectPhase w =? NUM_LEGS)%Z
           && (phase legStepper =? swingEnd w)%Z
           && negb (completedFirstStep legStepper)
        then (set_legsCompletedFirstStep (legsCompletedFirstStep w + 1)%Z w,
              set_completedFirstStep true legStepper)
        else (w, legStepper) in
      (* force the leg into STANCE if it starts offset in mid-swing *)
      if negb (inCorrectPhase legStepper) then
        if (swingStart w <? phaseOffset legStepper)%Z
           && (phaseOffset legStepper <? swingEnd w)%Z then
          if (phase legStepper =? swingEnd w)%Z
          then (set_legsInCorrectPhase (legsInCorrectPhase w + 1)%Z w,
                set_inCorrectPhase true legStepper)
          else (w, set_state FORCE_STANCE legStepper)
        else (set_legsInCorrectPhase (legsInCorrectPhase w + 1)%Z w,
              set_inCorrectPhase true legStepper)
      else (w, legStepper)
  | STOPPING =>
      let '(w, legStepper) :=
        if negb (inCorrectPhase legStepper) then
          let legStepper :=
            set_phase (Z.rem (phase legStepper + 1) (phaseLength w)) legStepper in
          (* the front left leg meets its target after an extra step AND
             its return to phase zero *)
          if Nat.eqb index 0
             && StepState_eqb (state legStepper) FORCE_STOP
             && (phase legStepper =? 0)%Z
          then (set_legsInCorrectPhase (legsInCorrectPhase w + 1)%Z w,
                set_state STANCE (set_inCorrectPhase true legStepper))
          else (w, legStepper)
        else (w, legStepper) in
      (* all legs but the front left make one extra step after the
         stopping signal *)
      if Reqb (v2norm (strideVector legStepper)) 0
         && (phase legStepper =? swingEnd w)%Z then
        let legStepper := set_state FORCE_STOP legStepper in
        if negb (Nat.eqb index 0) && negb (inCorrectPhase legStepper)
        then (set_legsInCorrectPhase (legsInCorrectPhase w + 1)%Z w,
              set_inCorrectPhase true legStepper)
        else (w, legStepper)
      else (w, legStepper)
  | MOVING =>
      let legStepper :=
        set_phase (Z.rem (phase legStepper + 1) (phaseLength w)) legStepper in
      (w, set_inCorrectPhase false legStepper)
  | STOPPED =>
      let legStepper := set_inCorrectPhase false legStepper in
      let legStepper := set_completedFirstStep false legStepper in
      let legStepper := set_phase 0 legStepper in
      (w, set_state STANCE legStepper)
  end.

(** Lines 426 to 516: the loop over the legs, in the order [l], [s]. *)
Fixpoint robotStateMachine (w : WalkController) (index : nat)
    (legs : list Leg) (lss : list LegStepper)
    : WalkController * list LegStepper :=
  match legs, lss with
  | leg :: legs', ls :: lss' =>
      let '(w1, ls1) := robotStateMachineLeg w index leg ls in
      let '(w2, rest) := robotStateMachine w1 (S index) legs' lss' in
      (w2, ls1 :: rest)
  | _, _ => (w, lss)
  end.

(** Lines 523 to 542: the body of the leg state machine loop. *)
Definition legStateMachineLeg (w : WalkController)
    (legStepper : LegStepper) : LegStepper :=
  if StepState_eqb (state legStepper) FORCE_STANCE then
    (* force the leg state as STANCE for the STARTING robot state *)
    set_state STANCE legStepper
  else if StepState_eqb (state legStepper) FORCE_STOP then
    (* force the leg state as FORCE_STOP for the STOPPING robot state *)
    set_state FORCE_STOP legStepper
  else if (swingStart w <=? phase legStepper)%Z
          && (phase legStepper <? swingEnd w)%Z then
    set_state SWING legStepper
  else if (phase legStepper <? stanceEnd w)%Z
          || (stanceStart w <=? phase legStepper)%Z then
    set_state STANCE legStepper
  else legStepper.

(** Lines 551 to 569: the body of the tip update loop; returns the leg after
    the inverse kinematics and the leg stepper. *)
Definition updateTipLeg `{StandardIncludes} `{Kinematics} (w : WalkController)
    (deltaZ : R) (leg : Leg) (legStepper : LegStepper) : Leg * LegStepper :=
  if LegState_eqb (legState leg) WALKING then
    (* revise default and current tip positions for the change in pose *)
    let tipOffset := defaultTipPosition legStepper -v currentTipPosition legStepper in
    let legStepper := set_defaultTipPosition (stanceTipPosition leg) legStepper in
    let legStepper :=
      set_currentTipPosition (defaultTipPosition legStepper -v tipOffset) legStepper in
    let legStepper :=
      if negb (WalkState_eqb (walkState w) STOPPED)
      then updatePosition w legStepper
      else legStepper in
    let adjustedPos := currentTipPosition legStepper in
    let adjustedPos := set_vz (vz adjustedPos - deltaZ) adjustedPos in
    (applyLocalIK leg adjustedPos, legStepper)
  else (leg, legStepper).

(** Lines 547 to 571: the loop over the legs. *)
Fixpoint updateTips `{StandardIncludes} `{Kinematics} (w : WalkController)
    (deltaZ : list R) (index : nat) (legs : list Leg) (lss : list LegStepper)
    : list Leg * list LegStepper :=
  match legs, lss with
  | leg :: legs', ls :: lss' =>
      let '(leg1, ls1) := updateTipLeg w (nth index deltaZ 0) leg ls in
      let '(legsR, lssR) := updateTips w deltaZ (S index) legs' lss' in
      (leg1 :: legsR, ls1 :: lssR)
  | _, _ => (legs, lss)
  end.

(** Lines 576 to 578: the body pose kept for the visualisation. *)
Definition updateVisualPose `{QuatLib} (w : WalkController) : WalkController :=
  let push := v2scale (localCentreVelocity w) (timeDelta w) in
  let position :=
    position_ (pose w)
    +v rotateVector (rotation_ (pose w)) (mkV3 (v2x push) (v2y push) 0) in
  let rotation :=
    Quat_mul (rotation_ (pose w))
      (Quat_of_vector (mkV3 0 0 (- angularVelocity w * timeDelta w))) in
  set_pose (mkPose position rotation) w.

(** The tick once the [ASSERT] on the speed has passed. *)
Definition updateWalk_body `{StandardIncludes} `{Kinematics} `{QuatLib}
    (localNormalisedVelocity : Vector2d) (newCurvature : R) (deltaZ : list R)
    (w : WalkController) (model : list Leg) : WalkController * list Leg :=
  let normalSpeed := normalSpeed w localNormalisedVelocity in
  let w := updateVelocities localNormalisedVelocity newCurvature w in
  let w := updateWalkState normalSpeed w in
  let '(w, lss) := robotStateMachine w 0 model (legSteppers w) in
  let w := set_legSteppers lss w in
  let w := set_legSteppers (map (legStateMachineLeg w) (legSteppers w)) w in
  let '(model, lss) := updateTips w deltaZ 0 model (legSteppers w) in
  let w := set_legSteppers lss w in
  let model := clampToLimits model in
  (updateVisualPose w, model).

(** [WalkController::updateWalk]; [None] when the [ASSERT] on the normalised
    speed fails. *)
Definition updateWalk `{StandardIncludes} `{Kinematics} `{QuatLib}
    (localNormalisedVelocity : Vector2d) (newCurvature : R) (deltaZ : list R)
    (w : WalkController) (model : list Leg)
    : option (WalkController * list Leg) :=
  if Rltb (normalSpeed w localNormalisedVelocity) 1.01
  then Some (updateWalk_body localNormalisedVelocity newCurvature deltaZ w model)
  else None.

End Walker.

(** ** The pose controller, [src/pose_controller.cpp] *)

Module Poser.

Inductive SequenceSelection := START_UP | SHUT_DOWN.
Inductive PosingState := POSING | STOP_POSING | POSING_COMPLETE.
Inductive LegState := WALKING | MANUAL | WALKING_TO_MANUAL | MANUAL_TO_WALKING.

Definition SequenceSelection_eqb (a b : SequenceSelection) : bool :=
  match a, b with
  | START_UP, START_UP | SHUT_DOWN, SHUT_DOWN => true
  | _, _ => false
  end.

Definition PosingState_eqb (a b : PosingState) : bool :=
  match a, b with
  | POSING, POSING | STOP_POSING, STOP_POSING
  | POSING_COMPLETE, POSING_COMPLETE => true
  | _, _ => false
  end.

Definition LegState_eqb (a b : LegState) : bool :=
  match a, b with
  | WALKING, WALKING | MANUAL, MANUAL
  | WALKING_TO_MANUAL, WALKING_TO_MANUAL
  | MANUAL_TO_WALKING, MANUAL_TO_WALKING => true
  | _, _ => false
  end.

(** Modelled from the spec: the constant [PROGRESS_COMPLETE] of
    pose_controller.h, which is not among the sources; the spec fixes it to
    100. *)
Definition PROGRESS_COMPLETE : Z := 100.

(** The scalars configured at build in pose_controller.h, which is not among
    the sources. *)
Class BuildConstants := {
  SAFETY_FACTOR : R;
  TRANSITION_STEP_THRESHOLD : Z;
  HORIZONTAL_TRANSITION_TIME : R;
  VERTICAL_TRANSITION_TIME : R;
  TIP_TOLERANCE : R
}.

(** The parameters the modelled operations read. *)
Record Parameters := mkParameters {
  time_delta : R;
  step_frequency : R;        (* step_frequency.current_value *)
  max_translation_z : R      (* max_translation.data.at("z") *)
}.

(** [LegPoser]: the members the modelled operations touch. *)
Record LegPoser := mkLegPoser {
  current_tip_position_ : Vector3d;
  target_tip_position_ : Vector3d;
  origin_tip_position_ : Vector3d;
  first_iteration_ : bool;
  master_iteration_count_ : Z;
  leg_completed_step_ : bool;
  transition_positions_ : list Vector3d
}.

Definition set_current_tip_position (v : Vector3d) (p : LegPoser) : LegPoser :=
  mkLegPoser v (target_tip_position_ p) (origin_tip_position_ p)
    (first_iteration_ p) (master_iteration_count_ p) (leg_completed_step_ p)
    (transition_positions_ p).

Definition setTargetTipPosition (v : Vector3d) (p : LegPoser) : LegPoser :=
  mkLegPoser (current_tip_position_ p) v (origin_tip_position_ p)
    (first_iteration_ p) (master_iteration_count_ p) (leg_completed_step_ p)
    (transition_positions_ p).

Definition set_origin_tip_position (v : Vector3d) (p : LegPoser) : LegPoser :=
  mkLegPoser (current_tip_position_ p) (target_tip_position_ p) v
    (first_iteration_ p) (master_iteration_count_ p) (leg_completed_step_ p)
    (transition_positions_ p).

Definition set_first_iteration (v : bool) (p : LegPoser) : LegPoser :=
  mkLegPoser (current_tip_position_ p) (target_tip_position_ p)
    (origin_tip_position_ p) v (master_iteration_count_ p)
    (leg_completed_step_ p) (transition_positions_ p).

Definition set_master_iteration_count (v : Z) (p : LegPoser) : LegPoser :=
  mkLegPoser (current_tip_position_ p) (target_tip_position_ p)
    (origin_tip_position_ p) (first_iteration_ p) v
    (leg_completed_step_ p) (transition_positions_ p).

Definition setLegCompletedStep (v : bool) (p : LegPoser) : LegPoser :=
  mkLegPoser (current_tip_position_ p) (target_tip_position_ p)
    (origin_tip_position_ p) (first_iteration_ p) (master_iteration_count_ p)
    v (transition_positions_ p).

Definition set_transition_positions (v : list Vector3d) (p : LegPoser) : LegPoser :=
  mkLegPoser (current_tip_position_ p) (target_tip_position_ p)
    (origin_tip_position_ p) (first_iteration_ p) (master_iteration_count_ p)
    (leg_completed_step_ p) v.

(** The inline members of [LegPoser] declared in pose_controller.h. *)
Definition resetTransitionSequence (p : LegPoser) : LegPoser :=
  set_transition_positions [] p.

Definition addTransitionPosition (v : Vector3d) (p : LegPoser) : LegPoser :=
  set_transition_positions (transition_positions_ p ++ [v]) p.

Definition hasTransitionPosition (index : Z) (p : LegPoser) : bool :=
  (index <? Z.of_nat (length (transition_positions_ p)))%Z.

Definition getTransitionPosition (index : Z) (p : LegPoser) : Vector3d :=
  nth (Z.to_nat index) (transition_positions_ p) v3zero.

(** Modelled from the spec: [LegPoser::resetStepToPosition] of
    pose_controller.h, which is not among the sources; its call site says it
    skips to 'complete' progress and resets, so the next call of
    [stepToPosition] starts a new step. *)
Definition resetStepToPosition (p : LegPoser) : LegPoser * Z :=
  (set_first_iteration true p, PROGRESS_COMPLETE).

(** [LegStepper], as far as the pose controller reads it. *)
Record LegStepper := mkLegStepper {
  default_tip_position_ : Vector3d;   (* getDefaultTipPosition() *)
  swing_height_ : R                   (* getSwingHeight() *)
}.

(** A leg of the robot model (model.h is not among the sources). *)
Record Leg := mkLeg {
  id_number : Z;                       (* getIDNumber() *)
  group : Z;                           (* getGroup() *)
  leg_state : LegState;                (* getLegState() *)
  leg_current_tip_position : Vector3d; (* getCurrentTipPosition() *)
  leg_desired_tip_position : Vector3d;
  delta_z : R                          (* getDeltaZ() *)
}.

(** An element of the leg container: the leg with the leg stepper and the
    leg poser it points to, which are objects of their own. *)
Record LegEntry := mkLegEntry {
  leg : Leg;
  leg_stepper : LegStepper;            (* getLegStepper() *)
  leg_poser : LegPoser                 (* getLegPoser() *)
}.

Definition setLegPoser (p : LegPoser) (e : LegEntry) : LegEntry :=
  mkLegEntry (leg e) (leg_stepper e) p.

(** The robot model: the leg container in the order of its iteration, and
    the current pose. *)
Record Model := mkModel {
  legs : list LegEntry;
  current_pose : Pose
}.

Definition set_legs (v : list LegEntry) (m : Model) : Model :=
  mkModel v (current_pose m).

Definition getLegCount (m : Model) : Z := Z.of_nat (length (legs m)).

(** The operations of the robot model the pose controller calls. *)
Class RobotModel := {
  (** [leg->setDesiredTipPosition(tip, apply_delta_z)] *)
  setDesiredTipPosition : Leg -> Vector3d -> bool -> Leg;
  (** [leg->applyIK(debug)]: the leg with its joints solved, and the
      proximity of the solution to the limits of the workspace *)
  applyIK : Leg -> Leg * R;
  (** [model->legsBearingLoad()] *)
  legsBearingLoad : Model -> bool
}.

(** [PoseController]: the members the modelled operations touch.
    [ros_shutdown] records a call of [ros::shutdown()]. *)
Record PoseController := mkPoseController {
  params_ : Parameters;
  model_ : Model;
  reset_transition_sequence_ : bool;
  first_sequence_execution_ : bool;
  transition_step_ : Z;
  transition_step_count_ : Z;
  set_target_ : bool;
  proximity_alert_ : bool;
  horizontal_transition_complete_ : bool;
  vertical_transition_complete_ : bool;
  legs_completed_step_ : Z;
  current_group_ : Z;
  impedance_pose_ : Pose;
  auto_posing_state_ : PosingState;
  pose_frequency_ : R;
  pose_phase_length_ : Z;
  normaliser_ : Z;
  ros_shutdown : bool
}.

Definition set_model (v : Model) (c : PoseController) : PoseController :=
  mkPoseController (params_ c) v (reset_transition_sequence_ c)
    (first_sequence_execution_ c) (transition_step_ c)
    (transition_step_count_ c) (set_target_ c) (proximity_alert_ c)
    (horizontal_transition_complete_ c) (vertical_transition_complete_ c)
    (legs_completed_step_ c) (current_group_ c) (impedance_pose_ c)
    (auto_posing_state_ c) (pose_frequency_ c) (pose_phase_length_ c)
    (normaliser_ c) (ros_shutdown c).

Definition set_reset_transition_sequence (v : bool) (c : PoseController) : PoseController :=
  mkPoseController (params_ c) (model_ c) v (first_sequence_execution_ c)
    (transition_step_ c) (transition_step_count_ c) (set_target_ c)
    (proximity_alert_ c) (horizontal_transition_complete_ c)
    (vertical_transition_complete_ c) (legs_completed_step_ c)
    (current_group_ c) (impedance_pose_ c) (auto_posing_state_ c)
    (pose_frequency_ c) (pose_phase_length_ c) (normaliser_ c)
    (ros_shutdown c).

Definition set_first_sequence_execution (v : bool) (c : PoseController) : PoseController :=
  mkPoseController (params_ c) (model_ c) (reset_transition_sequence_ c) v
    (transition_step_ c) (transition_step_count_ c) (set_target_ c)
    (proximity_alert_ c) (horizontal_transition_complete_ c)
    (vertical_transition_complete_ c) (legs_completed_step_ c)
    (current_group_ c) (impedance_pose_ c) (auto_posing_state_ c)
    (pose_frequency_ c) (pose_phase_length_ c) (normaliser_ c)
    (ros_shutdown c).

Definition set_transition_step (v : Z) (c : PoseController) : PoseController :=
  mkPoseController (params_ c) (model_ c) (reset_transition_sequence_ c)
    (first_sequence_execution_ c) v (transition_step_count_ c) (set_target_ c)
    (proximity_alert_ c) (horizontal_transition_complete_ c)
    (vertical_transition_complete_ c) (legs_completed_step_ c)
    (current_group_ c) (impedance_pose_ c) (auto_posing_state_ c)
    (pose_frequency_ c) (pose_phase_length_ c) (normaliser_ c)
    (ros_shutdown c).

Definition set_transition_step_count (v : Z) (c : PoseController) : PoseController :=
  mkPoseController (params_ c) (model_ c) (reset_transition_sequence_ c)
    (first_sequence_execution_ c) (transition_step_ c) v (set_target_ c)
    (proximity_alert_ c) (horizontal_transition_complete_ c)
    (vertical_transition_complete_ c) (legs_completed_step_ c)
    (current_group_ c) (impedance_pose_ c) (auto_posing_state_ c)
    (pose_frequency_ c) (pose_phase_length_ c) (normaliser_ c)
    (ros_shutdown c).

Definition set_set_target (v : bool) (c : PoseController) : PoseController :=
  mkPoseController (params_ c) (model_ c) (reset_transition_sequence_ c)
    (first_sequence_execution_ c) (transition_step_ c)
    (transition_step_count_ c) v (proximity_alert_ c)
    (horizontal_transition_complete_ c) (vertical_transition_complete_ c)
    (legs_completed_step_ c) (current_group_ c) (impedance_pose_ c)
    (auto_posing_state_ c) (pose_frequency_ c) (pose_phase_length_ c)
    (normaliser_ c) (ros_shutdown c).

Definition set_proximity_alert (v : bool) (c : PoseController) : PoseController :=
  mkPoseController (params_ c) (model_ c) (reset_transition_sequence_ c)
    (first_sequence_execution_ c) (transition_step_ c)
    (transition_step_count_ c) (set_target_ c) v
    (horizontal_transition_complete_ c) (vertical_transition_complete_ c)
    (legs_completed_step_ c) (current_group_ c) (impedance_pose_ c)
    (auto_posing_state_ c) (pose_frequency_ c) (pose_phase_length_ c)
    (normaliser_ c) (ros_shutdown c).

Definition set_horizontal_transition_complete (v : bool) (c : PoseController) : PoseController :=
  mkPoseController (params_ c) (model_ c) (reset_transition_sequence_ c)
    (first_sequence_execution_ c) (transition_step_ c)
    (transition_step_count_ c) (set_target_ c) (proximity_alert_ c) v
    (vertical_transition_complete_ c) (legs_completed_step_ c)
    (current_group_ c) (impedance_pose_ c) (auto_posing_state_ c)
    (pose_frequency_ c) (pose_phase_length_ c) (normaliser_ c)
    (ros_shutdown c).

Definition set_vertical_transition_complete (v : bool) (c : PoseController) : PoseController :=
  mkPoseController (params_ c) (model_ c) (reset_transition_sequence_ c)
    (first_sequence_execution_ c) (transition_step_ c)
    (transition_step_count_ c) (set_target_ c) (proximity_alert_ c)
    (horizontal_transition_complete_ c) v (legs_completed_step_ c)
    (current_group_ c) (impedance_pose_ c) (auto_posing_state_ c)
    (pose_frequency_ c) (pose_phase_length_ c) (normaliser_ c)
    (ros_shutdown c).

Definition set_legs_completed_step (v : Z) (c : PoseController) : PoseController :=
  mkPoseController (params_ c) (model_ c) (reset_transition_sequence_ c)
    (first_sequence_execution_ c) (transition_step_ c)
    (transition_step_count_ c) (set_target_ c) (proximity_alert_ c)
    (horizontal_transition_complete_ c) (vertical_transition_complete_ c) v
    (current_group_ c) (impedance_pose_ c) (auto_posing_state_ c)
    (pose_frequency_ c) (pose_phase_length_ c) (normaliser_ c)
    (ros_shutdown c).

Definition set_current_group (v : Z) (c : PoseController) : PoseController :=
  mkPoseController (params_ c) (model_ c) (reset_transition_sequence_ c)
    (first_sequence_execution_ c) (transition_step_ c)
    (transition_step_count_ c) (set_target_ c) (proximity_alert_ c)
    (horizontal_transition_complete_ c) (vertical_transition_complete_ c)
    (legs_completed_step_ c) v (impedance_pose_ c) (auto_posing_state_ c)
    (pose_frequency_ c) (pose_phase_length_ c) (normaliser_ c)
    (ros_shutdown c).

Definition set_impedance_pose (v : Pose) (c : PoseController) : PoseController :=
  mkPoseController (params_ c) (model_ c) (reset_transition_sequence_ c)
    (first_sequence_execution_ c) (transition_step_ c)
    (transition_step_count_ c) (set_target_ c) (proximity_alert_ c)
    (horizontal_transition_complete_ c) (vertical_transition_complete_ c)
    (legs_completed_step_ c) (current_group_ c) v (auto_posing_state_ c)
    (pose_frequency_ c) (pose_phase_length_ c) (normaliser_ c)
    (ros_shutdown c).

Definition set_ros_shutdown (v : bool) (c : PoseController) : PoseController :=
  mkPoseController (params_ c) (model_ c) (reset_transition_sequence_ c)
    (first_sequence_execution_ c) (transition_step_ c)
    (transition_step_count_ c) (set_target_ c) (proximity_alert_ c)
    (horizontal_transition_complete_ c) (vertical_transition_complete_ c)
    (legs_completed_step_ c) (current_group_ c) (impedance_pose_ c)
    (auto_posing_state_ c) (pose_frequency_ c) (pose_phase_length_ c)
    (normaliser_ c) v.

(** A loop over the leg container that updates each leg in turn and threads
    the controller's state through the iterations. *)
Fixpoint forEachLeg {S : Type} (f : S -> LegEntry -> S * LegEntry) (s : S)
    (l : list LegEntry) : S * list LegEntry :=
  match l with
  | [] => (s, [])
  | e :: rest =>
      let '(s1, e1) := f s e in
      let '(s2, rest1) := forEachLeg f s1 rest in
      (s2, e1 :: rest1)
  end.

(** *** [LegPoser::stepToPosition] *)

(** Lines 1322 to 1415: one iteration of the step, once the origin is set. *)
Definition stepToPosition_iterate `{StandardIncludes} `{QuatLib}
    (time_delta : R) (l : Leg) (target_tip_position : Vector3d)
    (target_pose : Pose) (lift_height time_to_step : R) (apply_delta_z : bool)
    (p : LegPoser) : LegPoser * Z :=
  (* delta z is applied to the target tip position *)
  let manually_manipulated :=
    LegState_eqb (leg_state l) MANUAL
    || LegState_eqb (leg_state l) WALKING_TO_MANUAL in
  let target_tip_position :=
    if apply_delta_z && negb manually_manipulated
    then set_vz (vz target_tip_position + delta_z l) target_tip_position
    else target_tip_position in
  let p := set_master_iteration_count (master_iteration_count_ p + 1)%Z p in
  let num_iterations := Z.max 1 (roundToInt (time_to_step / time_delta)) in
  let delta_t := 1 / IZR num_iterations in
  let completion_ratio :=
    IZR (master_iteration_count_ p - 1) / IZR num_iterations in
  (* the pose is applied slowly over the course of the transition *)
  let target_pose :=
    mkPose (completion_ratio *v position_ target_pose)
      (slerpTo Quat_Identity (rotation_ target_pose) completion_ratio) in
  let half_swing_iteration := Z.quot num_iterations 2 in
  let origin := origin_tip_position_ p in
  (* control nodes of the dual quartic bezier curves *)
  let primary := zeroNodes in
  let primary := set_node 0 origin primary in
  let primary := set_node 1 origin primary in
  let primary := set_node 2 origin primary in
  let primary :=
    set_node 3 (target_tip_position +v 0.75 *v (origin -v target_tip_position))
      primary in
  let primary :=
    set_node 4 (target_tip_position +v 0.5 *v (origin -v target_tip_position))
      primary in
  let primary := set_node_z 2 (vz (node 2 primary) + lift_height) primary in
  let primary := set_node_z 3 (vz (node 3 primary) + lift_height) primary in
  let primary := set_node_z 4 (vz (node 4 primary) + lift_height) primary in
  let secondary := zeroNodes in
  let secondary :=
    set_node 0 (target_tip_position +v 0.5 *v (origin -v target_tip_position))
      secondary in
  let secondary :=
    set_node 1 (target_tip_position +v 0.25 *v (origin -v target_tip_position))
      secondary in
  let secondary := set_node 2 target_tip_position secondary in
  let secondary := set_node 3 target_tip_position secondary in
  let secondary := set_node 4 target_tip_position secondary in
  let secondary := set_node_z 0 (vz (node 0 secondary) + lift_height) secondary in
  let secondary := set_node_z 1 (vz (node 1 secondary) + lift_height) secondary in
  let secondary := set_node_z 2 (vz (node 2 secondary) + lift_height) secondary in
  let swing_iteration_count :=
    (Z.rem (master_iteration_count_ p + (num_iterations - 1)) num_iterations
     + 1)%Z in
  (* first or second curve, for the first or second half of the swing *)
  let new_tip_position :=
    if (swing_iteration_count <=? half_swing_iteration)%Z
    then quarticBezier primary (IZR swing_iteration_count * delta_t * 2)
    else quarticBezier secondary
           (IZR (swing_iteration_count - half_swing_iteration) * delta_t * 2) in
  let p :=
    if negb (LegState_eqb (leg_state l) MANUAL)
    then set_current_tip_position
           (inverseTransformVector target_pose new_tip_position) p
    else p in
  if (num_iterations <=? master_iteration_count_ p)%Z
  then (set_first_iteration true p, PROGRESS_COMPLETE)
  else (p, truncToInt (completion_ratio * IZR PROGRESS_COMPLETE)).

Definition stepToPosition `{StandardIncludes} `{QuatLib} `{BuildConstants}
    (time_delta : R) (l : Leg) (target : Vector3d) (target_pose : Pose)
    (lift_height time_to_step : R) (apply_delta_z : bool) (p : LegPoser)
    : LegPoser * Z :=
  let target_tip_position := target in
  if first_iteration_ p then
    let p := set_origin_tip_position (leg_current_tip_position l) p in
    (* complete early if target and origin are approximately equal *)
    if Rltb (Rabs (vx (origin_tip_position_ p) - vx target_tip_position))
         TIP_TOLERANCE
       && Rltb (Rabs (vy (origin_tip_position_ p) - vy target_tip_position))
            TIP_TOLERANCE
       && Rltb (Rabs (vz (origin_tip_position_ p) - vz target_tip_position))
            TIP_TOLERANCE
    then (set_current_tip_position target_tip_position p, PROGRESS_COMPLETE)
    else
      let p := set_current_tip_position (origin_tip_position_ p) p in
      let p := set_master_iteration_count 0 p in
      let p := set_first_iteration false p in
      stepToPosition_iterate time_delta l target_tip_position target_pose
        lift_height time_to_step apply_delta_z p
  else
    stepToPosition_iterate time_delta l target_tip_position target_pose
      lift_height time_to_step apply_delta_z p.

(** *** [PoseController::executeSequence], in the order of its body *)

(** Lines 167 to 179: a saved transition sequence is reset. *)
Definition resetSequence (sequence : SequenceSelection) (c : PoseController)
    : PoseController :=
  if reset_transition_sequence_ c && SequenceSelection_eqb sequence START_UP
  then
    let c := set_reset_transition_sequence false c in
    let c := set_first_sequence_execution true c in
    let c := set_transition_step 0 c in
    set_model
      (set_legs
         (map (fun e =>
                 let leg_poser := resetTransitionSequence (leg_poser e) in
                 (* initial transition position *)
                 setLegPoser
                   (addTransitionPosition
                      (leg_current_tip_position (leg e)) leg_poser) e)
            (legs (model_ c)))
         (model_ c)) c
  else c.

(** The locals set up for the requested sequence, lines 185 to 205. *)
Record SequencePlan := mkSequencePlan {
  execute_horizontal_transition : bool;
  execute_vertical_transition : bool;
  next_transition_step : Z;
  transition_step_target : Z;
  total_progress : Z
}.

Definition planSequence (sequence : SequenceSelection) (c : PoseController)
    : SequencePlan :=
  let odd := negb (Z.rem (transition_step_ c) 2 =? 0)%Z in
  match sequence with
  | START_UP =>
      mkSequencePlan (negb odd) odd (transition_step_ c + 1)%Z
        (transition_step_count_ c)
        (Z.quot (transition_step_ c * 100) (Z.max (transition_step_count_ c) 1))
  | SHUT_DOWN =>
      mkSequencePlan odd (negb odd) (transition_step_ c - 1)%Z 0%Z
        (100 - Z.quot (transition_step_ c * 100)
                 (Z.max (transition_step_count_ c) 1))%Z
  end.

(** Lines 208 to 217: is this transition the last one of the sequence? *)
Definition finalTransition (c : PoseController) (plan : SequencePlan) : bool :=
  if first_sequence_execution_ c
  then horizontal_transition_complete_ c || vertical_transition_complete_ c
  else (next_transition_step plan =? transition_step_target plan)%Z.

(** Line 220: the safety factor decreases for each successive transition of
    the first sequence execution. *)
Definition safetyFactor `{BuildConstants} (c : PoseController) : R :=
  if first_sequence_execution_ c
  then SAFETY_FACTOR / IZR (transition_step_ c + 1)
  else 0.

(** The locals the two transitions leave behind. *)
Record SequenceLocals := mkSequenceLocals {
  progress : Z;
  normalised_progress : Z;
  sequence_complete : bool
}.

(** The three calls both transitions make for a leg that steps: the leg
    poser steps toward the target, the leg takes the new tip position as its
    desired one, and the inverse kinematics reports the proximity to the
    limit of the workspace (lines 276 to 278 and 401 to 403). *)
Definition stepAndSolve `{StandardIncludes} `{QuatLib} `{BuildConstants}
    `{RobotModel} (c : PoseController) (e : LegEntry) (pose : Pose)
    (step_height time_to_step : R) (apply_delta_z : bool)
    : LegPoser * Z * Leg * R :=
  let '(leg_poser, progress) :=
    stepToPosition (time_delta (params_ c)) (leg e)
      (target_tip_position_ (leg_poser e)) pose step_height time_to_step
      apply_delta_z (leg_poser e) in
  let l := setDesiredTipPosition (leg e) (current_tip_position_ leg_poser) false in
  let '(l, limit_proximity) := applyIK l in
  (leg_poser, progress, l, limit_proximity).

(** What a step of a leg yields: the leg poser after the step, the progress
    of the step, the leg after the inverse kinematics and the proximity to
    the limit that the inverse kinematics reports. *)
Definition steppedPoser (r : LegPoser * Z * Leg * R) : LegPoser := fst (fst (fst r)).
Definition solvedLeg (r : LegPoser * Z * Leg * R) : Leg := snd (fst r).

(** The arguments of the step of a horizontal transition, lines 271 to
    275. *)
Definition horizontalStep `{StandardIncludes} `{QuatLib} `{BuildConstants}
    `{RobotModel} (sequence : SequenceSelection)
    (final_transition direct_step : bool) (c : PoseController) (e : LegEntry)
    : LegPoser * Z * Leg * R :=
  let apply_delta_z :=
    SequenceSelection_eqb sequence START_UP && final_transition in
  let pose := if apply_delta_z then current_pose (model_ c) else Pose_identity in
  let step_height := if direct_step then 0 else swing_height_ (leg_stepper e) in
  let time_to_step := HORIZONTAL_TRANSITION_TIME / step_frequency (params_ c) in
  let time_to_step :=
    time_to_step * (if first_sequence_execution_ c then 2 else 1) in
  stepAndSolve c e pose step_height time_to_step apply_delta_z.

(** The cached transition position of the next step, or the default stance
    position of the walker. *)
Definition transitionTarget (next_transition_step : Z) (e : LegEntry) : Vector3d :=
  if hasTransitionPosition next_transition_step (leg_poser e)
  then getTransitionPosition next_transition_step (leg_poser e)
  else default_tip_position_ (leg_stepper e).

(** Lines 232 to 254 *)
Definition setHorizontalTarget (next_transition_step : Z) (e : LegEntry)
    : LegEntry :=
  let leg_poser := setLegCompletedStep false (leg_poser e) in
  let target_tip_position := transitionTarget next_transition_step e in
  let target_tip_position :=
    set_vz (vz (leg_current_tip_position (leg e))) target_tip_position in
  setLegPoser (setTargetTipPosition target_tip_position leg_poser) e.

(** Lines 262 to 322: the body of the stepping loop of a horizontal
    transition.  The state threaded through the loop is the controller and
    the local [progress]. *)
Definition horizontalStepLeg `{StandardIncludes} `{QuatLib} `{BuildConstants}
    `{RobotModel} (sequence : SequenceSelection)
    (final_transition direct_step : bool) (safety_factor : R)
    (st : PoseController * Z) (e : LegEntry)
    : (PoseController * Z) * LegEntry :=
  let '(c, progress) := st in
  let leg_poser := leg_poser e in
  if negb (leg_completed_step_ leg_poser) then
    (* step the leg if it is in the stepping group OR direct stepping is
       allowed *)
    if (group (leg e) =? current_group_ c)%Z || direct_step then
      let '(leg_poser, progress, l, limit_proximity) :=
        horizontalStep sequence final_transition direct_step c e in
      (* the leg attempted to move beyond the safe workspace *)
      let exceeded_workspace := Rltb limit_proximity safety_factor in
      let '(c, leg_poser, progress) :=
        if first_sequence_execution_ c && exceeded_workspace then
          let leg_poser :=
            setTargetTipPosition (current_tip_position_ leg_poser) leg_poser in
          let '(leg_poser, progress) := resetStepToPosition leg_poser in
          (set_proximity_alert true c, leg_poser, progress)
        else (c, leg_poser, progress) in
      let '(c, leg_poser) :=
        if (progress =? PROGRESS_COMPLETE)%Z then
          let leg_poser := setLegCompletedStep true leg_poser in
          let c := set_legs_completed_step (legs_completed_step_ c + 1)%Z c in
          if first_sequence_execution_ c then
            let reached_target := negb exceeded_workspace in
            let transition_position :=
              if reached_target
              then target_tip_position_ leg_poser
              else current_tip_position_ leg_poser in
            (c, addTransitionPosition transition_position leg_poser)
          else (c, leg_poser)
        else (c, leg_poser) in
      ((c, progress), mkLegEntry l (leg_stepper e) leg_poser)
    else
      (* the leg is not designated to step: its step is set completed *)
      ((set_legs_completed_step (legs_completed_step_ c + 1)%Z c, progress),
       setLegPoser (setLegCompletedStep true leg_poser) e)
  else (st, e).

(** Lines 337 to 353: have the legs completed their steps, and has the
    transition completed without a proximity alert? *)
Definition completeHorizontalTransition (plan : SequencePlan)
    (final_transition direct_step : bool) (c : PoseController)
    (sequence_complete : bool) : PoseController * bool :=
  if (legs_completed_step_ c =? getLegCount (model_ c))%Z then
    let c := set_set_target true c in
    let c := set_legs_completed_step 0 c in
    if (current_group_ c =? 1)%Z || direct_step then
      let c := set_current_group 0 c in
      let c := set_transition_step (next_transition_step plan) c in
      let c := set_horizontal_transition_complete (negb (proximity_alert_ c)) c in
      let c := set_proximity_alert false c in
      (c, final_transition)
    else if (current_group_ c =? 0)%Z then
      (set_current_group 1 c, sequence_complete)
    else (c, sequence_complete)
  else (c, sequence_complete).

(** Lines 223 to 354: the horizontal transition. *)
Definition horizontalTransition `{StandardIncludes} `{QuatLib}
    `{BuildConstants} `{RobotModel} (sequence : SequenceSelection)
    (plan : SequencePlan) (final_transition : bool) (safety_factor : R)
    (c : PoseController) (locals : SequenceLocals)
    : PoseController * SequenceLocals :=
  let c :=
    if set_target_ c then
      let c := set_set_target false c in
      set_model
        (set_legs
           (map (setHorizontalTarget (next_transition_step plan))
              (legs (model_ c))) (model_ c)) c
    else c in
  (* step to target *)
  let direct_step := negb (legsBearingLoad (model_ c)) in
  let '((c, progress), legs1) :=
    forEachLeg
      (horizontalStepLeg sequence final_transition direct_step safety_factor)
      (c, progress locals) (legs (model_ c)) in
  let c := set_model (set_legs legs1 (model_ c)) c in
  (* the progress of the transition, normalised for the whole sequence *)
  let normalised_progress :=
    if direct_step
    then Z.quot progress (Z.max (transition_step_count_ c) 1)
    else Z.quot (Z.quot progress 2 + (if (current_group_ c =? 0)%Z then 0 else 50))
           (Z.max (transition_step_count_ c) 1) in
  let '(c, sequence_complete) :=
    completeHorizontalTransition plan final_transition direct_step c
      (sequence_complete locals) in
  (c, mkSequenceLocals progress normalised_progress sequence_complete).

(** Lines 366 to 386 *)
Definition setVerticalTarget (next_transition_step : Z) (e : LegEntry)
    : LegEntry :=
  let target_tip_position := transitionTarget next_transition_step e in
  let target_tip_position :=
    set_vx (vx (leg_current_tip_position (leg e))) target_tip_position in
  let target_tip_position :=
    set_vy (vy (leg_current_tip_position (leg e))) target_tip_position in
  setLegPoser (setTargetTipPosition target_tip_position (leg_poser e)) e.

(** Lines 394 to 406: the body of the stepping loop of a vertical
    transition.  The state threaded through the loop is the local [progress]
    and the local [all_legs_within_workspace]. *)
Definition verticalStepLeg `{StandardIncludes} `{QuatLib} `{BuildConstants}
    `{RobotModel} (sequence : SequenceSelection) (final_transition : bool)
    (safety_factor : R) (c : PoseController) (st : Z * bool) (e : LegEntry)
    : (Z * bool) * LegEntry :=
  let '(progress, all_legs_within_workspace) := st in
  let apply_delta_z :=
    SequenceSelection_eqb sequence START_UP && final_transition in
  let pose := if apply_delta_z then current_pose (model_ c) else Pose_identity in
  let time_to_step := VERTICAL_TRANSITION_TIME / step_frequency (params_ c) in
  let time_to_step :=
    time_to_step * (if first_sequence_execution_ c then 2 else 1) in
  let '(leg_poser, progress, l, limit_proximity) :=
    stepAndSolve c e pose 0 time_to_step apply_delta_z in
  let all_legs_within_workspace :=
    all_legs_within_workspace && negb (Rltb limit_proximity safety_factor) in
  ((progress, all_legs_within_workspace),
   mkLegEntry l (leg_stepper e) leg_poser).

(** Lines 414 to 426: the body of the loop that ends a vertical
    transition. *)
Definition verticalCompleteLeg (first_sequence_execution
    all_legs_within_workspace : bool) (st : Z) (e : LegEntry) : Z * LegEntry :=
  let '(leg_poser, progress) := resetStepToPosition (leg_poser e) in
  if first_sequence_execution then
    (* the target is taken as reached if all legs are within the safe
       workspace *)
    let reached_target := all_legs_within_workspace in
    let transition_position :=
      if reached_target
      then target_tip_position_ leg_poser
      else current_tip_position_ leg_poser in
    (progress, setLegPoser (addTransitionPosition transition_position leg_poser) e)
  else (progress, setLegPoser leg_poser e).

(** Lines 357 to 437: the vertical transition. *)
Definition verticalTransition `{StandardIncludes} `{QuatLib}
    `{BuildConstants} `{RobotModel} (sequence : SequenceSelection)
    (plan : SequencePlan) (final_transition : bool) (safety_factor : R)
    (c : PoseController) (locals : SequenceLocals)
    : PoseController * SequenceLocals :=
  let c :=
    if set_target_ c then
      let c := set_set_target false c in
      set_model
        (set_legs
           (map (setVerticalTarget (next_transition_step plan))
              (legs (model_ c))) (model_ c)) c
    else c in
  (* step to target *)
  let '((progress, all_legs_within_workspace), legs1) :=
    forEachLeg (verticalStepLeg sequence final_transition safety_factor c)
      (progress locals, true) (legs (model_ c)) in
  let c := set_model (set_legs legs1 (model_ c)) c in
  (* all legs have completed the vertical transition, by reaching the target
     or by exceeding the safe workspace *)
  let '(c, progress, sequence_complete) :=
    if (negb all_legs_within_workspace && first_sequence_execution_ c)
       || (progress =? PROGRESS_COMPLETE)%Z then
      let '(progress, legs2) :=
        forEachLeg
          (verticalCompleteLeg (first_sequence_execution_ c)
             all_legs_within_workspace)
          progress (legs (model_ c)) in
      let c := set_model (set_legs legs2 (model_ c)) c in
      let c := set_vertical_transition_complete all_legs_within_workspace c in
      let c := set_transition_step (next_transition_step plan) c in
      (set_set_target true c, progress, final_transition)
    else (c, progress, sequence_complete locals) in
  (c, mkSequenceLocals progress
        (Z.quot progress (Z.max (transition_step_count_ c) 1))
        sequence_complete).

(** Lines 162 to 451: everything before the sequence is checked for
    completion.  [normalised_progress] has no initial value in the source;
    exactly one of the two transitions executes and assigns it. *)
Definition executeSequence_transitions `{StandardIncludes} `{QuatLib}
    `{BuildConstants} `{RobotModel} (sequence : SequenceSelection)
    (c : PoseController) : PoseController * SequencePlan * SequenceLocals :=
  let c := resetSequence sequence c in
  let plan := planSequence sequence c in
  let final_transition := finalTransition c plan in
  let safety_factor := safetyFactor c in
  let locals := mkSequenceLocals 0 0 false in
  let '(c, locals) :=
    if execute_horizontal_transition plan
    then horizontalTransition sequence plan final_transition safety_factor c locals
    else (c, locals) in
  let '(c, locals) :=
    if execute_vertical_transition plan
    then verticalTransition sequence plan final_transition safety_factor c locals
    else (c, locals) in
  (* the count of transition steps is updated as the first sequence
     executes *)
  let c :=
    if first_sequence_execution_ c
    then set_transition_step_count (transition_step_ c) c
    else c in
  (* check for excessive transition steps *)
  let c :=
    if (TRANSITION_STEP_THRESHOLD <? transition_step_ c)%Z
    then set_ros_shutdown true c
    else c in
  (c, plan, locals).

(** Lines 453 to 467: the value returned. *)
Definition sequenceProgress (c : PoseController) (plan : SequencePlan)
    (locals : SequenceLocals) : PoseController * Z :=
  if sequence_complete locals then
    let c := set_set_target true c in
    let c := set_vertical_transition_complete false c in
    let c := set_horizontal_transition_complete false c in
    let c := set_first_sequence_execution false c in
    (c, PROGRESS_COMPLETE)
  else
    let total_progress :=
      Z.min (total_progress plan + normalised_progress locals)
        (PROGRESS_COMPLETE - 1) in
    (c, if first_sequence_execution_ c then (-1)%Z else total_progress).

Definition executeSequence `{StandardIncludes} `{QuatLib} `{BuildConstants}
    `{RobotModel} (sequence : SequenceSelection) (c : PoseController)
    : PoseController * Z :=
  let '(c, plan, locals) := executeSequence_transitions sequence c in
  sequenceProgress c plan locals.

(** *** [PoseController::updateImpedancePose] *)

Definition updateImpedancePose (c : PoseController) : PoseController :=
  let loaded_legs := getLegCount (model_ c) in
  let average_delta_z :=
    fold_left (fun sum e => sum + delta_z (leg e)) (legs (model_ c)) 0 in
  let average_delta_z := average_delta_z / IZR loaded_legs in
  let max_translation := max_translation_z (params_ c) in
  (* [abs] of a [double]: the absolute value *)
  set_impedance_pose
    (mkPose
       (set_vz (clamped (Rabs average_delta_z) (- max_translation) max_translation)
          (position_ (impedance_pose_ c)))
       (rotation_ (impedance_pose_ c))) c.

(** *** [AutoPoser::updatePose] *)

Record AutoPoser := mkAutoPoser {
  auto_id_number_ : Z;
  start_phase_ : Z;
  end_phase_ : Z;
  x_amplitude_ : R;
  y_amplitude_ : R;
  z_amplitude_ : R;
  roll_amplitude_ : R;
  pitch_amplitude_ : R;
  yaw_amplitude_ : R;
  start_check_ : bool;
  end_check_ : bool * bool;
  allow_posing_ : bool
}.

Definition set_checks (start_check : bool) (end_check : bool * bool)
    (allow_posing : bool) (a : AutoPoser) : AutoPoser :=
  mkAutoPoser (auto_id_number_ a) (start_phase_ a) (end_phase_ a)
    (x_amplitude_ a) (y_amplitude_ a) (z_amplitude_ a) (roll_amplitude_ a)
    (pitch_amplitude_ a) (yaw_amplitude_ a) start_check end_check allow_posing.

(** Lines 1091 to 1112: the posing window and the phase placed in it. *)
Definition posingWindow (c : PoseController) (a : AutoPoser) (phase : Z)
    : Z * Z * Z :=
  let start_phase := (start_phase_ a * normaliser_ c)%Z in
  let end_phase := (end_phase_ a * normaliser_ c)%Z in
  (* start and end phases of zero become the phase length *)
  let start_phase :=
    if (start_phase =? 0)%Z then pose_phase_length_ c else start_phase in
  let end_phase :=
    if (end_phase =? 0)%Z then pose_phase_length_ c else end_phase in
  (* a window that overlaps the start or end of the master phase *)
  if (end_phase <? start_phase)%Z then
    let end_phase := (end_phase + pose_phase_length_ c)%Z in
    if (phase <? start_phase)%Z
    then (start_phase, end_phase, (phase + pose_phase_length_ c)%Z)
    else (start_phase, end_phase, phase)
  else (start_phase, end_phase, phase).

(** Lines 1114 to 1131: the start and the stop of the posing period. *)
Definition updateChecks (c : PoseController) (start_phase end_phase phase : Z)
    (a : AutoPoser) : AutoPoser :=
  let state := auto_posing_state_ c in
  let sync_with_step_cycle := Reqb (pose_frequency_ c) (-1) in
  let start_check :=
    negb sync_with_step_cycle
    || (negb (start_check_ a) && PosingState_eqb state POSING
        && (phase =? start_phase)%Z) in
  let end_check_first :=
    fst (end_check_ a)
    || (PosingState_eqb state STOP_POSING && (phase =? start_phase)%Z) in
  let end_check_second :=
    snd (end_check_ a)
    || (PosingState_eqb state STOP_POSING && (phase =? end_phase)%Z
        && end_check_first) in
  if negb (allow_posing_ a) && start_check then
    (* start posing *)
    set_checks start_check (false, false) true a
  else if allow_posing_ a && sync_with_step_cycle
          && end_check_first && end_check_second then
    (* stop posing *)
    set_checks false (end_check_first, end_check_second) false a
  else set_checks start_check (end_check_first, end_check_second)
         (allow_posing_ a) a.

(** Lines 1136 to 1167: the pose inside the posing window. *)
Definition posingCyclePose `{QuatLib} (start_phase end_phase phase : Z)
    (a : AutoPoser) : Pose :=
  let iteration := (phase - start_phase + 1)%Z in
  let num_iterations := (end_phase - start_phase)%Z in
  let position_amplitude := mkV3 (x_amplitude_ a) (y_amplitude_ a) (z_amplitude_ a) in
  let rotation_amplitude :=
    mkV3 (roll_amplitude_ a) (pitch_amplitude_ a) (yaw_amplitude_ a) in
  (* first or second half of the posing cycle *)
  let first_half := (iteration <=? Z.quot num_iterations 2)%Z in
  let position_control_nodes :=
    if first_half
    then set_node 4 position_amplitude (set_node 3 position_amplitude zeroNodes)
    else set_node 1 position_amplitude (set_node 0 position_amplitude zeroNodes) in
  let rotation_control_nodes :=
    if first_half
    then set_node 4 rotation_amplitude (set_node 3 rotation_amplitude zeroNodes)
    else set_node 1 rotation_amplitude (set_node 0 rotation_amplitude zeroNodes) in
  let delta_t := 1 / (IZR num_iterations / 2) in
  let offset := if first_half then 0%Z else truncToInt (IZR num_iterations / 2) in
  let time_input := IZR (iteration - offset) * delta_t in
  let position := quarticBezier position_control_nodes time_input in
  let rotation := quarticBezier rotation_control_nodes time_input in
  mkPose position (Quat_of_vector rotation).

Definition updatePose `{QuatLib} (c : PoseController) (phase : Z)
    (a : AutoPoser) : Pose * AutoPoser :=
  let return_pose := Pose_identity in
  let '(start_phase, end_phase, phase) := posingWindow c a phase in
  let a := updateChecks c start_phase end_phase phase a in
  (* pose if in the correct phase *)
  if (start_phase <=? phase)%Z && (phase <? end_phase)%Z && allow_posing_ a
  then (posingCyclePose start_phase end_phase phase a, a)
  else (return_pose, a).

End Poser.

(** ** Sample collaborators and states

    Concrete instances of the collaborators that are not among the sources,
    and concrete states of the controllers, at which the properties below
    are instantiated. *)

Module Samples.

(** Rounding to the nearest integer, halves upward. *)
Definition includes : StandardIncludes :=
  {| roundToInt := fun x => Int_part (x + / 2) |}.

Definition conjugate (q : Quat) : Quat := mkQuat (qw q) (- qx q) (- qy q) (- qz q).

Definition hamilton (a b : Quat) : Quat :=
  mkQuat (qw a * qw b - qx a * qx b - qy a * qy b - qz a * qz b)
         (qw a * qx b + qx a * qw b + qy a * qz b - qz a * qy b)
         (qw a * qy b - qx a * qz b + qy a * qw b + qz a * qx b)
         (qw a * qz b + qx a * qy b - qy a * qx b + qz a * qw b).

Definition rotate (q : Quat) (v : Vector3d) : Vector3d :=
  let r := hamilton (hamilton q (mkQuat 0 (vx v) (vy v) (vz v))) (conjugate q) in
  mkV3 (qx r) (qy r) (qz r).

(** The quaternion operations, with the rotation of a small angle vector
    and the interpolation both taken to first order. *)
Definition quatLib : QuatLib :=
  {| Quat_of_vector := fun v => mkQuat 1 (vx v / 2) (vy v / 2) (vz v / 2);
     rotateVector := rotate;
     Quat_mul := hamilton;
     slerpTo := fun q r t =>
       mkQuat (qw q + t * (qw r - qw q)) (qx q + t * (qx r - qx q))
              (qy q + t * (qy r - qy q)) (qz q + t * (qz r - qz q));
     inverseTransformVector := fun p v =>
       rotate (conjugate (rotation_ p)) (v3sub v (position_ p)) |}.

(** *** The walk controller *)

(** A leg that reaches every tip position it is given. *)
Definition kinematics : Walker.Kinematics :=
  {| Walker.applyLocalIK := fun leg tip =>
       Walker.mkLeg tip (Walker.stanceTipPosition leg) (Walker.legState leg)
         (Walker.yaw leg) (Walker.liftAngle leg) (Walker.kneeAngle leg);
     Walker.clampToLimits := fun legs => legs |}.

(** The tripod gait at 50 ticks per second: [setGaitParams] normalises the
    phases 2 + 2 to a phase length of 52. *)
Definition gaitParameters : Walker.Parameters :=
  Walker.mkParameters 2 2 1 2 [0; 1; 1; 0; 0; 1]%Z (1 / 2) (2 / 5).

Definition tip (l : nat) : Vector3d := mkV3 (3 / 10) (INR l / 5) (- (1 / 5)).

Definition stepperAt (l : nat) (offset : Z) : Walker.LegStepper :=
  Walker.mkLegStepper 0 offset Walker.STANCE false false (mkV2 0 0)
    (tip l) (tip l) v3zero (tip l) (tip l) zeroNodes zeroNodes zeroNodes 0 0.

Definition walker : Walker.WalkController :=
  Walker.mkWalkController gaitParameters Walker.STOPPED
    (1 / 10) (1 / 20) (1 / 2) (1 / 50) (25 / 26)
    52 13 13 39 39
    (2 / 5) (1 / 10) (3 / 10) (mkV2 0 0) 0 0 0
    [stepperAt 0 0; stepperAt 0 26; stepperAt 1 26;
     stepperAt 1 0; stepperAt 2 0; stepperAt 2 26]
    (mkPose (mkV3 0 0 (1 / 5)) Quat_Identity).

Definition modelLeg (l : nat) : Walker.Leg :=
  Walker.mkLeg (tip l) (tip l) Walker.WALKING 0 0 0.

Definition model : list Walker.Leg :=
  [modelLeg 0; modelLeg 0; modelLeg 1; modelLeg 1; modelLeg 2; modelLeg 2].

Definition noDeltaZ : list R := [0; 0; 0; 0; 0; 0].

(** A commanded velocity of half the full speed, straight ahead. *)
Definition halfSpeedAhead : Vector2d := mkV2 (1 / 2) 0.

(** A leg that was held in stance while the walker started. *)
Definition heldLeg : Walker.LegStepper :=
  Walker.set_phase 30 (Walker.set_state Walker.FORCE_STANCE (stepperAt 1 26)).

(** A leg about to swing after a stance of stride 1/10, whose tip ended the
    stance a centimetre above the default height. *)
Definition liftedLeg : Walker.LegStepper :=
  Walker.set_swingOriginTipPosition (mkV3 (1 / 4) (1 / 5) (- (19 / 100)))
    (Walker.generateStanceControlNodes walker (mkV3 (1 / 10) 0 0)
       (Walker.set_stanceOriginTipPosition (mkV3 (7 / 20) (1 / 5) (- (1 / 5)))
          (Walker.set_swingDeltaT (1 / 13)
             (Walker.set_stanceDeltaT (1 / 26)
                (Walker.set_phase 13
                   (Walker.set_state Walker.SWING (stepperAt 1 0))))))).

(** *** The pose controller *)

Definition constants : Poser.BuildConstants :=
  {| Poser.SAFETY_FACTOR := 15 / 100;
     Poser.TRANSITION_STEP_THRESHOLD := 20;
     Poser.HORIZONTAL_TRANSITION_TIME := 1;
     Poser.VERTICAL_TRANSITION_TIME := 3;
     Poser.TIP_TOLERANCE := 1 / 100 |}.

(** A robot whose legs reach every desired tip position, bear load, and are
    always at a proximity of 1/10 to the limit of their workspace. *)
Definition robot : Poser.RobotModel :=
  {| Poser.setDesiredTipPosition := fun l tip _ =>
       Poser.mkLeg (Poser.id_number l) (Poser.group l) (Poser.leg_state l)
         (Poser.leg_current_tip_position l) tip (Poser.delta_z l);
     Poser.applyIK := fun l =>
       (Poser.mkLeg (Poser.id_number l) (Poser.group l) (Poser.leg_state l)
          (Poser.leg_desired_tip_position l) (Poser.leg_desired_tip_position l)
          (Poser.delta_z l), 1 / 10);
     Poser.legsBearingLoad := fun _ => true |}.

Definition packedTip (l : nat) : Vector3d := mkV3 (1 / 10) (INR l / 5) 0.

Definition freshPoser (l : nat) : Poser.LegPoser :=
  Poser.mkLegPoser (packedTip l) (tip l) (packedTip l) true 0 false [packedTip l].

(** The leg of row [l] and stepping group [g], sagging by a centimetre under
    the impedance controller. *)
Definition legEntry (id : Z) (l : nat) (g : Z) : Poser.LegEntry :=
  Poser.mkLegEntry
    (Poser.mkLeg id g Poser.WALKING (packedTip l) (packedTip l) (- (1 / 100)))
    (Poser.mkLegStepper (tip l) (1 / 25))
    (freshPoser l).

Definition robotModel : Poser.Model :=
  Poser.mkModel
    [legEntry 0 0 0; legEntry 1 0 1; legEntry 2 1 1;
     legEntry 3 1 0; legEntry 4 2 0; legEntry 5 2 1]
    Pose_identity.

(** The pose controller at the first step of its first start-up sequence,
    with a horizontal target set. *)
Definition poseController : Poser.PoseController :=
  Poser.mkPoseController (Poser.mkParameters (1 / 50) 1 (1 / 20)) robotModel
    false true 0 0 false false false false 0 0
    Pose_identity Poser.POSING (-1) 52 13 false.

(** An auto poser that poses over the swing of the reference leg. *)
Definition autoPoser : Poser.AutoPoser :=
  Poser.mkAutoPoser 0 1 3 0 0 (1 / 50) 0 0 0 false (false, false) false.


End Samples.

(** ** Notions used to state the properties *)

(** Two walk controllers that differ in their two leg counters at most. *)
Definition sameButCounters (w w1 : Walker.WalkController) : Prop :=
  w1 = Walker.set_legsCompletedFirstStep (Walker.legsCompletedFirstStep w1)
         (Walker.set_legsInCorrectPhase (Walker.legsInCorrectPhase w1) w).

(** A leg stepper at rest: at phase zero and in stance, with neither flag
    set. *)
Definition atRest (ls : Walker.LegStepper) : Prop :=
  Walker.phase ls = 0%Z
  /\ Walker.state ls = Walker.STANCE
  /\ Walker.inCorrectPhase ls = false
  /\ Walker.completedFirstStep ls = false.

(** The step cycle did not advance the tip between two states of a leg
    stepper: the offset of the tip from the default tip position, the tip
    velocity, the origins and the curves of the step cycle are the same. *)
Definition tipNotAdvanced (ls ls' : Walker.LegStepper) : Prop :=
  v3sub (Walker.defaultTipPosition ls') (Walker.currentTipPosition ls')
  = v3sub (Walker.defaultTipPosition ls) (Walker.currentTipPosition ls)
  /\ Walker.tipVelocity ls' = Walker.tipVelocity ls
  /\ Walker.swingOriginTipPosition ls' = Walker.swingOriginTipPosition ls
  /\ Walker.stanceOriginTipPosition ls' = Walker.stanceOriginTipPosition ls
  /\ Walker.swing1ControlNodes ls' = Walker.swing1ControlNodes ls
  /\ Walker.swing2ControlNodes ls' = Walker.swing2ControlNodes ls
  /\ Walker.stanceControlNodes ls' = Walker.stanceControlNodes ls
  /\ Walker.swingDeltaT ls' = Walker.swingDeltaT ls
  /\ Walker.stanceDeltaT ls' = Walker.stanceDeltaT ls.

(** The sum of the vertical offsets the impedance controller gives the legs. *)
Definition sumDeltaZ (l : list Poser.LegEntry) : R :=
  fold_right (fun e acc => Poser.delta_z (Poser.leg e) + acc) 0 l.

(** A phase that normalises to zero stands for the full phase length. *)
Definition zeroAsLength (length phase : Z) : Z :=
  if (phase =? 0)%Z then length else phase.

(** A leg poser at the start of a step, or within a step it has begun. *)
Definition poserReady (e : Poser.LegEntry) : Prop :=
  Poser.first_iteration_ (Poser.leg_poser e) = true
  \/ (0 <= Poser.master_iteration_count_ (Poser.leg_poser e))%Z.


(** A leg stepper whose phase lies in the step cycle of length [L], and whose
    phase offset is not negative. *)
Definition phaseInCycle (L : Z) (ls : Walker.LegStepper) : Prop :=
  (0 <= Walker.phase ls < L)%Z /\ (0 <= Walker.phaseOffset ls)%Z.

(** Two states of a leg stepper with the same phase, phase offset, flags
    and stride vector. *)
Definition samePhase (ls ls' : Walker.LegStepper) : Prop :=
  Walker.phase ls' = Walker.phase ls
  /\ Walker.phaseOffset ls' = Walker.phaseOffset ls
  /\ Walker.inCorrectPhase ls' = Walker.inCorrectPhase ls
  /\ Walker.completedFirstStep ls' = Walker.completedFirstStep ls
  /\ Walker.strideVector ls' = Walker.strideVector ls.

(** The stride of a leg over a step cycle: the velocity of the body at the
    tip of the leg, for the on-ground part of a cycle. *)
Definition tipStride (w : Walker.WalkController) (leg : Walker.Leg) : Vector2d :=
  v2div
    (v2scale
       (v2add (Walker.localCentreVelocity w)
          (v2scale (mkV2 (vy (Walker.localTipPosition leg))
                         (- vx (Walker.localTipPosition leg)))
             (Walker.angularVelocity w)))
       (Walker.onGroundRatio w))
    (Walker.stepFrequency w).

(** A leg stepper about to be iterated in the walk state [ws]: its phase is
    in the cycle, or one before it when the walker is STARTING. *)
Definition phaseBeforeStep (ws : Walker.WalkState) (L : Z)
    (ls : Walker.LegStepper) : Prop :=
  (0 <= Walker.phaseOffset ls)%Z
  /\ (-1 <= Walker.phase ls)%Z
  /\ (ws <> Walker.STARTING -> (0 <= Walker.phase ls < L)%Z).

(** The number of leg steppers whose [inCorrectPhase] flag is set. *)
Fixpoint countInCorrectPhase (lss : list Walker.LegStepper) : Z :=
  match lss with
  | [] => 0
  | ls :: rest =>
      ((if Walker.inCorrectPhase ls then 1 else 0) + countInCorrectPhase rest)%Z
  end.

(** The test of [LegPoser::stepToPosition] for a target that is
    approximately the origin of the step, on each axis. *)
Definition withinTolerance `{Poser.BuildConstants} (origin target : Vector3d)
    : bool :=
  Rltb (Rabs (vx origin - vx target)) Poser.TIP_TOLERANCE
  && Rltb (Rabs (vy origin - vy target)) Poser.TIP_TOLERANCE
  && Rltb (Rabs (vz origin - vz target)) Poser.TIP_TOLERANCE.

(** The number of iterations [LegPoser::stepToPosition] takes for a step. *)
Definition stepIterations `{StandardIncludes} (time_to_step time_delta : R) : Z :=
  Z.max 1 (roundToInt (time_to_step / time_delta)).

(** [n] successive calls of [LegPoser::stepToPosition] with the same
    arguments, the leg being [legAt k] at call [k]: the leg poser after the
    last call and the progress it returned. *)
Fixpoint stepToPosition_calls `{StandardIncludes} `{QuatLib}
    `{Poser.BuildConstants} (n : nat) (time_delta : R)
    (legAt : nat -> Poser.Leg) (target : Vector3d) (target_pose : Pose)
    (lift_height time_to_step : R) (apply_delta_z : bool)
    (p : Poser.LegPoser) : Poser.LegPoser * Z :=
  match n with
  | O => (p, 0%Z)
  | S k =>
      Poser.stepToPosition time_delta (legAt k) target target_pose lift_height
        time_to_step apply_delta_z
        (fst (stepToPosition_calls k time_delta legAt target target_pose
                lift_height time_to_step apply_delta_z p))
  end.

(** What a call of [executeSequence] keeps of the pose controller until the
    sequence is checked for completion. *)
Definition sequenceKept (c c' : Poser.PoseController) : Prop :=
  Poser.first_sequence_execution_ c' = Poser.first_sequence_execution_ c
  /\ Poser.transition_step_count_ c' = Poser.transition_step_count_ c
  /\ Poser.ros_shutdown c' = Poser.ros_shutdown c
  /\ Poser.params_ c' = Poser.params_ c.

(** Two states of a leg with the same leg stepper and the same cached
    transition positions. *)
Definition sameCache (e e' : Poser.LegEntry) : Prop :=
  Poser.leg_stepper e' = Poser.leg_stepper e
  /\ Poser.transition_positions_ (Poser.leg_poser e')
     = Poser.transition_positions_ (Poser.leg_poser e).

(** The cached transition positions of a leg are kept, or, in the first
    execution of a sequence, extended by one position. *)
Definition cacheStep (first : bool) (e e' : Poser.LegEntry) : Prop :=
  Poser.leg_stepper e' = Poser.leg_stepper e
  /\ (Poser.transition_positions_ (Poser.leg_poser e')
      = Poser.transition_positions_ (Poser.leg_poser e)
      \/ (first = true
          /\ exists v : Vector3d,
               Poser.transition_positions_ (Poser.leg_poser e')
               = Poser.transition_positions_ (Poser.leg_poser e) ++ [v])).

(** ** The poses that balance the body, [src/pose_controller.cpp] *)

Module BodyPose.

Import Poser.

(** [params_.max_translation.data.at("x")] and [at("y")] *)
Record TranslationLimits := mkTranslationLimits {
  max_translation_x : R;
  max_translation_y : R
}.

(** The members of [PoseController] that [calculateDefaultPose] writes. *)
Record DefaultPoser := mkDefaultPoser {
  default_pose_ : Pose;
  recalculate_default_pose_ : bool
}.

Definition loadBearing (e : LegEntry) : bool :=
  LegState_eqb (leg_state (leg e)) WALKING
  || LegState_eqb (leg_state (leg e)) MANUAL_TO_WALKING.

Definition transitioning (e : LegEntry) : bool :=
  LegState_eqb (leg_state (leg e)) MANUAL_TO_WALKING
  || LegState_eqb (leg_state (leg e)) WALKING_TO_MANUAL.

(** Lines 1015 to 1029: the legs that bear load and the legs that are
    changing state. *)
Definition legsLoaded (m : Model) : Z :=
  fold_left (fun n e => if loadBearing e then (n + 1)%Z else n) (legs m) 0%Z.

Definition legsTransitioningStates (m : Model) : Z :=
  fold_left (fun n e => if transitioning e then (n + 1)%Z else n) (legs m) 0%Z.

(** Lines 1038 to 1049: the sum of the default tip positions of the legs
    that bear load, in x and y. *)
Definition zeroMomentSum (m : Model) : Vector3d :=
  fold_left
    (fun offset e =>
       if loadBearing e
       then set_vy (vy offset + vy (default_tip_position_ (leg_stepper e)))
              (set_vx (vx offset + vx (default_tip_position_ (leg_stepper e)))
                 offset)
       else offset)
    (legs m) v3zero.

(** [PoseController::calculateDefaultPose].  With no leg bearing load the
    source divides by zero. *)
Definition calculateDefaultPose (limits : TranslationLimits) (m : Model)
    (d : DefaultPoser) : DefaultPoser :=
  (* return early if only one leg in model *)
  if (getLegCount m =? 1)%Z then d
  else
    let legs_loaded := legsLoaded m in
    let legs_transitioning_states := legsTransitioningStates m in
    if negb (legs_transitioning_states =? 0)%Z then
      if recalculate_default_pose_ d then
        let zero_moment_offset := zeroMomentSum m in
        let zero_moment_offset := v3div zero_moment_offset (IZR legs_loaded) in
        let zero_moment_offset :=
          set_vx (clamped (vx zero_moment_offset)
                    (- max_translation_x limits) (max_translation_x limits))
            zero_moment_offset in
        let zero_moment_offset :=
          set_vy (clamped (vy zero_moment_offset)
                    (- max_translation_y limits) (max_translation_y limits))
            zero_moment_offset in
        mkDefaultPoser
          (mkPose
             (set_vy (vy zero_moment_offset)
                (set_vx (vx zero_moment_offset) (position_ (default_pose_ d))))
             (rotation_ (default_pose_ d)))
          false
      else d
    else mkDefaultPoser (default_pose_ d) true.

(** The operations of quat.h, which is not among the sources, that
    [updateInclinationPose] calls. *)
Class QuatAngles := {
  (** [q.inverse()] *)
  Quat_inverse : Quat -> Quat;
  (** [q.toEulerAngles()] *)
  toEulerAngles : Quat -> Vector3d
}.

(** [PoseController::updateInclinationPose]: the inclination pose after the
    call, from the manual pose, the auto pose and the orientation the IMU
    reports. *)
Definition updateInclinationPose `{QuatLib} `{QuatAngles}
    (limits : TranslationLimits) (manual_pose auto_pose : Pose)
    (imu_orientation : Quat) (body_height : R) (inclination_pose : Pose)
    : Pose :=
  let compensation_combined :=
    Quat_mul (rotation_ manual_pose) (rotation_ auto_pose) in
  let compensation_removed :=
    Quat_mul imu_orientation (Quat_inverse compensation_combined) in
  let euler_angles := toEulerAngles compensation_removed in
  let lateral_correction := body_height * tan (vx euler_angles) in
  let longitudinal_correction := - body_height * tan (vy euler_angles) in
  let longitudinal_correction :=
    clamped longitudinal_correction
      (- max_translation_x limits) (max_translation_x limits) in
  let lateral_correction :=
    clamped lateral_correction
      (- max_translation_y limits) (max_translation_y limits) in
  mkPose
    (set_vy lateral_correction
       (set_vx longitudinal_correction (position_ inclination_pose)))
    (rotation_ inclination_pose).

End BodyPose.

(** The mean of the default tip positions of the legs that bear load, on
    one axis. *)
Definition loadedMean (axis : Vector3d -> R) (m : Poser.Model) : R :=
  fold_right
    (fun e acc =>
       if BodyPose.loadBearing e
       then axis (Poser.default_tip_position_ (Poser.leg_stepper e)) + acc
       else acc)
    0 (Poser.legs m)
  / IZR (BodyPose.legsLoaded m).

(** ** Stepping to a stance, [src/pose_controller.cpp] *)

Module Stance.

Import Poser.

(** The default value of the argument [apply_delta_z] of
    [LegPoser::stepToPosition], which pose_controller.h declares and which
    is not among the sources. *)
Class StepDefaults := {
  apply_delta_z_default : bool
}.

(** Lines 482 to 490: the body of the loop of [directStartup];
    [time_to_start] is [params_.time_to_start.data]. *)
Definition directStartupLeg `{StandardIncludes} `{QuatLib} `{BuildConstants}
    `{RobotModel} `{StepDefaults} (time_to_start : R) (c : PoseController)
    (progress : Z) (e : LegEntry) : Z * LegEntry :=
  let default_tip_position := default_tip_position_ (leg_stepper e) in
  let '(leg_poser, progress) :=
    stepToPosition (time_delta (params_ c)) (leg e) default_tip_position
      (current_pose (model_ c)) 0 time_to_start apply_delta_z_default
      (leg_poser e) in
  let l := setDesiredTipPosition (leg e) (current_tip_position_ leg_poser) false in
  let '(l, _) := applyIK l in
  (progress, mkLegEntry l (leg_stepper e) leg_poser).

(** [PoseController::directStartup] *)
Definition directStartup `{StandardIncludes} `{QuatLib} `{BuildConstants}
    `{RobotModel} `{StepDefaults} (time_to_start : R) (c : PoseController)
    : PoseController * Z :=
  let '(progress, legs1) :=
    forEachLeg (directStartupLeg time_to_start c) 0%Z (legs (model_ c)) in
  (set_model (set_legs legs1 (model_ c)) c, progress).

(** Lines 508 to 520: the body of the loop of [stepToNewStance]. *)
Definition stepToNewStanceLeg `{StandardIncludes} `{QuatLib} `{BuildConstants}
    `{RobotModel} `{StepDefaults} (st : PoseController * Z) (e : LegEntry)
    : (PoseController * Z) * LegEntry :=
  let '(c, progress) := st in
  if (group (leg e) =? current_group_ c)%Z then
    let step_height := swing_height_ (leg_stepper e) in
    let step_time := 1 / step_frequency (params_ c) in
    let target_tip_position := default_tip_position_ (leg_stepper e) in
    let '(leg_poser, progress) :=
      stepToPosition (time_delta (params_ c)) (leg e) target_tip_position
        (current_pose (model_ c)) step_height step_time apply_delta_z_default
        (leg_poser e) in
    let l := setDesiredTipPosition (leg e) (current_tip_position_ leg_poser) false in
    let '(l, _) := applyIK l in
    let c :=
      set_legs_completed_step
        (legs_completed_step_ c
         + (if (progress =? PROGRESS_COMPLETE)%Z then 1 else 0))%Z c in
    ((c, progress), mkLegEntry l (leg_stepper e) leg_poser)
  else (st, e).

(** [PoseController::stepToNewStance]; [None] when the model has fewer than
    two legs and the source divides by zero. *)
Definition stepToNewStance `{StandardIncludes} `{QuatLib} `{BuildConstants}
    `{RobotModel} `{StepDefaults} (c : PoseController)
    : option (PoseController * Z) :=
  let leg_count := getLegCount (model_ c) in
  let '((c, progress), legs1) :=
    forEachLeg stepToNewStanceLeg (c, 0%Z) (legs (model_ c)) in
  let c := set_model (set_legs legs1 (model_ c)) c in
  (* normalise progress in terms of total procedure *)
  let progress := (Z.quot progress 2 + current_group_ c * 50)%Z in
  if (Z.quot leg_count 2 =? 0)%Z then None
  else
    let c :=
      set_current_group
        (Z.quot (legs_completed_step_ c) (Z.quot leg_count 2)) c in
    let c :=
      if (legs_completed_step_ c =? leg_count)%Z
      then set_current_group 0 (set_legs_completed_step 0 c)
      else c in
    (* the stored transition sequences are to be reset *)
    Some (set_reset_transition_sequence true c, progress).

End Stance.

(** [n] successive calls of [PoseController::directStartup]: the pose
    controller after the last call and the progress it returned. *)
Fixpoint directStartup_calls `{StandardIncludes} `{QuatLib}
    `{Poser.BuildConstants} `{Poser.RobotModel} `{Stance.StepDefaults}
    (n : nat) (time_to_start : R) (c : Poser.PoseController)
    : Poser.PoseController * Z :=
  match n with
  | O => (c, 0%Z)
  | S k =>
      Stance.directStartup time_to_start
        (fst (directStartup_calls k time_to_start c))
  end.

(** A leg whose leg poser is ready to start a step to the default tip
    position of the leg, which is not within the tolerance of its tip. *)
Definition startsStep `{Poser.BuildConstants} (e : Poser.LegEntry) : Prop :=
  Poser.first_iteration_ (Poser.leg_poser e) = true
  /\ withinTolerance (Poser.leg_current_tip_position (Poser.leg e))
       (Poser.default_tip_position_ (Poser.leg_stepper e)) = false.

(** A leg whose leg poser is at iteration [k] of a step. *)
Definition withinStep (k : Z) (e : Poser.LegEntry) : Prop :=
  Poser.first_iteration_ (Poser.leg_poser e) = false
  /\ Poser.master_iteration_count_ (Poser.leg_poser e) = k.

(** A leg after [k] calls of a step to its default tip position: about to
    start the step, or at iteration [k] of it. *)
Definition stepStatus `{Poser.BuildConstants} (k : Z) (e : Poser.LegEntry)
    : Prop :=
  (k = 0%Z /\ startsStep e) \/ ((0 < k)%Z /\ withinStep k e).

(** Sample collaborators of the steps to a stance. *)
Module StanceSamples.

(** The vertical offset of the impedance controller is applied unless the
    caller says otherwise. *)
Definition stepDefaults : Stance.StepDefaults :=
  {| Stance.apply_delta_z_default := true |}.

End StanceSamples.

(** ** Automatic body posing, [src/pose_controller.cpp] *)

Module AutoPosing.

Import Poser BodyPose.

(** The operations of pose.h, which is not among the sources. *)
Class PoseLib := {
  (** [p.addPose(q)] *)
  addPose : Pose -> Pose -> Pose;
  (** [p.removePose(q)] *)
  removePose : Pose -> Pose -> Pose
}.

(** The inline member [isPosing] of [AutoPoser], which pose_controller.h
    declares and which is not among the sources. *)
Class AutoPoserLib := {
  isPosing : AutoPoser -> bool
}.

(** What [updateAutoPose] reads of the leg stepper of the reference leg. *)
Record ReferenceStepper := mkReferenceStepper {
  ref_walk_state : Walker.WalkState;     (* getWalkState() *)
  ref_stride_vector : Vector2d;          (* getStrideVector() *)
  ref_phase : Z                          (* getPhase() *)
}.

(** The members of [LegPoser] that [LegPoser::updateAutoPose] touches. *)
Record NegationPoser := mkNegationPoser {
  pose_negation_phase_start_ : Z;
  pose_negation_phase_end_ : Z;
  stop_negation_ : bool;
  leg_auto_pose_ : Pose
}.

(** The members of [PoseController] that [updateAutoPose] touches besides
    those of the record [PoseController]; the leg posers are those of the
    legs of the model, in the order of the leg container. *)
Record AutoPoseState := mkAutoPoseState {
  auto_pose_ : Pose;
  pose_phase_ : Z;
  auto_poser_container_ : list AutoPoser;
  negation_posers_ : list NegationPoser
}.

Definition set_auto_posing_state (v : PosingState) (c : PoseController)
    : PoseController :=
  mkPoseController (params_ c) (model_ c) (reset_transition_sequence_ c)
    (first_sequence_execution_ c) (transition_step_ c)
    (transition_step_count_ c) (set_target_ c) (proximity_alert_ c)
    (horizontal_transition_complete_ c) (vertical_transition_complete_ c)
    (legs_completed_step_ c) (current_group_ c) (impedance_pose_ c)
    v (pose_frequency_ c) (pose_phase_length_ c) (normaliser_ c)
    (ros_shutdown c).

(** Lines 1429 to 1451: the negation window and the phase placed in it. *)
Definition negationWindow (c : PoseController) (p : NegationPoser) (phase : Z)
    : Z * Z * Z :=
  let start_phase := (pose_negation_phase_start_ p * normaliser_ c)%Z in
  let end_phase := (pose_negation_phase_end_ p * normaliser_ c)%Z in
  let negation_phase := phase in
  (* start and end phases of zero become the phase length *)
  let start_phase :=
    if (start_phase =? 0)%Z then pose_phase_length_ c else start_phase in
  let end_phase :=
    if (end_phase =? 0)%Z then pose_phase_length_ c else end_phase in
  (* a window that overlaps the start or end of the master phase *)
  if (end_phase <? start_phase)%Z then
    let end_phase := (end_phase + pose_phase_length_ c)%Z in
    if (negation_phase <? start_phase)%Z
    then (start_phase, end_phase, (negation_phase + pose_phase_length_ c)%Z)
    else (start_phase, end_phase, negation_phase)
  else (start_phase, end_phase, negation_phase).

(** Lines 1455 to 1493: the pose that negates the auto pose inside the
    negation window. *)
Definition negationPose `{QuatLib} `{QuatAngles}
    (start_phase end_phase negation_phase : Z) (auto_pose : Pose) : Pose :=
  let iteration := (negation_phase - start_phase + 1)%Z in
  let num_iterations := (end_phase - start_phase)%Z in
  let position_amplitude := position_ auto_pose in
  let rotation_amplitude := toEulerAngles (rotation_ auto_pose) in
  (* first or second half of the posing cycle *)
  let first_half := (iteration <=? Z.quot num_iterations 2)%Z in
  let position_control_nodes :=
    if first_half
    then set_node 4 position_amplitude
           (set_node 3 position_amplitude
              (set_node 2 position_amplitude zeroNodes))
    else set_node 2 position_amplitude
           (set_node 1 position_amplitude
              (set_node 0 position_amplitude zeroNodes)) in
  let rotation_control_nodes :=
    if first_half
    then set_node 4 rotation_amplitude
           (set_node 3 rotation_amplitude
              (set_node 2 rotation_amplitude zeroNodes))
    else set_node 2 rotation_amplitude
           (set_node 1 rotation_amplitude
              (set_node 0 rotation_amplitude zeroNodes)) in
  let delta_t := 1 / (IZR num_iterations / 2) in
  let offset := if first_half then 0%Z else truncToInt (IZR num_iterations / 2) in
  let time_input := IZR (iteration - offset) * delta_t in
  let position := quarticBezier position_control_nodes time_input in
  let rotation := quarticBezier rotation_control_nodes time_input in
  mkPose position (Quat_of_vector rotation).

(** [LegPoser::updateAutoPose]; [auto_pose] is the auto pose of the pose
    controller, [poser_->getAutoPose()]. *)
Definition legUpdateAutoPose `{QuatLib} `{QuatAngles} `{PoseLib}
    (c : PoseController) (auto_pose : Pose) (phase : Z) (p : NegationPoser)
    : NegationPoser :=
  let '(start_phase, end_phase, negation_phase) := negationWindow c p phase in
  if (start_phase <=? negation_phase)%Z && (negation_phase <? end_phase)%Z
     && negb (stop_negation_ p)
  then
    mkNegationPoser (pose_negation_phase_start_ p) (pose_negation_phase_end_ p)
      (stop_negation_ p)
      (removePose auto_pose
         (negationPose start_phase end_phase negation_phase auto_pose))
  else
    let sync_with_step_cycle := Reqb (pose_frequency_ c) (-1) in
    mkNegationPoser (pose_negation_phase_start_ p) (pose_negation_phase_end_ p)
      (sync_with_step_cycle
       && PosingState_eqb (auto_posing_state_ c) STOP_POSING)
      auto_pose.

(** Lines 859 to 868: the auto posing state follows the walk state of the
    reference leg. *)
Definition followWalkState (ref : ReferenceStepper) (c : PoseController)
    : PoseController :=
  let zero_body_velocity := Reqb (v2norm (ref_stride_vector ref)) 0 in
  if Walker.WalkState_eqb (ref_walk_state ref) Walker.STARTING
     || Walker.WalkState_eqb (ref_walk_state ref) Walker.MOVING
  then set_auto_posing_state POSING c
  else if (zero_body_velocity
           && Walker.WalkState_eqb (ref_walk_state ref) Walker.STOPPING)
          || Walker.WalkState_eqb (ref_walk_state ref) Walker.STOPPED
  then set_auto_posing_state STOP_POSING c
  else c.

(** Lines 883 to 893: the loop over the auto posers; it counts those that
    are not posing and adds up their poses. *)
Fixpoint updateAutoPosers `{QuatLib} `{PoseLib} `{AutoPoserLib}
    (c : PoseController) (master_phase : Z) (auto_posers_complete : Z)
    (auto_pose : Pose) (container : list AutoPoser)
    : Z * Pose * list AutoPoser :=
  match container with
  | [] => (auto_posers_complete, auto_pose, [])
  | auto_poser :: rest =>
      let '(updated_pose, auto_poser) := updatePose c master_phase auto_poser in
      let auto_posers_complete :=
        (auto_posers_complete + (if negb (isPosing auto_poser) then 1 else 0))%Z in
      let auto_pose := addPose auto_pose updated_pose in
      let '(auto_posers_complete, auto_pose, rest) :=
        updateAutoPosers c master_phase auto_posers_complete auto_pose rest in
      (auto_posers_complete, auto_pose, auto_poser :: rest)
  end.

(** [PoseController::updateAutoPose]; [None] when the pose phase is iterated
    modulo a pose phase length of zero. *)
Definition updateAutoPose `{QuatLib} `{QuatAngles} `{PoseLib} `{AutoPoserLib}
    (ref : ReferenceStepper) (c : PoseController) (s : AutoPoseState)
    : option (PoseController * AutoPoseState) :=
  let auto_pose := Pose_identity in
  (* update auto posing state *)
  let c := followWalkState ref c in
  (* update master phase *)
  let sync_with_step_cycle := Reqb (pose_frequency_ c) (-1) in
  if negb sync_with_step_cycle && (pose_phase_length_ c =? 0)%Z then None
  else
    let '(master_phase, pose_phase) :=
      if sync_with_step_cycle
      then ((ref_phase ref + 1)%Z, pose_phase_ s)
      else (pose_phase_ s, Z.rem (pose_phase_ s + 1) (pose_phase_length_ c)) in
    (* update auto pose from auto posers *)
    let '(auto_posers_complete, auto_pose, container) :=
      updateAutoPosers c master_phase 0%Z auto_pose (auto_poser_container_ s) in
    (* all auto posers have completed their required posing cycle *)
    let c :=
      if (auto_posers_complete
          =? Z.of_nat (length (auto_poser_container_ s)))%Z
      then set_auto_posing_state POSING_COMPLETE c
      else c in
    (* update leg specific auto pose using leg posers *)
    let negation_posers :=
      map (legUpdateAutoPose c auto_pose master_phase) (negation_posers_ s) in
    Some (c, mkAutoPoseState auto_pose pose_phase container negation_posers).

End AutoPosing.

(** The number of auto posers that are not posing. *)
Fixpoint countNotPosing `{AutoPosing.AutoPoserLib}
    (container : list Poser.AutoPoser) : Z :=
  match container with
  | [] => 0
  | a :: rest =>
      ((if negb (AutoPosing.isPosing a) then 1 else 0) + countNotPosing rest)%Z
  end.

(** An auto poser with the phases of the negation window of a leg poser. *)
Definition negationAsAutoPoser (p : AutoPosing.NegationPoser)
    : Poser.AutoPoser :=
  Poser.mkAutoPoser 0 (AutoPosing.pose_negation_phase_start_ p)
    (AutoPosing.pose_negation_phase_end_ p) 0 0 0 0 0 0 false (false, false)
    false.

(** Sample collaborators and states of the automatic posing. *)
Module AutoSamples.

(** The inverse of a unit quaternion, and the angles of a small rotation to
    first order. *)
Definition quatAngles : BodyPose.QuatAngles :=
  {| BodyPose.Quat_inverse := Samples.conjugate;
     BodyPose.toEulerAngles := fun q => mkV3 (2 * qx q) (2 * qy q) (2 * qz q) |}.

Definition poseLib : AutoPosing.PoseLib :=
  {| AutoPosing.addPose := fun p q =>
       mkPose (v3add (position_ p) (position_ q))
         (Samples.hamilton (rotation_ p) (rotation_ q));
     AutoPosing.removePose := fun p q =>
       mkPose (v3sub (position_ p) (position_ q))
         (Samples.hamilton (rotation_ p) (Samples.conjugate (rotation_ q))) |}.

(** An auto poser is posing while posing is allowed. *)
Definition autoPoserLib : AutoPosing.AutoPoserLib :=
  {| AutoPosing.isPosing := Poser.allow_posing_ |}.

(** The reference leg at phase 12 of a walk ahead. *)
Definition reference : AutoPosing.ReferenceStepper :=
  AutoPosing.mkReferenceStepper Walker.MOVING (mkV2 (1 / 10) 0) 12.

Definition autoPoseState : AutoPosing.AutoPoseState :=
  AutoPosing.mkAutoPoseState Pose_identity 0 [Samples.autoPoser]
    [AutoPosing.mkNegationPoser 1 3 false Pose_identity].

End AutoSamples.

(** ** Moving the joints, [src/pose_controller.cpp] *)

Module Joints.

Import Poser.

(** A joint of the robot model (model.h is not among the sources). *)
Record Joint := mkJoint {
  current_position_ : R;
  desired_position_ : R;
  packed_position_ : R;
  unpacked_position_ : R
}.

Definition set_desired_position (v : R) (j : Joint) : Joint :=
  mkJoint (current_position_ j) v (packed_position_ j) (unpacked_position_ j).

(** A leg with its joint container, in the order of its iteration, its leg
    poser, and the member [origin_joint_positions_] of the leg poser. *)
Record JointedLeg := mkJointedLeg {
  joints : list Joint;
  joint_poser : LegPoser;
  origin_joint_positions_ : list R
}.

(** What pose_controller.h, standard_includes.h and model.h, which are not
    among the sources, give [moveToJointPosition]. *)
Class JointLib := {
  JOINT_TOLERANCE : R;
  (** [cubicBezier(nodes, t)] for the four control nodes *)
  cubicBezier : R * R * R * R -> R -> R;
  (** [leg_->applyFK()], on the joint container *)
  applyFK : list Joint -> list Joint
}.

(** Lines 1216 to 1222: are all joints at their targets? *)
Fixpoint allJointsAtTarget `{JointLib} (all_joints_at_target : bool)
    (target_joint_positions : list R) (i : nat) (js : list Joint) : bool :=
  match js with
  | [] => all_joints_at_target
  | joint :: rest =>
      allJointsAtTarget
        (all_joints_at_target
         && Rltb (Rabs (nth i target_joint_positions 0 - current_position_ joint))
              JOINT_TOLERANCE)
        target_joint_positions (S i) rest
  end.

(** Lines 1245 to 1255: every joint moves along its curve. *)
Fixpoint moveJoints `{JointLib} (origin target_joint_positions : list R)
    (t : R) (i : nat) (js : list Joint) : list Joint :=
  match js with
  | [] => []
  | joint :: rest =>
      set_desired_position
        (cubicBezier (nth i origin 0, nth i origin 0,
                      nth i target_joint_positions 0,
                      nth i target_joint_positions 0) t) joint
      :: moveJoints origin target_joint_positions t (S i) rest
  end.

(** Lines 1237 to 1285: one iteration of the move, once the origin is
    set. *)
Definition moveToJointPosition_iterate `{StandardIncludes} `{JointLib}
    (time_delta : R) (target_joint_positions : list R) (time_to_move : R)
    (l : JointedLeg) : JointedLeg * Z :=
  let p := joint_poser l in
  let num_iterations := Z.max 1 (roundToInt (time_to_move / time_delta)) in
  let delta_t := 1 / IZR num_iterations in
  let p := set_master_iteration_count (master_iteration_count_ p + 1)%Z p in
  let js :=
    moveJoints (origin_joint_positions_ l) target_joint_positions
      (IZR (master_iteration_count_ p) * delta_t) 0 (joints l) in
  let js := applyFK js in
  let progress :=
    truncToInt (IZR (master_iteration_count_ p - 1) / IZR num_iterations
                * IZR PROGRESS_COMPLETE) in
  (* complete once reached total number of iterations *)
  if (num_iterations <=? master_iteration_count_ p)%Z
  then (mkJointedLeg js (set_first_iteration true p) (origin_joint_positions_ l),
        PROGRESS_COMPLETE)
  else (mkJointedLeg js p (origin_joint_positions_ l), progress).

(** [LegPoser::moveToJointPosition] *)
Definition moveToJointPosition `{StandardIncludes} `{JointLib}
    (time_delta : R) (target_joint_positions : list R) (time_to_move : R)
    (l : JointedLeg) : JointedLeg * Z :=
  if first_iteration_ (joint_poser l) then
    let origin := map current_position_ (joints l) in
    let all_joints_at_target :=
      allJointsAtTarget true target_joint_positions 0 (joints l) in
    let l := mkJointedLeg (joints l) (joint_poser l) origin in
    (* complete early if joint positions are already at target *)
    if all_joints_at_target then (l, PROGRESS_COMPLETE)
    else
      let p := set_first_iteration false (joint_poser l) in
      let p := set_master_iteration_count 0 p in
      moveToJointPosition_iterate time_delta target_joint_positions
        time_to_move (mkJointedLeg (joints l) p origin)
  else
    moveToJointPosition_iterate time_delta target_joint_positions time_to_move l.

(** A loop over the legs that moves the joints of each leg toward the
    targets the leg gives, and returns the progress of the last leg. *)
Fixpoint moveLegs `{StandardIncludes} `{JointLib} (time_delta : R)
    (targets : JointedLeg -> list R) (time_to_move : R) (progress : Z)
    (ls : list JointedLeg) : list JointedLeg * Z :=
  match ls with
  | [] => ([], progress)
  | l :: rest =>
      let '(l1, progress) :=
        moveToJointPosition time_delta (targets l) time_to_move l in
      let '(rest1, progress) :=
        moveLegs time_delta targets time_to_move progress rest in
      (l1 :: rest1, progress)
  end.

(** [PoseController::packLegs], on the pose controller and the legs of the
    model with their joints. *)
Definition packLegs `{StandardIncludes} `{JointLib} (time_to_pack : R)
    (c : PoseController) (ls : list JointedLeg)
    : PoseController * list JointedLeg * Z :=
  (* reset for the start-up and shut-down sequences *)
  let c := set_transition_step 0 c in
  let '(ls, progress) :=
    moveLegs (time_delta (params_ c))
      (fun l => map packed_position_ (joints l)) time_to_pack 0%Z ls in
  (c, ls, progress).

(** [PoseController::unpackLegs] *)
Definition unpackLegs `{StandardIncludes} `{JointLib} (time_to_unpack : R)
    (c : PoseController) (ls : list JointedLeg)
    : PoseController * list JointedLeg * Z :=
  let '(ls, progress) :=
    moveLegs (time_delta (params_ c))
      (fun l => map unpacked_position_ (joints l)) time_to_unpack 0%Z ls in
  (c, ls, progress).

End Joints.

(** A leg about to start a move of its joints to targets that not all of its
    joints have reached. *)
Definition startsMove `{Joints.JointLib} (targets : Joints.JointedLeg -> list R)
    (l : Joints.JointedLeg) : Prop :=
  Poser.first_iteration_ (Joints.joint_poser l) = true
  /\ Joints.allJointsAtTarget true (targets l) 0 (Joints.joints l) = false.

(** A leg at iteration [k] of a move of its joints. *)
Definition withinMove (k : Z) (l : Joints.JointedLeg) : Prop :=
  Poser.first_iteration_ (Joints.joint_poser l) = false
  /\ Poser.master_iteration_count_ (Joints.joint_poser l) = k.

Definition moveStatus `{Joints.JointLib}
    (targets : Joints.JointedLeg -> list R) (k : Z) (l : Joints.JointedLeg)
    : Prop :=
  (k = 0%Z /\ startsMove targets l) \/ ((0 < k)%Z /\ withinMove k l).

(** [n] successive calls of [PoseController::packLegs]. *)
Fixpoint packLegs_calls `{StandardIncludes} `{Joints.JointLib} (n : nat)
    (time_to_pack : R) (c : Poser.PoseController) (ls : list Joints.JointedLeg)
    : Poser.PoseController * list Joints.JointedLeg * Z :=
  match n with
  | O => (c, ls, 0%Z)
  | S k =>
      let r := packLegs_calls k time_to_pack c ls in
      Joints.packLegs time_to_pack (fst (fst r)) (snd (fst r))
  end.

(** Sample collaborators and states of the joint moves. *)
Module JointSamples.

(** The cubic Bezier curve, and a forward kinematics that leaves the joints
    as they are. *)
Definition jointLib : Joints.JointLib :=
  {| Joints.JOINT_TOLERANCE := 1 / 100;
     Joints.cubicBezier := fun nodes t =>
       let '(a, b, c, d) := nodes in
       let s := 1 - t in
       s * s * s * a + 3 * s * s * t * b + 3 * s * t * t * c + t * t * t * d;
     Joints.applyFK := fun js => js |}.

(** A knee half a radian away from its packed position. *)
Definition knee : Joints.Joint := Joints.mkJoint (1 / 2) (1 / 2) 0 (1 / 2).

Definition jointedLeg : Joints.JointedLeg :=
  Joints.mkJointedLeg [knee] (Samples.freshPoser 0) [].

End JointSamples.

(** ** The manual pose, [src/pose_controller.cpp] *)

Module ManualPose.

Import Poser BodyPose.

(** The pose reset modes the source names (the enumeration is declared in a
    header that is not among the sources). *)
Inductive PoseResetMode :=
  | NO_RESET | Z_AND_YAW_RESET | X_AND_Y_RESET | PITCH_AND_ROLL_RESET
  | ALL_RESET | IMMEDIATE_ALL_RESET.

(** The helpers of standard_includes.h, which is not among the sources, that
    [updateManualPose] calls. *)
Class ManualLib := {
  (** [sign(x)] *)
  sign : R -> R;
  (** [clamped(v, magnitude)] for a vector *)
  clampedVector : Vector3d -> R -> Vector3d
}.

(** The parameters [updateManualPose] reads. *)
Record ManualParameters := mkManualParameters {
  max_translation : Vector3d;          (* at("x"), at("y"), at("z") *)
  max_rotation : Vector3d;             (* at("roll"), at("pitch"), at("yaw") *)
  max_translation_velocity : R;
  max_rotation_velocity : R;
  manual_time_delta : R
}.

(** The members of [PoseController] that [updateManualPose] touches. *)
Record ManualPoser := mkManualPoser {
  manual_pose_ : Pose;
  default_pose_ : Pose;
  pose_reset_mode_ : PoseResetMode;
  translation_velocity_input_ : Vector3d;
  rotation_velocity_input_ : Vector3d
}.

(** [v[i]] for [i] in 0, 1, 2. *)
Definition axis (i : nat) (v : Vector3d) : R :=
  match i with 0%nat => vx v | 1%nat => vy v | _ => vz v end.

(** Lines 717 to 751: the axes the reset mode resets. *)
Definition reset_translation (mode : PoseResetMode) (i : nat) : bool :=
  match mode with
  | Z_AND_YAW_RESET => Nat.eqb i 2
  | X_AND_Y_RESET => Nat.eqb i 0 || Nat.eqb i 1
  | ALL_RESET => true
  | _ => false
  end.

Definition reset_rotation (mode : PoseResetMode) (i : nat) : bool :=
  match mode with
  | Z_AND_YAW_RESET => Nat.eqb i 2
  | PITCH_AND_ROLL_RESET => Nat.eqb i 0 || Nat.eqb i 1
  | ALL_RESET => true
  | _ => false
  end.

(** Lines 756 to 779: the velocity input of an axis that is reset is
    overridden, toward the default. *)
Definition overrideInput (reset : bool) (position default input : R) : R :=
  if reset then
    if Rltb position default then 1
    else if Rltb default position then -1
    else input
  else input.

Definition overrideInputs (reset : nat -> bool) (position default input : Vector3d)
    : Vector3d :=
  mkV3 (overrideInput (reset 0%nat) (vx position) (vx default) (vx input))
       (overrideInput (reset 1%nat) (vy position) (vy default) (vy input))
       (overrideInput (reset 2%nat) (vz position) (vz default) (vz input)).

(** Lines 795 to 833, for one axis: the limit of the position in the
    direction of the velocity, and the velocity that stops at it. *)
Definition positionLimit `{ManualLib} (reset : bool) (default max velocity : R)
    : R :=
  let limit := sign velocity * max in
  if reset && Rltb default max && Rltb (- max) default then default else limit.

Definition limitedVelocity `{ManualLib} (reset : bool)
    (position default max velocity new_position time_delta : R) : R :=
  let limit := positionLimit reset default max velocity in
  let positive_velocity := Rltb 0 (sign velocity) in
  let exceeds_positive_limit := positive_velocity && Rltb limit new_position in
  let exceeds_negative_limit :=
    negb positive_velocity && Rltb new_position limit in
  if exceeds_positive_limit || exceeds_negative_limit
  then (limit - position) / time_delta
  else velocity.

Definition limitedVelocities `{ManualLib} (reset : nat -> bool)
    (position default max velocity new_position : Vector3d) (time_delta : R)
    : Vector3d :=
  mkV3
    (limitedVelocity (reset 0%nat) (vx position) (vx default) (vx max)
       (vx velocity) (vx new_position) time_delta)
    (limitedVelocity (reset 1%nat) (vy position) (vy default) (vy max)
       (vy velocity) (vy new_position) time_delta)
    (limitedVelocity (reset 2%nat) (vz position) (vz default) (vz max)
       (vz velocity) (vz new_position) time_delta).

(** The velocity inputs after the override of the reset mode. *)
Definition translationInput `{QuatAngles} (s : ManualPoser) : Vector3d :=
  overrideInputs (reset_translation (pose_reset_mode_ s))
    (position_ (manual_pose_ s)) (position_ (default_pose_ s))
    (translation_velocity_input_ s).

Definition rotationInput `{QuatAngles} (s : ManualPoser) : Vector3d :=
  overrideInputs (reset_rotation (pose_reset_mode_ s))
    (toEulerAngles (rotation_ (manual_pose_ s)))
    (toEulerAngles (rotation_ (default_pose_ s)))
    (rotation_velocity_input_ s).

(** Line 781: the translation velocity before the limits. *)
Definition translationVelocity `{QuatAngles} `{ManualLib}
    (params : ManualParameters) (s : ManualPoser) : Vector3d :=
  max_translation_velocity params *v clampedVector (translationInput s) 1.

Definition rotationVelocity `{QuatAngles} `{ManualLib}
    (params : ManualParameters) (s : ManualPoser) : Vector3d :=
  max_rotation_velocity params *v clampedVector (rotationInput s) 1.

(** [PoseController::updateManualPose] *)
Definition updateManualPose `{QuatLib} `{QuatAngles} `{ManualLib}
    (params : ManualParameters) (s : ManualPoser) : ManualPoser :=
  match pose_reset_mode_ s with
  | IMMEDIATE_ALL_RESET =>
      mkManualPoser (default_pose_ s) (default_pose_ s)
        (pose_reset_mode_ s) (translation_velocity_input_ s)
        (rotation_velocity_input_ s)
  | mode =>
      let translation_position := position_ (manual_pose_ s) in
      let rotation_position := rotation_ (manual_pose_ s) in
      let default_translation := position_ (default_pose_ s) in
      let default_rotation := toEulerAngles (rotation_ (default_pose_ s)) in
      let time_delta := manual_time_delta params in
      (* override posing velocity commands depending on pose reset mode *)
      let translation_velocity_input := translationInput s in
      let rotation_velocity_input := rotationInput s in
      let translation_velocity := translationVelocity params s in
      let rotation_velocity := rotationVelocity params s in
      let new_translation_position :=
        translation_position +v time_delta *v translation_velocity in
      let new_rotation_position :=
        Quat_mul rotation_position
          (Quat_of_vector (time_delta *v rotation_velocity)) in
      (* zero velocity input depending on position limitations *)
      let translation_velocity :=
        limitedVelocities (reset_translation mode) translation_position
          default_translation (max_translation params) translation_velocity
          new_translation_position time_delta in
      let rotation_velocity :=
        limitedVelocities (reset_rotation mode)
          (toEulerAngles rotation_position) default_rotation
          (max_rotation params) rotation_velocity
          (toEulerAngles new_rotation_position) time_delta in
      (* update position according to limitations *)
      mkManualPoser
        (mkPose (translation_position +v time_delta *v translation_velocity)
           (Quat_mul rotation_position
              (Quat_of_vector (time_delta *v rotation_velocity))))
        (default_pose_ s) mode translation_velocity_input
        rotation_velocity_input
  end.

End ManualPose.

(** Sample collaborators and states of the manual posing. *)
Module ManualSamples.

(** The sign of a number, zero for zero, and the clamp of every component of
    a vector. *)
Definition manualLib : ManualPose.ManualLib :=
  {| ManualPose.sign := fun x =>
       if Rlt_dec 0 x then 1 else if Rlt_dec x 0 then -1 else 0;
     ManualPose.clampedVector := fun v m =>
       mkV3 (clamped (vx v) (- m) m) (clamped (vy v) (- m) m)
         (clamped (vz v) (- m) m) |}.

Definition manualParameters : ManualPose.ManualParameters :=
  ManualPose.mkManualParameters (mkV3 (1 / 20) (1 / 20) (1 / 20))
    (mkV3 (1 / 5) (1 / 5) (1 / 5)) (1 / 10) (1 / 2) (1 / 50).

(** The body pushed ahead at full input, four centimetres off centre. *)
Definition manualPoser : ManualPose.ManualPoser :=
  ManualPose.mkManualPoser (mkPose (mkV3 (1 / 25) 0 0) Quat_Identity)
    Pose_identity ManualPose.NO_RESET (mkV3 1 0 0) v3zero.

End ManualSamples.

(** ** The posing phase length, [src/pose_controller.cpp] *)

Module PosePhases.

Import Poser.

(** [roundToEvenInt] of standard_includes.h, which is not among the
    sources. *)
Class RoundLib := {
  roundToEvenInt : R -> Z
}.

(** The parameters lines 60 to 79 of [setAutoPoseParams] read besides the
    time of a tick and the step frequency.  The phases are integers: the
    source adds them into an [int] and casts one to [double] to divide. *)
Record PhaseParameters := mkPhaseParameters {
  pose_frequency : R;
  stance_phase : Z;
  swing_phase : Z;
  pose_phase_length : Z
}.

(** Lines 66 to 77: the base phase length and the raw phase length. *)
Definition base_phase_length (ap : PhaseParameters) : Z :=
  if Reqb (pose_frequency ap) (-1)
  then (stance_phase ap + swing_phase ap)%Z (* use step cycle parameters *)
  else pose_phase_length ap.

Definition raw_phase_length (ap : PhaseParameters) (c : PoseController) : R :=
  if Reqb (pose_frequency ap) (-1) then
    let swing_ratio := IZR (swing_phase ap) / IZR (base_phase_length ap) in
    ((1 / step_frequency (params_ c)) / time_delta (params_ c)) / swing_ratio
  else (1 / pose_frequency ap) / time_delta (params_ c).

(** [PoseController::setAutoPoseParams], lines 60 to 79: the posing phase
    length and the normaliser; [None] when the integer division by the base
    phase length divides by zero. *)
Definition setAutoPoseParams `{RoundLib} (ap : PhaseParameters)
    (c : PoseController) : option PoseController :=
  let pose_frequency_ := pose_frequency ap in
  let base_phase_length := base_phase_length ap in
  let raw_phase_length := raw_phase_length ap c in
  let pose_phase_length_ :=
    (roundToEvenInt (raw_phase_length / IZR base_phase_length)
     * base_phase_length)%Z in
  if (base_phase_length =? 0)%Z then None
  else
    let normaliser_ := Z.quot pose_phase_length_ base_phase_length in
    Some
      (mkPoseController (params_ c) (model_ c) (reset_transition_sequence_ c)
         (first_sequence_execution_ c) (transition_step_ c)
         (transition_step_count_ c) (set_target_ c) (proximity_alert_ c)
         (horizontal_transition_complete_ c) (vertical_transition_complete_ c)
         (legs_completed_step_ c) (current_group_ c) (impedance_pose_ c)
         (auto_posing_state_ c) pose_frequency_ pose_phase_length_ normaliser_
         (ros_shutdown c)).

End PosePhases.

(** The phases of the sample gait, and a rounding to the nearest even
    integer. *)
Module PhaseSamples.

Definition roundLib : PosePhases.RoundLib :=
  {| PosePhases.roundToEvenInt := fun x => (2 * truncToInt (x / 2 + 1 / 2))%Z |}.

(** Posing synchronised with a step cycle of two parts of stance and two of
    swing. *)
Definition synchronised : PosePhases.PhaseParameters :=
  PosePhases.mkPhaseParameters (-1) 2 2 0.

(** Posing every two seconds, over a cycle of four parts. *)
Definition timed : PosePhases.PhaseParameters :=
  PosePhases.mkPhaseParameters (1 / 2) 2 2 4.

End PhaseSamples.

(** ** The legs of a stopped walker *)

(** The step state the leg state machine selects at phase zero: SWING when
    phase zero lies in the swing window, STANCE otherwise. *)
Definition stoppedStepState (w : Walker.WalkController) : Walker.StepState :=
  if (Walker.swingStart w <=? 0)%Z && (0 <? Walker.swingEnd w)%Z
  then Walker.SWING else Walker.STANCE.

(** A leg stepper at the end of a tick of a stopped walker: at phase zero,
    with neither flag set, in the step state selected at phase zero. *)
Definition stoppedLeg (w : Walker.WalkController) (ls : Walker.LegStepper)
    : Prop :=
  Walker.phase ls = 0%Z
  /\ Walker.state ls = stoppedStepState w
  /\ Walker.inCorrectPhase ls = false
  /\ Walker.completedFirstStep ls = false.

(** Sample walkers that come to a stop, or stand with an even gait. *)
Module StoppedSamples.

(** A leg that has made its extra step after the stopping signal: held at
    the end of the swing window, in FORCE_STOP, with both flags set. *)
Definition extraStepLeg (l : nat) (offset : Z) : Walker.LegStepper :=
  Walker.set_completedFirstStep true
    (Walker.set_inCorrectPhase true
       (Walker.set_state Walker.FORCE_STOP
          (Walker.set_phase 39 (Samples.stepperAt l offset)))).

(** The front left leg back at phase zero after its extra step. *)
Definition returnedLeg : Walker.LegStepper :=
  Walker.set_completedFirstStep true
    (Walker.set_inCorrectPhase true (Samples.stepperAt 0 0)).

(** The sample walker at the end of STOPPING: every leg has met its
    target. *)
Definition stoppingWalker : Walker.WalkController :=
  Walker.set_walkState Walker.STOPPING
    (Walker.set_legsInCorrectPhase 6
       (Walker.set_legSteppers
          [returnedLeg; extraStepLeg 0 26; extraStepLeg 1 26;
           extraStepLeg 1 0; extraStepLeg 2 0; extraStepLeg 2 26]
          Samples.walker)).

(** The tripod gait written with a stance and a swing phase of one part
    each. *)
Definition evenGait : Walker.Parameters :=
  Walker.mkParameters 1 1 1 1 [0; 1; 1; 0; 0; 1]%Z (1 / 2) (2 / 5).

(** The sample walker with the even gait, as [setGaitParams] sets it up: a
    phase length of 50 ticks and the swing window [[0, 25)]. *)
Definition evenWalker : Walker.WalkController :=
  Walker.mkWalkController evenGait Walker.STOPPED
    (1 / 10) (1 / 20) (1 / 2) (1 / 50) 1
    50 0 0 25 25
    (2 / 5) (1 / 10) (3 / 10) (mkV2 0 0) 0 0 0
    [Samples.stepperAt 0 0; Samples.stepperAt 0 25; Samples.stepperAt 1 25;
     Samples.stepperAt 1 0; Samples.stepperAt 2 0; Samples.stepperAt 2 25]
    (mkPose (mkV3 0 0 (1 / 5)) Quat_Identity).

End StoppedSamples.

(** A sample of the sequencer past the end of its sequence. *)
Module SequencerSamples.


End SequencerSamples.

(** * Properties *)

(** ** Real numbers and vectors *)

Lemma Rltb_true (x y : R) : Rltb x y = true <-> x < y.
Proof. unfold Rltb; destruct (Rlt_dec x y); split; intros; try easy. Qed.

Lemma Rltb_false (x y : R) : Rltb x y = false <-> y <= x.
Proof.
  unfold Rltb; destruct (Rlt_dec x y); split; intros; try easy; lra.
Qed.

Lemma Reqb_true (x y : R) : Reqb x y = true <-> x = y.
Proof. unfold Reqb; destruct (Req_dec_T x y); split; intros; easy. Qed.

Lemma Reqb_false (x y : R) : Reqb x y = false <-> x <> y.
Proof. unfold Reqb; destruct (Req_dec_T x y); split; intros; easy. Qed.

Lemma truncToInt_nonneg (x : R) : 0 <= x -> (0 <= truncToInt x)%Z.
Proof.
  intros Hx. unfold truncToInt. destruct (Rle_dec 0 x) as [_|]; [|easy].
  destruct (base_Int_part x) as [_ Hlow].
  assert (Hgt : IZR (-1) < IZR (Int_part x)) by (simpl; lra).
  apply lt_IZR in Hgt. lia.
Qed.

Lemma truncToInt_IZR (z : Z) : truncToInt (IZR z) = z.
Proof.
  unfold truncToInt. destruct (Rle_dec 0 (IZR z)).
  - symmetry. apply Int_part_spec. lra.
  - rewrite <- opp_IZR. rewrite <- (Int_part_spec (IZR (- z)) (- z)); [lia|lra].
Qed.

Lemma v2_eq (a b : Vector2d) : v2x a = v2x b -> v2y a = v2y b -> a = b.
Proof. destruct a, b; simpl; intros; subst; reflexivity. Qed.

Lemma v3_eq (a b : Vector3d) :
  vx a = vx b -> vy a = vy b -> vz a = vz b -> a = b.
Proof. destruct a, b; simpl; intros; subst; reflexivity. Qed.

Lemma v2norm_zero : v2norm (mkV2 0 0) = 0.
Proof.
  unfold v2norm; simpl. replace (0 * 0 + 0 * 0) with 0 by ring. apply sqrt_0.
Qed.

Lemma v2norm_scale (a : Vector2d) (k : R) :
  v2norm (v2scale a k) = Rabs k * v2norm a.
Proof.
  unfold v2norm, v2scale; simpl.
  replace (v2x a * k * (v2x a * k) + v2y a * k * (v2y a * k))
    with (Rsqr k * (v2x a * v2x a + v2y a * v2y a)) by (unfold Rsqr; ring).
  rewrite sqrt_mult_alt by apply Rle_0_sqr.
  rewrite sqrt_Rsqr_abs. reflexivity.
Qed.

(** ** The Bezier control nodes *)

Section ControlNodes.

Import Walker.

Variable w : WalkController.
Variable strideVector : Vector3d.
Variable s : LegStepper.

(** The primary swing curve ends above the default tip position, at the
    height of the swing origin raised by the swing height. *)
Lemma generateSwingControlNodes_apex :
  node 4 (swing1ControlNodes (generateSwingControlNodes w strideVector s))
  = mkV3 (vx (defaultTipPosition s)) (vy (defaultTipPosition s))
      (vz (swingOriginTipPosition s) + stepClearance w * maximumBodyHeight w).
Proof. reflexivity. Qed.

(** The two swing curves meet: the seam within the swing is continuous. *)
Lemma generateSwingControlNodes_seam :
  node 0 (swing2ControlNodes (generateSwingControlNodes w strideVector s))
  = node 4 (swing1ControlNodes (generateSwingControlNodes w strideVector s)).
Proof. reflexivity. Qed.

Local Notation "'stance''" :=
  (stanceControlNodes (generateStanceControlNodes w strideVector s)).

(** C3: with stance origin [O], stride vector [s], default tip position [D]
    and stance depth [h_s = stepDepth * maximumBodyHeight],
    [generateStanceControlNodes] sets node 0 to [O]; node 4 to [O - s]
    horizontally and to [D_z] vertically; nodes 1, 2 and 3 horizontally to
    node 4 plus 3/4, 1/2 and 1/4 of (node 0 - node 4); and vertically
    node 2 to [O_z - h_s], node 1 to the mean of nodes 0 and 2, node 3 to
    the mean of nodes 4 and 2. *)
Theorem generateStanceControlNodes_nodes :
  node 0 stance' = stanceOriginTipPosition s
  /\ horizontal (node 4 stance')
     = v2sub (horizontal (stanceOriginTipPosition s)) (horizontal strideVector)
  /\ vz (node 4 stance') = vz (defaultTipPosition s)
  /\ horizontal (node 1 stance')
     = v2add (horizontal (node 4 stance'))
         (v2scale
            (v2sub (horizontal (node 0 stance')) (horizontal (node 4 stance')))
            (3 / 4))
  /\ horizontal (node 2 stance')
     = v2add (horizontal (node 4 stance'))
         (v2scale
            (v2sub (horizontal (node 0 stance')) (horizontal (node 4 stance')))
            (1 / 2))
  /\ horizontal (node 3 stance')
     = v2add (horizontal (node 4 stance'))
         (v2scale
            (v2sub (horizontal (node 0 stance')) (horizontal (node 4 stance')))
            (1 / 4))
  /\ vz (node 2 stance')
     = vz (stanceOriginTipPosition s) - stepDepth w * maximumBodyHeight w
  /\ vz (node 1 stance') = (vz (node 0 stance') + vz (node 2 stance')) / 2
  /\ vz (node 3 stance') = (vz (node 4 stance') + vz (node 2 stance')) / 2.
Proof.
  unfold generateStanceControlNodes; simpl.
  repeat split; try reflexivity.
  - apply v3_eq; reflexivity.
  - apply v2_eq; simpl; lra.
  - apply v2_eq; simpl; lra.
  - apply v2_eq; simpl; lra.
Qed.

End ControlNodes.

(** ** The walk-state machine *)

Section WalkCycle.

Import Walker.

Context `{StandardIncludes} `{Kinematics} `{QuatLib}.

(** The velocity update leaves the state machine's variables alone. *)
Lemma updateVelocities_frame (v : Vector2d) (k : R) (w : WalkController) :
  walkState (updateVelocities v k w) = walkState w
  /\ legsInCorrectPhase (updateVelocities v k w) = legsInCorrectPhase w
  /\ legsCompletedFirstStep (updateVelocities v k w) = legsCompletedFirstStep w
  /\ legSteppers (updateVelocities v k w) = legSteppers w
  /\ timeDelta (updateVelocities v k w) = timeDelta w
  /\ swingStart (updateVelocities v k w) = swingStart w
  /\ swingEnd (updateVelocities v k w) = swingEnd w
  /\ stanceStart (updateVelocities v k w) = stanceStart w
  /\ stanceEnd (updateVelocities v k w) = stanceEnd w.
Proof.
  unfold updateVelocities.
  repeat match goal with
         | |- context [if ?b then _ else _] => destruct b
         end; simpl; repeat split; reflexivity.
Qed.

(** The robot state machine changes nothing of the walk controller but its
    two counters. *)
Lemma robotStateMachineLeg_frame (w : WalkController) (i : nat) (leg : Leg)
    (ls : LegStepper) :
  sameButCounters w (fst (robotStateMachineLeg w i leg ls)).
Proof.
  unfold robotStateMachineLeg, sameButCounters.
  destruct w as [p ws]; simpl. destruct ws; simpl;
    repeat match goal with
           | |- context [if ?b then _ else _] => destruct b; simpl
           end; reflexivity.
Qed.

Lemma sameButCounters_refl (w : WalkController) : sameButCounters w w.
Proof. destruct w; reflexivity. Qed.

Lemma sameButCounters_trans (a b c : WalkController) :
  sameButCounters a b -> sameButCounters b c -> sameButCounters a c.
Proof.
  unfold sameButCounters. intros Hab Hbc. rewrite Hbc at 1. rewrite Hab at 1.
  destruct a; reflexivity.
Qed.

Lemma robotStateMachine_frame (legs : list Leg) :
  forall (lss : list LegStepper) (w : WalkController) (i : nat),
    sameButCounters w (fst (robotStateMachine w i legs lss)).
Proof.
  induction legs as [|leg legs IH]; intros lss w i; simpl.
  - apply sameButCounters_refl.
  - destruct lss as [|ls lss]; simpl; [apply sameButCounters_refl|].
    pose proof (robotStateMachineLeg_frame w i leg ls) as Hleg.
    destruct (robotStateMachineLeg w i leg ls) as [w1 ls1]; simpl in Hleg.
    pose proof (IH lss w1 (S i)) as Hrest.
    destruct (robotStateMachine w1 (S i) legs lss) as [w2 rest]; simpl in *.
    eapply sameButCounters_trans; eauto.
Qed.

Lemma sameButCounters_walkState (a b : WalkController) :
  sameButCounters a b -> walkState b = walkState a.
Proof. unfold sameButCounters; intros ->; reflexivity. Qed.

(** While MOVING or STOPPED no leg touches the counters. *)
Lemma robotStateMachine_counters (legs : list Leg) :
  forall (lss : list LegStepper) (w : WalkController) (i : nat),
    walkState w = MOVING \/ walkState w = STOPPED ->
    fst (robotStateMachine w i legs lss) = w.
Proof.
  induction legs as [|leg legs IH]; intros lss w i Hst; simpl; [reflexivity|].
  destruct lss as [|ls lss]; simpl; [reflexivity|].
  assert (Hleg : fst (robotStateMachineLeg w i leg ls) = w).
  { unfold robotStateMachineLeg. destruct Hst as [-> | ->]; reflexivity. }
  destruct (robotStateMachineLeg w i leg ls) as [w1 ls1]; simpl in Hleg; subst w1.
  pose proof (IH lss w (S i) Hst) as Hrest.
  destruct (robotStateMachine w (S i) legs lss) as [w2 rest]; simpl in *.
  assumption.
Qed.

(** The walk controller at the end of a tick: the state machine's variables
    are those the robot state machine loop leaves, the velocities those of
    the velocity update. *)
Lemma updateWalk_body_fields (v : Vector2d) (k : R) (dz : list R)
    (w : WalkController) (m : list Leg) :
  walkState (fst (updateWalk_body v k dz w m))
  = walkState (updateWalkState (normalSpeed w v) w)
  /\ legsInCorrectPhase (fst (updateWalk_body v k dz w m))
     = legsInCorrectPhase
         (fst (robotStateMachine
                 (updateWalkState (normalSpeed w v) (updateVelocities v k w)) 0 m
                 (legSteppers
                    (updateWalkState (normalSpeed w v) (updateVelocities v k w)))))
  /\ legsCompletedFirstStep (fst (updateWalk_body v k dz w m))
     = legsCompletedFirstStep
         (fst (robotStateMachine
                 (updateWalkState (normalSpeed w v) (updateVelocities v k w)) 0 m
                 (legSteppers
                    (updateWalkState (normalSpeed w v) (updateVelocities v k w)))))
  /\ localCentreVelocity (fst (updateWalk_body v k dz w m))
     = localCentreVelocity (updateVelocities v k w)
  /\ angularVelocity (fst (updateWalk_body v k dz w m))
     = angularVelocity (updateVelocities v k w)
  /\ params (fst (updateWalk_body v k dz w m)) = params (updateVelocities v k w).
Proof.
  unfold updateWalk_body.
  set (w1 := updateWalkState (normalSpeed w v) (updateVelocities v k w)).
  pose proof (robotStateMachine_frame m (legSteppers w1) w1 0) as Hf.
  destruct (robotStateMachine w1 0 m (legSteppers w1)) as [w2 lss]; simpl in *.
  destruct (updateTips _ dz 0 m _) as [m3 lss3]; simpl.
  unfold sameButCounters in Hf. rewrite Hf; simpl.
  destruct (updateVelocities_frame v k w) as (Hws & Hc1 & Hc2 & _).
  subst w1. unfold updateWalkState. rewrite Hws, Hc1, Hc2.
  repeat match goal with
         | |- context [if ?b then _ else _] => destruct b; simpl
         end; rewrite ?Hws; repeat split; reflexivity.
Qed.

Lemma updateWalk_Some (v : Vector2d) (k : R) (dz : list R)
    (w : WalkController) (m : list Leg) :
  normalSpeed w v < 1.01 ->
  updateWalk v k dz w m = Some (updateWalk_body v k dz w m).
Proof.
  intros Hlt. unfold updateWalk.
  apply Rltb_true in Hlt. rewrite Hlt. reflexivity.
Qed.

Lemma updateWalk_inv (v : Vector2d) (k : R) (dz : list R)
    (w : WalkController) (m : list Leg) (w' : WalkController) (m' : list Leg) :
  updateWalk v k dz w m = Some (w', m') ->
  w' = fst (updateWalk_body v k dz w m).
Proof.
  unfold updateWalk. destruct (Rltb _ _); [|discriminate].
  intros Heq. injection Heq as Heq. rewrite Heq. reflexivity.
Qed.

(** C1: in one tick of [updateWalk] the transitions of the walk state are
    tried in order and at most one is taken.  STOPPED becomes STARTING when
    the commanded speed is not zero, and on that entry every leg's phase is
    set to its phase offset minus one; STARTING becomes MOVING when both leg
    counters equal the leg count [NUM_LEGS = 6], and both counters are
    zero afterwards; MOVING becomes STOPPING when the commanded speed is
    zero; STOPPING becomes STOPPED when [legsInCorrectPhase] equals the leg
    count, and that counter is zero afterwards; in every other case the walk
    state after the tick is the walk state before it. *)
Theorem updateWalk_walk_state_transitions (v : Vector2d) (k : R)
    (dz : list R) (w : WalkController) (m : list Leg)
    (w' : WalkController) (m' : list Leg) :
  updateWalk v k dz w m = Some (w', m') ->
  (walkState w = STOPPED -> normalSpeed w v <> 0 ->
   walkState w' = STARTING
   /\ legSteppers (updateWalkState (normalSpeed w v) (updateVelocities v k w))
      = map (fun ls => set_phase (phaseOffset ls - 1)%Z ls) (legSteppers w))
  /\ (walkState w = STOPPED -> normalSpeed w v = 0 -> walkState w' = STOPPED)
  /\ (walkState w = STARTING ->
      legsInCorrectPhase w = NUM_LEGS -> legsCompletedFirstStep w = NUM_LEGS ->
      walkState w' = MOVING
      /\ legsInCorrectPhase w' = 0%Z /\ legsCompletedFirstStep w' = 0%Z)
  /\ (walkState w = STARTING ->
      ~ (legsInCorrectPhase w = NUM_LEGS /\ legsCompletedFirstStep w = NUM_LEGS) ->
      walkState w' = STARTING)
  /\ (walkState w = MOVING -> normalSpeed w v = 0 -> walkState w' = STOPPING)
  /\ (walkState w = MOVING -> normalSpeed w v <> 0 -> walkState w' = MOVING)
  /\ (walkState w = STOPPING -> legsInCorrectPhase w = NUM_LEGS ->
      walkState w' = STOPPED /\ legsInCorrectPhase w' = 0%Z)
  /\ (walkState w = STOPPING -> legsInCorrectPhase w <> NUM_LEGS ->
      walkState w' = STOPPING)
  /\ NUM_LEGS = 6%Z.
Proof.
  intros Hrun. apply updateWalk_inv in Hrun. subst w'.
  destruct (updateWalk_body_fields v k dz w m) as (Hws & Hc1 & Hc2 & _).
  destruct (updateVelocities_frame v k w) as (Vws & Vc1 & Vc2 & Vls & _).
  rewrite Hws, Hc1, Hc2. clear Hws Hc1 Hc2.
  set (speed := normalSpeed w v).
  assert (Hmoving : walkState w = STARTING ->
            legsInCorrectPhase w = NUM_LEGS -> legsCompletedFirstStep w = NUM_LEGS ->
            updateWalkState speed (updateVelocities v k w)
            = set_walkState MOVING
                (set_legsCompletedFirstStep 0
                   (set_legsInCorrectPhase 0 (updateVelocities v k w)))).
  { intros Hst E1 E2. unfold updateWalkState.
    rewrite Vws, Vc1, Vc2, Hst, E1, E2. reflexivity. }
  assert (Hstopped : walkState w = STOPPING -> legsInCorrectPhase w = NUM_LEGS ->
            updateWalkState speed (updateVelocities v k w)
            = set_walkState STOPPED
                (set_legsInCorrectPhase 0 (updateVelocities v k w))).
  { intros Hst E1. unfold updateWalkState.
    rewrite Vws, Vc1, Hst, E1. reflexivity. }
  repeat apply conj.
  - intros Hst Hsp. apply Reqb_false in Hsp.
    unfold updateWalkState. rewrite Vws, Hst, Hsp. simpl. rewrite Vls.
    split; reflexivity.
  - intros Hst Hsp. apply Reqb_true in Hsp.
    unfold updateWalkState. rewrite Hst, Hsp. simpl. exact Hst.
  - intros Hst E1 E2. rewrite (Hmoving Hst E1 E2).
    rewrite robotStateMachine_counters by (left; reflexivity).
    unfold updateWalkState. rewrite Hst, E1, E2. repeat split; reflexivity.
  - intros Hst Hn. unfold updateWalkState. rewrite Hst. simpl.
    destruct (legsInCorrectPhase w =? NUM_LEGS)%Z eqn:E1;
      destruct (legsCompletedFirstStep w =? NUM_LEGS)%Z eqn:E2;
      simpl; try exact Hst.
    exfalso. apply Hn. split; apply Z.eqb_eq; assumption.
  - intros Hst Hsp. apply Reqb_true in Hsp.
    unfold updateWalkState. rewrite Hst, Hsp. reflexivity.
  - intros Hst Hsp. apply Reqb_false in Hsp.
    unfold updateWalkState. rewrite Hst, Hsp. simpl. exact Hst.
  - intros Hst E1. rewrite (Hstopped Hst E1).
    rewrite robotStateMachine_counters by (right; reflexivity).
    unfold updateWalkState. rewrite Hst, E1. split; reflexivity.
  - intros Hst Hn. apply Z.eqb_neq in Hn.
    unfold updateWalkState. rewrite Hst, Hn. simpl. exact Hst.
  - reflexivity.
Qed.

End WalkCycle.

(** ** The sub-state of a leg *)

Section LegStateMachine.

Import Walker.

(** [setGaitParams] makes the stance window the complement of the swing
    window. *)
Lemma setGaitParams_windows `{StandardIncludes} (p : Parameters)
    (w w1 : WalkController) :
  setGaitParams p w = Some w1 ->
  stanceEnd w1 = swingStart w1 /\ stanceStart w1 = swingEnd w1.
Proof.
  unfold setGaitParams.
  destruct (Z.rem _ _ =? 0)%Z; [|discriminate].
  intros Heq. injection Heq as <-. split; reflexivity.
Qed.

(** C2, as the code has it: after the sub-state selection of a tick a leg in
    FORCE_STOP is still in FORCE_STOP, a leg in FORCE_STANCE is in STANCE,
    and every other leg is in SWING if and only if its phase lies in
    [[swingStart, swingEnd)] and in STANCE otherwise; the phase is not
    touched.  The stance window is the complement of the swing window, as
    [setGaitParams] sets it. *)
Theorem legStateMachineLeg_sub_state (w : WalkController) (ls : LegStepper) :
  stanceEnd w = swingStart w ->
  stanceStart w = swingEnd w ->
  (state ls = FORCE_STOP -> state (legStateMachineLeg w ls) = FORCE_STOP)
  /\ (state ls = FORCE_STANCE -> state (legStateMachineLeg w ls) = STANCE)
  /\ (state ls <> FORCE_STANCE -> state ls <> FORCE_STOP ->
      (state (legStateMachineLeg w ls) = SWING
       <-> (swingStart w <= phase ls < swingEnd w)%Z)
      /\ (~ (swingStart w <= phase ls < swingEnd w)%Z ->
          state (legStateMachineLeg w ls) = STANCE))
  /\ phase (legStateMachineLeg w ls) = phase ls.
Proof.
  intros Hend Hstart. unfold legStateMachineLeg. rewrite Hend, Hstart.
  assert (Hout : ((phase ls <? swingStart w)%Z || (swingEnd w <=? phase ls)%Z)
                 = negb ((swingStart w <=? phase ls)%Z && (phase ls <? swingEnd w)%Z)).
  { destruct (Z.ltb_spec (phase ls) (swingStart w));
      destruct (Z.leb_spec (swingEnd w) (phase ls));
      destruct (Z.leb_spec (swingStart w) (phase ls));
      destruct (Z.ltb_spec (phase ls) (swingEnd w)); simpl; try reflexivity; lia. }
  rewrite Hout.
  assert (Hin : ((swingStart w <=? phase ls)%Z && (phase ls <? swingEnd w)%Z) = true
                <-> (swingStart w <= phase ls < swingEnd w)%Z).
  { rewrite andb_true_iff, Z.leb_le, Z.ltb_lt. reflexivity. }
  repeat apply conj.
  - intros ->. reflexivity.
  - intros ->. reflexivity.
  - intros Hfs Hfp.
    destruct ((swingStart w <=? phase ls)%Z && (phase ls <? swingEnd w)%Z);
      destruct (state ls); try congruence; simpl.
    all: split;
      [ split; [ intros Hs; try reflexivity; try discriminate Hs; apply Hin; reflexivity
               | intros Hw; try reflexivity; apply Hin in Hw; discriminate Hw ]
      | intros Hn; try reflexivity; exfalso; apply Hn, Hin; reflexivity ].
  - repeat match goal with
           | |- context [if ?b then _ else _] => destruct b
           end; reflexivity.
Qed.

Lemma legStateMachineLeg_sub_state_witness :
  stanceEnd Samples.walker = swingStart Samples.walker
  /\ stanceStart Samples.walker = swingEnd Samples.walker
  /\ state (legStateMachineLeg Samples.walker
              (set_phase 20 (Samples.stepperAt 0 0))) = SWING.
Proof.
  split; [reflexivity | split; [reflexivity | ]].
  destruct (legStateMachineLeg_sub_state Samples.walker
              (set_phase 20 (Samples.stepperAt 0 0)) eq_refl eq_refl)
    as (_ & _ & Hsel & _).
  apply Hsel; simpl; [discriminate | discriminate | lia].
Defined.

(** C2, as the claim has it, fails on a leg in FORCE_STANCE: the selection
    does not keep that state. *)
Lemma legStateMachineLeg_force_stance_not_kept :
  state Samples.heldLeg = FORCE_STANCE
  /\ state (legStateMachineLeg Samples.walker Samples.heldLeg)
     <> state Samples.heldLeg.
Proof. split; [reflexivity | discriminate]. Qed.

(** C4 at a leg whose swing starts a centimetre above the default height:
    the primary swing curve ends at the height of the swing origin plus the
    swing height, and not at the default height plus the swing height. *)
Theorem generateSwingControlNodes_apex_at_lifted_leg :
  horizontal
    (node 4 (swing1ControlNodes
               (generateSwingControlNodes Samples.walker v3zero Samples.liftedLeg)))
  = horizontal (defaultTipPosition Samples.liftedLeg)
  /\ vz (node 4 (swing1ControlNodes
                   (generateSwingControlNodes Samples.walker v3zero
                      Samples.liftedLeg)))
     = - (3 / 20)
  /\ vz (defaultTipPosition Samples.liftedLeg)
     + stepClearance Samples.walker * maximumBodyHeight Samples.walker
     = - (4 / 25).
Proof.
  repeat apply conj.
  - reflexivity.
  - rewrite generateSwingControlNodes_apex. simpl. lra.
  - simpl. lra.
Qed.

End LegStateMachine.

(** ** The velocity limiter *)

Section VelocityLimits.

Import Walker.

Context `{StandardIncludes} `{Kinematics} `{QuatLib}.

(** A step of length [n > 0] scaled by [min(1, B / n)] is no longer than
    [B]. *)
Lemma Rmin_scale_bound (n B : R) :
  0 <= B -> 0 < n -> Rabs (Rmin 1 (B / n)) * n <= B.
Proof.
  intros HB Hn.
  assert (Hq : 0 <= B / n) by (apply Rmult_le_pos; [lra | left; apply Rinv_0_lt_compat; lra]).
  assert (Hqn : B / n * n = B) by (field; lra).
  unfold Rmin. destruct (Rle_dec 1 (B / n)) as [Hle | Hgt].
  - rewrite Rabs_R1. nra.
  - rewrite Rabs_pos_eq by lra. lra.
Qed.

Lemma limited_step_norm (a : Vector2d) (B : R) :
  0 <= B -> 0 < v2norm a ->
  v2norm (v2scale a (Rmin 1 (B / v2norm a))) <= B.
Proof.
  intros HB Hn. rewrite v2norm_scale. apply Rmin_scale_bound; assumption.
Qed.

Lemma limited_step_abs (d B : R) :
  0 <= B -> 0 < Rabs d -> Rabs (d * Rmin 1 (B / Rabs d)) <= B.
Proof.
  intros HB Hd. rewrite Rabs_mult, Rmult_comm.
  apply Rmin_scale_bound; assumption.
Qed.

Lemma v2add_sub_cancel (a b : Vector2d) : v2sub (v2add a b) a = b.
Proof. apply v2_eq; simpl; ring. Qed.

Lemma v2sub_self (a : Vector2d) : v2sub a a = mkV2 0 0.
Proof. unfold v2sub; f_equal; ring. Qed.

(** The angular velocity after the velocity update. *)
Lemma updateVelocities_angular (v : Vector2d) (k : R) (w : WalkController) :
  angularVelocity (updateVelocities v k w)
  = if Rltb 0 (Rabs (k * normalSpeed w v / stanceRadius w - angularVelocity w))
    then angularVelocity w
         + (k * normalSpeed w v / stanceRadius w - angularVelocity w)
           * Rmin 1 (maxCurvatureSpeed (params w) * timeDelta w
                     / Rabs (k * normalSpeed w v / stanceRadius w
                             - angularVelocity w))
    else angularVelocity w.
Proof.
  unfold updateVelocities, normalSpeed.
  repeat match goal with
         | |- context [if ?b then _ else _] => destruct b; simpl
         end; reflexivity.
Qed.

(** The linear velocity after the velocity update. *)
Lemma updateVelocities_linear (v : Vector2d) (k : R) (w : WalkController) :
  localCentreVelocity (updateVelocities v k w)
  = if Rltb 0 (v2norm (v2sub (v2scale (localVelocity w v) (1 - Rabs k))
                         (localCentreVelocity w)))
    then v2add (localCentreVelocity w)
           (v2scale
              (v2sub (v2scale (localVelocity w v) (1 - Rabs k))
                 (localCentreVelocity w))
              (Rmin 1
                 (maxAcceleration (deriveMaxAcceleration w) * timeDelta w
                  / v2norm (v2sub (v2scale (localVelocity w v) (1 - Rabs k))
                              (localCentreVelocity w)))))
    else localCentreVelocity w.
Proof.
  unfold updateVelocities.
  destruct (Rltb 0 (Rabs _)); simpl;
    destruct (Rltb 0 (v2norm _)); simpl; reflexivity.
Qed.

Lemma updateVelocities_params (v : Vector2d) (k : R) (w : WalkController) :
  params (updateVelocities v k w) = deriveMaxAcceleration w.
Proof.
  unfold updateVelocities.
  destruct (Rltb 0 (Rabs _)); simpl;
    destruct (Rltb 0 (v2norm _)); simpl; reflexivity.
Qed.

(** C5: in a tick of [updateWalk] the commanded velocity is the input scaled
    by [2 * minFootprintRadius * stepFrequency / onGroundRatio] when the
    walk state is not STOPPING, and zero when it is.  The linear body
    velocity changes by a vector of norm at most the acceleration limit in
    force times [timeDelta], and the angular velocity by at most
    [maxCurvatureSpeed * timeDelta]; the two limits are not negative. *)
Theorem updateWalk_velocity_limits (v : Vector2d) (k : R) (dz : list R)
    (w : WalkController) (m : list Leg) (w' : WalkController) (m' : list Leg) :
  updateWalk v k dz w m = Some (w', m') ->
  0 <= maxAcceleration (deriveMaxAcceleration w) * timeDelta w ->
  0 <= maxCurvatureSpeed (params w) * timeDelta w ->
  (walkState w <> STOPPING ->
   localVelocity w v
   = v2scale v (2 * minFootprintRadius w * stepFrequency w / onGroundRatio w))
  /\ (walkState w = STOPPING -> localVelocity w v = mkV2 0 0)
  /\ v2norm (v2sub (localCentreVelocity w') (localCentreVelocity w))
     <= maxAcceleration (params w') * timeDelta w
  /\ Rabs (angularVelocity w' - angularVelocity w)
     <= maxCurvatureSpeed (params w) * timeDelta w
  /\ params w' = deriveMaxAcceleration w.
Proof.
  intros Hrun HA HC. apply updateWalk_inv in Hrun. subst w'.
  destruct (updateWalk_body_fields v k dz w m) as (_ & _ & _ & Hl & Ha & Hp).
  rewrite Hl, Ha, Hp, updateVelocities_params. clear Hl Ha Hp.
  repeat apply conj.
  - intros Hst. unfold localVelocity.
    destruct (walkState w); try congruence; simpl;
      apply v2_eq; simpl; unfold Rdiv; ring.
  - intros Hst. unfold localVelocity. rewrite Hst. reflexivity.
  - rewrite updateVelocities_linear.
    destruct (Rltb 0 (v2norm _)) eqn:E.
    + rewrite v2add_sub_cancel. apply limited_step_norm; [assumption|].
      apply Rltb_true. assumption.
    + rewrite v2sub_self, v2norm_zero. assumption.
  - rewrite updateVelocities_angular.
    destruct (Rltb 0 (Rabs _)) eqn:E.
    + match goal with
      | |- Rabs (?a + ?d * ?r - ?a) <= _ =>
          replace (a + d * r - a) with (d * r) by ring
      end.
      apply limited_step_abs; [assumption|]. apply Rltb_true. assumption.
    + replace (angularVelocity w - angularVelocity w) with 0 by ring.
      rewrite Rabs_R0. assumption.
  - reflexivity.
Qed.

End VelocityLimits.

(** ** The stopped walker *)

Section Stopped.

Import Walker.

Context `{StandardIncludes} `{Kinematics} `{QuatLib}.

Lemma Forall2_compose {A : Type} (P Q R : A -> A -> Prop) :
  (forall a b c, P a b -> Q b c -> R a c) ->
  forall l1 l2 l3, Forall2 P l1 l2 -> Forall2 Q l2 l3 -> Forall2 R l1 l3.
Proof.
  intros Hcomp l1 l2 l3 H12. revert l3.
  induction H12 as [|a b l1 l2 Hab _ IH]; intros l3 H23; inversion H23; subst.
  - constructor.
  - constructor; eauto.
Qed.

Lemma Forall2_right {A : Type} (P : A -> A -> Prop) (Q : A -> Prop) :
  (forall a b, P a b -> Q b) ->
  forall l1 l2, Forall2 P l1 l2 -> Forall Q l2.
Proof.
  intros Himp l1 l2 Hall. induction Hall; constructor; eauto.
Qed.

Lemma Forall2_map_right {A : Type} (P : A -> A -> Prop) (f : A -> A) :
  (forall a, P a (f a)) -> forall l, Forall2 P l (map f l).
Proof. intros Hf l. induction l; simpl; constructor; auto. Qed.

Lemma tipNotAdvanced_refl (ls : LegStepper) : tipNotAdvanced ls ls.
Proof. unfold tipNotAdvanced. repeat split; reflexivity. Qed.

Lemma tipNotAdvanced_trans (a b c : LegStepper) :
  tipNotAdvanced a b -> tipNotAdvanced b c -> tipNotAdvanced a c.
Proof.
  unfold tipNotAdvanced.
  intros (A1 & A2 & A3 & A4 & A5 & A6 & A7 & A8 & A9)
         (B1 & B2 & B3 & B4 & B5 & B6 & B7 & B8 & B9).
  repeat split; congruence.
Qed.

(** While STOPPED the robot state machine puts a leg at rest. *)
Lemma robotStateMachineLeg_stopped (w : WalkController) (i : nat) (leg : Leg)
    (ls : LegStepper) :
  walkState w = STOPPED ->
  fst (robotStateMachineLeg w i leg ls) = w
  /\ atRest (snd (robotStateMachineLeg w i leg ls))
  /\ tipNotAdvanced ls (snd (robotStateMachineLeg w i leg ls)).
Proof.
  intros Hst. unfold robotStateMachineLeg. rewrite Hst. simpl.
  unfold atRest, tipNotAdvanced. simpl. repeat split; reflexivity.
Qed.

Lemma robotStateMachine_stopped (legs : list Leg) :
  forall (lss : list LegStepper) (w : WalkController) (i : nat),
    walkState w = STOPPED ->
    (length lss <= length legs)%nat ->
    Forall2 (fun ls ls' => atRest ls' /\ tipNotAdvanced ls ls') lss
      (snd (robotStateMachine w i legs lss)).
Proof.
  induction legs as [|leg legs IH]; intros lss w i Hst Hlen.
  - destruct lss; simpl in *; [constructor | lia].
  - destruct lss as [|ls lss]; simpl in *; [constructor|].
    destruct (robotStateMachineLeg_stopped w i leg ls Hst) as (Hw & Hrest & Htip).
    destruct (robotStateMachineLeg w i leg ls) as [w1 ls1]; simpl in *. subst w1.
    assert (Hlen' : (length lss <= length legs)%nat) by lia.
    pose proof (IH lss w (S i) Hst Hlen') as Htail.
    destruct (robotStateMachine w (S i) legs lss) as [w2 rest]; simpl in *.
    constructor; auto.
Qed.

(** The leg state machine, at a leg at rest, selects the step state of phase
    zero. *)
Lemma legStateMachineLeg_rest (w : WalkController) (ls : LegStepper) :
  (atRest ls -> stoppedLeg w (legStateMachineLeg w ls))
  /\ tipNotAdvanced ls (legStateMachineLeg w ls).
Proof.
  split.
  - intros (Hp & Hs & Hi & Hc).
    unfold legStateMachineLeg, stoppedLeg, stoppedStepState.
    rewrite Hs, Hp. simpl.
    destruct ((swingStart w <=? 0)%Z && (0 <? swingEnd w)%Z); simpl.
    + repeat split; assumption.
    + destruct ((0 <? stanceEnd w)%Z || (stanceStart w <=? 0)%Z); simpl;
        repeat split; assumption.
  - unfold legStateMachineLeg, tipNotAdvanced.
    repeat match goal with
           | |- context [if ?b then _ else _] => destruct b
           end; simpl; repeat split; reflexivity.
Qed.

Lemma stoppedLeg_same_window (w w0 : WalkController) (ls : LegStepper) :
  swingStart w0 = swingStart w -> swingEnd w0 = swingEnd w ->
  stoppedLeg w0 ls -> stoppedLeg w ls.
Proof.
  unfold stoppedLeg, stoppedStepState. intros -> ->. intros Hs. exact Hs.
Qed.

(** While STOPPED the tip update does not step the leg: it moves the tip
    with the default tip position only. *)
Lemma updateTipLeg_stopped (w : WalkController) (deltaZ : R) (leg : Leg)
    (ls : LegStepper) :
  walkState w = STOPPED ->
  snd (updateTipLeg w deltaZ leg ls)
  = if LegState_eqb (legState leg) WALKING
    then set_currentTipPosition
           (stanceTipPosition leg
            -v (defaultTipPosition ls -v currentTipPosition ls))
           (set_defaultTipPosition (stanceTipPosition leg) ls)
    else ls.
Proof.
  intros Hst. unfold updateTipLeg. rewrite Hst.
  destruct (LegState_eqb (legState leg) WALKING); reflexivity.
Qed.

Lemma updateTipLeg_rest (w0 w : WalkController) (deltaZ : R) (leg : Leg)
    (ls : LegStepper) :
  walkState w = STOPPED ->
  (stoppedLeg w0 ls -> stoppedLeg w0 (snd (updateTipLeg w deltaZ leg ls)))
  /\ tipNotAdvanced ls (snd (updateTipLeg w deltaZ leg ls)).
Proof.
  intros Hst. rewrite updateTipLeg_stopped by assumption.
  destruct (LegState_eqb (legState leg) WALKING).
  - split; [intros Hr; exact Hr|].
    unfold tipNotAdvanced. simpl. repeat split; try reflexivity.
    apply v3_eq; simpl; ring.
  - split; [auto | apply tipNotAdvanced_refl].
Qed.

Lemma updateTips_rest (w0 w : WalkController) (deltaZ : list R)
    (legs : list Leg) :
  walkState w = STOPPED ->
  forall (lss : list LegStepper) (i : nat),
    Forall2 (fun ls ls' => (stoppedLeg w0 ls -> stoppedLeg w0 ls')
                           /\ tipNotAdvanced ls ls')
      lss (snd (updateTips w deltaZ i legs lss)).
Proof.
  intros Hst. induction legs as [|leg legs IH]; intros lss i.
  - simpl. apply Forall2_flip. induction lss; constructor; auto.
    split; [auto | apply tipNotAdvanced_refl].
  - destruct lss as [|ls lss]; simpl; [constructor|].
    pose proof (updateTipLeg_rest w0 w (nth i deltaZ 0) leg ls Hst) as Hleg.
    destruct (updateTipLeg w (nth i deltaZ 0) leg ls) as [leg1 ls1]; simpl in *.
    pose proof (IH lss (S i)) as Htail.
    destruct (updateTips w deltaZ (S i) legs lss) as [legsR lssR]; simpl in *.
    constructor; auto.
Qed.

Lemma updateWalkState_stopped (speed : R) (w : WalkController) :
  walkState (updateWalkState speed w) = STOPPED ->
  legSteppers (updateWalkState speed w) = legSteppers w
  /\ swingStart (updateWalkState speed w) = swingStart w
  /\ swingEnd (updateWalkState speed w) = swingEnd w.
Proof.
  unfold updateWalkState.
  repeat match goal with
         | |- context [if ?b then _ else _] => destruct b; simpl
         end; intros Hst; try discriminate Hst; repeat split; reflexivity.
Qed.

(** A tick that ends STOPPED: every leg is reset and no tip has advanced. *)
Lemma updateWalk_body_stopped (v : Vector2d) (k : R) (dz : list R)
    (w : WalkController) (m : list Leg) :
  walkState (fst (updateWalk_body v k dz w m)) = STOPPED ->
  (length (legSteppers w) <= length m)%nat ->
  Forall2 (fun ls ls' => stoppedLeg w ls' /\ tipNotAdvanced ls ls')
    (legSteppers w) (legSteppers (fst (updateWalk_body v k dz w m))).
Proof.
  unfold updateWalk_body.
  set (w1 := updateWalkState (normalSpeed w v) (updateVelocities v k w)).
  pose proof (robotStateMachine_frame m (legSteppers w1) w1 0) as Hf.
  pose proof (robotStateMachine_stopped m (legSteppers w1) w1 0) as Hs1.
  destruct (robotStateMachine w1 0 m (legSteppers w1)) as [w2 lss2].
  simpl in Hf, Hs1. simpl.
  set (w3 := set_legSteppers
               (map (legStateMachineLeg (set_legSteppers lss2 w2)) lss2)
               (set_legSteppers lss2 w2)).
  pose proof (fun Hst => updateTips_rest w w3 dz m Hst
                           (map (legStateMachineLeg (set_legSteppers lss2 w2)) lss2)
                           0%nat) as Hs3.
  destruct (updateTips w3 dz 0 m
              (map (legStateMachineLeg (set_legSteppers lss2 w2)) lss2))
    as [m3 lss3].
  simpl in Hs3 |- *. intros Hstop Hlen.
  assert (Hst1 : walkState w1 = STOPPED).
  { rewrite <- (sameButCounters_walkState _ _ Hf). exact Hstop. }
  destruct (updateWalkState_stopped _ _ Hst1) as (Hls & Hss & Hse).
  destruct (updateVelocities_frame v k w)
    as (_ & _ & _ & Vls & _ & Vss & Vse & _).
  fold w1 in Hls, Hss, Hse.
  assert (Hwin2 : swingStart (set_legSteppers lss2 w2) = swingStart w
                  /\ swingEnd (set_legSteppers lss2 w2) = swingEnd w).
  { unfold sameButCounters in Hf. rewrite Hf. simpl.
    rewrite Hss, Hse, Vss, Vse. split; reflexivity. }
  destruct Hwin2 as [Hstart2 Hend2].
  assert (St1 : Forall2 (fun ls ls' => atRest ls' /\ tipNotAdvanced ls ls')
                 (legSteppers w) lss2).
  { rewrite <- Vls, <- Hls. apply Hs1; [exact Hst1|].
    rewrite Hls, Vls. exact Hlen. }
  assert (St2 : Forall2 (fun ls ls' => (atRest ls -> stoppedLeg w ls')
                                      /\ tipNotAdvanced ls ls')
                 lss2 (map (legStateMachineLeg (set_legSteppers lss2 w2)) lss2)).
  { apply Forall2_map_right. intros a.
    destruct (legStateMachineLeg_rest (set_legSteppers lss2 w2) a) as [Hr Ht].
    split; [|exact Ht].
    intros Ha. apply (stoppedLeg_same_window w (set_legSteppers lss2 w2));
      [exact Hstart2 | exact Hend2 | exact (Hr Ha)]. }
  assert (St3 := Hs3 Hstop).
  assert (Hstep12 : forall a b c : LegStepper,
             atRest b /\ tipNotAdvanced a b ->
             (atRest b -> stoppedLeg w c) /\ tipNotAdvanced b c ->
             stoppedLeg w c /\ tipNotAdvanced a c).
  { intros a b c (Hr & Ht) (Hr' & Ht'). split; [apply Hr', Hr|].
    eapply tipNotAdvanced_trans; eauto. }
  assert (Hstep23 : forall a b c : LegStepper,
             stoppedLeg w b /\ tipNotAdvanced a b ->
             (stoppedLeg w b -> stoppedLeg w c) /\ tipNotAdvanced b c ->
             stoppedLeg w c /\ tipNotAdvanced a c).
  { intros a b c (Hr & Ht) (Hr' & Ht'). split; [apply Hr', Hr|].
    eapply tipNotAdvanced_trans; eauto. }
  eapply Forall2_compose; [exact Hstep23 | | exact St3].
  eapply Forall2_compose; [exact Hstep12 | exact St1 | exact St2].
Qed.

(** C9, as the code has it: when the walk state is STOPPED during the
    per-leg update of a tick, every leg stepper ends the tick at phase 0
    with [inCorrectPhase] and [completedFirstStep] false, in the step state
    the leg state machine of the same tick selects at phase 0: STANCE,
    unless phase 0 lies in the swing window, and SWING then; and
    [updatePosition] is not invoked for a walking leg, so that no tip is
    advanced along its step cycle.  The tick passes its assertion, and
    every leg stepper has its leg. *)
Theorem updateWalk_stopped_legs_at_rest (v : Vector2d) (k : R) (dz : list R)
    (w : WalkController) (m : list Leg) (w' : WalkController) (m' : list Leg) :
  updateWalk v k dz w m = Some (w', m') ->
  walkState w' = STOPPED ->
  (length (legSteppers w) <= length m)%nat ->
  Forall (fun ls =>
            phase ls = 0%Z
            /\ inCorrectPhase ls = false
            /\ completedFirstStep ls = false
            /\ (~ (swingStart w <= 0 < swingEnd w)%Z -> state ls = STANCE)
            /\ ((swingStart w <= 0 < swingEnd w)%Z -> state ls = SWING))
    (legSteppers w')
  /\ (~ (swingStart w <= 0 < swingEnd w)%Z -> Forall atRest (legSteppers w'))
  /\ Forall2 tipNotAdvanced (legSteppers w) (legSteppers w')
  /\ (forall deltaZ leg ls,
        legState leg = WALKING ->
        snd (updateTipLeg w' deltaZ leg ls)
        = set_currentTipPosition
            (stanceTipPosition leg
             -v (defaultTipPosition ls -v currentTipPosition ls))
            (set_defaultTipPosition (stanceTipPosition leg) ls)).
Proof.
  intros Hrun Hstop Hlen.
  apply updateWalk_inv in Hrun. subst w'.
  pose proof (updateWalk_body_stopped v k dz w m Hstop Hlen) as Hall.
  assert (Hstate : (~ (swingStart w <= 0 < swingEnd w)%Z ->
                    stoppedStepState w = STANCE)
                   /\ ((swingStart w <= 0 < swingEnd w)%Z ->
                       stoppedStepState w = SWING)).
  { unfold stoppedStepState.
    destruct (Z.leb_spec (swingStart w) 0); destruct (Z.ltb_spec 0 (swingEnd w));
      simpl; split; intros Hwin; try reflexivity; lia. }
  destruct Hstate as [Hout Hin].
  split; [|split; [|split]].
  - eapply Forall2_right; [|exact Hall].
    intros a b [(Hp & Hs & Hi & Hc) _].
    split; [exact Hp | split; [exact Hi | split; [exact Hc|]]].
    split; intros Hwin; rewrite Hs; [apply Hout | apply Hin]; exact Hwin.
  - intros Hwin. eapply Forall2_right; [|exact Hall].
    intros a b [(Hp & Hs & Hi & Hc) _]. unfold atRest.
    rewrite Hs, (Hout Hwin). repeat split; assumption.
  - eapply Forall2_impl; [|exact Hall]. intros a b [_ Ht]. exact Ht.
  - intros deltaZ leg ls Hleg. rewrite updateTipLeg_stopped by assumption.
    rewrite Hleg. reflexivity.
Qed.

End Stopped.

(** ** The properties of the walk controller at the sample walker *)

Section SampleWalker.

Import Walker.

Lemma v2norm_ahead (x : R) : 0 <= x -> v2norm (mkV2 x 0) = x.
Proof.
  intros Hx. unfold v2norm; simpl.
  replace (x * x + 0 * 0) with (x * x) by ring. apply sqrt_square. exact Hx.
Qed.

Lemma sample_localVelocity :
  localVelocity Samples.walker Samples.halfSpeedAhead = mkV2 (5 / 26) 0.
Proof.
  unfold localVelocity, onGroundRatio. simpl.
  apply v2_eq; simpl; field.
Qed.

Lemma sample_normalSpeed :
  normalSpeed Samples.walker Samples.halfSpeedAhead = 5 / 26.
Proof.
  unfold normalSpeed. rewrite sample_localVelocity. apply v2norm_ahead. lra.
Qed.

Lemma sample_normalSpeed_halted :
  normalSpeed Samples.walker (mkV2 0 0) = 0.
Proof.
  unfold normalSpeed.
  replace (localVelocity Samples.walker (mkV2 0 0)) with (mkV2 0 0).
  - apply v2norm_zero.
  - unfold localVelocity, onGroundRatio. simpl.
    apply v2_eq; simpl; field.
Qed.

Lemma sample_deriveMaxAcceleration :
  deriveMaxAcceleration Samples.walker = Samples.gaitParameters.
Proof.
  unfold deriveMaxAcceleration. simpl.
  replace (Reqb (1 / 2) (-1)) with false; [reflexivity|].
  symmetry. apply Reqb_false. lra.
Qed.

(** The sample walker, commanded ahead while STOPPED, is STARTING after the
    tick. *)
Lemma updateWalk_walk_state_transitions_witness :
  @updateWalk Samples.includes Samples.kinematics Samples.quatLib
    Samples.halfSpeedAhead 0 Samples.noDeltaZ Samples.walker Samples.model
  = Some (@updateWalk_body Samples.includes Samples.kinematics Samples.quatLib
            Samples.halfSpeedAhead 0 Samples.noDeltaZ Samples.walker
            Samples.model)
  /\ walkState
       (fst (@updateWalk_body Samples.includes Samples.kinematics
               Samples.quatLib Samples.halfSpeedAhead 0 Samples.noDeltaZ
               Samples.walker Samples.model))
     = STARTING.
Proof.
  assert (Hrun :
    @updateWalk Samples.includes Samples.kinematics Samples.quatLib
      Samples.halfSpeedAhead 0 Samples.noDeltaZ Samples.walker Samples.model
    = Some (@updateWalk_body Samples.includes Samples.kinematics
              Samples.quatLib Samples.halfSpeedAhead 0 Samples.noDeltaZ
              Samples.walker Samples.model)).
  { apply updateWalk_Some. rewrite sample_normalSpeed. lra. }
  split; [exact Hrun|].
  rewrite (surjective_pairing (updateWalk_body _ _ _ _ _)) in Hrun.
  destruct (updateWalk_walk_state_transitions _ _ _ _ _ _ _ Hrun) as (Hstart & _).
  apply Hstart; [reflexivity|]. rewrite sample_normalSpeed. lra.
Defined.

(** The sample walker keeps within its limits when it is commanded ahead. *)
Lemma updateWalk_velocity_limits_witness :
  0 <= maxAcceleration (deriveMaxAcceleration Samples.walker)
       * timeDelta Samples.walker
  /\ 0 <= maxCurvatureSpeed (params Samples.walker) * timeDelta Samples.walker
  /\ v2norm
       (v2sub
          (localCentreVelocity
             (fst (@updateWalk_body Samples.includes Samples.kinematics
                     Samples.quatLib Samples.halfSpeedAhead 0 Samples.noDeltaZ
                     Samples.walker Samples.model)))
          (localCentreVelocity Samples.walker))
     <= 1 / 100.
Proof.
  assert (Hrun :
    @updateWalk Samples.includes Samples.kinematics Samples.quatLib
      Samples.halfSpeedAhead 0 Samples.noDeltaZ Samples.walker Samples.model
    = Some (@updateWalk_body Samples.includes Samples.kinematics
              Samples.quatLib Samples.halfSpeedAhead 0 Samples.noDeltaZ
              Samples.walker Samples.model)).
  { apply updateWalk_Some. rewrite sample_normalSpeed. lra. }
  assert (HA : 0 <= maxAcceleration (deriveMaxAcceleration Samples.walker)
                    * timeDelta Samples.walker).
  { rewrite sample_deriveMaxAcceleration. simpl. lra. }
  assert (HC : 0 <= maxCurvatureSpeed (params Samples.walker)
                    * timeDelta Samples.walker).
  { simpl. lra. }
  split; [exact HA | split; [exact HC|]].
  rewrite (surjective_pairing (updateWalk_body _ _ _ _ _)) in Hrun.
  destruct (updateWalk_velocity_limits _ _ _ _ _ _ _ Hrun HA HC)
    as (_ & _ & Hlin & _ & Hpar).
  rewrite Hpar, sample_deriveMaxAcceleration in Hlin.
  change (maxAcceleration Samples.gaitParameters) with (1 / 2) in Hlin.
  change (timeDelta Samples.walker) with (1 / 50) in Hlin.
  lra.
Defined.

End SampleWalker.

(** ** The impedance pose *)

Section ImpedancePose.

Import Poser.

Lemma clamped_inside (x lo hi : R) : lo <= x <= hi -> clamped x lo hi = x.
Proof.
  intros [Hlo Hhi]. unfold clamped.
  rewrite Rmin_left by exact Hhi. apply Rmax_right. exact Hlo.
Qed.

Lemma clamped_range (x lo hi : R) : lo <= hi -> lo <= clamped x lo hi <= hi.
Proof.
  intros Hle. unfold clamped. split.
  - apply Rmax_l.
  - apply Rmax_lub; [exact Hle | apply Rmin_r].
Qed.

Lemma fold_left_deltaZ (l : list LegEntry) (acc : R) :
  fold_left (fun sum e => sum + delta_z (leg e)) l acc = acc + sumDeltaZ l.
Proof.
  revert acc. induction l as [|e l IH]; intros acc; simpl.
  - ring.
  - rewrite IH. ring.
Qed.

(** C8, as the code has it: [updateImpedancePose] sets the z component of
    the impedance pose to the absolute value of the average of [delta_z]
    over all legs, the sum divided by the leg count, clamped to
    [[-max_translation_z, max_translation_z]], an interval the result lies in
    when the limit is not negative; it changes nothing else of the impedance
    pose, and nothing else of the controller. *)
Theorem updateImpedancePose_abs_average (c : PoseController) :
  vz (position_ (impedance_pose_ (updateImpedancePose c)))
  = clamped
      (Rabs (sumDeltaZ (legs (model_ c)) / IZR (getLegCount (model_ c))))
      (- max_translation_z (params_ c)) (max_translation_z (params_ c))
  /\ vx (position_ (impedance_pose_ (updateImpedancePose c)))
     = vx (position_ (impedance_pose_ c))
  /\ vy (position_ (impedance_pose_ (updateImpedancePose c)))
     = vy (position_ (impedance_pose_ c))
  /\ rotation_ (impedance_pose_ (updateImpedancePose c))
     = rotation_ (impedance_pose_ c)
  /\ updateImpedancePose c
     = set_impedance_pose (impedance_pose_ (updateImpedancePose c)) c
  /\ (0 <= max_translation_z (params_ c) ->
      - max_translation_z (params_ c)
      <= vz (position_ (impedance_pose_ (updateImpedancePose c)))
      <= max_translation_z (params_ c)).
Proof.
  unfold updateImpedancePose. simpl. rewrite fold_left_deltaZ.
  replace (0 + sumDeltaZ (legs (model_ c))) with (sumDeltaZ (legs (model_ c)))
    by ring.
  repeat apply conj; try reflexivity.
  intros Hmax. apply clamped_range. lra.
Qed.

Lemma sample_average_deltaZ :
  sumDeltaZ (legs (model_ Samples.poseController))
  / IZR (getLegCount (model_ Samples.poseController))
  = - (1 / 100).
Proof. unfold sumDeltaZ, getLegCount. simpl. field. Qed.

(** C8, as the claim has it, fails when the legs sag: the average of
    [delta_z] is negative and within the limit, and the pose is set to its
    absolute value. *)
Lemma updateImpedancePose_not_signed_average :
  vz (position_ (impedance_pose_ (updateImpedancePose Samples.poseController)))
  = 1 / 100
  /\ clamped
       (sumDeltaZ (legs (model_ Samples.poseController))
        / IZR (getLegCount (model_ Samples.poseController)))
       (- max_translation_z (params_ Samples.poseController))
       (max_translation_z (params_ Samples.poseController))
     = - (1 / 100)
  /\ vz (position_ (impedance_pose_ (updateImpedancePose Samples.poseController)))
     <> clamped
          (sumDeltaZ (legs (model_ Samples.poseController))
           / IZR (getLegCount (model_ Samples.poseController)))
          (- max_translation_z (params_ Samples.poseController))
          (max_translation_z (params_ Samples.poseController)).
Proof.
  assert (Hcode :
    vz (position_ (impedance_pose_ (updateImpedancePose Samples.poseController)))
    = 1 / 100).
  { destruct (updateImpedancePose_abs_average Samples.poseController) as (Hz & _).
    rewrite Hz, sample_average_deltaZ.
    rewrite Rabs_Ropp, Rabs_pos_eq by lra.
    apply clamped_inside. simpl. lra. }
  assert (Hclaim :
    clamped
      (sumDeltaZ (legs (model_ Samples.poseController))
       / IZR (getLegCount (model_ Samples.poseController)))
      (- max_translation_z (params_ Samples.poseController))
      (max_translation_z (params_ Samples.poseController))
    = - (1 / 100)).
  { rewrite sample_average_deltaZ. apply clamped_inside. simpl. lra. }
  split; [exact Hcode | split; [exact Hclaim|]].
  rewrite Hcode, Hclaim. lra.
Qed.

End ImpedancePose.

(** ** The auto poser *)

Section AutoPose.

Import Poser.

Context `{QuatLib}.

(** C10: in [AutoPoser::updatePose] a start phase or an end phase that
    normalises to 0 stands for the pose phase length; when the start phase
    exceeds the end phase the window is unwrapped, the phase length being
    added to the end phase and to a phase below the start phase; and when
    the phase so placed lies outside [[start_phase, end_phase)], or posing is
    not allowed after the checks of the call, the result is the identity
    pose. *)
Theorem updatePose_outside_window (c : PoseController) (phase : Z)
    (a : AutoPoser) :
  posingWindow c a phase
  = (if (zeroAsLength (pose_phase_length_ c) (end_phase_ a * normaliser_ c)
         <? zeroAsLength (pose_phase_length_ c) (start_phase_ a * normaliser_ c))%Z
     then (zeroAsLength (pose_phase_length_ c) (start_phase_ a * normaliser_ c),
           zeroAsLength (pose_phase_length_ c) (end_phase_ a * normaliser_ c)
           + pose_phase_length_ c,
           if (phase <? zeroAsLength (pose_phase_length_ c)
                          (start_phase_ a * normaliser_ c))%Z
           then phase + pose_phase_length_ c
           else phase)%Z
     else (zeroAsLength (pose_phase_length_ c) (start_phase_ a * normaliser_ c),
           zeroAsLength (pose_phase_length_ c) (end_phase_ a * normaliser_ c),
           phase))
  /\ (forall start_phase end_phase placed : Z,
        posingWindow c a phase = (start_phase, end_phase, placed) ->
        (placed < start_phase)%Z \/ (end_phase <= placed)%Z
        \/ allow_posing_ (snd (updatePose c phase a)) = false ->
        fst (updatePose c phase a) = Pose_identity)
  /\ (forall start_phase end_phase placed : Z,
        posingWindow c a phase = (start_phase, end_phase, placed) ->
        snd (updatePose c phase a)
        = updateChecks c start_phase end_phase placed a).
Proof.
  repeat apply conj.
  - unfold posingWindow, zeroAsLength.
    repeat match goal with
           | |- context [if ?b then _ else _] => destruct b
           end; reflexivity.
  - intros s e p Hwin Hout. unfold updatePose. rewrite Hwin.
    destruct ((s <=? p)%Z && (p <? e)%Z
              && allow_posing_ (updateChecks c s e p a)) eqn:E; [|reflexivity].
    exfalso.
    apply andb_true_iff in E. destruct E as [E Eallow].
    apply andb_true_iff in E. destruct E as [E1 E2].
    apply Z.leb_le in E1. apply Z.ltb_lt in E2.
    destruct Hout as [Hlt | [Hge | Hallow]]; [lia | lia |].
    unfold updatePose in Hallow. rewrite Hwin in Hallow.
    destruct ((s <=? p)%Z && (p <? e)%Z
              && allow_posing_ (updateChecks c s e p a));
      simpl in Hallow; congruence.
  - intros s e p Hwin. unfold updatePose. rewrite Hwin.
    destruct ((s <=? p)%Z && (p <? e)%Z
              && allow_posing_ (updateChecks c s e p a)); reflexivity.
Qed.

End AutoPose.

(** ** The transition sequencer *)

Section Sequencer.

Import Poser.

Context `{StandardIncludes} `{QuatLib} `{BuildConstants} `{RobotModel}.

(** A loop over the legs keeps what every iteration keeps. *)
Lemma forEachLeg_invariant {S : Type} (f : S -> LegEntry -> S * LegEntry)
    (I : S -> Prop) (P : LegEntry -> Prop) :
  (forall s e, I s -> P e -> I (fst (f s e))) ->
  forall l s, I s -> Forall P l -> I (fst (forEachLeg f s l)).
Proof.
  intros Hstep l. induction l as [|e l IH]; intros s Hs Hall; simpl.
  - exact Hs.
  - inversion Hall as [|? ? He Hl]; subst.
    pose proof (Hstep s e Hs He) as Hs1.
    destruct (f s e) as [s1 e1]; simpl in Hs1.
    pose proof (IH s1 Hs1 Hl) as Hs2.
    destruct (forEachLeg f s1 l) as [s2 rest]; simpl in *. exact Hs2.
Qed.


(** A step of a leg poser leaves its target, its completion flag and its
    cached transition positions alone. *)
Lemma stepToPosition_frame (dt : R) (l : Leg) (target : Vector3d)
    (pose : Pose) (lift time : R) (dz : bool) (p : LegPoser) :
  target_tip_position_ (fst (stepToPosition dt l target pose lift time dz p))
  = target_tip_position_ p
  /\ leg_completed_step_ (fst (stepToPosition dt l target pose lift time dz p))
     = leg_completed_step_ p
  /\ transition_positions_ (fst (stepToPosition dt l target pose lift time dz p))
     = transition_positions_ p.
Proof.
  unfold stepToPosition, stepToPosition_iterate.
  repeat match goal with
         | |- context [if ?b then _ else _] => destruct b
         end; simpl; repeat split; reflexivity.
Qed.

Lemma horizontalStep_frame (sequence : SequenceSelection)
    (final_transition direct_step : bool) (c : PoseController) (e : LegEntry) :
  target_tip_position_
    (steppedPoser (horizontalStep sequence final_transition direct_step c e))
  = target_tip_position_ (leg_poser e)
  /\ leg_completed_step_
       (steppedPoser (horizontalStep sequence final_transition direct_step c e))
     = leg_completed_step_ (leg_poser e)
  /\ transition_positions_
       (steppedPoser (horizontalStep sequence final_transition direct_step c e))
     = transition_positions_ (leg_poser e).
Proof.
  unfold horizontalStep, stepAndSolve.
  match goal with
  | |- context [stepToPosition ?dt ?l ?t ?ps ?lift ?tm ?dz ?p] =>
      pose proof (stepToPosition_frame dt l t ps lift tm dz p) as Hf;
      destruct (stepToPosition dt l t ps lift tm dz p) as [lp pr]
  end.
  destruct (applyIK _) as [l1 prox]. exact Hf.
Qed.




(** *** The value returned by the sequencer *)

Lemma stepToPosition_iterate_progress (dt : R) (l : Leg) (target : Vector3d)
    (pose : Pose) (lift time : R) (dz : bool) (p : LegPoser) :
  (0 <= master_iteration_count_ p)%Z ->
  (0 <= snd (stepToPosition_iterate dt l target pose lift time dz p))%Z.
Proof.
  intros Hcount. unfold stepToPosition_iterate.
  set (n := Z.max 1 (roundToInt (time / dt))).
  assert (Hn : (1 <= n)%Z) by (subst n; lia).
  match goal with
  | |- context [if (n <=? ?k)%Z then _ else _] => destruct (n <=? k)%Z
  end.
  - simpl. unfold PROGRESS_COMPLETE. lia.
  - simpl. apply truncToInt_nonneg.
    replace (master_iteration_count_ p + 1 - 1)%Z with (master_iteration_count_ p)
      by lia.
    apply Rmult_le_pos.
    + apply Rmult_le_pos.
      * apply IZR_le. exact Hcount.
      * left. apply Rinv_0_lt_compat. apply IZR_lt. lia.
    + apply IZR_le. unfold PROGRESS_COMPLETE. lia.
Qed.

Lemma stepToPosition_progress (dt : R) (l : Leg) (target : Vector3d)
    (pose : Pose) (lift time : R) (dz : bool) (p : LegPoser) :
  first_iteration_ p = true \/ (0 <= master_iteration_count_ p)%Z ->
  (0 <= snd (stepToPosition dt l target pose lift time dz p))%Z.
Proof.
  intros Hready. unfold stepToPosition.
  destruct (first_iteration_ p) eqn:Hfirst.
  - match goal with
    | |- context [if ?b then _ else _] => destruct b
    end.
    + simpl. unfold PROGRESS_COMPLETE. lia.
    + apply stepToPosition_iterate_progress. simpl. lia.
  - apply stepToPosition_iterate_progress.
    destruct Hready as [Hf | Hc]; [discriminate | exact Hc].
Qed.














End Sequencer.

(** ** The properties of the pose controller at the sample robot *)

Section SampleSequencer.

Import Poser.




(** The sample auto poser, which poses over [[13, 39)], leaves the body alone
    at phase 5. *)
Lemma updatePose_outside_window_witness :
  posingWindow Samples.poseController Samples.autoPoser 5 = (13, 39, 5)%Z
  /\ fst (@updatePose Samples.quatLib Samples.poseController 5 Samples.autoPoser)
     = Pose_identity.
Proof.
  split; [reflexivity|].
  destruct (@updatePose_outside_window Samples.quatLib Samples.poseController 5
              Samples.autoPoser) as (_ & Hidentity & _).
  apply (Hidentity 13 39 5)%Z; [reflexivity | left; lia].
Defined.

End SampleSequencer.

(** ** Further properties of the step cycle *)

Section StepCycle.

Import Walker.

Context `{StandardIncludes}.

(** The control nodes are the only members the two generators write. *)
Lemma generateSwingControlNodes_frame (w : WalkController) (sv : Vector3d)
    (s : LegStepper) :
  generateSwingControlNodes w sv s
  = set_swing2ControlNodes
      (swing2ControlNodes (generateSwingControlNodes w sv s))
      (set_swing1ControlNodes
         (swing1ControlNodes (generateSwingControlNodes w sv s)) s).
Proof. reflexivity. Qed.

Lemma generateStanceControlNodes_frame (w : WalkController) (sv : Vector3d)
    (s : LegStepper) :
  generateStanceControlNodes w sv s
  = set_stanceControlNodes
      (stanceControlNodes (generateStanceControlNodes w sv s)) s.
Proof. reflexivity. Qed.

(** [updatePosition] leaves the bookkeeping of the step cycle alone. *)
Lemma updatePosition_frame (w : WalkController) (s : LegStepper) :
  phase (updatePosition w s) = phase s
  /\ phaseOffset (updatePosition w s) = phaseOffset s
  /\ state (updatePosition w s) = state s
  /\ inCorrectPhase (updatePosition w s) = inCorrectPhase s
  /\ completedFirstStep (updatePosition w s) = completedFirstStep s
  /\ strideVector (updatePosition w s) = strideVector s
  /\ defaultTipPosition (updatePosition w s) = defaultTipPosition s.
Proof.
  unfold updatePosition.
  destruct (state s) eqn:Est.
  - destruct (_ =? 1)%Z; destruct (_ <=? _)%Z; simpl; rewrite ?Est;
      repeat split; reflexivity.
  - destruct (_ =? 1)%Z; simpl; rewrite ?Est; repeat split; reflexivity.
  - rewrite Est. repeat split; reflexivity.
  - rewrite Est. repeat split; reflexivity.
Qed.

Lemma v3scale_div (d : Vector3d) (k : R) : k <> 0 -> k *v v3div d k = d.
Proof. intros Hk. apply v3_eq; simpl; field; exact Hk. Qed.

(** The step of a leg in SWING or STANCE: the change in position that is
    added to the tip and, divided by the time of a tick, reported as the tip
    velocity. *)
Lemma updatePosition_step (w : WalkController) (s : LegStepper) :
  state s = SWING \/ state s = STANCE ->
  exists deltaPos : Vector3d,
    currentTipPosition (updatePosition w s) = currentTipPosition s +v deltaPos
    /\ tipVelocity (updatePosition w s) = v3div deltaPos (timeDelta w).
Proof.
  intros Hst. unfold updatePosition. destruct Hst as [-> | ->].
  - destruct (_ =? 1)%Z; destruct (_ <=? _)%Z;
      cbn [currentTipPosition tipVelocity set_tipVelocity
           set_currentTipPosition];
      eexists; (split; [reflexivity | reflexivity]).
  - destruct (_ =? 1)%Z;
      cbn [currentTipPosition tipVelocity set_tipVelocity
           set_currentTipPosition];
      eexists; (split; [reflexivity | reflexivity]).
Qed.

(** X1: [updatePosition] moves the tip of a leg in SWING or STANCE by the
    tip velocity it reports times the time of a tick, and takes the tip
    position at the first iteration of a swing as the origin of the swing; a
    leg in FORCE_STANCE or FORCE_STOP is left exactly as it is; the phase,
    the state and the flags of the leg are never written. *)
Theorem updatePosition_displacement (w : WalkController) (s : LegStepper) :
  timeDelta w <> 0 ->
  (state s = SWING \/ state s = STANCE ->
   currentTipPosition (updatePosition w s)
   = currentTipPosition s +v timeDelta w *v tipVelocity (updatePosition w s))
  /\ (state s = FORCE_STANCE \/ state s = FORCE_STOP -> updatePosition w s = s)
  /\ (state s = SWING -> phase s = swingStart w ->
      swingOriginTipPosition (updatePosition w s) = currentTipPosition s)
  /\ (state s = SWING -> phase s <> swingStart w ->
      swingOriginTipPosition (updatePosition w s) = swingOriginTipPosition s)
  /\ phase (updatePosition w s) = phase s
  /\ state (updatePosition w s) = state s
  /\ inCorrectPhase (updatePosition w s) = inCorrectPhase s
  /\ completedFirstStep (updatePosition w s) = completedFirstStep s.
Proof.
  intros Hdt.
  destruct (updatePosition_frame w s) as (Hp & _ & Hs & Hi & Hc & _).
  repeat apply conj; try assumption.
  - intros Hst.
    destruct (updatePosition_step w s Hst) as (deltaPos & Hpos & Hvel).
    rewrite Hpos, Hvel, v3scale_div by exact Hdt. reflexivity.
  - intros Hst. unfold updatePosition. destruct Hst as [-> | ->]; reflexivity.
  - intros Hst Hph. unfold updatePosition. rewrite Hst, Hph.
    replace (swingStart w - swingStart w + 1 =? 1)%Z with true
      by (symmetry; apply Z.eqb_eq; lia).
    destruct (_ <=? _)%Z; reflexivity.
  - intros Hst Hph. unfold updatePosition. rewrite Hst.
    replace (phase s - swingStart w + 1 =? 1)%Z with false
      by (symmetry; apply Z.eqb_neq; lia).
    destruct (_ <=? _)%Z; reflexivity.
Qed.

End StepCycle.

(** ** Further properties of a tick of the walk controller *)

Section WalkTick.

Import Walker.

Context `{StandardIncludes} `{Kinematics} `{QuatLib}.

Lemma samePhase_refl (ls : LegStepper) : samePhase ls ls.
Proof. unfold samePhase. repeat split; reflexivity. Qed.

Lemma samePhase_trans (a b c : LegStepper) :
  samePhase a b -> samePhase b c -> samePhase a c.
Proof.
  unfold samePhase.
  intros (A1 & A2 & A3 & A4 & A5) (B1 & B2 & B3 & B4 & B5).
  repeat split; congruence.
Qed.

Lemma legStateMachineLeg_samePhase (w : WalkController) (ls : LegStepper) :
  samePhase ls (legStateMachineLeg w ls).
Proof.
  unfold legStateMachineLeg, samePhase.
  repeat match goal with
         | |- context [if ?b then _ else _] => destruct b
         end; simpl; repeat split; reflexivity.
Qed.

Lemma updateTipLeg_samePhase (w : WalkController) (deltaZ : R) (leg : Leg)
    (ls : LegStepper) :
  samePhase ls (snd (updateTipLeg w deltaZ leg ls))
  /\ state (snd (updateTipLeg w deltaZ leg ls)) = state ls.
Proof.
  unfold updateTipLeg.
  destruct (LegState_eqb (legState leg) WALKING); simpl;
    [|split; [apply samePhase_refl | reflexivity]].
  destruct (negb (WalkState_eqb (walkState w) STOPPED)).
  - match goal with
    | |- context [updatePosition w ?s] =>
        destruct (updatePosition_frame w s) as (Hp & Ho & Hs & Hi & Hc & Hv & _)
    end.
    unfold samePhase. rewrite Hp, Ho, Hs, Hi, Hc, Hv. simpl.
    repeat split; reflexivity.
  - unfold samePhase. simpl. repeat split; reflexivity.
Qed.

Lemma updateTips_samePhase (w : WalkController) (deltaZ : list R)
    (legs : list Leg) :
  forall (lss : list LegStepper) (i : nat),
    Forall2 (fun ls ls' => samePhase ls ls' /\ state ls' = state ls)
      lss (snd (updateTips w deltaZ i legs lss)).
Proof.
  induction legs as [|leg legs IH]; intros lss i.
  - simpl. induction lss; constructor; auto.
    split; [apply samePhase_refl | reflexivity].
  - destruct lss as [|ls lss]; simpl; [constructor|].
    pose proof (updateTipLeg_samePhase w (nth i deltaZ 0) leg ls) as Hleg.
    destruct (updateTipLeg w (nth i deltaZ 0) leg ls) as [leg1 ls1]; simpl in *.
    pose proof (IH lss (S i)) as Htail.
    destruct (updateTips w deltaZ (S i) legs lss) as [legsR lssR]; simpl in *.
    constructor; auto.
Qed.

Lemma updateVelocities_timing (v : Vector2d) (k : R) (w : WalkController) :
  phaseLength (updateVelocities v k w) = phaseLength w
  /\ stepFrequency (updateVelocities v k w) = stepFrequency w.
Proof.
  unfold updateVelocities.
  repeat match goal with
         | |- context [if ?b then _ else _] => destruct b
         end; simpl; split; reflexivity.
Qed.

Lemma updateWalkState_timing (speed : R) (w : WalkController) :
  phaseLength (updateWalkState speed w) = phaseLength w
  /\ stepFrequency (updateWalkState speed w) = stepFrequency w
  /\ swingStart (updateWalkState speed w) = swingStart w
  /\ swingEnd (updateWalkState speed w) = swingEnd w
  /\ localCentreVelocity (updateWalkState speed w) = localCentreVelocity w
  /\ angularVelocity (updateWalkState speed w) = angularVelocity w.
Proof.
  unfold updateWalkState.
  repeat match goal with
         | |- context [if ?b then _ else _] => destruct b
         end; simpl; repeat split; reflexivity.
Qed.

(** The stages of a tick: the walk controller after the state transitions,
    the robot state machine loop over it, and the leg steppers at the end of
    the tick, which keep the phases, flags and stride vectors the loop
    leaves. *)
Lemma updateWalk_body_stages (v : Vector2d) (k : R) (dz : list R)
    (w : WalkController) (m : list Leg) :
  let w1 := updateWalkState (normalSpeed w v) (updateVelocities v k w) in
  let r := robotStateMachine w1 0 m (legSteppers w1) in
  fst (updateWalk_body v k dz w m)
  = updateVisualPose
      (set_legSteppers (legSteppers (fst (updateWalk_body v k dz w m))) (fst r))
  /\ sameButCounters w1 (fst r)
  /\ Forall2 samePhase (snd r) (legSteppers (fst (updateWalk_body v k dz w m))).
Proof.
  intros w1 r. unfold updateWalk_body. fold w1.
  pose proof (robotStateMachine_frame m (legSteppers w1) w1 0) as Hf.
  fold r in Hf. subst r.
  destruct (robotStateMachine w1 0 m (legSteppers w1)) as [w2 lss2]. simpl in *.
  match goal with
  | |- context [updateTips ?w3 dz 0 m ?l] =>
      pose proof (updateTips_samePhase w3 dz m l 0) as Hs3;
      destruct (updateTips w3 dz 0 m l) as [m3 lss3]
  end.
  simpl in *. repeat apply conj.
  - destruct w2; reflexivity.
  - exact Hf.
  - eapply Forall2_compose; [| apply Forall2_map_right | exact Hs3].
    + intros a b c Hab [Hbc _]. eapply samePhase_trans; [exact Hab | exact Hbc].
    + intros a. apply legStateMachineLeg_samePhase.
Qed.

(** What the tick leaves of the walk controller of the state machine loop. *)
Lemma updateWalk_body_loop (v : Vector2d) (k : R) (dz : list R)
    (w : WalkController) (m : list Leg) :
  let w1 := updateWalkState (normalSpeed w v) (updateVelocities v k w) in
  let r := robotStateMachine w1 0 m (legSteppers w1) in
  walkState (fst (updateWalk_body v k dz w m)) = walkState w1
  /\ phaseLength (fst (updateWalk_body v k dz w m)) = phaseLength w
  /\ legsInCorrectPhase (fst (updateWalk_body v k dz w m))
     = legsInCorrectPhase (fst r)
  /\ (forall leg, tipStride (fst (updateWalk_body v k dz w m)) leg
                  = tipStride w1 leg).
Proof.
  intros w1 r.
  destruct (updateWalk_body_stages v k dz w m) as (Heq & Hf & _).
  fold w1 in Heq, Hf. fold r in Heq, Hf.
  rewrite Heq. unfold sameButCounters in Hf.
  destruct (updateVelocities_timing v k w) as (Hl0 & _).
  destruct (updateWalkState_timing (normalSpeed w v) (updateVelocities v k w))
    as (Hl1 & _).
  fold w1 in Hl1.
  repeat apply conj.
  - simpl. rewrite Hf. reflexivity.
  - simpl. rewrite Hf. simpl. rewrite Hl1, Hl0. reflexivity.
  - reflexivity.
  - intros leg. unfold tipStride, onGroundRatio. simpl. rewrite Hf. reflexivity.
Qed.

(** A property every iteration of the robot state machine loop establishes
    for its leg, under an invariant of the walk controller, holds of every
    leg after the loop. *)
Lemma robotStateMachine_Forall2 (I : WalkController -> Prop)
    (R : LegStepper -> LegStepper -> Prop) :
  (forall w i leg ls,
      I w ->
      I (fst (robotStateMachineLeg w i leg ls))
      /\ R ls (snd (robotStateMachineLeg w i leg ls))) ->
  forall (legs : list Leg) (lss : list LegStepper) (w : WalkController) (i : nat),
    I w -> (length lss <= length legs)%nat ->
    I (fst (robotStateMachine w i legs lss))
    /\ Forall2 R lss (snd (robotStateMachine w i legs lss)).
Proof.
  intros Hstep legs.
  induction legs as [|leg legs IH]; intros lss w i Hw Hlen.
  - destruct lss; simpl in *; [split; [exact Hw | constructor] | lia].
  - destruct lss as [|ls lss]; simpl in *; [split; [exact Hw | constructor]|].
    destruct (Hstep w i leg ls Hw) as [Hw1 Hr].
    destruct (robotStateMachineLeg w i leg ls) as [w1 ls1]; simpl in *.
    assert (Hlen' : (length lss <= length legs)%nat) by lia.
    destruct (IH lss w1 (S i) Hw1 Hlen') as [Hw2 Htail].
    destruct (robotStateMachine w1 (S i) legs lss) as [w2 rest]; simpl in *.
    split; [exact Hw2 | constructor; assumption].
Qed.

Lemma Forall2_Forall {A : Type} (P Q : A -> Prop) (l l' : list A) :
  Forall2 (fun a b => P a -> Q b) l l' -> Forall P l -> Forall Q l'.
Proof.
  intros Hall. induction Hall as [|a b l l' Hab _ IH]; intros HP.
  - constructor.
  - inversion HP; subst. constructor; auto.
Qed.

Lemma sameButCounters_fields (a b : WalkController) :
  sameButCounters a b ->
  walkState b = walkState a /\ phaseLength b = phaseLength a
  /\ swingStart b = swingStart a /\ swingEnd b = swingEnd a.
Proof. unfold sameButCounters; intros ->; repeat split; reflexivity. Qed.

(** *** The phases stay in the step cycle *)

Lemma robotStateMachineLeg_phase (ws : WalkState) (L : Z) (w : WalkController)
    (i : nat) (leg : Leg) (ls : LegStepper) :
  (0 < L)%Z ->
  walkState w = ws /\ phaseLength w = L ->
  (walkState (fst (robotStateMachineLeg w i leg ls)) = ws
   /\ phaseLength (fst (robotStateMachineLeg w i leg ls)) = L)
  /\ (phaseBeforeStep ws L ls ->
      phaseInCycle L (snd (robotStateMachineLeg w i leg ls))).
Proof.
  intros HL [Hws HpL]. split.
  - destruct (sameButCounters_fields _ _ (robotStateMachineLeg_frame w i leg ls))
      as (E1 & E2 & _).
    rewrite E1, E2. split; assumption.
  - intros (Hoff & Hlow & Hin). unfold phaseInCycle.
    assert (Hrem : (0 <= Z.rem (phase ls + 1) L < L)%Z)
      by (apply Z.rem_bound_pos; lia).
    unfold robotStateMachineLeg. rewrite Hws, HpL.
    destruct ws; simpl;
      repeat match goal with
             | |- context [if ?b then _ else _] => destruct b; simpl
             end;
      try (split; [exact Hrem | exact Hoff]);
      try (split; [apply Hin; discriminate | exact Hoff]);
      split; [lia | exact Hoff].
Qed.

Lemma updateWalkState_phase (speed : R) (L : Z) (w : WalkController) :
  Forall (phaseInCycle L) (legSteppers w) ->
  Forall (phaseBeforeStep (walkState (updateWalkState speed w)) L)
    (legSteppers (updateWalkState speed w)).
Proof.
  intros Hall.
  assert (Hkeep : forall ws,
             Forall (phaseBeforeStep ws L) (legSteppers w)).
  { intros ws. eapply Forall_impl; [|exact Hall].
    intros ls [Hph Hoff]. unfold phaseBeforeStep.
    split; [exact Hoff | split; [lia | intros _; exact Hph]]. }
  unfold updateWalkState.
  repeat match goal with
         | |- context [if ?b then _ else _] => destruct b; simpl
         end; try apply Hkeep.
  clear Hkeep. induction Hall as [|ls lss [Hph Hoff] _ IH]; simpl; constructor.
  - unfold phaseBeforeStep. simpl.
    split; [exact Hoff | split; [lia | intros Hne; congruence]].
  - exact IH.
Qed.

Lemma robotStateMachineLeg_phaseOffset (w : WalkController) (i : nat)
    (leg : Leg) (ls : LegStepper) :
  phaseOffset (snd (robotStateMachineLeg w i leg ls)) = phaseOffset ls.
Proof.
  unfold robotStateMachineLeg.
  destruct (walkState w); simpl;
    repeat match goal with
           | |- context [if ?b then _ else _] => destruct b; simpl
           end; reflexivity.
Qed.

Lemma updateWalkState_legSteppers (speed : R) (w : WalkController) :
  length (legSteppers (updateWalkState speed w)) = length (legSteppers w)
  /\ map phaseOffset (legSteppers (updateWalkState speed w))
     = map phaseOffset (legSteppers w)
  /\ map inCorrectPhase (legSteppers (updateWalkState speed w))
     = map inCorrectPhase (legSteppers w).
Proof.
  unfold updateWalkState.
  repeat match goal with
         | |- context [if ?b then _ else _] => destruct b; simpl
         end; try (repeat split; reflexivity).
  rewrite length_map, !map_map. simpl. repeat split; reflexivity.
Qed.

Lemma Forall2_map_eq {A B : Type} (f : A -> B) (l l' : list A) :
  Forall2 (fun a b => f b = f a) l l' -> map f l' = map f l.
Proof.
  intros Hall. induction Hall as [|a b l l' Hab _ IH]; simpl;
    [reflexivity | rewrite Hab, IH; reflexivity].
Qed.

(** X2: when the phase length is positive and every leg stepper has its
    phase in [[0, phaseLength)] and a phase offset that is not negative,
    the same holds after a tick of [updateWalk], in every walk state and also
    across the entry into STARTING, where the phases pass through the phase
    offset minus one; the phase length and the phase offsets are not
    changed. *)
Theorem updateWalk_phase_in_cycle (v : Vector2d) (k : R) (dz : list R)
    (w : WalkController) (m : list Leg) (w' : WalkController) (m' : list Leg) :
  updateWalk v k dz w m = Some (w', m') ->
  (0 < phaseLength w)%Z ->
  (length (legSteppers w) <= length m)%nat ->
  Forall (phaseInCycle (phaseLength w)) (legSteppers w) ->
  phaseLength w' = phaseLength w
  /\ Forall (phaseInCycle (phaseLength w')) (legSteppers w')
  /\ map phaseOffset (legSteppers w') = map phaseOffset (legSteppers w).
Proof.
  intros Hrun HL Hlen Hall.
  rewrite (updateWalk_inv _ _ _ _ _ _ _ Hrun).
  destruct (updateWalk_body_loop v k dz w m) as (_ & HpL & _).
  destruct (updateWalk_body_stages v k dz w m) as (_ & _ & Hsame).
  destruct (updateVelocities_frame v k w) as (_ & _ & _ & Hlss0 & _).
  destruct (updateVelocities_timing v k w) as (HL0 & _).
  set (w0 := updateVelocities v k w) in *.
  destruct (updateWalkState_timing (normalSpeed w v) w0) as (HL1 & _).
  destruct (updateWalkState_legSteppers (normalSpeed w v) w0)
    as (Hlen1 & Hoff1 & _).
  assert (Hpre : Forall (phaseBeforeStep
                           (walkState (updateWalkState (normalSpeed w v) w0))
                           (phaseLength w))
                   (legSteppers (updateWalkState (normalSpeed w v) w0))).
  { apply updateWalkState_phase. rewrite Hlss0. exact Hall. }
  set (w1 := updateWalkState (normalSpeed w v) w0) in *.
  assert (Hloop :
    Forall2 (fun ls ls' =>
               phaseOffset ls' = phaseOffset ls
               /\ (phaseBeforeStep (walkState w1) (phaseLength w) ls ->
                   phaseInCycle (phaseLength w) ls'))
      (legSteppers w1) (snd (robotStateMachine w1 0 m (legSteppers w1)))).
  { apply (robotStateMachine_Forall2
             (fun x => walkState x = walkState w1
                       /\ phaseLength x = phaseLength w)).
    - intros x i leg ls Hx.
      destruct (robotStateMachineLeg_phase (walkState w1) (phaseLength w)
                  x i leg ls HL Hx) as [Hx1 Hph].
      split; [exact Hx1 | split; [apply robotStateMachineLeg_phaseOffset | exact Hph]].
    - split; [reflexivity | congruence].
    - rewrite Hlen1, Hlss0. exact Hlen. }
  assert (Hend :
    Forall2 (fun ls ls' =>
               phaseOffset ls' = phaseOffset ls
               /\ (phaseBeforeStep (walkState w1) (phaseLength w) ls ->
                   phaseInCycle (phaseLength w) ls'))
      (legSteppers w1) (legSteppers (fst (updateWalk_body v k dz w m)))).
  { eapply Forall2_compose; [| exact Hloop | exact Hsame].
    intros a b c [Hoff Hph] (Sp & So & _). split; [congruence|].
    intros Ha. destruct (Hph Ha) as [Hb1 Hb2].
    unfold phaseInCycle. rewrite Sp, So. split; assumption. }
  split; [exact HpL | split].
  - rewrite HpL.
    refine (Forall2_Forall _ _ _ _ _ Hpre).
    eapply Forall2_impl; [|exact Hend]. intros a b [_ Hph]. exact Hph.
  - rewrite <- Hlss0, <- Hoff1. apply Forall2_map_eq.
    eapply Forall2_impl; [|exact Hend]. intros a b [Hoff _]. exact Hoff.
Qed.

(** *** A tick in the walk state MOVING *)

Lemma updateWalkState_kept (speed : R) (w : WalkController) :
  walkState (updateWalkState speed w) <> STARTING ->
  legSteppers (updateWalkState speed w) = legSteppers w.
Proof.
  unfold updateWalkState.
  repeat match goal with
         | |- context [if ?b then _ else _] => destruct b; simpl
         end; intros Hne; try reflexivity.
  congruence.
Qed.

(** X3: in a tick of [updateWalk] that ends in the walk state MOVING, the
    phase of every leg advances by one and wraps at the phase length, its
    [inCorrectPhase] flag is cleared, and its phase offset and
    [completedFirstStep] flag are kept; this also holds in the tick that
    leaves STARTING. *)
Theorem updateWalk_moving_advances (v : Vector2d) (k : R) (dz : list R)
    (w : WalkController) (m : list Leg) (w' : WalkController) (m' : list Leg) :
  updateWalk v k dz w m = Some (w', m') ->
  walkState w' = MOVING ->
  (length (legSteppers w) <= length m)%nat ->
  Forall2 (fun ls ls' =>
             phase ls' = Z.rem (phase ls + 1) (phaseLength w)
             /\ inCorrectPhase ls' = false
             /\ phaseOffset ls' = phaseOffset ls
             /\ completedFirstStep ls' = completedFirstStep ls)
    (legSteppers w) (legSteppers w').
Proof.
  intros Hrun. rewrite (updateWalk_inv _ _ _ _ _ _ _ Hrun). clear Hrun.
  intros Hmov Hlen.
  destruct (updateWalk_body_loop v k dz w m) as (Hws & _).
  destruct (updateWalk_body_stages v k dz w m) as (_ & _ & Hsame).
  destruct (updateVelocities_frame v k w) as (_ & _ & _ & Hlss0 & _).
  destruct (updateVelocities_timing v k w) as (HL0 & _).
  set (w0 := updateVelocities v k w) in *.
  destruct (updateWalkState_timing (normalSpeed w v) w0) as (HL1 & _).
  rewrite Hmov in Hws. symmetry in Hws.
  assert (Hkept : legSteppers (updateWalkState (normalSpeed w v) w0)
                  = legSteppers w).
  { rewrite updateWalkState_kept; [exact Hlss0 | congruence]. }
  set (w1 := updateWalkState (normalSpeed w v) w0) in *.
  rewrite Hkept in Hsame.
  eapply Forall2_compose; [| | exact Hsame].
  2: { apply (robotStateMachine_Forall2
                (fun x => walkState x = MOVING /\ phaseLength x = phaseLength w)
                (fun ls ls' =>
                   phase ls' = Z.rem (phase ls + 1) (phaseLength w)
                   /\ inCorrectPhase ls' = false
                   /\ phaseOffset ls' = phaseOffset ls
                   /\ completedFirstStep ls' = completedFirstStep ls)).
       - intros x i leg ls [Hx HxL].
         unfold robotStateMachineLeg. rewrite Hx, HxL. simpl.
         repeat split; assumption.
       - split; [exact Hws | congruence].
       - exact Hlen. }
  intros a b c (B1 & B2 & B3 & B4) (S1 & S2 & S3 & S4 & _).
  repeat split; congruence.
Qed.

(** *** The counter of the legs in their correct phase *)

Lemma countInCorrectPhase_map (l l' : list LegStepper) :
  map inCorrectPhase l' = map inCorrectPhase l ->
  countInCorrectPhase l' = countInCorrectPhase l.
Proof.
  revert l'. induction l as [|a l IH]; intros [|b l'] Hmap; simpl in *;
    try discriminate; [reflexivity|].
  injection Hmap as Hab Hrest. rewrite Hab, (IH l' Hrest). reflexivity.
Qed.

Lemma countInCorrectPhase_range (l : list LegStepper) :
  (0 <= countInCorrectPhase l <= Z.of_nat (length l))%Z.
Proof.
  induction l as [|a l IH]; simpl length; simpl countInCorrectPhase; [lia|].
  destruct (inCorrectPhase a); lia.
Qed.

(** An iteration of the loop counts the leg exactly when it sets the flag of
    the leg; while MOVING or STOPPED it clears the flag and leaves the
    counter. *)
Lemma robotStateMachineLeg_count (w : WalkController) (i : nat) (leg : Leg)
    (ls : LegStepper) :
  (walkState w = STARTING \/ walkState w = STOPPING ->
   (legsInCorrectPhase (fst (robotStateMachineLeg w i leg ls))
    - (if inCorrectPhase (snd (robotStateMachineLeg w i leg ls)) then 1 else 0)
    = legsInCorrectPhase w - (if inCorrectPhase ls then 1 else 0))%Z)
  /\ (walkState w = MOVING \/ walkState w = STOPPED ->
      legsInCorrectPhase (fst (robotStateMachineLeg w i leg ls))
      = legsInCorrectPhase w
      /\ inCorrectPhase (snd (robotStateMachineLeg w i leg ls)) = false).
Proof.
  unfold robotStateMachineLeg.
  destruct ls as [ph off st icp cfs sv dtp ctp tv so sto s1 s2 sn sdt stdt].
  destruct (walkState w) eqn:Ews; simpl; split;
    try (intros [Habs | Habs]; discriminate Habs).
  - intros _. destruct icp; simpl;
      repeat match goal with
             | |- context [if ?b then _ else _] => destruct b; simpl
             end; lia.
  - intros _. split; reflexivity.
  - intros _. destruct icp; destruct (Nat.eqb i 0); simpl;
      repeat match goal with
             | |- context [if ?b then _ else _] => destruct b; simpl
             end; lia.
  - intros _. split; reflexivity.
Qed.

Lemma robotStateMachine_count (legs : list Leg) :
  forall (lss : list LegStepper) (w : WalkController) (i : nat),
    (length lss <= length legs)%nat ->
    (walkState w = STARTING \/ walkState w = STOPPING ->
     (legsInCorrectPhase (fst (robotStateMachine w i legs lss))
      - countInCorrectPhase (snd (robotStateMachine w i legs lss))
      = legsInCorrectPhase w - countInCorrectPhase lss)%Z)
    /\ (walkState w = MOVING \/ walkState w = STOPPED ->
        legsInCorrectPhase (fst (robotStateMachine w i legs lss))
        = legsInCorrectPhase w
        /\ countInCorrectPhase (snd (robotStateMachine w i legs lss)) = 0%Z).
Proof.
  induction legs as [|leg legs IH]; intros lss w i Hlen.
  - destruct lss; simpl in *; [|lia]. split; intros _; [lia | split; reflexivity].
  - destruct lss as [|ls lss]; simpl in *;
      [split; intros _; [lia | split; reflexivity]|].
    destruct (robotStateMachineLeg_count w i leg ls) as [Hcount Hclear].
    pose proof (sameButCounters_walkState _ _
                  (robotStateMachineLeg_frame w i leg ls)) as Hws1.
    destruct (robotStateMachineLeg w i leg ls) as [w1 ls1]; simpl in *.
    assert (Hlen' : (length lss <= length legs)%nat) by lia.
    destruct (IH lss w1 (S i) Hlen') as [IHcount IHclear].
    destruct (robotStateMachine w1 (S i) legs lss) as [w2 rest]; simpl in *.
    rewrite Hws1 in IHcount, IHclear. split; intros Hst.
    + specialize (Hcount Hst). specialize (IHcount Hst). lia.
    + destruct (Hclear Hst) as [Hc1 Hf1]. destruct (IHclear Hst) as [Hc2 Hf2].
      rewrite Hf1. split; [congruence | lia].
Qed.

Lemma updateWalkState_count (speed : R) (w : WalkController) :
  legsInCorrectPhase w = countInCorrectPhase (legSteppers w) ->
  (walkState w = MOVING \/ walkState w = STOPPED -> legsInCorrectPhase w = 0%Z) ->
  (walkState (updateWalkState speed w) = STARTING
   \/ walkState (updateWalkState speed w) = STOPPING ->
   legsInCorrectPhase (updateWalkState speed w)
   = countInCorrectPhase (legSteppers (updateWalkState speed w)))
  /\ (walkState (updateWalkState speed w) = MOVING
      \/ walkState (updateWalkState speed w) = STOPPED ->
      legsInCorrectPhase (updateWalkState speed w) = 0%Z).
Proof.
  intros Hinv Hzero.
  destruct (updateWalkState_legSteppers speed w) as (_ & _ & Hflags).
  apply countInCorrectPhase_map in Hflags. rewrite Hflags. revert Hflags.
  unfold updateWalkState.
  destruct (walkState w) eqn:Ews; simpl;
    repeat match goal with
           | |- context [if ?b then _ else _] => destruct b; simpl
           end; intros _; rewrite ?Ews; split; intros [Hst | Hst];
    try discriminate Hst; try reflexivity; try exact Hinv;
    try (apply Hzero; auto; fail);
    rewrite <- Hinv; apply Hzero; auto.
Qed.

(** X4: the counter [legsInCorrectPhase] agrees with the flags of the legs.
    If before a tick of [updateWalk] the counter is the number of leg
    steppers whose [inCorrectPhase] flag is set, and is zero in the walk
    states MOVING and STOPPED, then the same holds after the tick; the
    counter is then between zero and the number of leg steppers. *)
Theorem updateWalk_legsInCorrectPhase_counts (v : Vector2d) (k : R)
    (dz : list R) (w : WalkController) (m : list Leg)
    (w' : WalkController) (m' : list Leg) :
  updateWalk v k dz w m = Some (w', m') ->
  (length (legSteppers w) <= length m)%nat ->
  legsInCorrectPhase w = countInCorrectPhase (legSteppers w) ->
  (walkState w = MOVING \/ walkState w = STOPPED -> legsInCorrectPhase w = 0%Z) ->
  legsInCorrectPhase w' = countInCorrectPhase (legSteppers w')
  /\ (walkState w' = MOVING \/ walkState w' = STOPPED ->
      legsInCorrectPhase w' = 0%Z)
  /\ (0 <= legsInCorrectPhase w' <= Z.of_nat (length (legSteppers w')))%Z.
Proof.
  intros Hrun. rewrite (updateWalk_inv _ _ _ _ _ _ _ Hrun). clear Hrun.
  intros Hlen Hinv Hzero.
  destruct (updateWalk_body_loop v k dz w m) as (Hws & _ & Hcnt & _).
  destruct (updateWalk_body_stages v k dz w m) as (_ & _ & Hsame).
  destruct (updateVelocities_frame v k w) as (Hws0 & Hc0 & _ & Hlss0 & _).
  set (w0 := updateVelocities v k w) in *.
  destruct (updateWalkState_legSteppers (normalSpeed w v) w0) as (Hlen1 & _).
  destruct (updateWalkState_count (normalSpeed w v) w0) as [Hone Htwo].
  { rewrite Hc0, Hlss0. exact Hinv. }
  { rewrite Hws0, Hc0. exact Hzero. }
  set (w1 := updateWalkState (normalSpeed w v) w0) in *.
  destruct (robotStateMachine_count m (legSteppers w1) w1 0) as [Hcount Hclear].
  { rewrite Hlen1, Hlss0. exact Hlen. }
  assert (Hflags :
    countInCorrectPhase (legSteppers (fst (updateWalk_body v k dz w m)))
    = countInCorrectPhase (snd (robotStateMachine w1 0 m (legSteppers w1)))).
  { apply countInCorrectPhase_map. apply Forall2_map_eq.
    eapply Forall2_impl; [|exact Hsame]. intros a b (_ & _ & Hi & _). exact Hi. }
  assert (Hagree :
    legsInCorrectPhase (fst (updateWalk_body v k dz w m))
    = countInCorrectPhase (legSteppers (fst (updateWalk_body v k dz w m)))
    /\ (walkState w1 = MOVING \/ walkState w1 = STOPPED ->
        legsInCorrectPhase (fst (updateWalk_body v k dz w m)) = 0%Z)).
  { rewrite Hcnt, Hflags.
    destruct (walkState w1) eqn:Ews1.
    - split; [|intros [Hst | Hst]; discriminate Hst].
      specialize (Hcount (or_introl eq_refl)).
      specialize (Hone (or_introl eq_refl)). lia.
    - destruct (Hclear (or_introl eq_refl)) as [Hc Hf].
      specialize (Htwo (or_introl eq_refl)). split; [lia | intros _; lia].
    - split; [|intros [Hst | Hst]; discriminate Hst].
      specialize (Hcount (or_intror eq_refl)).
      specialize (Hone (or_intror eq_refl)). lia.
    - destruct (Hclear (or_intror eq_refl)) as [Hc Hf].
      specialize (Htwo (or_intror eq_refl)). split; [lia | intros _; lia]. }
  destruct Hagree as [Hag Hz].
  split; [exact Hag | split].
  - rewrite Hws. exact Hz.
  - rewrite Hag. apply countInCorrectPhase_range.
Qed.

(** *** The stride vectors *)

Lemma Forall2_compose_left {A B : Type} (P : A -> B -> Prop)
    (Q : B -> B -> Prop) (R : A -> B -> Prop) :
  (forall a b c, P a b -> Q b c -> R a c) ->
  forall l1 l2 l3, Forall2 P l1 l2 -> Forall2 Q l2 l3 -> Forall2 R l1 l3.
Proof.
  intros Hcomp l1 l2 l3 H12. revert l3.
  induction H12 as [|a b l1 l2 Hab _ IH]; intros l3 H23; inversion H23; subst.
  - constructor.
  - constructor; eauto.
Qed.

Lemma robotStateMachineLeg_stride (w : WalkController) (i : nat) (leg : Leg)
    (ls : LegStepper) :
  strideVector (snd (robotStateMachineLeg w i leg ls)) = tipStride w leg.
Proof.
  unfold robotStateMachineLeg, tipStride.
  destruct (walkState w); simpl;
    repeat match goal with
           | |- context [if ?b then _ else _] => destruct b; simpl
           end; reflexivity.
Qed.

Lemma sameButCounters_tipStride (a b : WalkController) (leg : Leg) :
  sameButCounters a b -> tipStride b leg = tipStride a leg.
Proof. unfold sameButCounters; intros ->; reflexivity. Qed.

Lemma robotStateMachine_stride (w0 : WalkController) (legs : list Leg) :
  forall (lss : list LegStepper) (w : WalkController) (i : nat),
    sameButCounters w0 w ->
    length lss = length legs ->
    Forall2 (fun leg ls' => strideVector ls' = tipStride w0 leg)
      legs (snd (robotStateMachine w i legs lss)).
Proof.
  induction legs as [|leg legs IH]; intros lss w i Hw Hlen.
  - destruct lss; simpl in *; [constructor | discriminate].
  - destruct lss as [|ls lss]; simpl in *; [discriminate|].
    pose proof (robotStateMachineLeg_stride w i leg ls) as Hst.
    pose proof (robotStateMachineLeg_frame w i leg ls) as Hf.
    destruct (robotStateMachineLeg w i leg ls) as [w1 ls1]; simpl in *.
    assert (Hlen' : length lss = length legs) by lia.
    pose proof (IH lss w1 (S i) (sameButCounters_trans _ _ _ Hw Hf) Hlen')
      as Htail.
    destruct (robotStateMachine w1 (S i) legs lss) as [w2 rest]; simpl in *.
    constructor; [|exact Htail].
    rewrite Hst. apply sameButCounters_tipStride. exact Hw.
Qed.

(** X5: after a tick of [updateWalk] the stride vector of every leg is the
    velocity of the body at the tip of the leg, for the on-ground part of a
    step cycle: [(v + omega * (y, -x)) * onGroundRatio / stepFrequency], with
    the linear velocity [v] and the angular velocity [omega] the walk
    controller has at the end of the tick, that is after their limited
    change, and [(x, y)] the local tip position of the leg before the tick. *)
Theorem updateWalk_stride_vectors (v : Vector2d) (k : R) (dz : list R)
    (w : WalkController) (m : list Leg) (w' : WalkController) (m' : list Leg) :
  updateWalk v k dz w m = Some (w', m') ->
  length (legSteppers w) = length m ->
  Forall2 (fun leg ls' => strideVector ls' = tipStride w' leg)
    m (legSteppers w').
Proof.
  intros Hrun. rewrite (updateWalk_inv _ _ _ _ _ _ _ Hrun). clear Hrun.
  intros Hlen.
  destruct (updateWalk_body_loop v k dz w m) as (_ & _ & _ & Hstride).
  destruct (updateWalk_body_stages v k dz w m) as (_ & _ & Hsame).
  destruct (updateVelocities_frame v k w) as (_ & _ & _ & Hlss0 & _).
  set (w0 := updateVelocities v k w) in *.
  destruct (updateWalkState_legSteppers (normalSpeed w v) w0) as (Hlen1 & _).
  set (w1 := updateWalkState (normalSpeed w v) w0) in *.
  eapply Forall2_compose_left; [| | exact Hsame].
  2: { apply (robotStateMachine_stride w1 m (legSteppers w1) w1 0).
       - apply sameButCounters_refl.
       - rewrite Hlen1, Hlss0. exact Hlen. }
  intros leg b c Hb (_ & _ & _ & _ & Hsv). simpl in Hb.
  rewrite Hsv, Hb. symmetry. apply Hstride.
Qed.

End WalkTick.

(** ** The commanded velocity *)

Section Commands.

Import Walker.

Context `{StandardIncludes} `{Kinematics} `{QuatLib}.

Lemma localVelocity_stopping (w : WalkController) (v : Vector2d) :
  walkState w = STOPPING -> localVelocity w v = mkV2 0 0.
Proof. intros Hst. unfold localVelocity. rewrite Hst. reflexivity. Qed.

Lemma updateVelocities_stopping (v : Vector2d) (k : R) (w : WalkController) :
  walkState w = STOPPING ->
  updateVelocities v k w = updateVelocities (mkV2 0 0) 0 w.
Proof.
  intros Hst. unfold updateVelocities.
  rewrite !(localVelocity_stopping w _ Hst), v2norm_zero.
  replace (k * 0 / stanceRadius w) with (0 * 0 / stanceRadius w)
    by (unfold Rdiv; ring).
  replace (v2scale (mkV2 0 0) (1 - Rabs k))
    with (v2scale (mkV2 0 0) (1 - Rabs 0))
    by (apply v2_eq; simpl; ring).
  reflexivity.
Qed.

(** X6: while the walk state is STOPPING a tick of [updateWalk] does not read
    its command: whatever the velocity and the curvature commanded, the tick
    is the one of the zero command, and the assertion on the commanded speed
    holds. *)
Theorem updateWalk_stopping_ignores_command (v : Vector2d) (k : R)
    (dz : list R) (w : WalkController) (m : list Leg) :
  walkState w = STOPPING ->
  updateWalk v k dz w m = Some (updateWalk_body (mkV2 0 0) 0 dz w m)
  /\ normalSpeed w v = 0.
Proof.
  intros Hst.
  assert (Hspeed : forall u, normalSpeed w u = 0).
  { intros u. unfold normalSpeed.
    rewrite (localVelocity_stopping w u Hst). apply v2norm_zero. }
  split; [|apply Hspeed].
  rewrite updateWalk_Some by (rewrite Hspeed; lra).
  unfold updateWalk_body.
  rewrite (Hspeed v), (Hspeed (mkV2 0 0)), (updateVelocities_stopping v k w Hst).
  reflexivity.
Qed.

Lemma v2norm_eq_0 (a : Vector2d) : v2norm a = 0 -> a = mkV2 0 0.
Proof.
  unfold v2norm. intros Hn.
  apply sqrt_eq_0 in Hn; [|nra].
  apply v2_eq; simpl; nra.
Qed.

Lemma v2norm_nonneg (a : Vector2d) : 0 <= v2norm a.
Proof. unfold v2norm. apply sqrt_pos. Qed.

Lemma v2sub_zero (a b : Vector2d) : v2sub a b = mkV2 0 0 -> a = b.
Proof.
  unfold v2sub. intros Heq. injection Heq as Hx Hy.
  apply v2_eq; lra.
Qed.

(** X7: the velocity update of a tick reaches the commanded velocity when
    the limit allows it, and uses the limit in full when it does not.  With
    the target [t = localVelocity * (1 - |curvature|)] and the limit
    [B = maxAcceleration * timeDelta] in force, the linear body velocity
    becomes [t] when [|t - v| <= B], and moves by a vector of norm [B]
    exactly when [0 <= B < |t - v|]; likewise the angular velocity with the
    target [curvature * normalSpeed / stanceRadius] and the limit
    [maxCurvatureSpeed * timeDelta]. *)
Theorem updateVelocities_reaches_command (v : Vector2d) (k : R)
    (w : WalkController) :
  (v2norm (v2sub (v2scale (localVelocity w v) (1 - Rabs k))
             (localCentreVelocity w))
   <= maxAcceleration (deriveMaxAcceleration w) * timeDelta w ->
   localCentreVelocity (updateVelocities v k w)
   = v2scale (localVelocity w v) (1 - Rabs k))
  /\ (0 <= maxAcceleration (deriveMaxAcceleration w) * timeDelta w
           < v2norm (v2sub (v2scale (localVelocity w v) (1 - Rabs k))
                       (localCentreVelocity w)) ->
      v2norm (v2sub (localCentreVelocity (updateVelocities v k w))
                (localCentreVelocity w))
      = maxAcceleration (deriveMaxAcceleration w) * timeDelta w)
  /\ (Rabs (k * normalSpeed w v / stanceRadius w - angularVelocity w)
      <= maxCurvatureSpeed (params w) * timeDelta w ->
      angularVelocity (updateVelocities v k w)
      = k * normalSpeed w v / stanceRadius w)
  /\ (0 <= maxCurvatureSpeed (params w) * timeDelta w
           < Rabs (k * normalSpeed w v / stanceRadius w - angularVelocity w) ->
      Rabs (angularVelocity (updateVelocities v k w) - angularVelocity w)
      = maxCurvatureSpeed (params w) * timeDelta w).
Proof.
  rewrite updateVelocities_linear, updateVelocities_angular.
  set (a := v2sub (v2scale (localVelocity w v) (1 - Rabs k))
              (localCentreVelocity w)).
  set (B := maxAcceleration (deriveMaxAcceleration w) * timeDelta w).
  set (d := k * normalSpeed w v / stanceRadius w - angularVelocity w).
  set (C := maxCurvatureSpeed (params w) * timeDelta w).
  pose proof (v2norm_nonneg a) as Hn0.
  pose proof (Rabs_pos d) as Hd0.
  repeat apply conj.
  - intros Hle. destruct (Rltb 0 (v2norm a)) eqn:Hpos.
    + apply Rltb_true in Hpos.
      assert (Hq : 1 <= B / v2norm a).
      { apply (Rmult_le_reg_r (v2norm a)); [exact Hpos|].
        replace (B / v2norm a * v2norm a) with B by (field; lra). lra. }
      rewrite Rmin_left by exact Hq.
      subst a. apply v2_eq; simpl; ring.
    + apply Rltb_false in Hpos.
      assert (Hz : v2norm a = 0) by lra.
      apply v2norm_eq_0 in Hz. subst a. symmetry. apply v2sub_zero. exact Hz.
  - intros [HB Hlt].
    assert (Hpos : 0 < v2norm a) by lra.
    apply Rltb_true in Hpos. rewrite Hpos. apply Rltb_true in Hpos.
    rewrite v2add_sub_cancel, v2norm_scale.
    assert (Hq : B / v2norm a <= 1).
    { apply (Rmult_le_reg_r (v2norm a)); [exact Hpos|].
      replace (B / v2norm a * v2norm a) with B by (field; lra). lra. }
    rewrite Rmin_right by exact Hq.
    assert (Hq0 : 0 <= B / v2norm a).
    { apply Rmult_le_pos; [lra | left; apply Rinv_0_lt_compat; lra]. }
    rewrite Rabs_pos_eq by exact Hq0. field. lra.
  - intros Hle. destruct (Rltb 0 (Rabs d)) eqn:Hpos.
    + apply Rltb_true in Hpos.
      assert (Hq : 1 <= C / Rabs d).
      { apply (Rmult_le_reg_r (Rabs d)); [exact Hpos|].
        replace (C / Rabs d * Rabs d) with C by (field; lra). lra. }
      rewrite Rmin_left by exact Hq. subst d. ring.
    + apply Rltb_false in Hpos.
      assert (Hz : Rabs d = 0) by lra.
      assert (Hd : d = 0).
      { destruct (Req_dec d 0) as [Hd | Hd]; [exact Hd|].
        apply Rabs_no_R0 in Hd. contradiction. }
      subst d. lra.
  - intros [HC Hlt].
    assert (Hpos : 0 < Rabs d) by lra.
    apply Rltb_true in Hpos. rewrite Hpos. apply Rltb_true in Hpos.
    assert (Hq : C / Rabs d <= 1).
    { apply (Rmult_le_reg_r (Rabs d)); [exact Hpos|].
      replace (C / Rabs d * Rabs d) with C by (field; lra). lra. }
    rewrite Rmin_right by exact Hq.
    assert (Hq0 : 0 <= C / Rabs d).
    { apply Rmult_le_pos; [lra | left; apply Rinv_0_lt_compat; lra]. }
    replace (angularVelocity w + d * (C / Rabs d) - angularVelocity w)
      with (d * (C / Rabs d)) by ring.
    rewrite Rabs_mult, (Rabs_pos_eq (C / Rabs d)) by exact Hq0.
    field. lra.
Qed.

End Commands.

(** ** The swing curves *)

Section SwingNodes.

Import Walker.

Variable w : WalkController.
Variable s : LegStepper.

Local Notation "'scaler'" := (stanceDeltaT s / swingDeltaT s).

(** X8: the two swing curves [generateSwingControlNodes] builds join the
    stance curve with a continuous tip velocity.  With the Bezier scaler
    [stanceDeltaT / swingDeltaT]: the primary curve starts at the swing
    origin, its first node difference is the last one of the stance curve
    times the scaler, and its second one equals its first; the secondary
    curve starts where the primary one ends, with the same node difference
    across the seam; it ends at the first node of the stance curve, its last
    node difference is the first one of the stance curve times the scaler,
    and the one before is equal to it.  The stance curve is not written and
    the stride vector argument is not read. *)
Theorem generateSwingControlNodes_joins (sv sv' : Vector3d) :
  let s' := generateSwingControlNodes w sv s in
  let st := stanceControlNodes s in
  node 0 (swing1ControlNodes s') = swingOriginTipPosition s
  /\ node 1 (swing1ControlNodes s') -v node 0 (swing1ControlNodes s')
     = scaler *v (node 4 st -v node 3 st)
  /\ node 2 (swing1ControlNodes s') -v node 1 (swing1ControlNodes s')
     = node 1 (swing1ControlNodes s') -v node 0 (swing1ControlNodes s')
  /\ node 0 (swing2ControlNodes s') = node 4 (swing1ControlNodes s')
  /\ node 1 (swing2ControlNodes s') -v node 0 (swing2ControlNodes s')
     = node 4 (swing1ControlNodes s') -v node 3 (swing1ControlNodes s')
  /\ node 4 (swing2ControlNodes s') = node 0 st
  /\ node 4 (swing2ControlNodes s') -v node 3 (swing2ControlNodes s')
     = scaler *v (node 1 st -v node 0 st)
  /\ node 3 (swing2ControlNodes s') -v node 2 (swing2ControlNodes s')
     = node 4 (swing2ControlNodes s') -v node 3 (swing2ControlNodes s')
  /\ stanceControlNodes s' = st
  /\ generateSwingControlNodes w sv' s = s'.
Proof.
  intros s' st. subst s' st.
  repeat apply conj; try reflexivity;
    apply v3_eq; simpl; unfold Rdiv; ring.
Qed.

End SwingNodes.

(** ** The gait parameters *)

Section Gait.

Import Walker.

Context `{StandardIncludes}.

Lemma truncToInt_below (x : R) : 0 <= x -> IZR (truncToInt x) <= x.
Proof.
  intros Hx. unfold truncToInt. destruct (Rle_dec 0 x) as [_|]; [|easy].
  destruct (base_Int_part x) as [Hlow _]. exact Hlow.
Qed.

Lemma Int_part_mono (x y : R) : x <= y -> (Int_part x <= Int_part y)%Z.
Proof.
  intros Hxy.
  destruct (base_Int_part x) as [Hx _]. destruct (base_Int_part y) as [_ Hy].
  assert (Hlt : IZR (Int_part x) < IZR (Int_part y + 1)).
  { rewrite plus_IZR. simpl. lra. }
  apply lt_IZR in Hlt. lia.
Qed.

Lemma truncToInt_mono (x y : R) :
  0 <= x -> x <= y -> (truncToInt x <= truncToInt y)%Z.
Proof.
  intros Hx Hxy. unfold truncToInt.
  destruct (Rle_dec 0 x) as [_|]; [|easy].
  destruct (Rle_dec 0 y) as [_|Hy]; [|exfalso; apply Hy; lra].
  apply Int_part_mono. exact Hxy.
Qed.

Lemma setPhaseOffsets_length (p : Parameters) (n L : Z) (lss : list LegStepper) :
  forall i, length (setPhaseOffsets p n L i lss) = length lss.
Proof. induction lss as [|ls lss IH]; intros i; simpl; [|rewrite IH]; reflexivity. Qed.

Lemma setPhaseOffsets_offsets (p : Parameters) (n L : Z) (lss : list LegStepper) :
  forall i,
    Forall2 (fun ls ls' =>
               exists j, phaseOffset ls' = gaitPhaseOffset p n L j
                         /\ phase ls' = phase ls /\ state ls' = state ls
                         /\ inCorrectPhase ls' = inCorrectPhase ls
                         /\ completedFirstStep ls' = completedFirstStep ls
                         /\ currentTipPosition ls' = currentTipPosition ls)
      lss (setPhaseOffsets p n L i lss).
Proof.
  induction lss as [|ls lss IH]; intros i; simpl; constructor.
  - exists i. simpl. repeat split; reflexivity.
  - apply IH.
Qed.

Lemma gaitPhaseOffset_range (p : Parameters) (n L : Z) (j : nat) :
  (0 < L)%Z -> (0 <= n)%Z -> 0 <= p_phaseOffset p ->
  Forall (fun k => (0 <= k)%Z) (offsetMultiplier p) ->
  (0 <= gaitPhaseOffset p n L j < L)%Z.
Proof.
  intros HL Hn Hp Hm. unfold gaitPhaseOffset.
  apply Z.rem_bound_pos; [|exact HL].
  apply Z.mul_nonneg_nonneg.
  - apply truncToInt_nonneg. apply Rmult_le_pos; [exact Hp|].
    apply IZR_le. exact Hn.
  - destruct (nth_in_or_default j (offsetMultiplier p) 0%Z) as [Hin | ->]; [|lia].
    rewrite Forall_forall in Hm. apply Hm. exact Hin.
Qed.

(** X9: the step cycle [setGaitParams] sets up.  When its assertion holds,
    the phase length is a whole multiple of the base phase length
    [int(stancePhase + swingPhase)]; the stance window is the complement of
    the swing window; a step cycle of [phaseLength] ticks takes the time of
    one step at the corrected step frequency; and, for phases that are not
    negative and a positive phase length and base phase length, the swing
    window lies in the cycle: [0 <= swingStart <= swingEnd <= phaseLength].
    The walk state, the two counters and the number of leg steppers are
    kept. *)
Theorem setGaitParams_step_cycle (p : Parameters) (w w1 : WalkController) :
  setGaitParams p w = Some w1 ->
  (phaseLength w1
   = Z.quot (phaseLength w1) (truncToInt (p_stancePhase p + p_swingPhase p))
     * truncToInt (p_stancePhase p + p_swingPhase p))%Z
  /\ stanceEnd w1 = swingStart w1
  /\ stanceStart w1 = swingEnd w1
  /\ (timeDelta w <> 0 -> phaseLength w1 <> 0%Z ->
      stepFrequency w1 * (IZR (phaseLength w1) * timeDelta w1) = 1)
  /\ (0 <= p_stancePhase p -> 0 <= p_swingPhase p ->
      (0 < phaseLength w1)%Z ->
      (0 < truncToInt (p_stancePhase p + p_swingPhase p))%Z ->
      (0 <= swingStart w1 <= swingEnd w1)%Z
      /\ (swingEnd w1 <= phaseLength w1)%Z)
  /\ params w1 = p
  /\ walkState w1 = walkState w
  /\ legsInCorrectPhase w1 = legsInCorrectPhase w
  /\ legsCompletedFirstStep w1 = legsCompletedFirstStep w
  /\ length (legSteppers w1) = length (legSteppers w).
Proof.
  unfold setGaitParams.
  set (base := truncToInt (p_stancePhase p + p_swingPhase p)).
  set (L := truncToInt _).
  destruct (Z.rem L base =? 0)%Z eqn:Hrem; [|discriminate].
  apply Z.eqb_eq in Hrem.
  intros Heq. injection Heq as <-.
  cbn [phaseLength stanceEnd swingStart stanceStart swingEnd stepFrequency
       timeDelta params walkState legsInCorrectPhase legsCompletedFirstStep
       legSteppers].
  assert (Hmult : L = (Z.quot L base * base)%Z).
  { pose proof (Z.quot_rem' L base) as Hqr. lia. }
  repeat apply conj; try reflexivity.
  - exact Hmult.
  - intros Hdt HL. field. split; [exact Hdt|].
    apply not_0_IZR. exact HL.
  - intros Hst Hsw HL Hbase.
    assert (Hn : (0 <= Z.quot L base)%Z) by (apply Z.quot_pos; lia).
    assert (Ha : (0 <= truncToInt (p_stancePhase p * 0.5))%Z)
      by (apply truncToInt_nonneg; lra).
    assert (Hb : (truncToInt (p_stancePhase p * 0.5)
                  <= truncToInt (IZR (truncToInt (p_stancePhase p * 0.5))
                                 + p_swingPhase p))%Z).
    { rewrite <- (truncToInt_IZR (truncToInt (p_stancePhase p * 0.5))) at 1.
      apply truncToInt_mono; [apply IZR_le; exact Ha | lra]. }
    assert (Hc : (truncToInt (IZR (truncToInt (p_stancePhase p * 0.5))
                              + p_swingPhase p) <= base)%Z).
    { apply truncToInt_mono.
      - apply Rplus_le_le_0_compat; [apply IZR_le; exact Ha | exact Hsw].
      - pose proof (truncToInt_below (p_stancePhase p * 0.5)) as Hbelow. lra. }
    repeat split.
    + apply Z.mul_nonneg_nonneg; assumption.
    + apply Z.mul_le_mono_nonneg_r; assumption.
    + apply Z.le_trans with (Z.quot L base * base)%Z; [|lia].
      rewrite Z.mul_comm. apply Z.mul_le_mono_nonneg_l; assumption.
  - apply setPhaseOffsets_length.
Qed.

(** X10: the phase offsets [setGaitParams] gives the legs.  For a positive
    phase length and base phase length, a phase offset parameter and offset
    multipliers that are not negative, every leg stepper has a phase offset
    in [[0, phaseLength)]; its phase, state, flags and tip position are not
    written. *)
Theorem setGaitParams_phase_offsets (p : Parameters) (w w1 : WalkController) :
  setGaitParams p w = Some w1 ->
  (0 < phaseLength w1)%Z ->
  (0 < truncToInt (p_stancePhase p + p_swingPhase p))%Z ->
  0 <= p_phaseOffset p ->
  Forall (fun k => (0 <= k)%Z) (offsetMultiplier p) ->
  Forall2 (fun ls ls' =>
             (0 <= phaseOffset ls' < phaseLength w1)%Z
             /\ phase ls' = phase ls /\ state ls' = state ls
             /\ inCorrectPhase ls' = inCorrectPhase ls
             /\ completedFirstStep ls' = completedFirstStep ls
             /\ currentTipPosition ls' = currentTipPosition ls)
    (legSteppers w) (legSteppers w1).
Proof.
  unfold setGaitParams.
  set (base := truncToInt (p_stancePhase p + p_swingPhase p)).
  set (L := truncToInt _).
  destruct (Z.rem L base =? 0)%Z eqn:Hrem; [|discriminate].
  intros Heq. injection Heq as <-.
  cbn [phaseLength legSteppers].
  intros HL Hbase Hp Hm.
  assert (Hn : (0 <= Z.quot L base)%Z) by (apply Z.quot_pos; lia).
  eapply Forall2_impl; [|apply setPhaseOffsets_offsets].
  intros ls ls' (j & Hoff & Hrest).
  split; [|exact Hrest].
  rewrite Hoff. apply gaitPhaseOffset_range; assumption.
Qed.

End Gait.

(** ** The sample walker, continued *)

Section SampleTick.

Import Walker.

Lemma sample_run :
  @updateWalk Samples.includes Samples.kinematics Samples.quatLib
    Samples.halfSpeedAhead 0 Samples.noDeltaZ Samples.walker Samples.model
  = Some (@updateWalk_body Samples.includes Samples.kinematics
            Samples.quatLib Samples.halfSpeedAhead 0 Samples.noDeltaZ
            Samples.walker Samples.model).
Proof. apply updateWalk_Some. rewrite sample_normalSpeed. lra. Qed.

Lemma sample_run_moving :
  @updateWalk Samples.includes Samples.kinematics Samples.quatLib
    Samples.halfSpeedAhead 0 Samples.noDeltaZ
    (set_walkState MOVING Samples.walker) Samples.model
  = Some (@updateWalk_body Samples.includes Samples.kinematics
            Samples.quatLib Samples.halfSpeedAhead 0 Samples.noDeltaZ
            (set_walkState MOVING Samples.walker) Samples.model).
Proof.
  apply updateWalk_Some.
  change (normalSpeed (set_walkState MOVING Samples.walker)
            Samples.halfSpeedAhead)
    with (normalSpeed Samples.walker Samples.halfSpeedAhead).
  rewrite sample_normalSpeed. lra.
Qed.

Lemma sample_stays_moving :
  walkState
    (fst (@updateWalk_body Samples.includes Samples.kinematics Samples.quatLib
            Samples.halfSpeedAhead 0 Samples.noDeltaZ
            (set_walkState MOVING Samples.walker) Samples.model))
  = MOVING.
Proof.
  destruct (@updateWalk_body_loop Samples.includes Samples.kinematics
              Samples.quatLib Samples.halfSpeedAhead 0 Samples.noDeltaZ
              (set_walkState MOVING Samples.walker) Samples.model)
    as (Hws & _).
  rewrite Hws.
  change (normalSpeed (set_walkState MOVING Samples.walker)
            Samples.halfSpeedAhead)
    with (normalSpeed Samples.walker Samples.halfSpeedAhead).
  rewrite sample_normalSpeed.
  destruct (updateVelocities_frame Samples.halfSpeedAhead 0
              (set_walkState MOVING Samples.walker))
    as (Hw0 & Hc1 & Hc2 & _).
  unfold updateWalkState. rewrite Hw0, Hc1, Hc2. simpl.
  replace (Reqb (5 / 26) 0) with false; [simpl; exact Hw0|].
  symmetry. apply Reqb_false. lra.
Qed.

(** The lifted leg of the sample walker, at the first tick of its swing. *)
Lemma updatePosition_displacement_witness :
  timeDelta Samples.walker <> 0
  /\ swingOriginTipPosition
       (@updatePosition Samples.includes Samples.walker Samples.liftedLeg)
     = currentTipPosition Samples.liftedLeg.
Proof.
  assert (Hdt : timeDelta Samples.walker <> 0) by (simpl; lra).
  split; [exact Hdt|].
  destruct (@updatePosition_displacement Samples.includes Samples.walker
              Samples.liftedLeg Hdt) as (_ & _ & Horigin & _).
  apply Horigin; reflexivity.
Defined.

Lemma sample_phases :
  Forall (phaseInCycle (phaseLength Samples.walker))
    (legSteppers Samples.walker).
Proof. repeat constructor; simpl; lia. Qed.

(** The sample walker, commanded ahead while STOPPED, keeps its phases in
    the step cycle. *)
Lemma updateWalk_phase_in_cycle_witness :
  (0 < phaseLength Samples.walker)%Z
  /\ (length (legSteppers Samples.walker) <= length Samples.model)%nat
  /\ Forall (phaseInCycle (phaseLength Samples.walker))
       (legSteppers Samples.walker)
  /\ Forall (phaseInCycle
               (phaseLength
                  (fst (@updateWalk_body Samples.includes Samples.kinematics
                          Samples.quatLib Samples.halfSpeedAhead 0
                          Samples.noDeltaZ Samples.walker Samples.model))))
       (legSteppers
          (fst (@updateWalk_body Samples.includes Samples.kinematics
                  Samples.quatLib Samples.halfSpeedAhead 0 Samples.noDeltaZ
                  Samples.walker Samples.model))).
Proof.
  assert (HL : (0 < phaseLength Samples.walker)%Z) by (simpl; lia).
  assert (Hlen : (length (legSteppers Samples.walker)
                  <= length Samples.model)%nat) by (simpl; lia).
  split; [exact HL | split; [exact Hlen | split; [exact sample_phases|]]].
  pose proof sample_run as Hrun.
  rewrite (surjective_pairing (updateWalk_body _ _ _ _ _)) in Hrun.
  destruct (updateWalk_phase_in_cycle _ _ _ _ _ _ _ Hrun HL Hlen sample_phases)
    as (_ & Hcycle & _).
  exact Hcycle.
Defined.

(** The sample walker, MOVING and commanded ahead, advances the phase of
    every leg. *)
Lemma updateWalk_moving_advances_witness :
  walkState
    (fst (@updateWalk_body Samples.includes Samples.kinematics Samples.quatLib
            Samples.halfSpeedAhead 0 Samples.noDeltaZ
            (set_walkState MOVING Samples.walker) Samples.model))
  = MOVING
  /\ (length (legSteppers (set_walkState MOVING Samples.walker))
      <= length Samples.model)%nat
  /\ Forall2 (fun ls ls' => phase ls' = Z.rem (phase ls + 1) 52)
       (legSteppers (set_walkState MOVING Samples.walker))
       (legSteppers
          (fst (@updateWalk_body Samples.includes Samples.kinematics
                  Samples.quatLib Samples.halfSpeedAhead 0 Samples.noDeltaZ
                  (set_walkState MOVING Samples.walker) Samples.model))).
Proof.
  assert (Hlen : (length (legSteppers (set_walkState MOVING Samples.walker))
                  <= length Samples.model)%nat) by (simpl; lia).
  split; [exact sample_stays_moving | split; [exact Hlen|]].
  pose proof sample_run_moving as Hrun.
  rewrite (surjective_pairing (updateWalk_body _ _ _ _ _)) in Hrun.
  pose proof (updateWalk_moving_advances _ _ _ _ _ _ _ Hrun
                sample_stays_moving Hlen) as Hadv.
  eapply Forall2_impl; [|exact Hadv].
  intros a b (Hph & _). exact Hph.
Defined.

(** The sample walker, commanded ahead while STOPPED, counts the legs it has
    put in their correct phase. *)
Lemma updateWalk_legsInCorrectPhase_counts_witness :
  (length (legSteppers Samples.walker) <= length Samples.model)%nat
  /\ legsInCorrectPhase Samples.walker
     = countInCorrectPhase (legSteppers Samples.walker)
  /\ legsInCorrectPhase
       (fst (@updateWalk_body Samples.includes Samples.kinematics
               Samples.quatLib Samples.halfSpeedAhead 0 Samples.noDeltaZ
               Samples.walker Samples.model))
     = countInCorrectPhase
         (legSteppers
            (fst (@updateWalk_body Samples.includes Samples.kinematics
                    Samples.quatLib Samples.halfSpeedAhead 0 Samples.noDeltaZ
                    Samples.walker Samples.model))).
Proof.
  assert (Hlen : (length (legSteppers Samples.walker)
                  <= length Samples.model)%nat) by (simpl; lia).
  assert (Hinv : legsInCorrectPhase Samples.walker
                 = countInCorrectPhase (legSteppers Samples.walker))
    by reflexivity.
  assert (Hzero : walkState Samples.walker = MOVING
                  \/ walkState Samples.walker = STOPPED ->
                  legsInCorrectPhase Samples.walker = 0%Z)
    by (intros _; reflexivity).
  split; [exact Hlen | split; [exact Hinv|]].
  pose proof sample_run as Hrun.
  rewrite (surjective_pairing (updateWalk_body _ _ _ _ _)) in Hrun.
  destruct (updateWalk_legsInCorrectPhase_counts _ _ _ _ _ _ _ Hrun Hlen Hinv
              Hzero) as (Hcount & _).
  exact Hcount.
Defined.

(** The stride vectors of the sample walker after it is commanded ahead. *)
Lemma updateWalk_stride_vectors_witness :
  length (legSteppers Samples.walker) = length Samples.model
  /\ Forall2
       (fun leg ls' =>
          strideVector ls'
          = tipStride
              (fst (@updateWalk_body Samples.includes Samples.kinematics
                      Samples.quatLib Samples.halfSpeedAhead 0
                      Samples.noDeltaZ Samples.walker Samples.model)) leg)
       Samples.model
       (legSteppers
          (fst (@updateWalk_body Samples.includes Samples.kinematics
                  Samples.quatLib Samples.halfSpeedAhead 0 Samples.noDeltaZ
                  Samples.walker Samples.model))).
Proof.
  assert (Hlen : length (legSteppers Samples.walker) = length Samples.model)
    by reflexivity.
  split; [exact Hlen|].
  pose proof sample_run as Hrun.
  rewrite (surjective_pairing (updateWalk_body _ _ _ _ _)) in Hrun.
  exact (updateWalk_stride_vectors _ _ _ _ _ _ _ Hrun Hlen).
Defined.

(** The sample walker, while STOPPING, runs the tick of the zero command
    when it is commanded ahead. *)
Lemma updateWalk_stopping_ignores_command_witness :
  walkState (set_walkState STOPPING Samples.walker) = STOPPING
  /\ @updateWalk Samples.includes Samples.kinematics Samples.quatLib
       Samples.halfSpeedAhead 1 Samples.noDeltaZ
       (set_walkState STOPPING Samples.walker) Samples.model
     = Some (@updateWalk_body Samples.includes Samples.kinematics
               Samples.quatLib (mkV2 0 0) 0 Samples.noDeltaZ
               (set_walkState STOPPING Samples.walker) Samples.model).
Proof.
  split; [reflexivity|].
  destruct (@updateWalk_stopping_ignores_command Samples.includes
              Samples.kinematics Samples.quatLib Samples.halfSpeedAhead 1
              Samples.noDeltaZ (set_walkState STOPPING Samples.walker)
              Samples.model eq_refl) as (Hrun & _).
  exact Hrun.
Defined.

End SampleTick.

(** ** The sample gait *)

Section SampleGait.

Import Walker.

Lemma Int_part_IZR (z : Z) : Int_part (IZR z) = z.
Proof. symmetry. apply Int_part_spec. lra. Qed.

(** The tripod gait of the sample walker is the one [setGaitParams] sets
    up: a phase length of 52 ticks, the swing window [[13, 39)]. *)
Lemma sample_setGaitParams :
  @setGaitParams Samples.includes Samples.gaitParameters Samples.walker
  = Some Samples.walker.
Proof.
  unfold setGaitParams.
  cbn [p_stancePhase p_swingPhase p_stepFrequency p_phaseOffset timeDelta
       Samples.gaitParameters Samples.walker].
  replace (2 + 2) with (IZR 4) by lra.
  replace (2 * 0.5) with (IZR 1) by lra.
  rewrite !truncToInt_IZR.
  replace (IZR 1 + 2) with (IZR 3) by lra.
  rewrite !truncToInt_IZR.
  replace (1 / (2 * 1 * (1 / 50)) / (IZR 4 * (2 / IZR 4))) with (25 / 2)
    by field.
  replace (@roundToInt Samples.includes (25 / 2)) with 13%Z.
  2: { unfold roundToInt, Samples.includes.
       replace (25 / 2 + / 2) with (IZR 13) by lra.
       symmetry. apply Int_part_IZR. }
  replace (IZR 13 * (IZR 4 * (2 / IZR 4)) / (2 / IZR 4)) with (IZR 52) by field.
  rewrite truncToInt_IZR.
  change (Z.rem 52 4 =? 0)%Z with true. cbv iota.
  change (Z.quot 52 4) with 13%Z.
  replace (1 / (52 * (1 / 50))) with (25 / 26) by field.
  assert (Hlss : setPhaseOffsets Samples.gaitParameters 13 52 0
                   (legSteppers Samples.walker)
                 = legSteppers Samples.walker).
  { cbn [legSteppers Samples.walker setPhaseOffsets].
    unfold gaitPhaseOffset.
    cbn [offsetMultiplier p_phaseOffset Samples.gaitParameters nth].
    replace (2 * 13) with (IZR 26) by lra.
    rewrite truncToInt_IZR. reflexivity. }
  rewrite Hlss. reflexivity.
Qed.

(** The step cycle of the sample gait. *)
Lemma setGaitParams_step_cycle_witness :
  @setGaitParams Samples.includes Samples.gaitParameters Samples.walker
  = Some Samples.walker
  /\ stanceEnd Samples.walker = swingStart Samples.walker
  /\ stanceStart Samples.walker = swingEnd Samples.walker.
Proof.
  split; [exact sample_setGaitParams|].
  destruct (@setGaitParams_step_cycle Samples.includes Samples.gaitParameters
              Samples.walker Samples.walker sample_setGaitParams)
    as (_ & Hend & Hstart & _).
  split; assumption.
Defined.

Lemma sample_basePhaseLength :
  (0 < truncToInt (p_stancePhase Samples.gaitParameters
                   + p_swingPhase Samples.gaitParameters))%Z.
Proof.
  simpl. replace (2 + 2) with (IZR 4) by lra. rewrite truncToInt_IZR. lia.
Qed.

(** The phase offsets of the sample gait. *)
Lemma setGaitParams_phase_offsets_witness :
  @setGaitParams Samples.includes Samples.gaitParameters Samples.walker
  = Some Samples.walker
  /\ (0 < phaseLength Samples.walker)%Z
  /\ (0 < truncToInt (p_stancePhase Samples.gaitParameters
                      + p_swingPhase Samples.gaitParameters))%Z
  /\ 0 <= p_phaseOffset Samples.gaitParameters
  /\ Forall (fun k => (0 <= k)%Z) (offsetMultiplier Samples.gaitParameters)
  /\ Forall (fun ls => (0 <= phaseOffset ls < phaseLength Samples.walker)%Z)
       (legSteppers Samples.walker).
Proof.
  assert (HL : (0 < phaseLength Samples.walker)%Z) by (simpl; lia).
  assert (Hp : 0 <= p_phaseOffset Samples.gaitParameters) by (simpl; lra).
  assert (Hm : Forall (fun k => (0 <= k)%Z)
                 (offsetMultiplier Samples.gaitParameters))
    by (repeat constructor; lia).
  split; [exact sample_setGaitParams|].
  split; [exact HL|]. split; [exact sample_basePhaseLength|].
  split; [exact Hp|]. split; [exact Hm|].
  pose proof (@setGaitParams_phase_offsets Samples.includes
                Samples.gaitParameters Samples.walker Samples.walker
                sample_setGaitParams HL sample_basePhaseLength Hp Hm) as Hoff.
  eapply Forall2_right; [|exact Hoff].
  intros a b (Hrange & _). exact Hrange.
Defined.

End SampleGait.

(** ** The step of a leg poser *)

Section StepToPosition.

Import Poser.

Context `{StandardIncludes} `{QuatLib} `{BuildConstants}.

Lemma truncToInt_lt (x : R) (z : Z) :
  (0 < z)%Z -> x < IZR z -> (truncToInt x < z)%Z.
Proof.
  intros Hz Hx. unfold truncToInt. destruct (Rle_dec 0 x) as [Hpos | Hneg].
  - destruct (base_Int_part x) as [Hlow _].
    apply lt_IZR. lra.
  - assert (Hge : (0 <= Int_part (- x))%Z).
    { destruct (base_Int_part (- x)) as [_ Hup].
      assert (Hgt : IZR (-1) < IZR (Int_part (- x))) by (simpl; lra).
      apply lt_IZR in Hgt. lia. }
    lia.
Qed.

(** One iteration of a step that has begun. *)
Lemma stepToPosition_iterate_step (dt : R) (l : Leg) (target : Vector3d)
    (pose : Pose) (lift time : R) (dz : bool) (p : LegPoser) :
  first_iteration_ p = false ->
  master_iteration_count_
    (fst (stepToPosition_iterate dt l target pose lift time dz p))
  = (master_iteration_count_ p + 1)%Z
  /\ origin_tip_position_
       (fst (stepToPosition_iterate dt l target pose lift time dz p))
     = origin_tip_position_ p
  /\ ((stepIterations time dt <= master_iteration_count_ p + 1)%Z ->
      snd (stepToPosition_iterate dt l target pose lift time dz p)
      = PROGRESS_COMPLETE
      /\ first_iteration_
           (fst (stepToPosition_iterate dt l target pose lift time dz p))
         = true)
  /\ ((master_iteration_count_ p + 1 < stepIterations time dt)%Z ->
      (snd (stepToPosition_iterate dt l target pose lift time dz p)
       < PROGRESS_COMPLETE)%Z
      /\ first_iteration_
           (fst (stepToPosition_iterate dt l target pose lift time dz p))
         = false)
  /\ (leg_state l = MANUAL ->
      current_tip_position_
        (fst (stepToPosition_iterate dt l target pose lift time dz p))
      = current_tip_position_ p).
Proof.
  intros Hfirst. unfold stepToPosition_iterate, stepIterations.
  set (n := Z.max 1 (roundToInt (time / dt))).
  assert (Hn : (1 <= n)%Z) by (subst n; lia).
  assert (Hlt : (master_iteration_count_ p + 1 < n)%Z ->
                (truncToInt
                   (IZR (master_iteration_count_ p + 1 - 1) / IZR n
                    * IZR PROGRESS_COMPLETE) < PROGRESS_COMPLETE)%Z).
  { intros Hmore.
    apply truncToInt_lt; [unfold PROGRESS_COMPLETE; lia|].
    assert (Hpos : 0 < IZR n) by (apply IZR_lt; lia).
    assert (Hratio : IZR (master_iteration_count_ p + 1 - 1) / IZR n < 1).
    { apply (Rmult_lt_reg_r (IZR n)); [exact Hpos|].
      replace (IZR (master_iteration_count_ p + 1 - 1) / IZR n * IZR n)
        with (IZR (master_iteration_count_ p + 1 - 1)) by (field; lra).
      rewrite Rmult_1_l. apply IZR_lt. lia. }
    assert (Hc : 0 < IZR PROGRESS_COMPLETE)
      by (apply IZR_lt; unfold PROGRESS_COMPLETE; lia).
    nra. }
  destruct (LegState_eqb (leg_state l) MANUAL) eqn:Hman;
    cbn [negb master_iteration_count_ set_master_iteration_count
         set_current_tip_position];
    destruct (Z.leb_spec n (master_iteration_count_ p + 1)) as [Hdone | Hmore];
    cbn [fst snd master_iteration_count_ origin_tip_position_
         first_iteration_ current_tip_position_ set_first_iteration
         set_current_tip_position set_master_iteration_count];
    repeat apply conj; try reflexivity; try (intros; lia);
    try (intros _; split; reflexivity);
    try (intros Hmore'; split; [exact (Hlt Hmore') | exact Hfirst]);
    intros Hm; rewrite Hm in Hman; discriminate Hman.
Qed.

(** X11: [LegPoser::stepToPosition] returns [PROGRESS_COMPLETE] exactly when
    it leaves the leg poser ready to start a new step ([first_iteration_]
    set), and never more than that.  A step whose target is within the
    tolerance of the tip of the leg on every axis completes at once: the
    current tip position is the target and the iteration count is not
    touched.  A call within a step adds one to the iteration count and keeps
    the origin of the step; for a leg in the state MANUAL it leaves the
    current tip position of the leg poser. *)
Theorem stepToPosition_complete_iff (dt : R) (l : Leg) (target : Vector3d)
    (pose : Pose) (lift time : R) (dz : bool) (p : LegPoser) :
  (snd (stepToPosition dt l target pose lift time dz p) = PROGRESS_COMPLETE
   <-> first_iteration_ (fst (stepToPosition dt l target pose lift time dz p))
       = true)
  /\ (snd (stepToPosition dt l target pose lift time dz p)
      <= PROGRESS_COMPLETE)%Z
  /\ (first_iteration_ p = true ->
      withinTolerance (leg_current_tip_position l) target = true ->
      snd (stepToPosition dt l target pose lift time dz p) = PROGRESS_COMPLETE
      /\ current_tip_position_
           (fst (stepToPosition dt l target pose lift time dz p)) = target
      /\ master_iteration_count_
           (fst (stepToPosition dt l target pose lift time dz p))
         = master_iteration_count_ p)
  /\ (first_iteration_ p = false ->
      master_iteration_count_
        (fst (stepToPosition dt l target pose lift time dz p))
      = (master_iteration_count_ p + 1)%Z
      /\ origin_tip_position_
           (fst (stepToPosition dt l target pose lift time dz p))
         = origin_tip_position_ p
      /\ (leg_state l = MANUAL ->
          current_tip_position_
            (fst (stepToPosition dt l target pose lift time dz p))
          = current_tip_position_ p)).
Proof.
  assert (Hiter : forall q : LegPoser,
             first_iteration_ q = false ->
             (snd (stepToPosition_iterate dt l target pose lift time dz q)
              = PROGRESS_COMPLETE
              <-> first_iteration_
                    (fst (stepToPosition_iterate dt l target pose lift time dz q))
                  = true)
             /\ (snd (stepToPosition_iterate dt l target pose lift time dz q)
                 <= PROGRESS_COMPLETE)%Z).
  { intros q Hq.
    destruct (stepToPosition_iterate_step dt l target pose lift time dz q Hq)
      as (_ & _ & Hdone & Hmore & _).
    destruct (Z_le_gt_dec (stepIterations time dt)
                (master_iteration_count_ q + 1)) as [Hle | Hgt].
    - destruct (Hdone Hle) as [-> ->]. split; [tauto | lia].
    - destruct Hmore as [Hlt Hf]; [lia|]. rewrite Hf.
      split; [split; [lia | discriminate] | lia]. }
  unfold stepToPosition, withinTolerance.
  cbn [origin_tip_position_ set_origin_tip_position].
  destruct (first_iteration_ p) eqn:Hfirst.
  - destruct (Rltb (Rabs (vx (leg_current_tip_position l) - vx target))
                TIP_TOLERANCE
              && Rltb (Rabs (vy (leg_current_tip_position l) - vy target))
                   TIP_TOLERANCE
              && Rltb (Rabs (vz (leg_current_tip_position l) - vz target))
                   TIP_TOLERANCE) eqn:Htol.
    + cbn [fst snd first_iteration_ current_tip_position_
           master_iteration_count_ set_current_tip_position
           set_origin_tip_position].
      rewrite Hfirst. unfold PROGRESS_COMPLETE.
      split; [tauto | split; [lia|]].
      split; [intros _ _; repeat split; reflexivity
             | intros Habs; discriminate Habs].
    + match goal with
      | |- context [stepToPosition_iterate dt l target pose lift time dz ?q] =>
          destruct (Hiter q eq_refl) as [Hiff Hle]
      end.
      split; [exact Hiff | split; [exact Hle|]].
      split; [intros _ Habs; discriminate Habs | intros Habs; discriminate Habs].
  - destruct (Hiter p Hfirst) as [Hiff Hle].
    destruct (stepToPosition_iterate_step dt l target pose lift time dz p Hfirst)
      as (Hcount & Horigin & _ & _ & Hman).
    split; [exact Hiff | split; [exact Hle|]].
    split; [intros Habs; discriminate Habs|].
    intros _. split; [exact Hcount | split; [exact Horigin | exact Hman]].
Qed.

(** X12: a step takes [max(1, roundToInt(time_to_step / time_delta))] calls.
    From a leg poser ready to start a step whose target is not within the
    tolerance of the tip of the leg, the call [k] of [stepToPosition] leaves
    the iteration count at [k] and the origin at the tip position the leg
    had at the first call; it returns a progress below [PROGRESS_COMPLETE]
    while [k] is less than the number of iterations, and
    [PROGRESS_COMPLETE], with the leg poser ready for a new step, when [k] is
    that number. *)
Theorem stepToPosition_calls_complete (dt : R) (legAt : nat -> Leg)
    (target : Vector3d) (pose : Pose) (lift time : R) (dz : bool)
    (p : LegPoser) (k : nat) :
  first_iteration_ p = true ->
  withinTolerance (leg_current_tip_position (legAt 0%nat)) target = false ->
  (1 <= k)%nat ->
  (Z.of_nat k <= stepIterations time dt)%Z ->
  master_iteration_count_
    (fst (stepToPosition_calls k dt legAt target pose lift time dz p))
  = Z.of_nat k
  /\ origin_tip_position_
       (fst (stepToPosition_calls k dt legAt target pose lift time dz p))
     = leg_current_tip_position (legAt 0%nat)
  /\ ((Z.of_nat k < stepIterations time dt)%Z ->
      (snd (stepToPosition_calls k dt legAt target pose lift time dz p)
       < PROGRESS_COMPLETE)%Z
      /\ first_iteration_
           (fst (stepToPosition_calls k dt legAt target pose lift time dz p))
         = false)
  /\ (Z.of_nat k = stepIterations time dt ->
      snd (stepToPosition_calls k dt legAt target pose lift time dz p)
      = PROGRESS_COMPLETE
      /\ first_iteration_
           (fst (stepToPosition_calls k dt legAt target pose lift time dz p))
         = true).
Proof.
  intros Hfirst Htol Hk. induction Hk as [|k Hk IH]; intros HN.
  - cbn [stepToPosition_calls fst]. unfold stepToPosition.
    rewrite Hfirst. unfold withinTolerance in Htol.
    cbn [origin_tip_position_ set_origin_tip_position]. rewrite Htol.
    match goal with
    | |- context [stepToPosition_iterate dt ?l target pose lift time dz ?q] =>
        destruct (stepToPosition_iterate_step dt l target pose lift time dz q
                    eq_refl) as (Hcount & Horigin & Hdone & Hmore & _)
    end.
    cbn [master_iteration_count_ set_first_iteration set_master_iteration_count
         origin_tip_position_ set_current_tip_position set_origin_tip_position]
      in Hcount, Horigin, Hdone, Hmore.
    repeat apply conj.
    + rewrite Hcount. reflexivity.
    + exact Horigin.
    + intros Hlt. apply Hmore. simpl in Hlt. lia.
    + intros Heq. apply Hdone. simpl in Heq. lia.
  - destruct IH as (IHcount & IHorigin & IHmore & _); [lia|].
    destruct IHmore as [_ IHfirst]; [lia|].
    cbn [stepToPosition_calls].
    set (q := fst (stepToPosition_calls k dt legAt target pose lift time dz p))
      in *.
    unfold stepToPosition. rewrite IHfirst.
    destruct (stepToPosition_iterate_step dt (legAt k) target pose lift time dz
                q IHfirst) as (Hcount & Horigin & Hdone & Hmore & _).
    repeat apply conj.
    + rewrite Hcount, IHcount. lia.
    + rewrite Horigin. exact IHorigin.
    + intros Hlt. apply Hmore. lia.
    + intros Heq. apply Hdone. lia.
Qed.

End StepToPosition.

(** ** The bookkeeping of a sequence *)

Section SequenceBooks.

Import Poser.

Context `{StandardIncludes} `{QuatLib} `{BuildConstants} `{RobotModel}.

Lemma forEachLeg_Forall2 {S : Type} (f : S -> LegEntry -> S * LegEntry)
    (I : S -> Prop) (R : LegEntry -> LegEntry -> Prop) :
  (forall s e, I s -> I (fst (f s e)) /\ R e (snd (f s e))) ->
  forall l s, I s ->
    I (fst (forEachLeg f s l)) /\ Forall2 R l (snd (forEachLeg f s l)).
Proof.
  intros Hstep l. induction l as [|e l IH]; intros s Hs; simpl.
  - split; [exact Hs | constructor].
  - destruct (Hstep s e Hs) as [Hs1 He].
    destruct (f s e) as [s1 e1]; simpl in *.
    destruct (IH s1 Hs1) as [Hs2 Hrest].
    destruct (forEachLeg f s1 l) as [s2 rest]; simpl in *.
    split; [exact Hs2 | constructor; assumption].
Qed.

Lemma Forall2_id_map {A : Type} (R : A -> A -> Prop) (l : list A) :
  (forall a, R a a) -> Forall2 R l l.
Proof. intros Hr. induction l; constructor; auto. Qed.

Lemma sequenceKept_refl (c : PoseController) : sequenceKept c c.
Proof. unfold sequenceKept. repeat split; reflexivity. Qed.

Lemma sequenceKept_trans (a b c : PoseController) :
  sequenceKept a b -> sequenceKept b c -> sequenceKept a c.
Proof.
  unfold sequenceKept. intros (A1 & A2 & A3 & A4) (B1 & B2 & B3 & B4).
  repeat split; congruence.
Qed.

Lemma sameCache_refl (e : LegEntry) : sameCache e e.
Proof. split; reflexivity. Qed.

Lemma sameCache_cacheStep (first : bool) (a b c : LegEntry) :
  sameCache a b -> cacheStep first b c -> cacheStep first a c.
Proof.
  unfold sameCache, cacheStep. intros [S1 S2] [C1 C2].
  rewrite S1 in C1. rewrite S2 in C2. split; assumption.
Qed.

Lemma cacheStep_same (first : bool) (a b : LegEntry) :
  sameCache a b -> cacheStep first a b.
Proof. unfold sameCache, cacheStep. intros [S1 S2]. split; [|left]; assumption. Qed.

Lemma stepAndSolve_cache (c : PoseController) (e : LegEntry) (pose : Pose)
    (step_height time_to_step : R) (apply_delta_z : bool) :
  transition_positions_
    (steppedPoser (stepAndSolve c e pose step_height time_to_step apply_delta_z))
  = transition_positions_ (leg_poser e).
Proof.
  unfold stepAndSolve.
  match goal with
  | |- context [stepToPosition ?dt ?l ?t ?ps ?lift ?tm ?dz ?p] =>
      pose proof (stepToPosition_frame dt l t ps lift tm dz p) as (_ & _ & Hf);
      destruct (stepToPosition dt l t ps lift tm dz p) as [lp pr]
  end.
  destruct (applyIK _) as [l1 prox]. exact Hf.
Qed.

(** A leg of the stepping loop of a horizontal transition. *)
Lemma horizontalStepLeg_books (sequence : SequenceSelection)
    (final_transition direct_step : bool) (safety_factor : R)
    (c0 : PoseController) (st : PoseController * Z) (e : LegEntry) :
  sequenceKept c0 (fst st)
  /\ transition_step_ (fst st) = transition_step_ c0 ->
  (sequenceKept c0
     (fst (fst (horizontalStepLeg sequence final_transition direct_step
                  safety_factor st e)))
   /\ transition_step_
        (fst (fst (horizontalStepLeg sequence final_transition direct_step
                     safety_factor st e)))
      = transition_step_ c0)
  /\ cacheStep (first_sequence_execution_ c0) e
       (snd (horizontalStepLeg sequence final_transition direct_step
               safety_factor st e)).
Proof.
  destruct st as [c progress]. cbn [fst].
  intros [(K1 & K2 & K3 & K4) Hstep].
  unfold horizontalStepLeg.
  pose proof (horizontalStep_frame sequence final_transition direct_step c e)
    as (_ & _ & Hcache).
  destruct (horizontalStep sequence final_transition direct_step c e)
    as [[[lp pr] l] prox].
  unfold steppedPoser in Hcache. cbn [fst] in Hcache.
  unfold sequenceKept, cacheStep.
  destruct (first_sequence_execution_ c) eqn:Hfirst;
    repeat match goal with
           | |- context [if ?b then _ else _] => destruct b eqn:?; simpl
           end;
    (split; [repeat split; congruence|]);
    (split; [reflexivity|]);
    try (left; first [reflexivity | exact Hcache]);
    right; (split; [congruence|]); rewrite Hcache; eexists; reflexivity.
Qed.

Lemma completeHorizontalTransition_books (plan : SequencePlan)
    (final_transition direct_step : bool) (c : PoseController) (sc : bool) :
  sequenceKept c
    (fst (completeHorizontalTransition plan final_transition direct_step c sc))
  /\ (transition_step_
        (fst (completeHorizontalTransition plan final_transition direct_step
                c sc)) = transition_step_ c
      \/ transition_step_
           (fst (completeHorizontalTransition plan final_transition direct_step
                   c sc)) = next_transition_step plan)
  /\ model_ (fst (completeHorizontalTransition plan final_transition
                    direct_step c sc)) = model_ c.
Proof.
  unfold completeHorizontalTransition, sequenceKept.
  repeat match goal with
         | |- context [if ?b then _ else _] => destruct b eqn:?; simpl
         end; repeat split; auto.
Qed.

Lemma setHorizontalTarget_cache (next : Z) (e : LegEntry) :
  sameCache e (setHorizontalTarget next e).
Proof. split; reflexivity. Qed.

Lemma setVerticalTarget_cache (next : Z) (e : LegEntry) :
  sameCache e (setVerticalTarget next e).
Proof. split; reflexivity. Qed.

Lemma horizontalTransition_books (sequence : SequenceSelection)
    (plan : SequencePlan) (final_transition : bool) (safety_factor : R)
    (c : PoseController) (locals : SequenceLocals) :
  sequenceKept c
    (fst (horizontalTransition sequence plan final_transition safety_factor
            c locals))
  /\ (transition_step_
        (fst (horizontalTransition sequence plan final_transition safety_factor
                c locals)) = transition_step_ c
      \/ transition_step_
           (fst (horizontalTransition sequence plan final_transition
                   safety_factor c locals)) = next_transition_step plan)
  /\ Forall2 (cacheStep (first_sequence_execution_ c)) (legs (model_ c))
       (legs (model_ (fst (horizontalTransition sequence plan final_transition
                             safety_factor c locals)))).
Proof.
  unfold horizontalTransition.
  set (c1 := if set_target_ c then _ else c).
  assert (Hkept1 : sequenceKept c c1 /\ transition_step_ c1 = transition_step_ c).
  { subst c1. destruct (set_target_ c); simpl;
      (split; [unfold sequenceKept; repeat split; reflexivity | reflexivity]). }
  assert (Hlegs1 : Forall2 sameCache (legs (model_ c)) (legs (model_ c1))).
  { subst c1. destruct (set_target_ c); simpl.
    - apply Forall2_map_right. intros a. apply setHorizontalTarget_cache.
    - apply Forall2_id_map. apply sameCache_refl. }
  set (direct_step := negb (legsBearingLoad (model_ c1))).
  pose proof (forEachLeg_Forall2
                (horizontalStepLeg sequence final_transition direct_step
                   safety_factor)
                (fun st => sequenceKept c (fst st)
                           /\ transition_step_ (fst st) = transition_step_ c)
                (cacheStep (first_sequence_execution_ c))
                (horizontalStepLeg_books sequence final_transition direct_step
                   safety_factor c)
                (legs (model_ c1)) (c1, progress locals) Hkept1) as Hloop.
  destruct (forEachLeg _ (c1, progress locals) (legs (model_ c1)))
    as [[c2 progress2] legs2].
  cbn [fst snd] in Hloop. destruct Hloop as [[Hkept2 Hstep2] Hlegs2].
  set (c3 := set_model (set_legs legs2 (model_ c2)) c2).
  pose proof (completeHorizontalTransition_books plan final_transition
                direct_step c3 (sequence_complete locals))
    as (Hkept4 & Hstep4 & Hmodel4).
  destruct (completeHorizontalTransition plan final_transition direct_step c3
              (sequence_complete locals)) as [c4 sc4].
  cbn [fst snd] in *. split; [|split].
  - eapply sequenceKept_trans; [|exact Hkept4]. exact Hkept2.
  - destruct Hstep4 as [Hs | Hs]; [left | right; exact Hs].
    rewrite Hs. subst c3. simpl. exact Hstep2.
  - rewrite Hmodel4. subst c3. simpl.
    eapply Forall2_compose; [| exact Hlegs1 | exact Hlegs2].
    intros a b d. apply sameCache_cacheStep.
Qed.

Lemma verticalStepLeg_cache (sequence : SequenceSelection)
    (final_transition : bool) (safety_factor : R) (c : PoseController)
    (st : Z * bool) (e : LegEntry) :
  sameCache e
    (snd (verticalStepLeg sequence final_transition safety_factor c st e)).
Proof.
  destruct st as [progress within]. unfold verticalStepLeg.
  match goal with
  | |- context [stepAndSolve ?c1 ?e1 ?ps ?sh ?tm ?dz] =>
      pose proof (stepAndSolve_cache c1 e1 ps sh tm dz) as Hs;
      destruct (stepAndSolve c1 e1 ps sh tm dz) as [[[lp pr] l] prox]
  end.
  unfold steppedPoser in Hs. cbn [fst] in Hs.
  split; [reflexivity | exact Hs].
Qed.

Lemma verticalCompleteLeg_cache (first within : bool) (st : Z) (e : LegEntry) :
  cacheStep first e (snd (verticalCompleteLeg first within st e)).
Proof.
  unfold verticalCompleteLeg, cacheStep.
  destruct first; simpl; (split; [reflexivity|]).
  - right. split; [reflexivity|]. eexists; reflexivity.
  - left. reflexivity.
Qed.

Lemma verticalTransition_books (sequence : SequenceSelection)
    (plan : SequencePlan) (final_transition : bool) (safety_factor : R)
    (c : PoseController) (locals : SequenceLocals) :
  sequenceKept c
    (fst (verticalTransition sequence plan final_transition safety_factor
            c locals))
  /\ (transition_step_
        (fst (verticalTransition sequence plan final_transition safety_factor
                c locals)) = transition_step_ c
      \/ transition_step_
           (fst (verticalTransition sequence plan final_transition
                   safety_factor c locals)) = next_transition_step plan)
  /\ Forall2 (cacheStep (first_sequence_execution_ c)) (legs (model_ c))
       (legs (model_ (fst (verticalTransition sequence plan final_transition
                             safety_factor c locals)))).
Proof.
  unfold verticalTransition.
  set (c1 := if set_target_ c then _ else c).
  assert (Hkept1 : sequenceKept c c1 /\ transition_step_ c1 = transition_step_ c).
  { subst c1. destruct (set_target_ c); simpl;
      (split; [unfold sequenceKept; repeat split; reflexivity | reflexivity]). }
  destruct Hkept1 as [Hkept1 Hstep1].
  assert (Hlegs1 : Forall2 sameCache (legs (model_ c)) (legs (model_ c1))).
  { subst c1. destruct (set_target_ c); simpl.
    - apply Forall2_map_right. intros a. apply setVerticalTarget_cache.
    - apply Forall2_id_map. apply sameCache_refl. }
  pose proof (forEachLeg_Forall2
                (verticalStepLeg sequence final_transition safety_factor c1)
                (fun _ => True) sameCache
                (fun s e _ =>
                   conj I (verticalStepLeg_cache sequence final_transition
                             safety_factor c1 s e))
                (legs (model_ c1)) (progress locals, true) I) as [_ Hlegs2].
  destruct (forEachLeg _ (progress locals, true) (legs (model_ c1)))
    as [[progress2 within] legs2].
  cbn [fst snd] in Hlegs2.
  set (c2 := set_model (set_legs legs2 (model_ c1)) c1).
  assert (Hfirst2 : first_sequence_execution_ c2 = first_sequence_execution_ c).
  { destruct Hkept1 as (K1 & _). exact K1. }
  assert (Hlegs12 : Forall2 sameCache (legs (model_ c)) legs2).
  { eapply Forall2_compose; [| exact Hlegs1 | exact Hlegs2].
    intros a b d [A1 A2] [B1 B2]. split; congruence. }
  destruct ((negb within && first_sequence_execution_ c2)
            || (progress2 =? PROGRESS_COMPLETE)%Z).
  - pose proof (forEachLeg_Forall2
                  (verticalCompleteLeg (first_sequence_execution_ c2) within)
                  (fun _ => True) (cacheStep (first_sequence_execution_ c2))
                  (fun s e _ =>
                     conj I (verticalCompleteLeg_cache
                               (first_sequence_execution_ c2) within s e))
                  (legs (model_ c2)) progress2 I) as [_ Hlegs3].
    destruct (forEachLeg _ progress2 (legs (model_ c2))) as [progress3 legs3].
    cbn [fst snd] in *. split; [|split].
    + exact Hkept1.
    + right. reflexivity.
    + simpl. rewrite <- Hfirst2.
      eapply Forall2_compose; [| exact Hlegs12 | exact Hlegs3].
      intros a b d. apply sameCache_cacheStep.
  - cbn [fst snd]. split; [|split].
    + exact Hkept1.
    + left. exact Hstep1.
    + simpl. eapply Forall2_impl; [|exact Hlegs12].
      intros a b. apply cacheStep_same.
Qed.

(** The transition that a call executes, with what it keeps. *)
Lemma executeSequence_transitions_books (sequence : SequenceSelection)
    (c : PoseController) :
  let c0 := resetSequence sequence c in
  let plan := planSequence sequence c0 in
  let c1 := fst (fst (executeSequence_transitions sequence c)) in
  first_sequence_execution_ c1 = first_sequence_execution_ c0
  /\ params_ c1 = params_ c0
  /\ (transition_step_ c1 = transition_step_ c0
      \/ transition_step_ c1 = next_transition_step plan)
  /\ transition_step_count_ c1
     = (if first_sequence_execution_ c0
        then transition_step_ c1 else transition_step_count_ c0)
  /\ ros_shutdown c1
     = (if (TRANSITION_STEP_THRESHOLD <? transition_step_ c1)%Z
        then true else ros_shutdown c0)
  /\ Forall2 (cacheStep (first_sequence_execution_ c0)) (legs (model_ c0))
       (legs (model_ c1))
  /\ snd (fst (executeSequence_transitions sequence c)) = plan.
Proof.
  intros c0 plan. unfold executeSequence_transitions. fold c0. fold plan.
  assert (Hexcl : execute_vertical_transition plan
                  = negb (execute_horizontal_transition plan)).
  { subst plan. destruct sequence; simpl;
      destruct (Z.rem (transition_step_ c0) 2 =? 0)%Z; reflexivity. }
  rewrite Hexcl.
  assert (Hbooks :
    exists c1 locals1,
      (if execute_horizontal_transition plan
       then horizontalTransition sequence plan (finalTransition c0 plan)
              (safetyFactor c0) c0 (mkSequenceLocals 0 0 false)
       else verticalTransition sequence plan (finalTransition c0 plan)
              (safetyFactor c0) c0 (mkSequenceLocals 0 0 false))
      = (c1, locals1)
      /\ sequenceKept c0 c1
      /\ (transition_step_ c1 = transition_step_ c0
          \/ transition_step_ c1 = next_transition_step plan)
      /\ Forall2 (cacheStep (first_sequence_execution_ c0)) (legs (model_ c0))
           (legs (model_ c1))).
  { destruct (execute_horizontal_transition plan).
    - pose proof (horizontalTransition_books sequence plan
                    (finalTransition c0 plan) (safetyFactor c0) c0
                    (mkSequenceLocals 0 0 false)) as Hb.
      destruct (horizontalTransition sequence plan (finalTransition c0 plan)
                  (safetyFactor c0) c0 (mkSequenceLocals 0 0 false))
        as [c1 locals1].
      exists c1, locals1. split; [reflexivity | exact Hb].
    - pose proof (verticalTransition_books sequence plan
                    (finalTransition c0 plan) (safetyFactor c0) c0
                    (mkSequenceLocals 0 0 false)) as Hb.
      destruct (verticalTransition sequence plan (finalTransition c0 plan)
                  (safetyFactor c0) c0 (mkSequenceLocals 0 0 false))
        as [c1 locals1].
      exists c1, locals1. split; [reflexivity | exact Hb]. }
  destruct Hbooks as (c1 & locals1 & Hrun & (K1 & K2 & K3 & K4) & Hstep & Hlegs).
  destruct (execute_horizontal_transition plan); cbn [negb]; rewrite Hrun;
    rewrite K1;
    destruct (first_sequence_execution_ c0);
    cbn [transition_step_ set_transition_step_count];
    destruct (TRANSITION_STEP_THRESHOLD <? transition_step_ c1)%Z eqn:Hth;
    cbn [fst snd first_sequence_execution_ params_ transition_step_
         transition_step_count_ ros_shutdown model_ set_ros_shutdown
         set_transition_step_count];
    rewrite ?Hth; repeat split; auto.
Qed.

(** X13: the bookkeeping of a call of [executeSequence].  The transition
    step is left where it was after the reset of the sequence or moved to the
    next step of the sequence, never further; a call that returns
    [PROGRESS_COMPLETE] leaves the first-execution flag and both
    transition-complete flags cleared and the target flag set, and any other
    call leaves the first-execution flag as it was; during the first
    execution the count of transition steps follows the transition step, and
    afterwards it is not written; [ros::shutdown] is called exactly when
    the transition step exceeds [TRANSITION_STEP_THRESHOLD]; the parameters
    are not written. *)
Theorem executeSequence_bookkeeping (sequence : SequenceSelection)
    (c : PoseController) :
  let c0 := resetSequence sequence c in
  let plan := planSequence sequence c0 in
  let c' := fst (executeSequence sequence c) in
  (transition_step_ c' = transition_step_ c0
   \/ transition_step_ c' = next_transition_step plan)
  /\ (snd (executeSequence sequence c) = PROGRESS_COMPLETE ->
      first_sequence_execution_ c' = false
      /\ set_target_ c' = true
      /\ horizontal_transition_complete_ c' = false
      /\ vertical_transition_complete_ c' = false)
  /\ (snd (executeSequence sequence c) <> PROGRESS_COMPLETE ->
      first_sequence_execution_ c' = first_sequence_execution_ c0)
  /\ (first_sequence_execution_ c0 = true ->
      transition_step_count_ c' = transition_step_ c')
  /\ (first_sequence_execution_ c0 = false ->
      transition_step_count_ c' = transition_step_count_ c)
  /\ (ros_shutdown c' = true
      <-> ros_shutdown c = true
          \/ (TRANSITION_STEP_THRESHOLD < transition_step_ c')%Z)
  /\ params_ c' = params_ c.
Proof.
  intros c0 plan c'.
  destruct (executeSequence_transitions_books sequence c)
    as (Hfirst & Hparams & Hstep & Hcount & Hshut & _ & Hplan).
  fold c0 in Hfirst, Hparams, Hstep, Hcount, Hshut. fold plan in Hstep, Hplan.
  assert (Hreset : transition_step_count_ c0 = transition_step_count_ c
                   \/ first_sequence_execution_ c0 = true).
  { subst c0. unfold resetSequence.
    destruct (reset_transition_sequence_ c && _); simpl; auto. }
  assert (Hreset' : ros_shutdown c0 = ros_shutdown c /\ params_ c0 = params_ c).
  { subst c0. unfold resetSequence.
    destruct (reset_transition_sequence_ c && _); simpl; auto. }
  destruct Hreset' as [Hs0 Hp0].
  subst c'. unfold executeSequence.
  destruct (executeSequence_transitions sequence c) as [[c1 plan1] locals1].
  cbn [fst snd] in *. subst plan1.
  unfold sequenceProgress.
  destruct (sequence_complete locals1);
    cbn [fst snd first_sequence_execution_ set_target_ params_
         horizontal_transition_complete_ vertical_transition_complete_
         transition_step_ transition_step_count_ ros_shutdown
         set_set_target set_vertical_transition_complete
         set_horizontal_transition_complete set_first_sequence_execution].
  - split; [exact Hstep|].
    split; [intros _; repeat split; reflexivity|].
    split; [intros Hne; exfalso; apply Hne; reflexivity|].
    split; [intros Hf; rewrite Hcount, Hf; reflexivity|].
    split; [intros Hf; rewrite Hcount, Hf;
            destruct Hreset as [Hr | Hr]; [exact Hr | congruence]|].
    split; [|congruence].
    rewrite Hshut, <- Hs0.
    destruct (Z.ltb_spec TRANSITION_STEP_THRESHOLD (transition_step_ c1));
      split; auto; intros [Hr | Hr]; [exact Hr | lia].
  - split; [exact Hstep|].
    split.
    { intros Habs. exfalso.
      destruct (first_sequence_execution_ c1);
        unfold PROGRESS_COMPLETE in Habs; lia. }
    split; [intros _; exact Hfirst|].
    split; [intros Hf; rewrite Hcount, Hf; reflexivity|].
    split; [intros Hf; rewrite Hcount, Hf;
            destruct Hreset as [Hr | Hr]; [exact Hr | congruence]|].
    split; [|congruence].
    rewrite Hshut, <- Hs0.
    destruct (Z.ltb_spec TRANSITION_STEP_THRESHOLD (transition_step_ c1));
      split; auto; intros [Hr | Hr]; [exact Hr | lia].
Qed.

(** X14: the cache of transition positions.  A call of [executeSequence]
    extends the cached transition positions of a leg by one position at
    most, and only during the first execution of the sequence; when a
    sequence is replayed the caches are the same after the call as before.
    The reset of a start-up sequence leaves every leg with a cache of one
    position, the current tip position of the leg.  The leg steppers are
    not written. *)
Theorem executeSequence_transition_cache (sequence : SequenceSelection)
    (c : PoseController) :
  let c0 := resetSequence sequence c in
  let c' := fst (executeSequence sequence c) in
  Forall2 (cacheStep (first_sequence_execution_ c0)) (legs (model_ c0))
    (legs (model_ c'))
  /\ (first_sequence_execution_ c0 = false ->
      map (fun e => transition_positions_ (leg_poser e)) (legs (model_ c'))
      = map (fun e => transition_positions_ (leg_poser e)) (legs (model_ c)))
  /\ (reset_transition_sequence_ c = true -> sequence = START_UP ->
      map (fun e => transition_positions_ (leg_poser e)) (legs (model_ c0))
      = map (fun e => [leg_current_tip_position (leg e)]) (legs (model_ c)))
  /\ (reset_transition_sequence_ c = false \/ sequence = SHUT_DOWN -> c0 = c).
Proof.
  intros c0 c'.
  destruct (executeSequence_transitions_books sequence c)
    as (_ & _ & _ & _ & _ & Hlegs & _).
  fold c0 in Hlegs.
  assert (Hmodel : model_ c'
                   = model_ (fst (fst (executeSequence_transitions sequence c)))).
  { subst c'. unfold executeSequence.
    destruct (executeSequence_transitions sequence c) as [[c1 plan1] locals1].
    unfold sequenceProgress. destruct (sequence_complete locals1); reflexivity. }
  rewrite Hmodel.
  assert (Hkeep : reset_transition_sequence_ c = false \/ sequence = SHUT_DOWN ->
                  c0 = c).
  { subst c0. unfold resetSequence.
    intros [-> | ->]; [reflexivity|].
    rewrite andb_false_r. reflexivity. }
  split; [exact Hlegs | split; [|split; [|exact Hkeep]]].
  - intros Hfirst.
    assert (Hc0 : c0 = c).
    { apply Hkeep. subst c0. unfold resetSequence in Hfirst.
      destruct (reset_transition_sequence_ c); [|left; reflexivity].
      destruct sequence; [|right; reflexivity].
      simpl in Hfirst. discriminate Hfirst. }
    rewrite Hfirst, Hc0 in Hlegs.
    apply Forall2_map_eq.
    eapply Forall2_impl; [|exact Hlegs].
    intros a b [_ [Hsame | [Habs _]]]; [exact Hsame | discriminate Habs].
  - intros Hreset ->. subst c0. unfold resetSequence. rewrite Hreset.
    simpl. rewrite map_map. reflexivity.
Qed.

End SequenceBooks.

(** ** The posing period of an auto poser *)

Section PosingPeriod.

Import Poser.

Context `{QuatLib}.

(** X15: the start and the stop of the posing period in
    [AutoPoser::updatePose].  When the pose frequency is not -1 (posing is
    not synchronised with the step cycle) posing is allowed after every
    call, and the pose returned at a phase inside the posing window is the
    pose of the posing cycle.  When it is -1, posing starts exactly on a
    call in the state POSING at the start phase whose start check was clear,
    and the two end checks are cleared as it starts; posing stops only in the
    state STOP_POSING or with both end checks already set, and never on the
    call that finds both end checks clear, unless the window is empty; while
    posing stays allowed an end check that is set stays set. *)
Theorem updateChecks_posing_period (c : PoseController)
    (start_phase end_phase phase : Z) (a : AutoPoser) :
  (pose_frequency_ c <> -1 ->
   allow_posing_ (updateChecks c start_phase end_phase phase a) = true
   /\ start_check_ (updateChecks c start_phase end_phase phase a) = true)
  /\ (pose_frequency_ c = -1 -> allow_posing_ a = false ->
      (allow_posing_ (updateChecks c start_phase end_phase phase a) = true
       <-> start_check_ a = false /\ auto_posing_state_ c = POSING
           /\ phase = start_phase))
  /\ (allow_posing_ a = false ->
      allow_posing_ (updateChecks c start_phase end_phase phase a) = true ->
      end_check_ (updateChecks c start_phase end_phase phase a) = (false, false))
  /\ (allow_posing_ a = true ->
      allow_posing_ (updateChecks c start_phase end_phase phase a) = false ->
      pose_frequency_ c = -1
      /\ (auto_posing_state_ c = STOP_POSING \/ end_check_ a = (true, true)))
  /\ (allow_posing_ a = true -> end_check_ a = (false, false) ->
      start_phase <> end_phase ->
      allow_posing_ (updateChecks c start_phase end_phase phase a) = true)
  /\ (allow_posing_ a = true ->
      allow_posing_ (updateChecks c start_phase end_phase phase a) = true ->
      (fst (end_check_ a) = true ->
       fst (end_check_ (updateChecks c start_phase end_phase phase a)) = true)
      /\ (snd (end_check_ a) = true ->
          snd (end_check_ (updateChecks c start_phase end_phase phase a))
          = true))
  /\ (pose_frequency_ c <> -1 ->
      forall s e ph : Z,
        posingWindow c a phase = (s, e, ph) ->
        (s <= ph < e)%Z ->
        fst (updatePose c phase a)
        = posingCyclePose s e ph (snd (updatePose c phase a))).
Proof.
  assert (Hsync : Reqb (pose_frequency_ c) (-1) = true
                  <-> pose_frequency_ c = -1) by apply Reqb_true.
  assert (Hstart : (phase =? start_phase)%Z = true <-> phase = start_phase)
    by apply Z.eqb_eq.
  assert (Hend : (phase =? end_phase)%Z = true <-> phase = end_phase)
    by apply Z.eqb_eq.
  assert (Hunsync : pose_frequency_ c <> -1 ->
                    forall s e ph,
                      allow_posing_ (updateChecks c s e ph a) = true).
  { intros Hne s e ph. apply Reqb_false in Hne.
    unfold updateChecks. rewrite Hne.
    destruct (allow_posing_ a); reflexivity. }
  repeat apply conj.
  - intros Hne. split; [apply Hunsync; exact Hne|].
    apply Reqb_false in Hne. unfold updateChecks. rewrite Hne.
    destruct (allow_posing_ a); reflexivity.
  - intros Hs Hallow. apply Hsync in Hs.
    unfold updateChecks. rewrite Hs, Hallow. cbn [negb orb andb].
    rewrite <- Hstart.
    destruct (start_check_ a), (auto_posing_state_ c),
      (phase =? start_phase)%Z; cbn; split;
      try (intros (Ha & Hb & Hc)); try intros Ha;
      try discriminate; try reflexivity; repeat split; reflexivity.
  - intros Hallow. unfold updateChecks. rewrite Hallow. cbn [negb andb].
    destruct (negb (Reqb (pose_frequency_ c) (-1))
              || negb (start_check_ a)
                 && PosingState_eqb (auto_posing_state_ c) POSING
                 && (phase =? start_phase)%Z); cbn;
      [reflexivity | intros Habs; discriminate Habs].
  - intros Hallow. unfold updateChecks. rewrite Hallow. cbn [negb andb].
    destruct (Reqb (pose_frequency_ c) (-1)) eqn:Hs; cbn;
      [|intros Habs; discriminate Habs].
    destruct (end_check_ a) as [e1 e2]. cbn [fst snd].
    destruct e1, e2, (auto_posing_state_ c); cbn;
      repeat match goal with
             | |- context [if ?b then _ else _] => destruct b; cbn
             end;
      intros Habs; try discriminate Habs;
      (split; [apply Hsync; reflexivity|]); auto.
  - intros Hallow Hchecks Hne. unfold updateChecks.
    rewrite Hallow, Hchecks. cbn [negb andb orb fst snd].
    destruct (Z.eqb_spec phase start_phase) as [Hps | Hps];
      destruct (Z.eqb_spec phase end_phase) as [Hpe | Hpe];
      try (exfalso; apply Hne; congruence);
      destruct (Reqb (pose_frequency_ c) (-1)),
        (PosingState_eqb (auto_posing_state_ c) STOP_POSING); reflexivity.
  - intros Hallow. unfold updateChecks. rewrite Hallow. cbn [negb andb].
    destruct (end_check_ a) as [e1 e2]. cbn [fst snd].
    destruct e1, e2; cbn;
      repeat match goal with
             | |- context [if ?b then _ else _] => destruct b; cbn
             end;
      intros Habs; try discriminate Habs; split; intros Hset;
      try discriminate Hset; reflexivity.
  - intros Hne s e ph Hwin [Hlow Hup]. unfold updatePose. rewrite Hwin.
    rewrite (Hunsync Hne s e ph).
    replace (s <=? ph)%Z with true by (symmetry; apply Z.leb_le; exact Hlow).
    replace (ph <? e)%Z with true by (symmetry; apply Z.ltb_lt; exact Hup).
    reflexivity.
Qed.

End PosingPeriod.

(** ** The sample leg poser *)

Section SampleSteps.

Import Poser.

Lemma sample_stepIterations :
  @stepIterations Samples.includes (1 / 25) (1 / 50) = 2%Z.
Proof.
  unfold stepIterations, roundToInt, Samples.includes.
  replace (1 / 25 / (1 / 50) + / 2) with (5 / 2) by field.
  replace (Int_part (5 / 2)) with 2%Z; [reflexivity|].
  apply Int_part_spec. simpl. lra.
Qed.

Lemma sample_withinTolerance :
  @withinTolerance Samples.constants
    (leg_current_tip_position (leg (Samples.legEntry 0 0 0))) (Samples.tip 0)
  = false.
Proof.
  unfold withinTolerance.
  replace (Rltb (Rabs (vx (leg_current_tip_position
                             (leg (Samples.legEntry 0 0 0)))
                       - vx (Samples.tip 0))) TIP_TOLERANCE) with false;
    [reflexivity|].
  symmetry. apply Rltb_false. simpl.
  replace (1 / 10 - 3 / 10) with (- (1 / 5)) by field.
  rewrite Rabs_Ropp, Rabs_pos_eq; lra.
Qed.

(** The first call of a step of two iterations of the sample leg poser. *)
Lemma stepToPosition_calls_complete_witness :
  first_iteration_ (Samples.freshPoser 0) = true
  /\ @withinTolerance Samples.constants
       (leg_current_tip_position (leg (Samples.legEntry 0 0 0)))
       (Samples.tip 0) = false
  /\ (1 <= 1)%nat
  /\ (Z.of_nat 1 <= @stepIterations Samples.includes (1 / 25) (1 / 50))%Z
  /\ master_iteration_count_
       (fst (@stepToPosition_calls Samples.includes Samples.quatLib
               Samples.constants 1 (1 / 50)
               (fun _ => leg (Samples.legEntry 0 0 0)) (Samples.tip 0)
               Pose_identity 0 (1 / 25) false (Samples.freshPoser 0)))
     = 1%Z.
Proof.
  assert (HN : (Z.of_nat 1 <= @stepIterations Samples.includes (1 / 25) (1 / 50))%Z)
    by (rewrite sample_stepIterations; simpl; lia).
  split; [reflexivity|]. split; [exact sample_withinTolerance|].
  split; [apply le_n|]. split; [exact HN|].
  destruct (@stepToPosition_calls_complete Samples.includes Samples.quatLib
              Samples.constants (1 / 50)
              (fun _ => leg (Samples.legEntry 0 0 0)) (Samples.tip 0)
              Pose_identity 0 (1 / 25) false (Samples.freshPoser 0) 1
              eq_refl sample_withinTolerance (le_n 1) HN) as (Hcount & _).
  exact Hcount.
Defined.

End SampleSteps.

(** ** The poses that balance the body *)

Section BalancePoses.

Import Poser BodyPose.

Lemma zeroMomentSum_fold (l : list LegEntry) :
  forall acc : Vector3d,
    fold_left
      (fun offset e =>
         if loadBearing e
         then set_vy (vy offset + vy (default_tip_position_ (leg_stepper e)))
                (set_vx (vx offset + vx (default_tip_position_ (leg_stepper e)))
                   offset)
         else offset) l acc
    = mkV3
        (vx acc
         + fold_right
             (fun e s =>
                if loadBearing e
                then vx (default_tip_position_ (leg_stepper e)) + s else s) 0 l)
        (vy acc
         + fold_right
             (fun e s =>
                if loadBearing e
                then vy (default_tip_position_ (leg_stepper e)) + s else s) 0 l)
        (vz acc).
Proof.
  induction l as [|e l IH]; intros acc; simpl.
  - apply v3_eq; simpl; ring.
  - rewrite IH. destruct (loadBearing e); apply v3_eq; simpl; ring.
Qed.

(** X16: [calculateDefaultPose] balances the body once for each change of
    the loading pattern.  With a single leg in the model it does nothing.
    While no leg is changing state it only arms the recalculation.  While a
    leg is changing state and the recalculation is armed, it sets the x and y
    of the default pose to the mean of the default tip positions of the legs
    that bear load, each limited to the maximum translation on its axis, and
    disarms the recalculation; the z and the rotation of the default pose
    are kept.  While a leg is changing state and the recalculation is not
    armed it does nothing, so a second call on the same model changes
    nothing. *)
Theorem calculateDefaultPose_balance (limits : TranslationLimits) (m : Model)
    (d : DefaultPoser) :
  (getLegCount m = 1%Z -> calculateDefaultPose limits m d = d)
  /\ (getLegCount m <> 1%Z -> legsTransitioningStates m = 0%Z ->
      calculateDefaultPose limits m d = mkDefaultPoser (default_pose_ d) true)
  /\ (legsTransitioningStates m <> 0%Z -> recalculate_default_pose_ d = false ->
      calculateDefaultPose limits m d = d)
  /\ (getLegCount m <> 1%Z -> legsTransitioningStates m <> 0%Z ->
      recalculate_default_pose_ d = true ->
      recalculate_default_pose_ (calculateDefaultPose limits m d) = false
      /\ vx (position_ (default_pose_ (calculateDefaultPose limits m d)))
         = clamped (loadedMean vx m)
             (- max_translation_x limits) (max_translation_x limits)
      /\ vy (position_ (default_pose_ (calculateDefaultPose limits m d)))
         = clamped (loadedMean vy m)
             (- max_translation_y limits) (max_translation_y limits)
      /\ vz (position_ (default_pose_ (calculateDefaultPose limits m d)))
         = vz (position_ (default_pose_ d))
      /\ rotation_ (default_pose_ (calculateDefaultPose limits m d))
         = rotation_ (default_pose_ d)
      /\ (0 <= max_translation_x limits ->
          Rabs (vx (position_ (default_pose_ (calculateDefaultPose limits m d))))
          <= max_translation_x limits)
      /\ (0 <= max_translation_y limits ->
          Rabs (vy (position_ (default_pose_ (calculateDefaultPose limits m d))))
          <= max_translation_y limits))
  /\ calculateDefaultPose limits m (calculateDefaultPose limits m d)
     = calculateDefaultPose limits m d.
Proof.
  assert (Hone : getLegCount m = 1%Z -> forall x, calculateDefaultPose limits m x = x).
  { intros Hc x. unfold calculateDefaultPose. rewrite Hc. reflexivity. }
  assert (Hidle : legsTransitioningStates m <> 0%Z -> forall x,
             recalculate_default_pose_ x = false ->
             calculateDefaultPose limits m x = x).
  { intros Ht x Hx. unfold calculateDefaultPose.
    destruct (getLegCount m =? 1)%Z; [reflexivity|].
    apply Z.eqb_neq in Ht. rewrite Ht, Hx. reflexivity. }
  split; [intros Hc; apply Hone; exact Hc|].
  split.
  { intros Hc Ht. unfold calculateDefaultPose.
    apply Z.eqb_neq in Hc. rewrite Hc, Ht. reflexivity. }
  split; [intros Ht Hx; apply Hidle; assumption|].
  split.
  { intros Hc Ht Hx. unfold calculateDefaultPose.
    apply Z.eqb_neq in Hc. apply Z.eqb_neq in Ht. rewrite Hc, Ht, Hx.
    cbn [negb recalculate_default_pose_ default_pose_ position_ rotation_].
    unfold zeroMomentSum, loadedMean. rewrite zeroMomentSum_fold.
    cbn [vx vy vz v3div set_vx set_vy v3zero].
    rewrite !Rplus_0_l.
    split; [reflexivity|]. split; [reflexivity|]. split; [reflexivity|].
    split; [reflexivity|]. split; [reflexivity|].
    split; intros Hmax; apply Rabs_le; apply clamped_range; lra. }
  destruct (getLegCount m =? 1)%Z eqn:Hc.
  - apply Z.eqb_eq in Hc. rewrite !(Hone Hc). reflexivity.
  - destruct (legsTransitioningStates m =? 0)%Z eqn:Ht.
    + assert (Harm : forall x, calculateDefaultPose limits m x
                               = mkDefaultPoser (default_pose_ x) true).
      { intros x. unfold calculateDefaultPose. rewrite Hc, Ht. reflexivity. }
      rewrite (Harm (calculateDefaultPose limits m d)), (Harm d). reflexivity.
    + assert (Ht' : legsTransitioningStates m <> 0%Z)
        by (apply Z.eqb_neq; exact Ht).
      apply (Hidle Ht').
      destruct (recalculate_default_pose_ d) eqn:Hx.
      * unfold calculateDefaultPose. rewrite Hc, Ht, Hx. reflexivity.
      * rewrite (Hidle Ht' d Hx). exact Hx.
Qed.

Lemma Rabs_le_between (x a : R) : Rabs x <= a -> - a <= x <= a.
Proof. unfold Rabs. destruct (Rcase_abs x); lra. Qed.

Context `{QuatLib} `{QuatAngles}.

(** X17: the inclination pose stays within the limits of translation.
    [updateInclinationPose] writes the x and y of the inclination pose only;
    with limits that are not negative, x is within the maximum translation
    in x and y within the one in y.  A correction within the limit is
    applied in full: x is minus the body height times the tangent of the
    second angle that remains once the manual and auto poses are removed
    from the orientation of the IMU, and y the body height times the tangent
    of the first. *)
Theorem updateInclinationPose_limits (limits : TranslationLimits)
    (manual_pose auto_pose : Pose) (imu_orientation : Quat) (body_height : R)
    (inclination_pose : Pose) :
  let euler_angles :=
    toEulerAngles
      (Quat_mul imu_orientation
         (Quat_inverse (Quat_mul (rotation_ manual_pose) (rotation_ auto_pose)))) in
  let pose' :=
    updateInclinationPose limits manual_pose auto_pose imu_orientation
      body_height inclination_pose in
  vz (position_ pose') = vz (position_ inclination_pose)
  /\ rotation_ pose' = rotation_ inclination_pose
  /\ (0 <= max_translation_x limits ->
      Rabs (vx (position_ pose')) <= max_translation_x limits)
  /\ (0 <= max_translation_y limits ->
      Rabs (vy (position_ pose')) <= max_translation_y limits)
  /\ (Rabs (body_height * tan (vy euler_angles)) <= max_translation_x limits ->
      vx (position_ pose') = - body_height * tan (vy euler_angles))
  /\ (Rabs (body_height * tan (vx euler_angles)) <= max_translation_y limits ->
      vy (position_ pose') = body_height * tan (vx euler_angles)).
Proof.
  intros euler_angles pose'. subst pose'. unfold updateInclinationPose.
  fold euler_angles.
  cbn [position_ rotation_ vx vy vz set_vx set_vy].
  split; [reflexivity|]. split; [reflexivity|].
  split; [intros Hmax; apply Rabs_le; apply clamped_range; lra|].
  split; [intros Hmax; apply Rabs_le; apply clamped_range; lra|].
  split; intros Hin; apply Rabs_le_between in Hin; apply clamped_inside; lra.
Qed.

End BalancePoses.

(** ** Stepping to a stance *)

Section StanceSteps.

Import Poser Stance.

Context `{StandardIncludes} `{QuatLib} `{BuildConstants} `{RobotModel}
  `{StepDefaults}.

(** The progress of a step is a percentage. *)
Lemma stepToPosition_range (dt : R) (l : Leg) (target : Vector3d)
    (pose : Pose) (lift time : R) (dz : bool) (p : LegPoser) :
  (snd (stepToPosition dt l target pose lift time dz p) <= PROGRESS_COMPLETE)%Z.
Proof.
  assert (Hiter : forall q : LegPoser,
             first_iteration_ q = false ->
             (snd (stepToPosition_iterate dt l target pose lift time dz q)
              <= PROGRESS_COMPLETE)%Z).
  { intros q Hq.
    destruct (stepToPosition_iterate_step dt l target pose lift time dz q Hq)
      as (_ & _ & Hdone & Hmore & _).
    destruct (Z_le_gt_dec (stepIterations time dt)
                (master_iteration_count_ q + 1)) as [Hle | Hgt].
    - destruct (Hdone Hle) as [-> _]. lia.
    - destruct Hmore as [Hlt _]; lia. }
  unfold stepToPosition.
  destruct (first_iteration_ p) eqn:Hfirst; [|apply Hiter; exact Hfirst].
  match goal with
  | |- context [if ?b then _ else _] => destruct b
  end; [simpl; lia | apply Hiter; reflexivity].
Qed.

(** A loop over a container that is not empty leaves what its last
    iteration leaves. *)
Lemma forEachLeg_last {S : Type} (f : S -> LegEntry -> S * LegEntry)
    (P : LegEntry -> Prop) (Q : S -> Prop) (R : LegEntry -> LegEntry -> Prop) :
  (forall s e, P e -> Q (fst (f s e)) /\ R e (snd (f s e))) ->
  forall l s, l <> [] -> Forall P l ->
    Q (fst (forEachLeg f s l)) /\ Forall2 R l (snd (forEachLeg f s l)).
Proof.
  intros Hstep l. induction l as [|e l IH]; intros s Hne Hall; [congruence|].
  inversion Hall as [|? ? He Hl]; subst. simpl.
  destruct (Hstep s e He) as [Hq Hr].
  destruct (f s e) as [s1 e1]; simpl in *.
  destruct l as [|e' l'].
  - simpl. split; [exact Hq | constructor; [exact Hr | constructor]].
  - assert (Hne' : e' :: l' <> []) by discriminate.
    destruct (IH s1 Hne' Hl) as [Hq2 Hr2].
    destruct (forEachLeg f s1 (e' :: l')) as [s2 rest]; simpl in *.
    split; [exact Hq2 | constructor; assumption].
Qed.

(** *** [stepToNewStance] *)

Lemma stepToNewStanceLeg_books (c0 : PoseController) (st : PoseController * Z)
    (e : LegEntry) :
  (sequenceKept c0 (fst st)
   /\ transition_step_ (fst st) = transition_step_ c0
   /\ current_group_ (fst st) = current_group_ c0
   /\ model_ (fst st) = model_ c0
   /\ reset_transition_sequence_ (fst st) = reset_transition_sequence_ c0
   /\ (snd st <= PROGRESS_COMPLETE)%Z) ->
  (sequenceKept c0 (fst (fst (stepToNewStanceLeg st e)))
   /\ transition_step_ (fst (fst (stepToNewStanceLeg st e)))
      = transition_step_ c0
   /\ current_group_ (fst (fst (stepToNewStanceLeg st e))) = current_group_ c0
   /\ model_ (fst (fst (stepToNewStanceLeg st e))) = model_ c0
   /\ reset_transition_sequence_ (fst (fst (stepToNewStanceLeg st e)))
      = reset_transition_sequence_ c0
   /\ (snd (fst (stepToNewStanceLeg st e)) <= PROGRESS_COMPLETE)%Z)
  /\ (group (leg e) <> current_group_ c0 -> snd (stepToNewStanceLeg st e) = e).
Proof.
  destruct st as [c progress]. cbn [fst snd].
  intros ((K1 & K2 & K3 & K4) & Hstep & Hgroup & Hmodel & Hreset & Hp).
  unfold stepToNewStanceLeg. rewrite Hgroup.
  destruct (Z.eqb_spec (group (leg e)) (current_group_ c0)) as [Heq | Hne].
  - match goal with
    | |- context [stepToPosition ?dt ?l ?t ?ps ?lift ?tm ?dz ?p] =>
        pose proof (stepToPosition_range dt l t ps lift tm dz p) as Hr;
        destruct (stepToPosition dt l t ps lift tm dz p) as [lp pr]
    end.
    destruct (applyIK _) as [l1 prox]. cbn [fst snd] in *.
    unfold sequenceKept. cbn.
    repeat split; try assumption. intros Hne. contradiction.
  - cbn [fst snd]. unfold sequenceKept.
    repeat split; try assumption.
Qed.

Lemma stepToNewStanceLeg_progress (st : PoseController * Z) (e : LegEntry) :
  (0 <= snd st)%Z -> poserReady e ->
  (0 <= snd (fst (stepToNewStanceLeg st e)))%Z.
Proof.
  destruct st as [c progress]. cbn [fst snd]. intros Hp Hready.
  unfold stepToNewStanceLeg.
  destruct (group (leg e) =? current_group_ c)%Z; [|exact Hp].
  match goal with
  | |- context [stepToPosition ?dt ?l ?t ?ps ?lift ?tm ?dz ?p] =>
      pose proof (stepToPosition_progress dt l t ps lift tm dz p Hready) as Hr;
      destruct (stepToPosition dt l t ps lift tm dz p) as [lp pr]
  end.
  destruct (applyIK _) as [l1 prox]. exact Hr.
Qed.

(** [stepToNewStance] fails exactly on a model of fewer than two legs. *)
Lemma stepToNewStance_fails (x : PoseController) :
  stepToNewStance x = None <-> (getLegCount (model_ x) < 2)%Z.
Proof.
  unfold stepToNewStance.
  destruct (forEachLeg stepToNewStanceLeg (x, 0%Z) (legs (model_ x)))
    as [[x1 p1] legs1].
  assert (Hcount : (0 <= getLegCount (model_ x))%Z)
    by (unfold getLegCount; lia).
  destruct (Z.eqb_spec (Z.quot (getLegCount (model_ x)) 2) 0) as [Hz | Hnz].
  - split; [intros _ | reflexivity].
    destruct (Z_lt_ge_dec (getLegCount (model_ x)) 2) as [Hlt | Hge];
      [exact Hlt | exfalso].
    assert (1 <= Z.quot (getLegCount (model_ x)) 2)%Z
      by (apply Z.quot_le_lower_bound; lia).
    lia.
  - split; [intros Habs; discriminate Habs | intros Hlt; exfalso].
    apply Hnz. apply Z.quot_small. lia.
Qed.

(** X18: the bookkeeping of [stepToNewStance].  The call fails exactly when
    the model has fewer than two legs, where the source divides by zero.
    Otherwise it always asks for the stored transition sequences to be
    reset; it leaves the legs outside the stepping group as they are; the
    stepping group after the call is the count of completed legs after the
    call divided by half the leg count, and that count is never left at the
    leg count; the progress returned lies in [[0, 50]] for the stepping group
    0 and in [[50, 100]] for the stepping group 1, when every leg poser is at
    the start of a step or within one; the transition step, its count, the
    first-execution flag and the parameters are not written. *)
Theorem stepToNewStance_books (c c' : PoseController) (r : Z) :
  stepToNewStance c = Some (c', r) ->
  reset_transition_sequence_ c' = true
  /\ current_group_ c'
     = Z.quot (legs_completed_step_ c') (Z.quot (getLegCount (model_ c)) 2)
  /\ legs_completed_step_ c' <> getLegCount (model_ c)
  /\ Forall2 (fun e e' => group (leg e) <> current_group_ c -> e' = e)
       (legs (model_ c)) (legs (model_ c'))
  /\ (Forall poserReady (legs (model_ c)) ->
      (current_group_ c = 0%Z -> (0 <= r <= 50)%Z)
      /\ (current_group_ c = 1%Z -> (50 <= r <= 100)%Z))
  /\ sequenceKept c c'
  /\ transition_step_ c' = transition_step_ c
  /\ (forall x, stepToNewStance x = None <-> (getLegCount (model_ x) < 2)%Z).
Proof.
  pose proof stepToNewStance_fails as Hnone.
  intros Hrun.
  assert (Hsome : (2 <= getLegCount (model_ c))%Z).
  { destruct (Z_lt_ge_dec (getLegCount (model_ c)) 2) as [Hlt | Hge]; [|lia].
    apply Hnone in Hlt. congruence. }
  unfold stepToNewStance in Hrun.
  pose proof (forEachLeg_Forall2 stepToNewStanceLeg
                (fun st => sequenceKept c (fst st)
                           /\ transition_step_ (fst st) = transition_step_ c
                           /\ current_group_ (fst st) = current_group_ c
                           /\ model_ (fst st) = model_ c
                           /\ reset_transition_sequence_ (fst st)
                              = reset_transition_sequence_ c
                           /\ (snd st <= PROGRESS_COMPLETE)%Z)
                (fun e e' => group (leg e) <> current_group_ c -> e' = e)
                (stepToNewStanceLeg_books c)
                (legs (model_ c)) (c, 0%Z)) as Hloop.
  pose proof (forEachLeg_invariant stepToNewStanceLeg
                (fun st => (0 <= snd st)%Z) poserReady
                stepToNewStanceLeg_progress
                (legs (model_ c)) (c, 0%Z) (Z.le_refl 0)) as Hlow.
  destruct (forEachLeg stepToNewStanceLeg (c, 0%Z) (legs (model_ c)))
    as [[c1 p1] legs1].
  cbn [fst snd] in Hloop, Hlow.
  destruct Hloop as [((K1 & K2 & K3 & K4) & Hstep & Hgroup & Hmodel & Hreset & Hp)
                       Hlegs].
  { unfold sequenceKept, PROGRESS_COMPLETE. repeat split; try reflexivity. lia. }
  destruct (Z.quot (getLegCount (model_ c)) 2 =? 0)%Z; [discriminate Hrun|].
  injection Hrun as <- <-.
  cbn [legs_completed_step_ set_model set_current_group current_group_] in *.
  destruct (Z.eqb_spec (legs_completed_step_ c1) (getLegCount (model_ c)))
    as [Hall | Hsome'];
    cbn [reset_transition_sequence_ current_group_ legs_completed_step_ model_
         legs transition_step_ set_reset_transition_sequence set_current_group
         set_legs_completed_step set_model set_legs].
  - split; [reflexivity|]. split; [reflexivity|].
    split; [lia|]. split; [exact Hlegs|].
    split.
    { intros Hready. specialize (Hlow Hready).
      unfold PROGRESS_COMPLETE in Hp. rewrite Hgroup.
      assert (0 <= Z.quot p1 2 <= 50)%Z.
      { split; [apply Z.quot_pos; lia|].
        apply Z.quot_le_upper_bound; lia. }
      split; intros ->; lia. }
    split; [unfold sequenceKept; cbn; repeat split; assumption|].
    split; [exact Hstep | exact Hnone].
  - split; [reflexivity|]. split; [reflexivity|].
    split; [exact Hsome'|]. split; [exact Hlegs|].
    split.
    { intros Hready. specialize (Hlow Hready).
      unfold PROGRESS_COMPLETE in Hp. rewrite Hgroup.
      assert (0 <= Z.quot p1 2 <= 50)%Z.
      { split; [apply Z.quot_pos; lia|].
        apply Z.quot_le_upper_bound; lia. }
      split; intros ->; lia. }
    split; [unfold sequenceKept; cbn; repeat split; assumption|].
    split; [exact Hstep | exact Hnone].
Qed.

(** *** [directStartup] *)

(** A call of [stepToPosition] at iteration [k] of a step. *)
Lemma stepToPosition_advance (dt : R) (l : Leg) (target : Vector3d)
    (pose : Pose) (lift time : R) (dz : bool) (p : LegPoser) (k : Z) :
  (k = 0%Z /\ first_iteration_ p = true
   /\ withinTolerance (leg_current_tip_position l) target = false)
  \/ (first_iteration_ p = false /\ master_iteration_count_ p = k) ->
  ((k + 1 < stepIterations time dt)%Z ->
   (snd (stepToPosition dt l target pose lift time dz p) < PROGRESS_COMPLETE)%Z
   /\ first_iteration_ (fst (stepToPosition dt l target pose lift time dz p))
      = false
   /\ master_iteration_count_
        (fst (stepToPosition dt l target pose lift time dz p)) = (k + 1)%Z)
  /\ ((stepIterations time dt <= k + 1)%Z ->
      snd (stepToPosition dt l target pose lift time dz p) = PROGRESS_COMPLETE
      /\ first_iteration_ (fst (stepToPosition dt l target pose lift time dz p))
         = true).
Proof.
  intros [(Hk & Hfirst & Htol) | (Hfirst & Hcount)]; unfold stepToPosition;
    rewrite Hfirst.
  - unfold withinTolerance in Htol.
    cbn [origin_tip_position_ set_origin_tip_position]. rewrite Htol.
    match goal with
    | |- context [stepToPosition_iterate dt l target pose lift time dz ?q] =>
        destruct (stepToPosition_iterate_step dt l target pose lift time dz q
                    eq_refl) as (Hc & _ & Hdone & Hmore & _)
    end.
    cbn [master_iteration_count_ set_first_iteration set_master_iteration_count
         set_current_tip_position set_origin_tip_position]
      in Hc, Hdone, Hmore.
    subst k. split.
    + intros Hlt. destruct (Hmore Hlt) as [Hp Hf].
      split; [exact Hp | split; [exact Hf | exact Hc]].
    + intros Hle. exact (Hdone Hle).
  - destruct (stepToPosition_iterate_step dt l target pose lift time dz p Hfirst)
      as (Hc & _ & Hdone & Hmore & _).
    rewrite Hcount in Hc, Hdone, Hmore. split.
    + intros Hlt. destruct (Hmore Hlt) as [Hp Hf].
      split; [exact Hp | split; [exact Hf | exact Hc]].
    + intros Hle. exact (Hdone Hle).
Qed.

Lemma directStartupLeg_step (time_to_start : R) (c : PoseController)
    (progress : Z) (e : LegEntry) (k : Z) :
  stepStatus k e ->
  (((k + 1 < stepIterations time_to_start (time_delta (params_ c)))%Z ->
    (fst (directStartupLeg time_to_start c progress e) < PROGRESS_COMPLETE)%Z)
   /\ ((stepIterations time_to_start (time_delta (params_ c)) <= k + 1)%Z ->
       fst (directStartupLeg time_to_start c progress e) = PROGRESS_COMPLETE))
  /\ (((k + 1 < stepIterations time_to_start (time_delta (params_ c)))%Z ->
       withinStep (k + 1) (snd (directStartupLeg time_to_start c progress e)))
      /\ ((stepIterations time_to_start (time_delta (params_ c)) <= k + 1)%Z ->
          first_iteration_
            (leg_poser (snd (directStartupLeg time_to_start c progress e)))
          = true)).
Proof.
  intros Hstatus. unfold directStartupLeg.
  match goal with
  | |- context [stepToPosition ?dt ?l ?t ?ps ?lift ?tm ?dz ?p] =>
      pose proof (stepToPosition_advance dt l t ps lift tm dz p k) as Hadv;
      destruct (stepToPosition dt l t ps lift tm dz p) as [lp pr]
  end.
  destruct (applyIK _) as [l1 prox]. cbn [fst snd leg_poser] in *.
  destruct Hadv as [Hmore Hdone].
  { destruct Hstatus as [(Hk & Hf & Ht) | (Hk & Hf & Hc)];
      [left; repeat split; assumption | right; split; assumption]. }
  unfold withinStep. cbn [leg_poser].
  split; split.
  - intros Hlt. apply Hmore. exact Hlt.
  - intros Hle. apply Hdone. exact Hle.
  - intros Hlt. destruct (Hmore Hlt) as (_ & Hf & Hc). split; assumption.
  - intros Hle. apply Hdone. exact Hle.
Qed.

(** A call of [directStartup] when every leg is at iteration [k]. *)
Lemma directStartup_call (time_to_start : R) (c : PoseController) (k : Z) :
  legs (model_ c) <> [] ->
  Forall (stepStatus k) (legs (model_ c)) ->
  params_ (fst (directStartup time_to_start c)) = params_ c
  /\ legs (model_ (fst (directStartup time_to_start c))) <> []
  /\ ((k + 1 < stepIterations time_to_start (time_delta (params_ c)))%Z ->
      (snd (directStartup time_to_start c) < PROGRESS_COMPLETE)%Z
      /\ Forall (withinStep (k + 1))
           (legs (model_ (fst (directStartup time_to_start c)))))
  /\ ((stepIterations time_to_start (time_delta (params_ c)) <= k + 1)%Z ->
      snd (directStartup time_to_start c) = PROGRESS_COMPLETE
      /\ Forall (fun e => first_iteration_ (leg_poser e) = true)
           (legs (model_ (fst (directStartup time_to_start c))))).
Proof.
  intros Hne Hall. unfold directStartup.
  pose proof (forEachLeg_last (directStartupLeg time_to_start c)
                (stepStatus k)
                (fun p =>
                   ((k + 1 < stepIterations time_to_start
                               (time_delta (params_ c)))%Z ->
                    (p < PROGRESS_COMPLETE)%Z)
                   /\ ((stepIterations time_to_start (time_delta (params_ c))
                        <= k + 1)%Z -> p = PROGRESS_COMPLETE))
                (fun _ e' =>
                   ((k + 1 < stepIterations time_to_start
                               (time_delta (params_ c)))%Z ->
                    withinStep (k + 1) e')
                   /\ ((stepIterations time_to_start (time_delta (params_ c))
                        <= k + 1)%Z ->
                       first_iteration_ (leg_poser e') = true))
                (fun s e He => directStartupLeg_step time_to_start c s e k He)
                (legs (model_ c)) 0%Z Hne Hall) as [[Hmore Hdone] Hlegs].
  destruct (forEachLeg (directStartupLeg time_to_start c) 0%Z (legs (model_ c)))
    as [progress legs1].
  cbn [fst snd params_ model_ legs set_model set_legs] in *.
  split; [reflexivity|]. split.
  { intros Hnil. subst legs1. inversion Hlegs; subst. congruence. }
  split.
  - intros Hlt. split; [apply Hmore; exact Hlt|].
    eapply Forall2_right; [|exact Hlegs].
    intros a b [Hw _]. apply Hw. exact Hlt.
  - intros Hle. split; [apply Hdone; exact Hle|].
    eapply Forall2_right; [|exact Hlegs].
    intros a b [_ Hf]. apply Hf. exact Hle.
Qed.

(** X19: [directStartup] completes in
    [max(1, roundToInt(time_to_start / time_delta))] calls.  From a model
    with a leg, in which every leg poser is ready to start a step and no leg
    has its tip within the tolerance of its default tip position, the call
    [k] returns a progress below [PROGRESS_COMPLETE], with every leg at
    iteration [k] of its step, while [k] is less than the number of
    iterations, and it returns [PROGRESS_COMPLETE], with every leg poser
    ready for a new step, when [k] is that number. *)
Theorem directStartup_calls_complete (time_to_start : R) (c : PoseController)
    (k : nat) :
  legs (model_ c) <> [] ->
  Forall startsStep (legs (model_ c)) ->
  (1 <= k)%nat ->
  (Z.of_nat k <= stepIterations time_to_start (time_delta (params_ c)))%Z ->
  ((Z.of_nat k < stepIterations time_to_start (time_delta (params_ c)))%Z ->
   (snd (directStartup_calls k time_to_start c) < PROGRESS_COMPLETE)%Z
   /\ Forall (withinStep (Z.of_nat k))
        (legs (model_ (fst (directStartup_calls k time_to_start c)))))
  /\ (Z.of_nat k = stepIterations time_to_start (time_delta (params_ c)) ->
      snd (directStartup_calls k time_to_start c) = PROGRESS_COMPLETE
      /\ Forall (fun e => first_iteration_ (leg_poser e) = true)
           (legs (model_ (fst (directStartup_calls k time_to_start c)))))
  /\ params_ (fst (directStartup_calls k time_to_start c)) = params_ c
  /\ legs (model_ (fst (directStartup_calls k time_to_start c))) <> [].
Proof.
  intros Hne Hstart Hk. induction Hk as [|k Hk IH]; intros HN.
  - cbn [directStartup_calls fst].
    destruct (directStartup_call time_to_start c 0 Hne) as (Hp & Hl & Hmore & Hdone).
    { eapply Forall_impl; [|exact Hstart]. intros e He. left. split; [reflexivity | exact He]. }
    split; [intros Hlt; apply Hmore; simpl in Hlt; lia|].
    split; [intros Heq; apply Hdone; simpl in Heq; lia|].
    split; assumption.
  - destruct IH as (IHmore & _ & IHp & IHl); [lia|].
    destruct IHmore as [_ IHlegs]; [lia|].
    cbn [directStartup_calls].
    set (ck := fst (directStartup_calls k time_to_start c)) in *.
    destruct (directStartup_call time_to_start ck (Z.of_nat k) IHl)
      as (Hp & Hl & Hmore & Hdone).
    { eapply Forall_impl; [|exact IHlegs]. intros e He. right.
      split; [lia | exact He]. }
    rewrite IHp in Hmore, Hdone.
    replace (Z.of_nat (S k)) with (Z.of_nat k + 1)%Z by lia.
    split; [intros Hlt; apply Hmore; lia|].
    split; [intros Heq; apply Hdone; lia|].
    split; [congruence | exact Hl].
Qed.

End StanceSteps.

(** ** The sample robot steps to its stance *)

Section SampleStance.

Import Poser Stance.

Lemma sample_startsStep (id : Z) (l : nat) (g : Z) :
  @startsStep Samples.constants (Samples.legEntry id l g).
Proof.
  split; [reflexivity|]. unfold withinTolerance.
  replace (Rltb (Rabs (vx (leg_current_tip_position
                             (leg (Samples.legEntry id l g)))
                       - vx (default_tip_position_
                               (leg_stepper (Samples.legEntry id l g)))))
             TIP_TOLERANCE) with false; [reflexivity|].
  symmetry. apply Rltb_false. simpl.
  replace (1 / 10 - 3 / 10) with (- (1 / 5)) by field.
  rewrite Rabs_Ropp, Rabs_pos_eq; lra.
Qed.

(** The sample robot is within its direct start-up after the first of two
    calls. *)
Lemma directStartup_calls_complete_witness :
  legs (model_ Samples.poseController) <> []
  /\ Forall (@startsStep Samples.constants) (legs (model_ Samples.poseController))
  /\ (1 <= 1)%nat
  /\ (Z.of_nat 1
      <= @stepIterations Samples.includes (1 / 25)
           (time_delta (params_ Samples.poseController)))%Z
  /\ (snd (@directStartup_calls Samples.includes Samples.quatLib
             Samples.constants Samples.robot StanceSamples.stepDefaults 1
             (1 / 25) Samples.poseController) < PROGRESS_COMPLETE)%Z.
Proof.
  assert (Hne : legs (model_ Samples.poseController) <> [])
    by (simpl; discriminate).
  assert (Hstart : Forall (@startsStep Samples.constants)
                     (legs (model_ Samples.poseController))).
  { simpl. repeat constructor; apply sample_startsStep. }
  assert (HN : (Z.of_nat 1
                <= @stepIterations Samples.includes (1 / 25)
                     (time_delta (params_ Samples.poseController)))%Z).
  { change (time_delta (params_ Samples.poseController)) with (1 / 50).
    rewrite sample_stepIterations. simpl. lia. }
  split; [exact Hne | split; [exact Hstart | split; [apply le_n|]]].
  split; [exact HN|].
  destruct (@directStartup_calls_complete Samples.includes Samples.quatLib
              Samples.constants Samples.robot StanceSamples.stepDefaults
              (1 / 25) Samples.poseController 1 Hne Hstart (le_n 1) HN)
    as (Hmore & _).
  apply Hmore.
  change (time_delta (params_ Samples.poseController)) with (1 / 50).
  rewrite sample_stepIterations. simpl. lia.
Defined.

(** The sample robot, of six legs, steps to a new stance. *)
Lemma stepToNewStance_books_witness :
  match @stepToNewStance Samples.includes Samples.quatLib Samples.constants
          Samples.robot StanceSamples.stepDefaults Samples.poseController with
  | Some (c', _) => reset_transition_sequence_ c' = true
  | None => False
  end.
Proof.
  destruct (@stepToNewStance Samples.includes Samples.quatLib Samples.constants
              Samples.robot StanceSamples.stepDefaults Samples.poseController)
    as [[c' r]|] eqn:Hrun.
  - destruct (@stepToNewStance_books Samples.includes Samples.quatLib
                Samples.constants Samples.robot StanceSamples.stepDefaults
                Samples.poseController c' r Hrun) as (Hreset & _).
    exact Hreset.
  - apply stepToNewStance_fails in Hrun.
    unfold getLegCount in Hrun. simpl in Hrun. lia.
Defined.

End SampleStance.

(** ** Automatic body posing *)

Section AutoPoseCycle.

Import Poser BodyPose AutoPosing.

Context `{QuatLib} `{QuatAngles} `{PoseLib} `{AutoPoserLib}.

Lemma updatePose_unsynced (c : PoseController) (phase : Z) (a : AutoPoser) :
  pose_frequency_ c <> -1 ->
  allow_posing_ (snd (updatePose c phase a)) = true.
Proof.
  intros Hne. apply Reqb_false in Hne. unfold updatePose.
  destruct (posingWindow c a phase) as [[s e] ph].
  assert (Hallow : allow_posing_ (updateChecks c s e ph a) = true).
  { unfold updateChecks. rewrite Hne. destruct (allow_posing_ a); reflexivity. }
  destruct ((s <=? ph)%Z && (ph <? e)%Z
            && allow_posing_ (updateChecks c s e ph a)); exact Hallow.
Qed.

Lemma followWalkState_frame (ref : ReferenceStepper) (c : PoseController) :
  pose_frequency_ (followWalkState ref c) = pose_frequency_ c
  /\ pose_phase_length_ (followWalkState ref c) = pose_phase_length_ c
  /\ normaliser_ (followWalkState ref c) = normaliser_ c
  /\ params_ (followWalkState ref c) = params_ c
  /\ model_ (followWalkState ref c) = model_ c.
Proof.
  unfold followWalkState.
  repeat match goal with
         | |- context [if ?b then _ else _] => destruct b
         end; repeat split; reflexivity.
Qed.

Lemma countNotPosing_range (l : list AutoPoser) :
  (0 <= countNotPosing l <= Z.of_nat (length l))%Z.
Proof.
  induction l as [|a l IH]; simpl length; simpl countNotPosing; [lia|].
  destruct (negb (isPosing a)); lia.
Qed.

Lemma countNotPosing_all (l : list AutoPoser) :
  countNotPosing l = Z.of_nat (length l)
  <-> Forall (fun a => isPosing a = false) l.
Proof.
  induction l as [|a l IH]; simpl length; simpl countNotPosing.
  - split; [constructor | reflexivity].
  - pose proof (countNotPosing_range l) as Hr.
    destruct (isPosing a) eqn:Ha; simpl negb; cbv iota.
    + split; [intros Heq; lia|].
      intros Hall. inversion Hall; subst. congruence.
    + split.
      * intros Heq. constructor; [exact Ha|]. apply IH. lia.
      * intros Hall. inversion Hall; subst.
        assert (countNotPosing l = Z.of_nat (length l)) by (apply IH; assumption).
        lia.
Qed.

(** The loop over the auto posers: the count it adds is the number of auto
    posers that are not posing once they are updated. *)
Lemma updateAutoPosers_count (c : PoseController) (phase : Z)
    (l : list AutoPoser) :
  forall (n : Z) (pose : Pose),
    fst (fst (updateAutoPosers c phase n pose l))
    = (n + countNotPosing (snd (updateAutoPosers c phase n pose l)))%Z
    /\ Forall2 (fun a a' => a' = snd (updatePose c phase a)) l
         (snd (updateAutoPosers c phase n pose l)).
Proof.
  induction l as [|a l IH]; intros n pose; simpl.
  - split; [lia | constructor].
  - destruct (updatePose c phase a) as [up a1] eqn:Hup.
    match goal with
    | |- context [updateAutoPosers c phase ?n1 ?p1 l] =>
        destruct (IH n1 p1) as [Hcount Hall];
        destruct (updateAutoPosers c phase n1 p1 l) as [[n2 p2] rest]
    end.
    cbn [fst snd] in *. simpl countNotPosing.
    split; [rewrite Hcount; lia | constructor; [|exact Hall]].
    rewrite Hup. reflexivity.
Qed.

(** [updateAutoPose] fails exactly when the pose phase is iterated modulo a
    pose phase length of zero. *)
Lemma updateAutoPose_fails (ref : ReferenceStepper) (x : PoseController)
    (y : AutoPoseState) :
  updateAutoPose ref x y = None
  <-> pose_frequency_ x <> -1 /\ pose_phase_length_ x = 0%Z.
Proof.
  unfold updateAutoPose.
  destruct (followWalkState_frame ref x) as (Hf & Hl & _).
  rewrite Hf, Hl.
  destruct (Reqb (pose_frequency_ x) (-1)) eqn:Hs; cbn [negb andb].
  - apply Reqb_true in Hs.
    destruct (updateAutoPosers _ _ _ _ _) as [[n p] l].
    split; [intros Habs; discriminate Habs | intros [Hne _]; contradiction].
  - apply Reqb_false in Hs.
    destruct (Z.eqb_spec (pose_phase_length_ x) 0) as [Hz | Hnz].
    + split; [intros _; split; assumption | reflexivity].
    + destruct (updateAutoPosers _ _ _ _ _) as [[n p] l].
      split; [intros Habs; discriminate Habs | intros [_ Hz]; contradiction].
Qed.

(** X20: the auto posing state after [PoseController::updateAutoPose].  The
    call fails exactly when posing is not synchronised with the step cycle
    and the pose phase length is zero.  Otherwise the state is
    POSING_COMPLETE when no auto poser is posing after its update, and else
    the state that follows the walk state of the reference leg: POSING for
    STARTING and MOVING, STOP_POSING for STOPPED and for STOPPING with a
    zero stride vector, and the state before the call in any other case.
    When posing is synchronised the pose phase is kept; when it is not, the
    pose phase advances by one modulo the pose phase length and stays in
    [[0, pose phase length)], every auto poser is allowed to pose after its
    update, and so, where [isPosing] reports that, the state is never set to
    POSING_COMPLETE while there is an auto poser.  The numbers of auto posers
    and of leg posers are kept. *)
Theorem updateAutoPose_posing_state (ref : ReferenceStepper)
    (c c' : PoseController) (s s' : AutoPoseState) :
  updateAutoPose ref c s = Some (c', s') ->
  (Forall (fun a => isPosing a = false) (auto_poser_container_ s') ->
   auto_posing_state_ c' = POSING_COMPLETE)
  /\ (Exists (fun a => isPosing a = true) (auto_poser_container_ s') ->
      auto_posing_state_ c' = auto_posing_state_ (followWalkState ref c))
  /\ (pose_frequency_ c = -1 -> pose_phase_ s' = pose_phase_ s)
  /\ (pose_frequency_ c <> -1 ->
      pose_phase_ s' = Z.rem (pose_phase_ s + 1) (pose_phase_length_ c)
      /\ ((0 <= pose_phase_ s)%Z -> (0 < pose_phase_length_ c)%Z ->
          (0 <= pose_phase_ s' < pose_phase_length_ c)%Z)
      /\ Forall (fun a => allow_posing_ a = true) (auto_poser_container_ s')
      /\ ((forall a, isPosing a = allow_posing_ a) ->
          auto_poser_container_ s <> [] ->
          auto_posing_state_ c' = auto_posing_state_ (followWalkState ref c)))
  /\ length (auto_poser_container_ s') = length (auto_poser_container_ s)
  /\ length (negation_posers_ s') = length (negation_posers_ s)
  /\ (forall x y,
        updateAutoPose ref x y = None
        <-> pose_frequency_ x <> -1 /\ pose_phase_length_ x = 0%Z).
Proof.
  pose proof (updateAutoPose_fails ref) as Hnone.
  intros Hrun. unfold updateAutoPose in Hrun.
  destruct (followWalkState_frame ref c) as (Hf & Hl & _).
  set (c1 := followWalkState ref c) in *.
  rewrite Hf, Hl in Hrun.
  destruct (negb (Reqb (pose_frequency_ c) (-1)) && (pose_phase_length_ c =? 0)%Z);
    [discriminate Hrun|].
  set (phases := if Reqb (pose_frequency_ c) (-1)
                 then ((ref_phase ref + 1)%Z, pose_phase_ s)
                 else (pose_phase_ s,
                       Z.rem (pose_phase_ s + 1) (pose_phase_length_ c))) in *.
  assert (Hphase : snd phases
                   = if Reqb (pose_frequency_ c) (-1) then pose_phase_ s
                     else Z.rem (pose_phase_ s + 1) (pose_phase_length_ c)).
  { subst phases. destruct (Reqb (pose_frequency_ c) (-1)); reflexivity. }
  destruct phases as [master_phase pose_phase]. cbn [snd] in Hphase.
  destruct (updateAutoPosers_count c1 master_phase (auto_poser_container_ s)
              0%Z Pose_identity) as [Hcount Hall].
  destruct (updateAutoPosers c1 master_phase 0%Z Pose_identity
              (auto_poser_container_ s)) as [[n pose] container].
  cbn [fst snd] in Hcount, Hall.
  assert (Hlen : length container = length (auto_poser_container_ s)).
  { symmetry. eapply Forall2_length. exact Hall. }
  injection Hrun as <- <-.
  cbn [auto_poser_container_ pose_phase_ negation_posers_].
  rewrite Hcount, Z.add_0_l, <- Hlen.
  assert (Hdone : Forall (fun a => isPosing a = false) container ->
                  auto_posing_state_
                    (if (countNotPosing container =? Z.of_nat (length container))%Z
                     then set_auto_posing_state POSING_COMPLETE c1 else c1)
                  = POSING_COMPLETE).
  { intros Hnot. apply countNotPosing_all in Hnot.
    rewrite Hnot, Z.eqb_refl. reflexivity. }
  assert (Hposing : Exists (fun a => isPosing a = true) container ->
                    auto_posing_state_
                      (if (countNotPosing container
                           =? Z.of_nat (length container))%Z
                       then set_auto_posing_state POSING_COMPLETE c1 else c1)
                    = auto_posing_state_ c1).
  { intros Hsome.
    destruct (Z.eqb_spec (countNotPosing container)
                (Z.of_nat (length container))) as [Heq | Hne]; [|reflexivity].
    apply countNotPosing_all in Heq. exfalso.
    apply Exists_exists in Hsome. destruct Hsome as (a & Hin & Ha).
    rewrite Forall_forall in Heq. specialize (Heq a Hin). congruence. }
  split; [exact Hdone|]. split; [exact Hposing|].
  split.
  { intros Hs. apply Reqb_true in Hs. rewrite Hs in Hphase. exact Hphase. }
  split.
  { intros Hne. pose proof Hne as Hs. apply Reqb_false in Hs.
    rewrite Hs in Hphase.
    assert (Hallow : Forall (fun a => allow_posing_ a = true) container).
    { eapply Forall2_right; [|exact Hall].
      intros a a' ->. apply updatePose_unsynced. rewrite Hf. exact Hne. }
    split; [exact Hphase|]. split.
    { intros Hlow Hpos. rewrite Hphase. apply Z.rem_bound_pos; lia. }
    split; [exact Hallow|].
    intros His Hnonempty. apply Hposing.
    destruct container as [|a rest].
    - destruct (auto_poser_container_ s); [congruence | discriminate Hlen].
    - apply Exists_cons_hd. rewrite His.
      inversion Hallow; subst. assumption. }
  split; [reflexivity|]. split; [apply length_map | exact Hnone].
Qed.

(** X21: the negation of the auto pose by a leg poser.  The negation window
    of [LegPoser::updateAutoPose] is the posing window of an auto poser with
    the same start and end phases.  Outside the window, or once the negation
    is stopped, the leg poser takes the auto pose of the pose controller as
    it is, and the negation is stopped exactly when posing is synchronised
    with the step cycle and the auto posing state is STOP_POSING; inside the
    window, while the negation is not stopped, the leg poser removes the
    negation pose from the auto pose and the negation stays not stopped.  The
    phases of the window are never written. *)
Theorem legUpdateAutoPose_negation (c : PoseController) (auto_pose : Pose)
    (phase : Z) (p : NegationPoser) :
  negationWindow c p phase = posingWindow c (negationAsAutoPoser p) phase
  /\ (forall s e ph : Z,
        negationWindow c p phase = (s, e, ph) ->
        ((ph < s)%Z \/ (e <= ph)%Z \/ stop_negation_ p = true ->
         leg_auto_pose_ (legUpdateAutoPose c auto_pose phase p) = auto_pose
         /\ (stop_negation_ (legUpdateAutoPose c auto_pose phase p) = true
             <-> pose_frequency_ c = -1
                 /\ auto_posing_state_ c = STOP_POSING))
        /\ ((s <= ph < e)%Z -> stop_negation_ p = false ->
            leg_auto_pose_ (legUpdateAutoPose c auto_pose phase p)
            = removePose auto_pose (negationPose s e ph auto_pose)
            /\ stop_negation_ (legUpdateAutoPose c auto_pose phase p) = false))
  /\ pose_negation_phase_start_ (legUpdateAutoPose c auto_pose phase p)
     = pose_negation_phase_start_ p
  /\ pose_negation_phase_end_ (legUpdateAutoPose c auto_pose phase p)
     = pose_negation_phase_end_ p.
Proof.
  split; [reflexivity|].
  unfold legUpdateAutoPose.
  destruct (negationWindow c p phase) as [[s0 e0] ph0].
  split; [|destruct ((s0 <=? ph0)%Z && (ph0 <? e0)%Z && negb (stop_negation_ p));
           split; reflexivity].
  intros s e ph Heq. injection Heq as -> -> ->.
  split.
  - intros Hout.
    assert (Hcond : (s <=? ph)%Z && (ph <? e)%Z && negb (stop_negation_ p)
                    = false).
    { destruct Hout as [Hlt | [Hge | Hstop]].
      - replace (s <=? ph)%Z with false by (symmetry; apply Z.leb_gt; lia).
        reflexivity.
      - replace (ph <? e)%Z with false by (symmetry; apply Z.ltb_ge; lia).
        rewrite andb_false_r. reflexivity.
      - rewrite Hstop. rewrite andb_false_r. reflexivity. }
    rewrite Hcond. cbn [leg_auto_pose_ stop_negation_].
    split; [reflexivity|].
    rewrite andb_true_iff, Reqb_true.
    destruct (auto_posing_state_ c); simpl; split;
      intros [Ha Hb]; split; try assumption; try reflexivity; discriminate.
  - intros [Hlow Hup] Hstop.
    replace (s <=? ph)%Z with true by (symmetry; apply Z.leb_le; lia).
    replace (ph <? e)%Z with true by (symmetry; apply Z.ltb_lt; lia).
    rewrite Hstop. cbn. split; reflexivity.
Qed.

End AutoPoseCycle.

(** ** The sample auto poser in a walk *)

Section SampleAutoPose.

Import Poser AutoPosing.

(** The sample pose controller, posing in step with the walk, updates its
    one auto poser. *)
Lemma updateAutoPose_posing_state_witness :
  match @updateAutoPose Samples.quatLib AutoSamples.quatAngles
          AutoSamples.poseLib AutoSamples.autoPoserLib AutoSamples.reference
          Samples.poseController AutoSamples.autoPoseState with
  | Some (_, s') =>
      pose_phase_ s' = pose_phase_ AutoSamples.autoPoseState
      /\ length (auto_poser_container_ s') = 1%nat
  | None => False
  end.
Proof.
  destruct (@updateAutoPose Samples.quatLib AutoSamples.quatAngles
              AutoSamples.poseLib AutoSamples.autoPoserLib AutoSamples.reference
              Samples.poseController AutoSamples.autoPoseState)
    as [[c' s']|] eqn:Hrun.
  - destruct (@updateAutoPose_posing_state Samples.quatLib
                AutoSamples.quatAngles AutoSamples.poseLib
                AutoSamples.autoPoserLib AutoSamples.reference
                Samples.poseController c' AutoSamples.autoPoseState s' Hrun)
      as (_ & _ & Hsync & _ & Hlen & _).
    split; [apply Hsync; reflexivity | exact Hlen].
  - apply updateAutoPose_fails in Hrun. destruct Hrun as [Hne _].
    apply Hne. reflexivity.
Defined.

End SampleAutoPose.

(** ** Moving the joints *)

Section JointMoves.

Import Poser Joints.

Context `{StandardIncludes} `{JointLib}.

Lemma allJointsAtTarget_spec (targets : list R) (js : list Joint) :
  forall (acc : bool) (k : nat),
    allJointsAtTarget acc targets k js = true
    <-> acc = true
        /\ (forall i j, nth_error js i = Some j ->
              Rabs (nth (k + i) targets 0 - current_position_ j)
              < JOINT_TOLERANCE).
Proof.
  induction js as [|j js IH]; intros acc k; simpl.
  - split; [intros ->; split; [reflexivity|] | intros [-> _]; reflexivity].
    intros i j Hnth. destruct i; discriminate Hnth.
  - rewrite IH, andb_true_iff, Rltb_true. split.
    + intros [[Hacc Hj] Hrest]. split; [exact Hacc|].
      intros i j' Hnth. destruct i as [|i]; simpl in Hnth.
      * injection Hnth as <-. rewrite Nat.add_0_r. exact Hj.
      * specialize (Hrest i j' Hnth).
        replace (k + S i)%nat with (S k + i)%nat by lia. exact Hrest.
    + intros [Hacc Hall]. split; [split; [exact Hacc|]|].
      * specialize (Hall 0%nat j eq_refl). rewrite Nat.add_0_r in Hall.
        exact Hall.
      * intros i j' Hnth. specialize (Hall (S i) j' Hnth).
        replace (k + S i)%nat with (S k + i)%nat in Hall by lia. exact Hall.
Qed.

(** One iteration of a move that has begun. *)
Lemma moveToJointPosition_iterate_step (dt : R) (targets : list R) (time : R)
    (l : JointedLeg) :
  first_iteration_ (joint_poser l) = false ->
  master_iteration_count_
    (joint_poser (fst (moveToJointPosition_iterate dt targets time l)))
  = (master_iteration_count_ (joint_poser l) + 1)%Z
  /\ origin_joint_positions_ (fst (moveToJointPosition_iterate dt targets time l))
     = origin_joint_positions_ l
  /\ ((stepIterations time dt <= master_iteration_count_ (joint_poser l) + 1)%Z ->
      snd (moveToJointPosition_iterate dt targets time l) = PROGRESS_COMPLETE
      /\ first_iteration_
           (joint_poser (fst (moveToJointPosition_iterate dt targets time l)))
         = true)
  /\ ((master_iteration_count_ (joint_poser l) + 1 < stepIterations time dt)%Z ->
      (snd (moveToJointPosition_iterate dt targets time l) < PROGRESS_COMPLETE)%Z
      /\ first_iteration_
           (joint_poser (fst (moveToJointPosition_iterate dt targets time l)))
         = false).
Proof.
  intros Hfirst. unfold moveToJointPosition_iterate, stepIterations.
  set (n := Z.max 1 (roundToInt (time / dt))).
  assert (Hn : (1 <= n)%Z) by (subst n; lia).
  cbn [master_iteration_count_ set_master_iteration_count].
  destruct (Z.leb_spec n (master_iteration_count_ (joint_poser l) + 1))
    as [Hdone | Hmore];
    cbn [fst snd joint_poser origin_joint_positions_ master_iteration_count_
         first_iteration_ set_first_iteration set_master_iteration_count].
  - repeat split; try reflexivity; intros; lia.
  - split; [reflexivity|]. split; [reflexivity|].
    split; [intros; lia|]. intros _. split; [|exact Hfirst].
    apply truncToInt_lt; [unfold PROGRESS_COMPLETE; lia|].
    assert (Hpos : 0 < IZR n) by (apply IZR_lt; lia).
    assert (Hratio : IZR (master_iteration_count_ (joint_poser l) + 1 - 1)
                     / IZR n < 1).
    { apply (Rmult_lt_reg_r (IZR n)); [exact Hpos|].
      replace (IZR (master_iteration_count_ (joint_poser l) + 1 - 1) / IZR n
               * IZR n)
        with (IZR (master_iteration_count_ (joint_poser l) + 1 - 1))
        by (field; lra).
      rewrite Rmult_1_l. apply IZR_lt. lia. }
    assert (Hc : 0 < IZR PROGRESS_COMPLETE)
      by (apply IZR_lt; unfold PROGRESS_COMPLETE; lia).
    nra.
Qed.

(** A call of [moveToJointPosition] at iteration [k] of a move. *)
Lemma moveToJointPosition_advance (dt : R) (targets : list R) (time : R)
    (l : JointedLeg) (k : Z) :
  (k = 0%Z /\ first_iteration_ (joint_poser l) = true
   /\ allJointsAtTarget true targets 0 (joints l) = false)
  \/ (first_iteration_ (joint_poser l) = false
      /\ master_iteration_count_ (joint_poser l) = k) ->
  ((k + 1 < stepIterations time dt)%Z ->
   (snd (moveToJointPosition dt targets time l) < PROGRESS_COMPLETE)%Z
   /\ first_iteration_ (joint_poser (fst (moveToJointPosition dt targets time l)))
      = false
   /\ master_iteration_count_
        (joint_poser (fst (moveToJointPosition dt targets time l)))
      = (k + 1)%Z)
  /\ ((stepIterations time dt <= k + 1)%Z ->
      snd (moveToJointPosition dt targets time l) = PROGRESS_COMPLETE
      /\ first_iteration_
           (joint_poser (fst (moveToJointPosition dt targets time l)))
         = true).
Proof.
  intros [(Hk & Hfirst & Htol) | (Hfirst & Hcount)]; unfold moveToJointPosition;
    rewrite Hfirst.
  - cbn [joints joint_poser]. rewrite Htol.
    match goal with
    | |- context [moveToJointPosition_iterate dt targets time ?q] =>
        destruct (moveToJointPosition_iterate_step dt targets time q eq_refl)
          as (Hc & _ & Hdone & Hmore)
    end.
    cbn [joint_poser master_iteration_count_ set_first_iteration
         set_master_iteration_count] in Hc, Hdone, Hmore.
    subst k. split.
    + intros Hlt. destruct (Hmore Hlt) as [Hp Hf].
      split; [exact Hp | split; [exact Hf | exact Hc]].
    + intros Hle. exact (Hdone Hle).
  - destruct (moveToJointPosition_iterate_step dt targets time l Hfirst)
      as (Hc & _ & Hdone & Hmore).
    rewrite Hcount in Hc, Hdone, Hmore. split.
    + intros Hlt. destruct (Hmore Hlt) as [Hp Hf].
      split; [exact Hp | split; [exact Hf | exact Hc]].
    + intros Hle. exact (Hdone Hle).
Qed.

(** X22: [LegPoser::moveToJointPosition] returns [PROGRESS_COMPLETE] exactly
    when it leaves the leg poser ready to start a new move, and never more
    than that.  A first call completes at once, without writing a joint or
    the iteration count, exactly when every joint of the leg is within
    [JOINT_TOLERANCE] of its target; it has then recorded the current joint
    positions as the origin.  A call within a move adds one to the iteration
    count and keeps the origin. *)
Theorem moveToJointPosition_complete_iff (dt : R) (targets : list R) (time : R)
    (l : JointedLeg) :
  (snd (moveToJointPosition dt targets time l) = PROGRESS_COMPLETE
   <-> first_iteration_ (joint_poser (fst (moveToJointPosition dt targets time l)))
       = true)
  /\ (snd (moveToJointPosition dt targets time l) <= PROGRESS_COMPLETE)%Z
  /\ (first_iteration_ (joint_poser l) = true ->
      (forall i j, nth_error (joints l) i = Some j ->
         Rabs (nth i targets 0 - current_position_ j) < JOINT_TOLERANCE) ->
      moveToJointPosition dt targets time l
      = (mkJointedLeg (joints l) (joint_poser l)
           (map current_position_ (joints l)), PROGRESS_COMPLETE))
  /\ (first_iteration_ (joint_poser l) = false ->
      master_iteration_count_
        (joint_poser (fst (moveToJointPosition dt targets time l)))
      = (master_iteration_count_ (joint_poser l) + 1)%Z
      /\ origin_joint_positions_ (fst (moveToJointPosition dt targets time l))
         = origin_joint_positions_ l).
Proof.
  assert (Hiter : forall q : JointedLeg,
             first_iteration_ (joint_poser q) = false ->
             (snd (moveToJointPosition_iterate dt targets time q)
              = PROGRESS_COMPLETE
              <-> first_iteration_
                    (joint_poser (fst (moveToJointPosition_iterate dt targets
                                         time q))) = true)
             /\ (snd (moveToJointPosition_iterate dt targets time q)
                 <= PROGRESS_COMPLETE)%Z).
  { intros q Hq.
    destruct (moveToJointPosition_iterate_step dt targets time q Hq)
      as (_ & _ & Hdone & Hmore).
    destruct (Z_le_gt_dec (stepIterations time dt)
                (master_iteration_count_ (joint_poser q) + 1)) as [Hle | Hgt].
    - destruct (Hdone Hle) as [-> ->]. split; [tauto | lia].
    - destruct Hmore as [Hlt Hf]; [lia|]. rewrite Hf.
      split; [split; [lia | discriminate] | lia]. }
  unfold moveToJointPosition.
  destruct (first_iteration_ (joint_poser l)) eqn:Hfirst.
  - cbn [joints joint_poser].
    destruct (allJointsAtTarget true targets 0 (joints l)) eqn:Hall.
    + cbn [fst snd joint_poser]. rewrite Hfirst. unfold PROGRESS_COMPLETE.
      split; [tauto | split; [lia|]].
      split; [intros _ _; reflexivity | intros Habs; discriminate Habs].
    + match goal with
      | |- context [moveToJointPosition_iterate dt targets time ?q] =>
          destruct (Hiter q eq_refl) as [Hiff Hle]
      end.
      split; [exact Hiff | split; [exact Hle|]].
      split; [|intros Habs; discriminate Habs].
      intros _ Hnear. exfalso.
      assert (Htrue : allJointsAtTarget true targets 0 (joints l) = true).
      { apply allJointsAtTarget_spec. split; [reflexivity | exact Hnear]. }
      congruence.
  - destruct (Hiter l Hfirst) as [Hiff Hle].
    destruct (moveToJointPosition_iterate_step dt targets time l Hfirst)
      as (Hcount & Horigin & _).
    split; [exact Hiff | split; [exact Hle|]].
    split; [intros Habs; discriminate Habs|].
    intros _. split; [exact Hcount | exact Horigin].
Qed.

(** *** [packLegs] and [unpackLegs] *)

Lemma moveLegs_last (dt : R) (targets : JointedLeg -> list R) (time : R)
    (k : Z) (ls : list JointedLeg) :
  forall progress : Z,
    ls <> [] ->
    Forall (moveStatus targets k) ls ->
    (((k + 1 < stepIterations time dt)%Z ->
      (snd (moveLegs dt targets time progress ls) < PROGRESS_COMPLETE)%Z)
     /\ ((stepIterations time dt <= k + 1)%Z ->
         snd (moveLegs dt targets time progress ls) = PROGRESS_COMPLETE))
    /\ Forall (fun l' =>
                 ((k + 1 < stepIterations time dt)%Z -> withinMove (k + 1) l')
                 /\ ((stepIterations time dt <= k + 1)%Z ->
                     first_iteration_ (joint_poser l') = true))
         (fst (moveLegs dt targets time progress ls))
    /\ length (fst (moveLegs dt targets time progress ls)) = length ls.
Proof.
  induction ls as [|l ls IH]; intros progress Hne Hall; [congruence|].
  inversion Hall as [|? ? Hl Hrest]; subst. simpl.
  pose proof (moveToJointPosition_advance dt (targets l) time l k) as Hadv.
  destruct Hadv as [Hmore Hdone].
  { destruct Hl as [(Hk & Hf & Ht) | (Hk & Hf & Hc)];
      [left; repeat split; assumption | right; split; assumption]. }
  destruct (moveToJointPosition dt (targets l) time l) as [l1 p1].
  cbn [fst snd] in Hmore, Hdone.
  assert (Hl1 : ((k + 1 < stepIterations time dt)%Z -> withinMove (k + 1) l1)
                /\ ((stepIterations time dt <= k + 1)%Z ->
                    first_iteration_ (joint_poser l1) = true)).
  { split.
    - intros Hlt. destruct (Hmore Hlt) as (_ & Hf & Hc). split; assumption.
    - intros Hle. apply Hdone. exact Hle. }
  destruct ls as [|l' ls'].
  - simpl. split; [|split; [constructor; [exact Hl1 | constructor] | reflexivity]].
    split; [intros Hlt; apply Hmore; exact Hlt | intros Hle; apply Hdone; exact Hle].
  - assert (Hne' : l' :: ls' <> []) by discriminate.
    destruct (IH p1 Hne' Hrest) as (Hp & Hlegs & Hlen).
    destruct (moveLegs dt targets time p1 (l' :: ls')) as [rest1 p2].
    cbn [fst snd] in *.
    split; [exact Hp | split; [constructor; assumption|]].
    simpl. rewrite Hlen. reflexivity.
Qed.

(** X23: [packLegs] completes in [max(1, roundToInt(time_to_pack /
    time_delta))] calls and resets the transition step.  Every call leaves
    the transition step at zero and writes nothing else of the pose
    controller, whereas [unpackLegs] leaves the pose controller as it is.
    From a model with a leg, in which every leg poser is ready to start a
    move and every leg has a joint that is not within the tolerance of its
    packed position, the call [k] returns a progress below
    [PROGRESS_COMPLETE], with every leg at iteration [k] of its move, while
    [k] is less than the number of iterations, and it returns
    [PROGRESS_COMPLETE], with every leg poser ready for a new move, when [k]
    is that number. *)
Theorem packLegs_calls_complete (time_to_pack : R) (c : PoseController)
    (ls : list JointedLeg) (k : nat) :
  ls <> [] ->
  Forall (startsMove (fun l => map packed_position_ (joints l))) ls ->
  (1 <= k)%nat ->
  (Z.of_nat k <= stepIterations time_to_pack (time_delta (params_ c)))%Z ->
  ((Z.of_nat k < stepIterations time_to_pack (time_delta (params_ c)))%Z ->
   (snd (packLegs_calls k time_to_pack c ls) < PROGRESS_COMPLETE)%Z
   /\ Forall (withinMove (Z.of_nat k))
        (snd (fst (packLegs_calls k time_to_pack c ls))))
  /\ (Z.of_nat k = stepIterations time_to_pack (time_delta (params_ c)) ->
      snd (packLegs_calls k time_to_pack c ls) = PROGRESS_COMPLETE
      /\ Forall (fun l => first_iteration_ (joint_poser l) = true)
           (snd (fst (packLegs_calls k time_to_pack c ls))))
  /\ fst (fst (packLegs_calls k time_to_pack c ls)) = set_transition_step 0 c
  /\ length (snd (fst (packLegs_calls k time_to_pack c ls))) = length ls
  /\ (forall t x xs, fst (fst (unpackLegs t x xs)) = x).
Proof.
  assert (Hunpack : forall t x xs, fst (fst (unpackLegs t x xs)) = x).
  { intros t x xs. unfold unpackLegs.
    destruct (moveLegs _ _ _ _ xs) as [xs1 p1]. reflexivity. }
  assert (Hcall : forall (x : PoseController) (xs : list JointedLeg) (j : Z),
             xs <> [] ->
             Forall (moveStatus (fun l => map packed_position_ (joints l)) j) xs ->
             fst (fst (packLegs time_to_pack x xs)) = set_transition_step 0 x
             /\ length (snd (fst (packLegs time_to_pack x xs))) = length xs
             /\ ((j + 1 < stepIterations time_to_pack (time_delta (params_ x)))%Z ->
                 (snd (packLegs time_to_pack x xs) < PROGRESS_COMPLETE)%Z
                 /\ Forall (withinMove (j + 1))
                      (snd (fst (packLegs time_to_pack x xs))))
             /\ ((stepIterations time_to_pack (time_delta (params_ x)) <= j + 1)%Z ->
                 snd (packLegs time_to_pack x xs) = PROGRESS_COMPLETE
                 /\ Forall (fun l => first_iteration_ (joint_poser l) = true)
                      (snd (fst (packLegs time_to_pack x xs))))).
  { intros x xs j Hne Hall. unfold packLegs.
    cbn [params_ set_transition_step].
    destruct (moveLegs_last (time_delta (params_ x))
                (fun l => map packed_position_ (joints l)) time_to_pack j xs
                0%Z Hne Hall) as ([Hmore Hdone] & Hlegs & Hlen).
    destruct (moveLegs _ _ _ _ xs) as [xs1 p1]. cbn [fst snd] in *.
    split; [reflexivity | split; [exact Hlen|]]. split.
    - intros Hlt. split; [apply Hmore; exact Hlt|].
      eapply Forall_impl; [|exact Hlegs]. intros a [Ha _]. apply Ha. exact Hlt.
    - intros Hle. split; [apply Hdone; exact Hle|].
      eapply Forall_impl; [|exact Hlegs]. intros a [_ Ha]. apply Ha. exact Hle. }
  intros Hne Hstart Hk. induction Hk as [|k Hk IH]; intros HN.
  - cbn [packLegs_calls fst snd].
    destruct (Hcall c ls 0%Z Hne) as (Hc & Hlen & Hmore & Hdone).
    { eapply Forall_impl; [|exact Hstart]. intros l Hl. left.
      split; [reflexivity | exact Hl]. }
    split; [intros Hlt; apply Hmore; simpl in Hlt; lia|].
    split; [intros Heq; apply Hdone; simpl in Heq; lia|].
    split; [exact Hc | split; [exact Hlen | exact Hunpack]].
  - destruct IH as (IHmore & _ & IHc & IHlen & _); [lia|].
    destruct IHmore as [_ IHlegs]; [lia|].
    cbn [packLegs_calls].
    set (r := packLegs_calls k time_to_pack c ls) in *.
    assert (Hne' : snd (fst r) <> []).
    { intros Hnil. rewrite Hnil in IHlen. destruct ls; [congruence | discriminate]. }
    destruct (Hcall (fst (fst r)) (snd (fst r)) (Z.of_nat k) Hne')
      as (Hc & Hlen & Hmore & Hdone).
    { eapply Forall_impl; [|exact IHlegs]. intros l Hl. right.
      split; [lia | exact Hl]. }
    rewrite IHc in Hc, Hlen, Hmore, Hdone |- *.
    cbn [params_ set_transition_step] in Hmore, Hdone.
    replace (Z.of_nat (S k)) with (Z.of_nat k + 1)%Z by lia.
    split; [intros Hlt; apply Hmore; lia|].
    split; [intros Heq; apply Hdone; lia|].
    split; [rewrite Hc; reflexivity|].
    split; [rewrite Hlen; exact IHlen | exact Hunpack].
Qed.

End JointMoves.

(** ** The sample leg packs its joints *)

Section SamplePack.

Import Poser Joints.

Lemma sample_startsMove :
  @startsMove JointSamples.jointLib (fun l => map packed_position_ (joints l))
    JointSamples.jointedLeg.
Proof.
  split; [reflexivity|]. simpl.
  replace (Rltb (Rabs (0 - 1 / 2)) (1 / 100)) with false; [reflexivity|].
  symmetry. apply Rltb_false.
  replace (0 - 1 / 2) with (- (1 / 2)) by field.
  rewrite Rabs_Ropp, Rabs_pos_eq; lra.
Qed.

(** The sample leg is within its move after the first of two calls. *)
Lemma packLegs_calls_complete_witness :
  [JointSamples.jointedLeg] <> []
  /\ Forall (@startsMove JointSamples.jointLib
               (fun l => map packed_position_ (joints l)))
       [JointSamples.jointedLeg]
  /\ (1 <= 1)%nat
  /\ (Z.of_nat 1
      <= @stepIterations Samples.includes (1 / 25)
           (time_delta (params_ Samples.poseController)))%Z
  /\ (snd (@packLegs_calls Samples.includes JointSamples.jointLib 1 (1 / 25)
             Samples.poseController [JointSamples.jointedLeg])
      < PROGRESS_COMPLETE)%Z.
Proof.
  assert (Hne : [JointSamples.jointedLeg] <> []) by discriminate.
  assert (Hstart : Forall (@startsMove JointSamples.jointLib
                             (fun l => map packed_position_ (joints l)))
                     [JointSamples.jointedLeg]).
  { constructor; [exact sample_startsMove | constructor]. }
  assert (HN : (Z.of_nat 1
                <= @stepIterations Samples.includes (1 / 25)
                     (time_delta (params_ Samples.poseController)))%Z).
  { change (time_delta (params_ Samples.poseController)) with (1 / 50).
    rewrite sample_stepIterations. simpl. lia. }
  split; [exact Hne | split; [exact Hstart | split; [apply le_n|]]].
  split; [exact HN|].
  destruct (@packLegs_calls_complete Samples.includes JointSamples.jointLib
              (1 / 25) Samples.poseController [JointSamples.jointedLeg] 1
              Hne Hstart (le_n 1) HN) as (Hmore & _).
  apply Hmore.
  change (time_delta (params_ Samples.poseController)) with (1 / 50).
  rewrite sample_stepIterations. simpl. lia.
Defined.

End SamplePack.

(** ** The manual pose *)

Section ManualLimits.

Import Poser BodyPose ManualPose.

Context `{QuatLib} `{QuatAngles} `{ManualLib}.

(** The position an axis reaches with the limited velocity: it does not pass
    the limit in the direction of the velocity. *)
Lemma limitedVelocity_stops (reset : bool)
    (position default max velocity dt : R) :
  dt <> 0 ->
  (0 < sign velocity ->
   position
   + dt * limitedVelocity reset position default max velocity
            (position + dt * velocity) dt
   = Rmin (position + dt * velocity) (positionLimit reset default max velocity))
  /\ (sign velocity <= 0 ->
      position
      + dt * limitedVelocity reset position default max velocity
               (position + dt * velocity) dt
      = Rmax (position + dt * velocity)
          (positionLimit reset default max velocity)).
Proof.
  intros Hdt. unfold limitedVelocity.
  set (limit := positionLimit reset default max velocity).
  split; intros Hsign.
  - replace (Rltb 0 (sign velocity)) with true
      by (symmetry; apply Rltb_true; exact Hsign).
    cbn [negb andb orb]. rewrite orb_false_r.
    destruct (Rltb limit (position + dt * velocity)) eqn:Hex.
    + apply Rltb_true in Hex. rewrite Rmin_right by lra. field. exact Hdt.
    + apply Rltb_false in Hex. rewrite Rmin_left by lra. reflexivity.
  - replace (Rltb 0 (sign velocity)) with false
      by (symmetry; apply Rltb_false; exact Hsign).
    cbn [negb andb orb].
    destruct (Rltb (position + dt * velocity) limit) eqn:Hex.
    + apply Rltb_true in Hex. rewrite Rmax_right by lra. field. exact Hdt.
    + apply Rltb_false in Hex. rewrite Rmax_left by lra. reflexivity.
Qed.

Lemma positionLimit_range (reset : bool) (default max velocity : R) :
  0 <= max -> Rabs (sign velocity) <= 1 ->
  - max <= positionLimit reset default max velocity <= max.
Proof.
  intros Hmax Hsign. unfold positionLimit.
  apply Rabs_le_between in Hsign.
  destruct (reset && Rltb default max && Rltb (- max) default) eqn:Hr.
  - apply andb_true_iff in Hr. destruct Hr as [Hr Hlow].
    apply andb_true_iff in Hr. destruct Hr as [_ Hup].
    apply Rltb_true in Hlow. apply Rltb_true in Hup. lra.
  - split; nra.
Qed.

Lemma updateManualPose_axis (params : ManualParameters) (s : ManualPoser)
    (i : nat) :
  pose_reset_mode_ s <> IMMEDIATE_ALL_RESET ->
  (i < 3)%nat ->
  axis i (position_ (manual_pose_ (updateManualPose params s)))
  = axis i (position_ (manual_pose_ s))
    + manual_time_delta params
      * limitedVelocity (reset_translation (pose_reset_mode_ s) i)
          (axis i (position_ (manual_pose_ s)))
          (axis i (position_ (default_pose_ s)))
          (axis i (max_translation params))
          (axis i (translationVelocity params s))
          (axis i (position_ (manual_pose_ s))
           + manual_time_delta params * axis i (translationVelocity params s))
          (manual_time_delta params).
Proof.
  intros Hmode Hi. unfold updateManualPose.
  destruct (pose_reset_mode_ s) eqn:Hm; try congruence;
    destruct i as [|[|[|i]]]; try lia; reflexivity.
Qed.

(** X24: the manual pose keeps within the limits of translation.  In every
    reset mode but IMMEDIATE_ALL_RESET, for a positive time of a tick and a
    [sign] that is positive only for velocities that are not negative, not
    positive only for velocities that are not positive, and of magnitude 1
    at most: a translation that is within the maximum translation on an axis
    is within it after [updateManualPose]; and on an axis that is reset
    toward a default strictly within the limits, the translation does not
    pass the default in the direction of its velocity.  The override of a
    reset axis sets the velocity input to 1 below the default, to -1 above
    it, and keeps it at the default.  In the mode IMMEDIATE_ALL_RESET the
    manual pose becomes the default pose and the velocity inputs are kept.
    The default pose and the reset mode are never written. *)
Theorem updateManualPose_translation_limits (params : ManualParameters)
    (s : ManualPoser) (i : nat) :
  (i < 3)%nat ->
  0 < manual_time_delta params ->
  (forall x, (0 < sign x -> 0 <= x) /\ (sign x <= 0 -> x <= 0)
             /\ Rabs (sign x) <= 1) ->
  (pose_reset_mode_ s <> IMMEDIATE_ALL_RESET ->
   (Rabs (axis i (position_ (manual_pose_ s))) <= axis i (max_translation params) ->
    Rabs (axis i (position_ (manual_pose_ (updateManualPose params s))))
    <= axis i (max_translation params))
   /\ (reset_translation (pose_reset_mode_ s) i = true ->
       - axis i (max_translation params)
       < axis i (position_ (default_pose_ s))
       < axis i (max_translation params) ->
       (0 < sign (axis i (translationVelocity params s)) ->
        axis i (position_ (manual_pose_ (updateManualPose params s)))
        <= axis i (position_ (default_pose_ s)))
       /\ (sign (axis i (translationVelocity params s)) <= 0 ->
           axis i (position_ (default_pose_ s))
           <= axis i (position_ (manual_pose_ (updateManualPose params s)))))
   /\ axis i (translation_velocity_input_ (updateManualPose params s))
      = overrideInput (reset_translation (pose_reset_mode_ s) i)
          (axis i (position_ (manual_pose_ s)))
          (axis i (position_ (default_pose_ s)))
          (axis i (translation_velocity_input_ s)))
  /\ (pose_reset_mode_ s = IMMEDIATE_ALL_RESET ->
      manual_pose_ (updateManualPose params s) = default_pose_ s
      /\ translation_velocity_input_ (updateManualPose params s)
         = translation_velocity_input_ s
      /\ rotation_velocity_input_ (updateManualPose params s)
         = rotation_velocity_input_ s)
  /\ default_pose_ (updateManualPose params s) = default_pose_ s
  /\ pose_reset_mode_ (updateManualPose params s) = pose_reset_mode_ s.
Proof.
  intros Hi Hdt Hsign.
  assert (Hdt0 : manual_time_delta params <> 0) by lra.
  split; [|split; [|split]].
  - intros Hmode.
    assert (Hinput :
      axis i (translation_velocity_input_ (updateManualPose params s))
      = overrideInput (reset_translation (pose_reset_mode_ s) i)
          (axis i (position_ (manual_pose_ s)))
          (axis i (position_ (default_pose_ s)))
          (axis i (translation_velocity_input_ s))).
    { unfold updateManualPose, translationInput, overrideInputs.
      destruct (pose_reset_mode_ s) eqn:Hm; try congruence;
        destruct i as [|[|[|i]]]; try lia; reflexivity. }
    rewrite (updateManualPose_axis params s i Hmode Hi).
    set (p := axis i (position_ (manual_pose_ s))).
    set (d := axis i (position_ (default_pose_ s))).
    set (m := axis i (max_translation params)).
    set (v := axis i (translationVelocity params s)).
    set (r := reset_translation (pose_reset_mode_ s) i).
    destruct (limitedVelocity_stops r p d m v (manual_time_delta params) Hdt0)
      as [Hpos Hneg].
    destruct (Hsign v) as (Hv1 & Hv2 & Hv3).
    split; [|split].
    + intros Hin. pose proof (Rabs_pos p) as Hp0.
      assert (Hm : 0 <= m) by lra.
      apply Rabs_le_between in Hin.
      pose proof (positionLimit_range r d m v Hm Hv3) as Hl.
      apply Rabs_le.
      destruct (Rlt_le_dec 0 (sign v)) as [Hs | Hs].
      * rewrite (Hpos Hs). specialize (Hv1 Hs).
        assert (p <= p + manual_time_delta params * v) by nra.
        unfold Rmin. destruct (Rle_dec _ _); lra.
      * rewrite (Hneg Hs). specialize (Hv2 Hs).
        assert (p + manual_time_delta params * v <= p) by nra.
        unfold Rmax. destruct (Rle_dec _ _); lra.
    + intros Hr [Hlow Hup].
      assert (Hlimit : positionLimit r d m v = d).
      { unfold positionLimit. rewrite Hr.
        replace (Rltb d m) with true by (symmetry; apply Rltb_true; exact Hup).
        replace (Rltb (- m) d) with true
          by (symmetry; apply Rltb_true; exact Hlow).
        reflexivity. }
      split; intros Hs.
      * rewrite (Hpos Hs), Hlimit. apply Rmin_r.
      * rewrite (Hneg Hs), Hlimit. apply Rmax_r.
    + exact Hinput.
  - intros Hmode. unfold updateManualPose. rewrite Hmode.
    repeat split; reflexivity.
  - unfold updateManualPose. destruct (pose_reset_mode_ s); reflexivity.
  - unfold updateManualPose. destruct (pose_reset_mode_ s) eqn:Hm;
      cbn [pose_reset_mode_]; congruence.
Qed.

End ManualLimits.

(** ** The sample body is pushed ahead *)

Section SampleManual.

Import Poser ManualPose.

Lemma sample_sign (x : R) :
  (0 < @sign ManualSamples.manualLib x -> 0 <= x)
  /\ (@sign ManualSamples.manualLib x <= 0 -> x <= 0)
  /\ Rabs (@sign ManualSamples.manualLib x) <= 1.
Proof.
  unfold sign, ManualSamples.manualLib.
  destruct (Rlt_dec 0 x) as [Hpos | Hnpos]; [|destruct (Rlt_dec x 0)].
  - split; [intros _; lra | split; [intros Habs; lra|]].
    unfold Rabs. destruct (Rcase_abs _); lra.
  - split; [intros Habs; lra | split; [intros _; lra|]].
    unfold Rabs. destruct (Rcase_abs _); lra.
  - split; [intros Habs; lra | split; [intros _; lra|]].
    unfold Rabs. destruct (Rcase_abs _); lra.
Qed.

(** The sample body, four centimetres ahead of centre and pushed ahead,
    stays within its five centimetres. *)
Lemma updateManualPose_translation_limits_witness :
  (0 < 3)%nat
  /\ 0 < manual_time_delta ManualSamples.manualParameters
  /\ Rabs (axis 0
             (position_
                (manual_pose_
                   (@updateManualPose Samples.quatLib AutoSamples.quatAngles
                      ManualSamples.manualLib ManualSamples.manualParameters
                      ManualSamples.manualPoser))))
     <= axis 0 (max_translation ManualSamples.manualParameters).
Proof.
  assert (Hi : (0 < 3)%nat) by lia.
  assert (Hdt : 0 < manual_time_delta ManualSamples.manualParameters)
    by (simpl; lra).
  split; [exact Hi | split; [exact Hdt|]].
  destruct (@updateManualPose_translation_limits Samples.quatLib
              AutoSamples.quatAngles ManualSamples.manualLib
              ManualSamples.manualParameters ManualSamples.manualPoser 0
              Hi Hdt sample_sign) as (Hlimits & _).
  destruct Hlimits as (Hin & _); [simpl; discriminate|].
  apply Hin. simpl. rewrite Rabs_pos_eq; lra.
Defined.

End SampleManual.

(** ** The posing phase length *)

Section PosePhaseLength.

Import Poser BodyPose AutoPosing PosePhases.

Context `{QuatLib} `{QuatAngles} `{PoseLib} `{AutoPoserLib} `{RoundLib}.

Lemma setAutoPoseParams_fails (ap : PhaseParameters) (c : PoseController) :
  setAutoPoseParams ap c = None <-> base_phase_length ap = 0%Z.
Proof.
  unfold setAutoPoseParams.
  destruct (Z.eqb_spec (base_phase_length ap) 0) as [Hz | Hnz].
  - split; [intros _; exact Hz | reflexivity].
  - split; [intros Habs; discriminate Habs | intros Habs; contradiction].
Qed.

(** X25: the posing phase length [setAutoPoseParams] sets.  A call that
    returns has a base phase length that is not zero; it sets the normaliser
    to the rounded ratio of the raw to the base phase length, and the pose
    phase length to the normaliser times the base phase length, so a whole
    number of base cycles; it sets the pose frequency and writes nothing
    else of the members modelled.  With posing synchronised to the step
    cycle the ratio is the number of ticks of a step cycle over the swing
    phase, whatever the stance phase.  With posing not synchronised, a later
    [updateAutoPose] fails (modulo by zero) exactly when the rounded ratio
    is zero. *)
Theorem setAutoPoseParams_phase_length (ap : PhaseParameters)
    (c c' : PoseController) :
  setAutoPoseParams ap c = Some c' ->
  let ratio := raw_phase_length ap c / IZR (base_phase_length ap) in
  base_phase_length ap <> 0%Z
  /\ normaliser_ c' = roundToEvenInt ratio
  /\ pose_phase_length_ c' = (normaliser_ c' * base_phase_length ap)%Z
  /\ Z.rem (pose_phase_length_ c') (base_phase_length ap) = 0%Z
  /\ pose_frequency_ c' = pose_frequency ap
  /\ c' = mkPoseController (params_ c) (model_ c) (reset_transition_sequence_ c)
            (first_sequence_execution_ c) (transition_step_ c)
            (transition_step_count_ c) (set_target_ c) (proximity_alert_ c)
            (horizontal_transition_complete_ c)
            (vertical_transition_complete_ c) (legs_completed_step_ c)
            (current_group_ c) (impedance_pose_ c) (auto_posing_state_ c)
            (pose_frequency_ c') (pose_phase_length_ c') (normaliser_ c')
            (ros_shutdown c)
  /\ (pose_frequency ap = -1 -> swing_phase ap <> 0%Z ->
      step_frequency (params_ c) <> 0 -> time_delta (params_ c) <> 0 ->
      ratio
      = 1 / (step_frequency (params_ c) * time_delta (params_ c))
        / IZR (swing_phase ap))
  /\ (pose_frequency ap <> -1 ->
      forall (ref : ReferenceStepper) (s : AutoPoseState),
        updateAutoPose ref c' s = None <-> roundToEvenInt ratio = 0%Z).
Proof.
  intros Hrun ratio.
  assert (Hbase : base_phase_length ap <> 0%Z).
  { intros Hz. apply setAutoPoseParams_fails with (c := c) in Hz.
    rewrite Hz in Hrun. discriminate Hrun. }
  unfold setAutoPoseParams in Hrun.
  destruct (Z.eqb_spec (base_phase_length ap) 0) as [Hz | _];
    [contradiction|].
  fold ratio in Hrun. injection Hrun as Hc'. subst c'.
  cbn [normaliser_ pose_phase_length_ pose_frequency_].
  assert (Hquot :
    Z.quot (roundToEvenInt ratio * base_phase_length ap) (base_phase_length ap)
    = roundToEvenInt ratio) by (apply Z.quot_mul; exact Hbase).
  rewrite Hquot.
  split; [exact Hbase|].
  split; [reflexivity|].
  split; [reflexivity|].
  split; [apply Z.rem_mul; exact Hbase|].
  split; [reflexivity|].
  split; [reflexivity|].
  split.
  - intros Hsync Hswing Hf Hdt.
    unfold ratio, raw_phase_length. rewrite Hsync.
    replace (Reqb (-1) (-1)) with true
      by (symmetry; apply Reqb_true; reflexivity).
    cbv zeta. field.
    repeat split; try assumption;
      apply not_0_IZR; assumption.
  - intros Hfree ref s.
    rewrite updateAutoPose_fails.
    cbn [normaliser_ pose_phase_length_ pose_frequency_].
    split.
    + intros [_ Hzero].
      apply Z.mul_eq_0 in Hzero. destruct Hzero as [Hzero | Hzero];
        [exact Hzero | contradiction].
    + intros Hzero. split; [exact Hfree|]. rewrite Hzero. reflexivity.
Qed.

End PosePhaseLength.

(** ** The sample posing cycle *)

Section SamplePhases.

Import Poser PosePhases.

(** Posing timed over four parts: the call returns, with a pose phase
    length of a whole number of cycles. *)
Lemma setAutoPoseParams_phase_length_witness :
  match @setAutoPoseParams PhaseSamples.roundLib PhaseSamples.timed
          Samples.poseController with
  | Some c' => Z.rem (pose_phase_length_ c') 4 = 0%Z
  | None => False
  end.
Proof.
  destruct (@setAutoPoseParams PhaseSamples.roundLib PhaseSamples.timed
              Samples.poseController) as [c'|] eqn:Hrun.
  - destruct (@setAutoPoseParams_phase_length Samples.quatLib
                AutoSamples.quatAngles AutoSamples.poseLib
                AutoSamples.autoPoserLib PhaseSamples.roundLib
                PhaseSamples.timed Samples.poseController c' Hrun)
      as (_ & _ & _ & Hrem & _).
    replace 4%Z with (base_phase_length PhaseSamples.timed); [exact Hrem|].
    unfold base_phase_length, PhaseSamples.timed. cbn [pose_frequency].
    replace (Reqb (1 / 2) (-1)) with false; [reflexivity|].
    symmetry. apply Reqb_false. lra.
  - apply (@setAutoPoseParams_fails PhaseSamples.roundLib) in Hrun.
    unfold base_phase_length, PhaseSamples.timed in Hrun.
    cbn [pose_frequency pose_phase_length] in Hrun.
    destruct (Reqb (1 / 2) (-1)); simpl in Hrun; lia.
Defined.

End SamplePhases.

(** ** The sample walker comes to a stop *)

Section SampleStopped.

Import Walker.

Lemma stopping_normalSpeed (v : Vector2d) :
  normalSpeed StoppedSamples.stoppingWalker v = 0.
Proof. unfold normalSpeed, localVelocity. simpl. apply v2norm_zero. Qed.

(** The tick that takes the sample walker from STOPPING to STOPPED resets
    its legs: five of them stood at phase 39 in FORCE_STOP with both flags
    set, and all six end the tick at rest. *)
Lemma updateWalk_stopped_legs_at_rest_witness :
  walkState StoppedSamples.stoppingWalker = STOPPING
  /\ map phase (legSteppers StoppedSamples.stoppingWalker)
     = [0; 39; 39; 39; 39; 39]%Z
  /\ map state (legSteppers StoppedSamples.stoppingWalker)
     = [STANCE; FORCE_STOP; FORCE_STOP; FORCE_STOP; FORCE_STOP; FORCE_STOP]
  /\ walkState
       (fst (@updateWalk_body Samples.includes Samples.kinematics
               Samples.quatLib (mkV2 0 0) 0 Samples.noDeltaZ
               StoppedSamples.stoppingWalker Samples.model))
     = STOPPED
  /\ (length (legSteppers StoppedSamples.stoppingWalker)
      <= length Samples.model)%nat
  /\ Forall atRest
       (legSteppers
          (fst (@updateWalk_body Samples.includes Samples.kinematics
                  Samples.quatLib (mkV2 0 0) 0 Samples.noDeltaZ
                  StoppedSamples.stoppingWalker Samples.model))).
Proof.
  assert (Hrun :
    @updateWalk Samples.includes Samples.kinematics Samples.quatLib
      (mkV2 0 0) 0 Samples.noDeltaZ StoppedSamples.stoppingWalker Samples.model
    = Some (@updateWalk_body Samples.includes Samples.kinematics
              Samples.quatLib (mkV2 0 0) 0 Samples.noDeltaZ
              StoppedSamples.stoppingWalker Samples.model)).
  { apply updateWalk_Some. rewrite stopping_normalSpeed. lra. }
  assert (Hstop :
    walkState
      (fst (@updateWalk_body Samples.includes Samples.kinematics
              Samples.quatLib (mkV2 0 0) 0 Samples.noDeltaZ
              StoppedSamples.stoppingWalker Samples.model)) = STOPPED).
  { destruct (@updateWalk_body_fields Samples.includes Samples.kinematics
                Samples.quatLib (mkV2 0 0) 0 Samples.noDeltaZ
                StoppedSamples.stoppingWalker Samples.model) as (Hws & _).
    rewrite Hws. reflexivity. }
  assert (Hlen : (length (legSteppers StoppedSamples.stoppingWalker)
                  <= length Samples.model)%nat).
  { simpl. lia. }
  split; [reflexivity | split; [reflexivity | split; [reflexivity|]]].
  split; [exact Hstop | split; [exact Hlen|]].
  rewrite (surjective_pairing (updateWalk_body _ _ _ _ _)) in Hrun.
  destruct (updateWalk_stopped_legs_at_rest _ _ _ _ _ _ _ Hrun Hstop Hlen)
    as (_ & Hrest & _).
  apply Hrest. simpl. lia.
Defined.

Lemma Int_part_half : Int_part (1 * 0.5) = 0%Z.
Proof. symmetry. apply Int_part_spec. simpl. lra. Qed.

(** The even gait of the sample walker is the one [setGaitParams] sets up:
    a stance phase of one part gives a swing window that starts at phase
    zero. *)
Lemma sample_setGaitParams_even :
  @setGaitParams Samples.includes StoppedSamples.evenGait Samples.walker
  = Some StoppedSamples.evenWalker.
Proof.
  unfold setGaitParams.
  cbn [p_stancePhase p_swingPhase p_stepFrequency p_phaseOffset timeDelta
       StoppedSamples.evenGait Samples.walker].
  replace (truncToInt (1 * 0.5)) with 0%Z.
  2: { unfold truncToInt. destruct (Rle_dec 0 (1 * 0.5)) as [_ | Hneg];
         [symmetry; exact Int_part_half | exfalso; apply Hneg; lra]. }
  replace (1 + 1) with (IZR 2) by lra.
  replace (IZR 0 + 1) with (IZR 1) by lra.
  rewrite !truncToInt_IZR.
  replace (1 / (2 * 1 * (1 / 50)) / (IZR 2 * (1 / IZR 2))) with (25) by field.
  replace (@roundToInt Samples.includes 25) with 25%Z.
  2: { unfold roundToInt, Samples.includes.
       apply Int_part_spec. lra. }
  replace (IZR 25 * (IZR 2 * (1 / IZR 2)) / (1 / IZR 2)) with (IZR 50) by field.
  rewrite truncToInt_IZR.
  change (Z.rem 50 2 =? 0)%Z with true. cbv iota.
  change (Z.quot 50 2) with 25%Z.
  replace (1 / (50 * (1 / 50))) with 1 by field.
  assert (Hlss : setPhaseOffsets StoppedSamples.evenGait 25 50 0
                   (legSteppers Samples.walker)
                 = legSteppers StoppedSamples.evenWalker).
  { cbn [legSteppers Samples.walker StoppedSamples.evenWalker setPhaseOffsets].
    unfold gaitPhaseOffset.
    cbn [offsetMultiplier p_phaseOffset StoppedSamples.evenGait nth].
    replace (1 * 25) with (IZR 25) by lra.
    rewrite truncToInt_IZR. reflexivity. }
  rewrite Hlss. reflexivity.
Qed.

Lemma even_normalSpeed :
  normalSpeed StoppedSamples.evenWalker (mkV2 0 0) = 0.
Proof.
  unfold normalSpeed.
  replace (localVelocity StoppedSamples.evenWalker (mkV2 0 0)) with (mkV2 0 0).
  - apply v2norm_zero.
  - unfold localVelocity, onGroundRatio. simpl.
    apply v2_eq; simpl; field.
Qed.

(** C9, as the claim has it, fails for a gait whose swing window starts at
    phase zero: the sample walker with the even gait, standing STOPPED
    without a command, ends its tick with every leg at phase 0 in SWING,
    not in STANCE. *)
Lemma updateWalk_stopped_leg_in_swing :
  @setGaitParams Samples.includes StoppedSamples.evenGait Samples.walker
  = Some StoppedSamples.evenWalker
  /\ @updateWalk Samples.includes Samples.kinematics Samples.quatLib
       (mkV2 0 0) 0 Samples.noDeltaZ StoppedSamples.evenWalker Samples.model
     = Some (@updateWalk_body Samples.includes Samples.kinematics
               Samples.quatLib (mkV2 0 0) 0 Samples.noDeltaZ
               StoppedSamples.evenWalker Samples.model)
  /\ walkState
       (fst (@updateWalk_body Samples.includes Samples.kinematics
               Samples.quatLib (mkV2 0 0) 0 Samples.noDeltaZ
               StoppedSamples.evenWalker Samples.model))
     = STOPPED
  /\ map (fun ls => (phase ls, state ls))
       (legSteppers
          (fst (@updateWalk_body Samples.includes Samples.kinematics
                  Samples.quatLib (mkV2 0 0) 0 Samples.noDeltaZ
                  StoppedSamples.evenWalker Samples.model)))
     = [(0, SWING); (0, SWING); (0, SWING);
        (0, SWING); (0, SWING); (0, SWING)]%Z
  /\ ~ Exists atRest
         (legSteppers
            (fst (@updateWalk_body Samples.includes Samples.kinematics
                    Samples.quatLib (mkV2 0 0) 0 Samples.noDeltaZ
                    StoppedSamples.evenWalker Samples.model))).
Proof.
  assert (Hstop :
    walkState
      (fst (@updateWalk_body Samples.includes Samples.kinematics
              Samples.quatLib (mkV2 0 0) 0 Samples.noDeltaZ
              StoppedSamples.evenWalker Samples.model)) = STOPPED).
  { destruct (@updateWalk_body_fields Samples.includes Samples.kinematics
                Samples.quatLib (mkV2 0 0) 0 Samples.noDeltaZ
                StoppedSamples.evenWalker Samples.model) as (Hws & _).
    rewrite Hws, even_normalSpeed. unfold updateWalkState. simpl.
    replace (Reqb 0 0) with true; [reflexivity|].
    symmetry. apply Reqb_true. reflexivity. }
  assert (Hlen : (length (legSteppers StoppedSamples.evenWalker)
                  <= length Samples.model)%nat).
  { simpl. lia. }
  pose proof (@updateWalk_body_stopped Samples.includes Samples.kinematics
                Samples.quatLib (mkV2 0 0) 0 Samples.noDeltaZ
                StoppedSamples.evenWalker Samples.model Hstop Hlen) as Hall.
  assert (Hlegs :
    Forall (fun ls => phase ls = 0%Z /\ state ls = SWING)
      (legSteppers
         (fst (@updateWalk_body Samples.includes Samples.kinematics
                 Samples.quatLib (mkV2 0 0) 0 Samples.noDeltaZ
                 StoppedSamples.evenWalker Samples.model)))).
  { eapply Forall2_right; [|exact Hall].
    intros a b [(Hp & Hs & _) _]. split; [exact Hp | exact Hs]. }
  assert (Hsix :
    length (legSteppers
              (fst (@updateWalk_body Samples.includes Samples.kinematics
                      Samples.quatLib (mkV2 0 0) 0 Samples.noDeltaZ
                      StoppedSamples.evenWalker Samples.model))) = 6%nat).
  { apply Forall2_length in Hall. rewrite <- Hall. reflexivity. }
  split; [exact sample_setGaitParams_even|].
  split; [apply updateWalk_Some; rewrite even_normalSpeed; lra|].
  split; [exact Hstop|].
  destruct (legSteppers
              (fst (@updateWalk_body Samples.includes Samples.kinematics
                      Samples.quatLib (mkV2 0 0) 0 Samples.noDeltaZ
                      StoppedSamples.evenWalker Samples.model)))
    as [|a [|b [|c [|d [|e [|f [|g rest]]]]]]]; try discriminate Hsix.
  split.
  - repeat match goal with
           | H : Forall _ (_ :: _) |- _ => inversion H; clear H; subst
           end.
    repeat match goal with
           | H : _ /\ _ |- _ => destruct H as [? ?]
           end.
    simpl. repeat f_equal; congruence.
  - intros Hex. apply Exists_exists in Hex. destruct Hex as (x & Hx & Hrest).
    rewrite Forall_forall in Hlegs. destruct (Hlegs x Hx) as [_ Hswing].
    destruct Hrest as (_ & Hstance & _). congruence.
Qed.

End SampleStopped.

(** ** The progress a call of the sequencer returns *)

Section SequenceProgress.

Import Poser.

Context `{StandardIncludes} `{QuatLib} `{BuildConstants} `{RobotModel}.







End SequenceProgress.

(** ** The sample robot replays its shut-down *)

Section SampleSequenceProgress.

Import Poser.



End SampleSequenceProgress.
